(* ===== verification/_CoqProject ===== *)
-Q . S2P
Prelude.v
Strconv.v
GoJson.v
GoValue.v
JsonRound.v
GoRound.v
GoTyping.v
Types.v
Strategy.v
ValidatorSet.v
Atts.v
Beacon.v
ConfigCache.v
BeaconGrpc.v
Backend.v
Server.v
Monitor.v
AttestApi.v
BlockApi.v
StrategyRound.v
Node.v
Attack.v
Race.v
Reward.v
Process.v
RpcErrors.v
RpcJson.v
RpcWire.v
RpcService.v
RpcHandler.v
RpcMetrics.v
RpcBatch.v
RpcServer.v
HttpConn.v
HttpStack.v
RpcTyping.v
RpcCodec.v
RpcServe.v
RpcClose.v
Apis.v
RpcPending.v
RpcDispatch.v
RpcNotifier.v
RpcSubscription.v
SubEndToEnd.v
HttpHeader.v
HttpGzip.v
GoUrl.v
WsOrigin.v
ClientConfig.v
RpcDial.v
RpcClient.v
RpcSubscribe.v
RpcBatchCall.v
AttackClient.v
EndToEnd.v
