(* ===== verification/Prelude.v ===== *)
(** * attacker-service: a verification library (root file)

    The program (Go, module github.com/tsinghua-cel/attacker-service) is a
    service that Byzantine Ethereum validators ask what to do: a modified
    consensus client calls it over JSON-RPC before and after it makes, signs,
    proposes and broadcasts a block or an attestation, and the service answers
    with a command and, often, other data.  A strategy file says which
    validators attack in which slots.  The service reads the validators'
    duties from a beacon node and keeps the signed attestations of attackers,
    which it packs into the last block an attacker proposes in an epoch.

    ** Parts of the program and files of the library

    - this file: machine integers, the monad of Go code that may panic, maps
      with an arbitrary iteration order, sorting, strings, and the tactics and
      hint database ([gom]) the other files share;
    - Strconv, GoJson, GoValue: the parts of Go's standard library the program
      relies on (strconv, encoding/base64, encoding/json: values, texts,
      decoding into Go types and encoding of them); JsonRound, GoRound,
      GoTyping: what is printed is parsed, what is encoded is decoded, what is
      decoded has the type asked for; HttpHeader, GoUrl: http.Header and URLs;
    - Types, Atts (src/types/): commands and roles; sorting, limiting and
      deduplicating attestations;
    - Strategy (src/strategy/), ValidatorSet (src/validatorSet/): the strategy
      and the role of a validator; validators, attestations and blocks seen;
    - Beacon (src/beaconapi/beaconclient.go, type.go): the client of the beacon
      node's HTTP gateway with its cached configuration; ConfigCache: that cache
      filled by several goroutines at once; BeaconGrpc (src/beaconapi/
      beaconGrpcClient.go, multiple_endpoints_grpc_resolver.go): the gRPC client
      and its resolver;
    - Backend (src/server/apis/backend.go, slot.go): the interface [Backend]
      between the handlers and the server, as a class with laws, and the slot
      arithmetic; Server (src/server/server.go): the server as its instance;
      Monitor: the duty monitor in time, with its ticker;
    - AttestApi, BlockApi (src/server/apis/attest.go, roles.go, block.go): the
      handlers, each proved against the class [Backend]; StrategyRound: the
      strategy is read back as it was set;
    - Node: the handlers and the duty monitor as one transition system over
      the server's state; Race: the same operations as sequences of accesses to
      shared data under their lock, interleaved access by access; Attack: the
      handlers composed over such runs, from a vote to the block it ends in;
    - Reward (src/reward/): the reward table as a CSV file; Process (src/cmd/,
      src/config/, src/versions/): the configuration, and the node next to the
      task that writes the table;
    - RpcErrors, RpcJson, RpcService, RpcHandler, RpcServer, HttpConn
      (src/rpc/errors.go, json.go, service.go, handler.go, server.go, http.go):
      JSON-RPC messages, the registry of methods, calls and batches, the
      server and its HTTP transport; RpcBatch: a call or a batch next to its
      timeout, as interleaved steps of two goroutines; RpcWire: messages and
      batches survive the connection; RpcTyping: arguments have the types of
      the method's parameters; RpcMetrics (src/rpc/metrics.go): the statistics
      of calls;
    - RpcCodec, RpcServe, RpcClose, WsOrigin (src/rpc/json.go, websocket.go, server.go,
      ipc.go, endpoints.go, src/server/rpcstack.go): the codecs with their
      locks, deadlines and pings, connections served next to [Stop], the end of
      a connection with the calls that still run, the websocket handshake;
    - RpcPending, RpcDispatch (src/rpc/handler.go, client.go): the client half
      of a connection: pending requests by id, and the dispatch loop with its
      callers, reconnections and connections as a step relation;
    - RpcNotifier, RpcSubscription (src/rpc/subscription.go): subscriptions on
      the server (ids, notifier, table) and on the client (the forwarding
      goroutine next to the loop, the consumer and [Unsubscribe]);
      RpcSubscribe: the request and the answer between them; SubEndToEnd: from
      one to the other through the client's read loop;
    - ClientConfig, RpcDial (src/rpc/client_opt.go, context_headers.go,
      client.go, websocket.go): options and headers, the transport a URL
      selects; RpcClient, RpcBatchCall (src/rpc/client.go, http.go): calls and
      batches over HTTP; AttackClient (src/attackclient/): the client library;
    - HttpStack (src/server/rpcstack.go): registration, life cycle and routing
      of the HTTP server, virtual hosts, CORS; HttpGzip: what a handler writes
      with and without compression and what a client makes of it;
    - Apis (src/server/apis/backend.go [GetAPIs], src/server/server.go
      [startRPC]): the handlers as methods of the RPC server, so that a request
      text runs through HTTP, parsing, dispatch, argument decoding, the handler
      and the encoding of its result; EndToEnd: the client library against a
      started node, through both HTTP ends and the compression between them.

    A definition bears the name of the Go function, method or type it models;
    methods of [Server] that the class [Backend] also names are prefixed with
    [srv_].  A struct is a record, a method that changes its receiver a
    function on the record, a handler a computation [GoM S A] over the state:
    it returns or panics, and what it did before a panic remains.

    ** What the theorems show

    - the attack (BlockApi, AttestApi, Attack): from any reachable state, what
      an attacker signs is withheld, stays recorded and is in the block of the
      last attacker of its epoch, whose pool loses no vote; only the attacker with the greatest
      slot of an epoch makes a block; its block is the original with nothing
      but its attestations changed, which become the pool of its own and the
      attackers' attestations; other proposers are left alone; attestations of
      attackers are stored and not broadcast; the two delays, to the second;
    - the algorithms (Atts): [Dedup] and [SortByProfitability] terminate, do
      not panic and compute what their comments promise;
    - the node (Node, Server, ValidatorSet, Strategy, Beacon): invariants of
      every reachable state; the data set as the last entry of a history; roles
      and proposers; what a beacon reply of the wrong shape does; which shared
      data is accessed without protection (Race), and what the cache of the
      configuration gives to concurrent callers (ConfigCache); how often the
      monitor asks the beacon node (Monitor);
    - the RPC server (RpcJson to HttpStack): which arguments are accepted,
      that each call is answered once and only once, what a timeout can break,
      that no request makes the server panic, which requests get through; that
      methods only see arguments of their types; that compression changes
      nothing a client sees, and that the statistics are exact and bounded;
    - the connections (RpcCodec, RpcServe, WsOrigin): frames keep their
      deadlines, pings their distance, closing and stopping end and leave no
      connection open; when the end of a connection can be awaited, and that
      running calls outlive it; which origins a websocket accepts;
    - the RPC client (RpcPending to RpcBatchCall, ClientConfig, RpcDial): what
      a URL and options make of a client, which headers it sends; a response reaches the call
      with its id and no other; the dispatch loop never panics or blocks; which
      waiting calls are answered when a connection ends, and which are lost; a
      subscription's request meets its answer before any notification;
      notifications arrive once and in order from [Notify] to the consumer's
      channel, within the buffer's bound; a subscription that ends settles;
    - the whole (Apis, EndToEnd): which names the node answers and which HTTP
      requests can change its state; a call of the client library is a call of
      the handler of that name, its result the handler's;
    - the reward table (Reward, Process): the output is replaced as a whole or
      not, and neither the node nor the reward task disturbs the other.

    ** Bounds and fuel

    Loops over lists are structural.  [Dedup] shrinks its list in place: its
    two loops have fuel one above the length of the list and are proved to end
    within it ([Dedup_spec]).  The JSON parser has fuel given by the length of
    the text, base64 and number parsing are structural.  Integers are [Z] with
    the wrap-around of their Go width written out wherever an operation can
    leave it.  The step relations need no fuel: what is proved of them is by
    induction on runs, and termination by a rank that every step lowers.
    Timers have the channel of Go before 1.23 (the module is built for 1.18):
    a value that was sent stays until it is taken.

    ** Parameters

    Code outside the repository is a parameter with the documented laws the
    proofs need: prysm's bit lists, hashing, aggregation and max-cover
    ([AttestationLib]), its blocks and protobuf coding ([BlockTypes],
    [BlockProto], [AttestationProto]), the beacon node's replies ([Network]),
    gRPC ([GrpcLib]), the LRU cache ([LruLib]), CORS ([CorsLib]), the bytes a
    compressor chooses ([GzipLib]), the TOML parser and the search
    for the configuration ([ConfigLib]), dialling the execution node
    ([ExecLib]), what an HTTP connection answers ([Transport]) and what a
    connection does with a message ([Conn]); in RpcDial and RpcServe the
    answers of the websocket dialer, of local sockets and of listeners are
    arguments.  The iteration order of a map
    ([RangeOrder]) and the order of equal elements in sort.Slice
    ([SortSlice]) are parameters as well; the order is fixed per program point
    and contents of the map.  Every class has an instance, and each theorem with
    a hypothesis is applied to a concrete input.

    ** What is not modelled

    - in Node handlers run as atomic steps; Race says where they are not, and
      what Go does after a race is left open;
    - the sockets below the codecs and the upgrade of a websocket, which
      belong to libraries; cobra, viper and the log files;
    - in the dispatch loop, ids that are reused after 2^32 requests; a
      subscription's unsubscribe request is one step;
    - log lines, and the wording of encoding/json's syntax errors;
    - JSON texts nested deeper than 10000 levels (Go refuses them); letters
      outside ASCII in case-insensitive comparisons; the escapes of the verb %q
      in an error text;
    - the loop over the slots of an epoch for an epoch that ends at the largest
      int64, which does not end in Go. *)

From Stdlib Require Export Ascii String ZArith Lia.
From stdpp Require Export base tactics option list strings gmap pretty sorting.
Open Scope Z_scope.

(** ** Machine integers

    Go's [int] and [int64] are 64-bit two's complement, [uint64] is 64-bit
    unsigned (the service is built for 64-bit targets).  A machine integer is
    a [Z]; every operation that can leave the range is followed by one of the
    two wrap functions. *)

Definition max_int64 : Z := 2 ^ 63 - 1.
Definition min_int64 : Z := - 2 ^ 63.
Definition max_uint64 : Z := 2 ^ 64 - 1.

Definition to_int64 (z : Z) : Z := (z + 2 ^ 63) mod 2 ^ 64 - 2 ^ 63.
Definition to_uint64 (z : Z) : Z := z mod 2 ^ 64.

Definition is_int64 (z : Z) : Prop := min_int64 ≤ z ≤ max_int64.
Definition is_uint64 (z : Z) : Prop := 0 ≤ z ≤ max_uint64.

(** ** Panics, errors and the state-passing monad

    A Go function either returns or panics; a panic keeps the side effects
    performed before it.  [GoM S A] is a computation over the state [S]. *)

Inductive panic_reason :=
| NilDeref (what : string)
| IndexOutOfRange (what : string)
| DivideByZero
| TypeAssertion (what : string)
| ExplicitPanic (msg : string).

Inductive outcome (A : Type) :=
| Ret (a : A)
| Panic (why : panic_reason).
Arguments Ret {A} a.
Arguments Panic {A} why.

#[export] Instance outcome_ret : MRet outcome := @Ret.
#[export] Instance outcome_bind : MBind outcome := λ A B f m,
  match m with
  | Ret a => f a
  | Panic w => Panic w
  end.

Definition GoM (S A : Type) : Type := S → outcome A * S.

#[export] Instance GoM_ret {S} : MRet (GoM S) := λ A a s, (Ret a, s).
#[export] Instance GoM_bind {S} : MBind (GoM S) := λ A B f m s,
  match m s with
  | (Ret a, s') => f a s'
  | (Panic w, s') => (Panic w, s')
  end.

Definition panic {S A} (why : panic_reason) : GoM S A := λ s, (Panic why, s).
Definition gets {S A} (f : S → A) : GoM S A := λ s, (Ret (f s), s).
Definition modify {S} (f : S → S) : GoM S unit := λ s, (Ret tt, f s).

(** Running a computation on a component of a larger state. *)
Definition zoom {S T A} (get : S → T) (set : T → S → S) (m : GoM T A) : GoM S A :=
  λ s, let '(o, t) := m (get s) in (o, set t s).

(** [for _, x := range l { body }], with the loop variables as accumulator. *)
Fixpoint foldM {S A B} (f : B → A → GoM S B) (b : B) (l : list A) : GoM S B :=
  match l with
  | [] => mret b
  | x :: l' => b' ← f b x; foldM f b' l'
  end.

(** Integer division and remainder of Go: truncated, a zero divisor panics. *)
Definition go_quot {S} (a b : Z) : GoM S Z :=
  if decide (b = 0) then panic DivideByZero else mret (to_int64 (Z.quot a b)).
Definition go_udiv {S} (a b : Z) : GoM S Z :=
  if decide (b = 0) then panic DivideByZero else mret (Z.div a b).
Definition go_umod {S} (a b : Z) : GoM S Z :=
  if decide (b = 0) then panic DivideByZero else mret (Z.modulo a b).

(** ** Weakest preconditions

    [wp m Q E s]: running [m] from [s] ends with a value and state satisfying
    [Q], or panics with a reason and state satisfying [E]. *)

Definition wp {S A} (m : GoM S A) (Q : A → S → Prop) (E : panic_reason → S → Prop)
    (s : S) : Prop :=
  match m s with
  | (Ret a, s') => Q a s'
  | (Panic w, s') => E w s'
  end.

(** A computation that preserves a state predicate on every exit. *)
Definition preserves {S A} (P : S → Prop) (m : GoM S A) : Prop :=
  ∀ s, P s → P (snd (m s)).

(** A computation that never changes the state. *)
Definition readonly {S A} (m : GoM S A) : Prop := ∀ s, snd (m s) = s.

(** The order in which [range] visits a map is not specified by Go: it is a
    parameter, one order per place of the program ([site]) that ranges. *)
Class RangeOrder := {
  range_order : ∀ {V : Type}, nat → gmap string V → list (string * V);
  range_order_perm : ∀ V site (m : gmap string V),
    range_order site m ≡ₚ map_to_list m
}.

(** The order [map_to_list] picks is one possible order. *)
Definition default_range_order : RangeOrder := {|
  range_order V _ m := map_to_list m;
  range_order_perm V _ m := Permutation_refl (map_to_list m)
|}.

(** [sort.Slice] sorts with the given strict weak order; it is not stable and
    which of the sorted permutations it returns is left open. *)
Class StrictWeakOrder {A} (less : A → A → bool) : Prop := {
  swo_irrefl : ∀ x, less x x = false;
  swo_trans : ∀ x y z, less x y = true → less y z = true → less x z = true;
  swo_incomp_trans : ∀ x y z, less x y = false → less y z = false → less x z = false
}.

Class SortSlice := {
  sort_slice : ∀ {A : Type}, (A → A → bool) → list A → list A;
  sort_slice_perm : ∀ A (less : A → A → bool) l, sort_slice less l ≡ₚ l;
  sort_slice_sorted : ∀ A (less : A → A → bool) l, StrictWeakOrder less →
    Sorted (λ x y, less y x = false) (sort_slice less l)
}.

(** ** Strings *)

(** [strings.HasPrefix], [strings.HasSuffix]. *)
Definition HasPrefix (s pre : string) : bool := String.prefix pre s.

Definition HasSuffix (s suf : string) : bool :=
  let n := String.length s in
  let k := String.length suf in
  if decide (k ≤ n)%nat
  then bool_decide (String.substring (n - k) k s = suf)
  else false.

(** [strings.Contains]. *)
Definition strings_Contains (s sub : string) : bool :=
  match String.index 0 sub s with Some _ => true | None => false end.

(** The text before and after the first occurrence of the byte [c]. *)
Fixpoint cut_at (c : ascii) (s : string) : option (string * string) :=
  match s with
  | EmptyString => None
  | String d r =>
      if decide (c = d) then Some (EmptyString, r)
      else match cut_at c r with
           | Some (a, b) => Some (String d a, b)
           | None => None
           end
  end.

(** [strings.Split] with a separator of one byte. *)
Fixpoint split_on (c : ascii) (s : string) : list string :=
  match s with
  | EmptyString => [""]
  | String d r =>
      if decide (c = d) then "" :: split_on c r
      else match split_on c r with
           | w :: ws => String d w :: ws
           | [] => [String d ""]
           end
  end.

(** [strings.SplitN(s, c, 2)] for a one-byte separator. *)
Definition SplitN2 (s : string) (c : ascii) : list string :=
  match cut_at c s with
  | Some (a, b) => [a; b]
  | None => [s]
  end.

Fixpoint string_map (f : ascii → ascii) (s : string) : string :=
  match s with
  | EmptyString => EmptyString
  | String c r => String (f c) (string_map f r)
  end.

Definition code (c : ascii) : Z := Z.of_N (N_of_ascii c).
Definition chr (z : Z) : ascii := ascii_of_N (Z.to_N z).

Definition in_range (lo hi : Z) (c : ascii) : bool := (lo <=? code c) && (code c <=? hi).

(** [strings.ToLower] and [unicode.ToLower] on ASCII; other bytes are kept. *)
Definition lower_ascii (c : ascii) : ascii :=
  if in_range 65 90 c then chr (code c + 32) else c.
Definition ToLower (s : string) : string := string_map lower_ascii s.

Fixpoint string_mem (c : ascii) (s : string) : bool :=
  match s with
  | EmptyString => false
  | String d r => bool_decide (c = d) || string_mem c r
  end.

Definition dquote : ascii := "034"%char.

(** Concrete JSON texts are written with single quotes and turned into double quotes. *)
Definition jq (s : string) : string :=
  string_map (λ c, if decide (c = "'"%char) then dquote else c) s.

(** * Lemmas *)

Ltac unfold_ints :=
  unfold is_int64, is_uint64, min_int64, max_int64, max_uint64 in *.

Lemma to_int64_id z : is_int64 z → to_int64 z = z.
Proof. unfold_ints. unfold to_int64. intros ?. rewrite Z.mod_small; lia. Qed.

Lemma to_uint64_id z : is_uint64 z → to_uint64 z = z.
Proof. unfold_ints. unfold to_uint64. intros ?. rewrite Z.mod_small; lia. Qed.

Lemma to_int64_range z : is_int64 (to_int64 z).
Proof.
  unfold_ints. unfold to_int64.
  pose proof (Z.mod_pos_bound (z + 2 ^ 63) (2 ^ 64)). lia.
Qed.

Lemma to_uint64_range z : is_uint64 (to_uint64 z).
Proof.
  unfold_ints. unfold to_uint64. pose proof (Z.mod_pos_bound z (2 ^ 64)). lia.
Qed.

Lemma to_int64_uint64 z : to_int64 (to_uint64 z) = to_int64 z.
Proof.
  unfold to_int64, to_uint64. f_equal.
  rewrite <-(Zplus_mod_idemp_l z). reflexivity.
Qed.

Lemma to_uint64_int64 z : to_uint64 (to_int64 z) = to_uint64 z.
Proof.
  unfold to_int64, to_uint64.
  rewrite Zminus_mod_idemp_l. f_equal. lia.
Qed.

(** The conversion of an [int64] to [uint64] is injective. *)
Lemma to_uint64_inj a b :
  is_int64 a → is_int64 b → to_uint64 a = to_uint64 b → a = b.
Proof.
  intros Ha Hb E. rewrite <-(to_int64_id a), <-(to_int64_id b) by done.
  rewrite <-(to_int64_uint64 a), <-(to_int64_uint64 b). by rewrite E.
Qed.

(** ** Sorting *)

#[export] Instance gtb_swo {A} (f : A → Z) : StrictWeakOrder (λ x y, f y <? f x).
Proof. split; intros *; lia. Qed.

Section merge_sort_slice.
Context {A : Type} (less : A → A → bool).
Definition not_after (x y : A) : Prop := less y x = false.

#[export] Instance not_after_dec : RelDecision not_after.
Proof. intros x y. unfold not_after. apply _. Defined.

Lemma merge_slice_sorted (l : list A) : StrictWeakOrder less → Sorted not_after (merge_sort not_after l).
Proof.
  intros Hs. apply Sorted_merge_sort. intros x y. unfold not_after.
  destruct (less y x) eqn:E; [right|by left].
  destruct (less x y) eqn:E'; [|done].
  pose proof (swo_trans _ _ _ E E') as H. by rewrite swo_irrefl in H.
Qed.
End merge_sort_slice.

(** One sorting function with the documented behaviour. *)
Definition merge_sort_slice : SortSlice := {|
  sort_slice A less l := merge_sort (not_after less) l;
  sort_slice_perm A less l := merge_sort_Permutation (not_after less) l;
  sort_slice_sorted A less l Hs := merge_slice_sorted less l Hs
|}.

Lemma Sorted_weaken {A} (R R' : A → A → Prop) l :
  (∀ x y, R x y → R' x y) → Sorted R l → Sorted R' l.
Proof.
  intros HR. induction 1 as [|x l _ IH Hhd]; constructor; [done|].
  destruct Hhd; constructor; auto.
Qed.

(** ** Grouping a list by a key: [m[key(x)] = append(m[key(x)], x)] *)

Definition group_append {K A} `{Countable K} (k : K) (x : A) (m : gmap K (list A))
    : gmap K (list A) := <[k := default [] (m !! k) ++ [x]]> m.

Lemma lookup_group_append {K A} `{Countable K} (k k' : K) (x : A) m :
  default [] (group_append k x m !! k') =
    default [] (m !! k') ++ (if decide (k = k') then [x] else []).
Proof.
  unfold group_append. rewrite lookup_insert. case_decide; subst; [done|].
  by rewrite app_nil_r.
Qed.

(** Listing the groups of [p] along a duplicate-free list of keys permutes [p]. *)
Lemma concat_groups {K A} `{EqDecision K} (f : A → K) (ks : list K) (p : list A) :
  NoDup ks → (∀ x, x ∈ p → f x ∈ ks) →
  concat ((λ k, filter (λ x, f x = k) p) <$> ks) ≡ₚ p.
Proof.
  revert p. induction ks as [|k ks IH]; intros p Hnd Hin; simpl.
  - destruct p as [|x p]; [done|]. specialize (Hin x). set_solver.
  - apply NoDup_cons in Hnd as [Hk Hnd].
    transitivity (filter (λ x, f x = k) p ++ filter (λ x, ¬ f x = k) p);
      [|apply filter_app_complement].
    apply Permutation_app_head. rewrite <-(IH (filter (λ x, ¬ f x = k) p) Hnd).
    + f_equiv. apply reflexive_eq. apply list_fmap_ext. intros i k' Hk'.
      apply list_elem_of_lookup_2 in Hk'.
      rewrite list_filter_filter. apply list_filter_iff. intros x.
      split; [|naive_solver]. intros Hx. split; congruence.
    + intros x Hx. apply list_elem_of_filter in Hx as [Hne Hx].
      specialize (Hin x Hx). set_solver.
Qed.

(** ** The monad *)

Create HintDb gom.

Section wp.
Context {S A B : Type}.
Implicit Types (s : S) (E : panic_reason → S → Prop).

Lemma wp_ret (a : A) Q E s : wp (mret a) Q E s ↔ Q a s.
Proof. reflexivity. Qed.

Lemma wp_bind (m : GoM S A) (f : A → GoM S B) Q E s :
  wp (m ≫= f) Q E s ↔ wp m (λ a s', wp (f a) Q E s') E s.
Proof. unfold wp, mbind, GoM_bind. destruct (m s) as [[a|w] s']; done. Qed.

Lemma wp_mono (m : GoM S A) (Q Q' : A → S → Prop) E E' s :
  wp m Q E s → (∀ a s', Q a s' → Q' a s') → (∀ w s', E w s' → E' w s') →
  wp m Q' E' s.
Proof. unfold wp. destruct (m s) as [[a|w] s']; eauto. Qed.

Lemma wp_preserves (P : S → Prop) (m : GoM S A) s :
  preserves P m → P s → wp m (λ _, P) (λ _, P) s.
Proof. unfold preserves, wp. intros H Hs. specialize (H s Hs). by destruct (m s) as [[?|?] ?]. Qed.

Lemma preserves_wp (P : S → Prop) (m : GoM S A) :
  (∀ s, P s → wp m (λ _, P) (λ _, P) s) → preserves P m.
Proof. unfold preserves, wp. intros H s Hs. specialize (H s Hs). by destruct (m s) as [[?|?] ?]. Qed.
End wp.

Section preserves.
Context {S : Type} (P : S → Prop).

Lemma preserves_ret {A} (a : A) : preserves P (mret a : GoM S A).
Proof. by intros s. Qed.

Lemma preserves_panic {A} w : preserves P (panic w : GoM S A).
Proof. by intros s. Qed.

Lemma preserves_gets {A} (f : S → A) : preserves P (gets f).
Proof. by intros s. Qed.

Lemma preserves_readonly {A} (m : GoM S A) : readonly m → preserves P m.
Proof. intros H s Hs. by rewrite H. Qed.

Lemma preserves_modify (f : S → S) : (∀ s, P s → P (f s)) → preserves P (modify f).
Proof. intros H s Hs. by apply H. Qed.

Lemma preserves_bind {A B} (m : GoM S A) (f : A → GoM S B) :
  preserves P m → (∀ a, preserves P (f a)) → preserves P (m ≫= f).
Proof.
  intros Hm Hf s Hs. unfold mbind, GoM_bind. specialize (Hm s Hs).
  destruct (m s) as [[a|w] s']; [by apply Hf|done].
Qed.

Lemma preserves_foldM {A B} (f : B → A → GoM S B) b l :
  (∀ b x, preserves P (f b x)) → preserves P (foldM f b l).
Proof.
  intros Hf. revert b. induction l as [|x l IH]; intros b; simpl.
  - apply preserves_ret.
  - apply preserves_bind; auto.
Qed.

Lemma preserves_quot a b : preserves P (go_quot a b).
Proof. unfold go_quot. case_decide; [apply preserves_panic|apply preserves_ret]. Qed.
Lemma preserves_udiv a b : preserves P (go_udiv a b).
Proof. unfold go_udiv. case_decide; [apply preserves_panic|apply preserves_ret]. Qed.
Lemma preserves_umod a b : preserves P (go_umod a b).
Proof. unfold go_umod. case_decide; [apply preserves_panic|apply preserves_ret]. Qed.
End preserves.

#[export] Hint Resolve preserves_ret preserves_panic preserves_gets
  preserves_foldM preserves_quot preserves_udiv preserves_umod : gom.

(** [pres] decomposes a computation along its binds and matches and closes
    the leaves with the lemmas of the [gom] database. *)
Ltac pres :=
  repeat first
    [ solve [eauto with gom]
    | apply preserves_bind; [|intros ?]
    | apply preserves_foldM; intros ? ?
    | match goal with
      | |- preserves _ (if ?b then _ else _) => destruct b
      | |- preserves _ (match ?x with _ => _ end) => destruct x
      end ].

(** [guards P E m]: from a state in [P], [m] ends in [P], and if it panics the
    reason is in [E]. *)
Definition guards {S A} (P : S → Prop) (E : panic_reason → Prop) (m : GoM S A) : Prop :=
  ∀ s, P s → wp m (λ _, P) (λ w s', E w ∧ P s') s.

Section guards.
Context {S : Type} (P : S → Prop) (E : panic_reason → Prop).

Lemma guards_ret {A} (a : A) : guards P E (mret a : GoM S A).
Proof. by intros s Hs. Qed.

Lemma guards_panic {A} w : E w → guards P E (panic w : GoM S A).
Proof. by intros Hw s Hs. Qed.

Lemma guards_gets {A} (f : S → A) : guards P E (gets f).
Proof. by intros s Hs. Qed.

Lemma guards_modify (f : S → S) : (∀ s, P s → P (f s)) → guards P E (modify f).
Proof. intros Hf s Hs. by apply Hf. Qed.

Lemma guards_bind {A B} (m : GoM S A) (f : A → GoM S B) :
  guards P E m → (∀ a, guards P E (f a)) → guards P E (m ≫= f).
Proof.
  intros Hm Hf s Hs. apply wp_bind. eapply wp_mono; [by apply Hm| |done].
  intros a s' Hs'. by apply Hf.
Qed.

Lemma guards_foldM {A B} (f : B → A → GoM S B) b l :
  (∀ b x, guards P E (f b x)) → guards P E (foldM f b l).
Proof.
  intros Hf. revert b. induction l as [|x l IH]; intros b; simpl.
  - apply guards_ret.
  - apply guards_bind; auto.
Qed.

(** With a property of the elements of the list. *)
Lemma guards_foldM_elem {A B} (f : B → A → GoM S B) b l :
  (∀ b x, x ∈ l → guards P E (f b x)) → guards P E (foldM f b l).
Proof.
  revert b. induction l as [|x l IH]; intros b Hf; simpl.
  - apply guards_ret.
  - apply guards_bind; [apply Hf; left|]. intros b'. apply IH. intros b'' y Hy. apply Hf. by right.
Qed.

Lemma guards_quot a b : E DivideByZero → guards P E (go_quot a b).
Proof. intros H. unfold go_quot. case_decide; [by apply guards_panic|apply guards_ret]. Qed.
Lemma guards_udiv a b : E DivideByZero → guards P E (go_udiv a b).
Proof. intros H. unfold go_udiv. case_decide; [by apply guards_panic|apply guards_ret]. Qed.
Lemma guards_umod a b : E DivideByZero → guards P E (go_umod a b).
Proof. intros H. unfold go_umod. case_decide; [by apply guards_panic|apply guards_ret]. Qed.
End guards.

Lemma guards_preserves {S A} (P : S → Prop) E (m : GoM S A) : guards P E m → preserves P m.
Proof.
  intros Hm s Hs. specialize (Hm s Hs). unfold wp in Hm.
  destruct (m s) as [[a|w] s']; naive_solver.
Qed.

Lemma guards_reason {S A} (P : S → Prop) E (m : GoM S A) s w :
  guards P E m → P s → (m s).1 = Panic w → E w.
Proof.
  intros Hm Hs. specialize (Hm s Hs). unfold wp in Hm.
  destruct (m s) as [[a|w'] s']; naive_solver.
Qed.

#[export] Hint Resolve guards_ret guards_panic guards_gets guards_quot guards_udiv guards_umod : gom.

(** Like [pres], for [guards]. *)
Ltac guarding :=
  repeat first
    [ solve [eauto with gom]
    | apply guards_bind; [|intros ?]
    | apply guards_foldM; intros ? ?
    | match goal with
      | |- guards _ _ (if ?b then _ else _) => destruct b
      | |- guards _ _ (match ?x with _ => _ end) => destruct x
      | |- guards _ _ (let '(_, _) := ?x in _) => destruct x
      end ].

Lemma zoom_guards {S T A} (get : S → T) set (P : S → Prop) (R : T → Prop) E (m : GoM T A) :
  (∀ s, P s → R (get s)) → (∀ t s, P s → R t → P (set t s)) →
  guards R E m → guards P E (zoom get set m).
Proof.
  intros Hg Hs Hm s HP. unfold zoom. specialize (Hm (get s) (Hg s HP)). unfold wp in *.
  destruct (m (get s)) as [[a|w] t]; naive_solver.
Qed.

Lemma zoom_preserves {S T A} (get : S → T) set (P : S → Prop) (R : T → Prop) (m : GoM T A) :
  (∀ s, P s → R (get s)) → (∀ t s, P s → R t → P (set t s)) →
  preserves R m → preserves P (zoom get set m).
Proof.
  intros Hg Hs Hm s HP. unfold zoom. specialize (Hm (get s) (Hg s HP)).
  destruct (m (get s)) as [o t]. simpl in *. auto.
Qed.

(** ** Maps and the order in which they are visited *)

Section range_order.
Context `{!RangeOrder}.

Lemma range_order_elem {V} site (m : gmap string V) k v :
  (k, v) ∈ range_order site m ↔ m !! k = Some v.
Proof. rewrite range_order_perm. apply elem_of_map_to_list. Qed.

Lemma range_order_NoDup {V} site (m : gmap string V) : NoDup (range_order site m).*1.
Proof. rewrite range_order_perm. apply NoDup_fst_map_to_list. Qed.
End range_order.

(** ** The steps of a computation *)

Lemma bind_eq {S A B} (m : GoM S A) (f : A → GoM S B) s a s' :
  m s = (Ret a, s') → (m ≫= f) s = f a s'.
Proof. intros E. unfold mbind, GoM_bind. by rewrite E. Qed.

Lemma foldM_snoc {S A B} (f : B → A → GoM S B) b l x s b' s' :
  foldM f b (l ++ [x]) s = (Ret b', s') →
  ∃ b1 s1, foldM f b l s = (Ret b1, s1) ∧ f b1 x s1 = (Ret b', s').
Proof.
  revert b s. induction l as [|y l IH]; intros b s; simpl; unfold mbind, GoM_bind.
  - destruct (f b x s) as [[b2|w] s2] eqn:E; [|done]. intros [= <- <-]. by exists b, s.
  - destruct (f b y s) as [[b2|w] s2] eqn:E; [|done]. apply IH.
Qed.

(** ** Strings *)

Lemma string_app_cons c (s t : string) : String c s +:+ t = String c (s +:+ t).
Proof. reflexivity. Qed.

Lemma string_app_nil_l (s : string) : "" +:+ s = s.
Proof. reflexivity. Qed.

Lemma string_app_nil_r (s : string) : s +:+ "" = s.
Proof. induction s as [|c s IH]; [done|]. rewrite string_app_cons. by f_equal. Qed.

Lemma string_app_assoc (a b c : string) : a +:+ (b +:+ c) = (a +:+ b) +:+ c.
Proof. induction a as [|x a IH]; [done|]. rewrite !string_app_cons. by f_equal. Qed.

Lemma prefix_app pre s : String.prefix pre (pre +:+ s) = true.
Proof.
  induction pre as [|c pre IH]; [by destruct s|]. rewrite string_app_cons. cbn.
  by destruct (ascii_dec c c).
Qed.

Lemma prefix_split pre s : String.prefix pre s = true → ∃ t, s = pre +:+ t.
Proof.
  revert s. induction pre as [|c pre IH]; intros s H; [by exists s|].
  destruct s as [|d s]; [done|]. cbn in H. destruct (ascii_dec c d) as [->|]; [|done].
  destruct (IH s H) as [t ->]. exists t. by rewrite string_app_cons.
Qed.

Lemma cut_at_app c a b : string_mem c a = false → cut_at c (a +:+ String c b) = Some (a, b).
Proof.
  induction a as [|d a IH]; cbn; intros H.
  - rewrite string_app_nil_l. cbn. by destruct (decide (c = c)).
  - apply orb_false_iff in H as [H1 H2]. apply bool_decide_eq_false in H1.
    rewrite string_app_cons. cbn. destruct (decide (c = d)); [done|]. by rewrite IH.
Qed.

Lemma cut_at_Some c s a b :
  cut_at c s = Some (a, b) → s = a +:+ String c b ∧ string_mem c a = false.
Proof.
  revert a. induction s as [|d s IH]; cbn; intros a H; [done|].
  destruct (decide (c = d)) as [->|Hne]; [by simplify_eq|].
  destruct (cut_at c s) as [[a' b']|]; [|done]. simplify_eq.
  destruct (IH a' eq_refl) as [-> ?]. rewrite string_app_cons. split; [done|]. cbn.
  apply orb_false_iff. split; [by apply bool_decide_eq_false|done].
Qed.

Lemma cut_at_None c s : cut_at c s = None ↔ string_mem c s = false.
Proof.
  induction s as [|d s IH]; cbn; [done|].
  destruct (decide (c = d)) as [->|Hne].
  - rewrite bool_decide_true by done. done.
  - rewrite bool_decide_false by done. simpl. rewrite <-IH.
    destruct (cut_at c s) as [[??]|]; done.
Qed.

Lemma code_range c : 0 ≤ code c < 256.
Proof. unfold code. pose proof (N_ascii_bounded c). lia. Qed.

Lemma chr_code c : chr (code c) = c.
Proof. unfold chr, code. rewrite N2Z.id. apply ascii_N_embedding. Qed.

Lemma code_chr z : 0 ≤ z < 256 → code (chr z) = z.
Proof. intros H. unfold chr, code. rewrite N_ascii_embedding; lia. Qed.

Lemma in_range_spec lo hi c : in_range lo hi c = true ↔ lo ≤ code c ≤ hi.
Proof. unfold in_range. rewrite andb_true_iff, !Z.leb_le. done. Qed.

Lemma substring_all n s : (String.length s ≤ n)%nat → String.substring 0 n s = s.
Proof.
  revert n. induction s as [|c s IH]; intros [|n] Hn; try done; [cbn in Hn; lia|].
  cbn. f_equal. apply IH. cbn in Hn. lia.
Qed.

