(* ===== verification/Strconv.v ===== *)
(** * Go standard library used as data: package strconv and encoding/base64

    Executable models of [strconv.ParseInt]/[Atoi]/[ParseUint]/[FormatInt]
    (base 10, 64 bits, value returned together with the error, as the service
    discards the error and keeps the value) and of
    [base64.StdEncoding.EncodeToString]/[DecodeString]. *)

From S2P Require Import Prelude.

(** ** strconv *)

Inductive num_error := ErrSyntax | ErrRange.

#[export] Instance num_error_eq_dec : EqDecision num_error.
Proof. solve_decision. Defined.

Definition is_digit (c : ascii) : bool := in_range 48 57 c.
Definition digit_val (c : ascii) : Z := code c - 48.

(** First value [n] for which [n * 10] leaves the range of [uint64]. *)
Definition uint_cutoff : Z := max_uint64 / 10 + 1.

Fixpoint parse_uint_loop (n : Z) (s : string) : Z * option num_error :=
  match s with
  | EmptyString => (n, None)
  | String c r =>
      if is_digit c then
        if uint_cutoff <=? n then (max_uint64, Some ErrRange)
        else
          let n10 := n * 10 in
          let n1 := to_uint64 (n10 + digit_val c) in
          if (n1 <? n10) || (max_uint64 <? n1) then (max_uint64, Some ErrRange)
          else parse_uint_loop n1 r
      else (0, Some ErrSyntax)
  end.

Definition ParseUint (s : string) : Z * option num_error :=
  match s with
  | EmptyString => (0, Some ErrSyntax)
  | _ => parse_uint_loop 0 s
  end.

Definition ParseInt (s : string) : Z * option num_error :=
  match s with
  | EmptyString => (0, Some ErrSyntax)
  | String c r =>
      let '(neg, s') :=
        if decide (c = "+"%char) then (false, r)
        else if decide (c = "-"%char) then (true, r)
        else (false, s) in
      match ParseUint s' with
      | (_, Some ErrSyntax) => (0, Some ErrSyntax)
      | (un, _) =>
          let cutoff := 2 ^ 63 in
          if negb neg && (cutoff <=? un) then (cutoff - 1, Some ErrRange)
          else if neg && (cutoff <? un) then (- cutoff, Some ErrRange)
          else (if neg then to_int64 (- un) else un, None)
      end
  end.

(** On a 64-bit target [Atoi] is [ParseInt] with base 10. *)
Definition Atoi (s : string) : Z * option num_error := ParseInt s.

Definition FormatInt (z : Z) : string := pretty z.

(** ** encoding/base64, StdEncoding *)

Definition b64_char (v : Z) : ascii :=
  if v <? 26 then chr (65 + v)
  else if v <? 52 then chr (71 + v)
  else if v <? 62 then chr (v - 4)
  else if v =? 62 then "+"%char else "/"%char.

Definition b64_val (c : ascii) : option Z :=
  if in_range 65 90 c then Some (code c - 65)
  else if in_range 97 122 c then Some (code c - 71)
  else if in_range 48 57 c then Some (code c + 4)
  else if decide (c = "+"%char) then Some 62
  else if decide (c = "/"%char) then Some 63
  else None.

Definition b64_quad (a b c : Z) : list Z :=
  [a / 4; a mod 4 * 16 + b / 16; b mod 16 * 4 + c / 64; c mod 64].

Fixpoint b64_encode (s : string) : string :=
  match s with
  | String a (String b (String c r)) =>
      String (b64_char (code a / 4))
        (String (b64_char (code a mod 4 * 16 + code b / 16))
           (String (b64_char (code b mod 16 * 4 + code c / 64))
              (String (b64_char (code c mod 64)) (b64_encode r))))
  | String a (String b EmptyString) =>
      String (b64_char (code a / 4))
        (String (b64_char (code a mod 4 * 16 + code b / 16))
           (String (b64_char (code b mod 16 * 4)) "="))
  | String a EmptyString =>
      String (b64_char (code a / 4)) (String (b64_char (code a mod 4 * 16)) "==")
  | EmptyString => EmptyString
  end.

(** The bytes of a quantum of [n] characters. *)
Definition b64_bytes (q : list Z) : string :=
  match q with
  | [v0; v1] => String (chr (v0 * 4 + v1 / 16)) ""
  | [v0; v1; v2] =>
      String (chr (v0 * 4 + v1 / 16)) (String (chr (v1 mod 16 * 16 + v2 / 4)) "")
  | [v0; v1; v2; v3] =>
      String (chr (v0 * 4 + v1 / 16))
        (String (chr (v1 mod 16 * 16 + v2 / 4)) (String (chr (v2 mod 4 * 64 + v3)) ""))
  | _ => ""
  end.

Definition is_newline (c : ascii) : bool := (code c =? 10) || (code c =? 13).

Fixpoint skip_newlines (pos : Z) (s : string) : Z * string :=
  match s with
  | String c r => if is_newline c then skip_newlines (pos + 1) r else (pos, s)
  | EmptyString => (pos, s)
  end.

(** After the padding only line breaks may follow. *)
Definition b64_tail (out : string) (pos : Z) (s : string) : string * option Z :=
  let '(p, rest) := skip_newlines pos s in
  match rest with
  | EmptyString => (out, None)
  | _ => (out, Some p)
  end.

(** [q] holds the values of the current quantum, [pos] is the offset of [s];
    the second result is the offset of a [CorruptInputError]. *)
Fixpoint b64_loop (q : list Z) (pos : Z) (s : string) : string * option Z :=
  match s with
  | EmptyString =>
      match q with
      | [] => ("", None)
      | _ => ("", Some (pos - Z.of_nat (length q)))
      end
  | String c r =>
      match b64_val c with
      | Some v =>
          match q with
          | [_; _; _] =>
              let '(out, e) := b64_loop [] (pos + 1) r in
              (b64_bytes (q ++ [v]) +:+ out, e)
          | _ => b64_loop (q ++ [v]) (pos + 1) r
          end
      | None =>
          if is_newline c then b64_loop q (pos + 1) r
          else if decide (c = "="%char) then
            match q with
            | [_; _; _] => b64_tail (b64_bytes q) (pos + 1) r
            | [_; _] =>
                let '(p, rest) := skip_newlines (pos + 1) r in
                match rest with
                | EmptyString => ("", Some p)
                | String d r' =>
                    if decide (d = "="%char) then b64_tail (b64_bytes q) (p + 1) r'
                    else ("", Some (p - 1))
                end
            | _ => ("", Some pos)
            end
          else ("", Some pos)
      end
  end.

Definition b64_decode (s : string) : string * option Z := b64_loop [] 0 s.

(** * Lemmas *)

Lemma parse_uint_loop_digit n d s :
  0 ≤ n → 0 ≤ d < 10 → n * 10 + d ≤ max_uint64 →
  parse_uint_loop n (String (chr (48 + d)) s) = parse_uint_loop (n * 10 + d) s.
Proof.
  intros Hn Hd Hm. cbn [parse_uint_loop].
  assert (Hc : code (chr (48 + d)) = 48 + d) by (apply code_chr; lia).
  assert (is_digit (chr (48 + d)) = true) as ->.
  { unfold is_digit, in_range. rewrite Hc. lia. }
  assert ((uint_cutoff <=? n) = false) as ->.
  { unfold uint_cutoff, max_uint64 in *. apply Z.leb_gt.
    assert (n < (2 ^ 64 - 1) / 10 + 1); [|done]. 
    pose proof (Z.div_le_mono (n * 10) (2 ^ 64 - 1) 10).
    rewrite Z.div_mul in * by lia. lia. }
  unfold digit_val. rewrite Hc. replace (48 + d - 48) with d by lia.
  rewrite to_uint64_id by (unfold_ints; lia).
  rewrite (proj2 (Z.ltb_ge _ _)) by lia. rewrite (proj2 (Z.ltb_ge _ _)) by lia. done.
Qed.

Lemma digit_char (x : N) : (x < 10)%N → pretty_N_char x = chr (48 + Z.of_N x).
Proof.
  intros H.
  assert (Hx : x ∈ [0;1;2;3;4;5;6;7;8;9]%N).
  { assert (x = 0 ∨ x = 1 ∨ x = 2 ∨ x = 3 ∨ x = 4 ∨ x = 5 ∨ x = 6 ∨ x = 7 ∨ x = 8 ∨ x = 9)%N
      as Hd by lia. repeat destruct Hd as [->|Hd]; subst; set_solver. }
  repeat (apply elem_of_cons in Hx as [->|Hx]; [reflexivity|]). by apply not_elem_of_nil in Hx.
Qed.

Lemma parse_uint_pretty_go (x : N) s :
  Z.of_N x ≤ max_uint64 → parse_uint_loop 0 (pretty_N_go x s) = parse_uint_loop (Z.of_N x) s.
Proof.
  revert s. induction (N.lt_wf_0 x) as [x _ IH]. intros s Hx.
  destruct (decide (x = 0)%N) as [->|Hne]; [by rewrite pretty_N_go_0|].
  rewrite pretty_N_go_step by lia.
  assert (x / 10 < x)%N by (apply N.div_lt; lia).
  assert (x mod 10 < 10)%N by (apply N.mod_lt; lia).
  assert (HZ : Z.of_N (x / 10) * 10 + Z.of_N (x mod 10) = Z.of_N x).
  { pose proof (N.div_mod x 10). lia. }
  generalize dependent (x / 10)%N. generalize dependent (x mod 10)%N. intros d Hd q Hq HZ.
  rewrite IH, digit_char by lia. rewrite parse_uint_loop_digit by lia. by rewrite HZ.
Qed.

Lemma pretty_N_go_first (x : N) s :
  (0 < x)%N → ∃ d r, pretty_N_go x s = String (chr (48 + d)) r ∧ 0 ≤ d < 10.
Proof.
  revert s. induction (N.lt_wf_0 x) as [x _ IH]. intros s Hx.
  rewrite pretty_N_go_step by lia.
  assert (x / 10 < x)%N by (apply N.div_lt; lia).
  assert (x mod 10 < 10)%N by (apply N.mod_lt; lia).
  generalize dependent (x / 10)%N. generalize dependent (x mod 10)%N. intros d Hd q Hq.
  destruct (decide (q = 0)%N) as [->|Hne].
  - rewrite pretty_N_go_0, digit_char by lia. exists (Z.of_N d), s. split; [done|lia].
  - apply IH; lia.
Qed.

Lemma ParseUint_pretty (x : N) :
  Z.of_N x ≤ max_uint64 → ParseUint (pretty x) = (Z.of_N x, None).
Proof.
  intros Hx. unfold pretty, pretty_N. case_decide as E.
  - subst. reflexivity.
  - destruct (pretty_N_go_first x "") as (d & r & Hg & _); [lia|].
    unfold ParseUint. rewrite Hg, <-Hg. by rewrite parse_uint_pretty_go.
Qed.

Lemma pretty_N_first (x : N) : ∃ d r, pretty x = String (chr (48 + d)) r ∧ 0 ≤ d < 10.
Proof.
  unfold pretty, pretty_N. case_decide as E.
  - eexists 0, "". split; [done|lia].
  - apply pretty_N_go_first. lia.
Qed.

Lemma parse_uint_loop_syntax n s m : parse_uint_loop n s = (m, Some ErrSyntax) → m = 0.
Proof.
  revert n. induction s as [|c s IH]; intros n; simpl; [done|].
  repeat case_match; intros; simplify_eq; eauto.
Qed.

Lemma ParseUint_syntax s m : ParseUint s = (m, Some ErrSyntax) → m = 0.
Proof. destruct s as [|c s]; [by intros [= <-]|]. exact (parse_uint_loop_syntax 0 (String c s) m). Qed.

Lemma ParseInt_unsigned c r un :
  c ≠ "+"%char → c ≠ "-"%char → ParseUint (String c r) = (un, None) → un < 2 ^ 63 →
  ParseInt (String c r) = (un, None).
Proof.
  intros Hp Hm HU Hun. unfold ParseInt.
  destruct (decide (c = "+"%char)); [done|]. destruct (decide (c = "-"%char)); [done|].
  rewrite HU. cbn [negb andb]. by rewrite (proj2 (Z.leb_gt _ _)) by lia.
Qed.

Lemma digit_not_sign d k : 0 ≤ d < 10 → 0 ≤ k < 48 → chr (48 + d) ≠ chr k.
Proof.
  intros Hd Hk Heq. apply (f_equal code) in Heq. rewrite !code_chr in Heq; lia.
Qed.

(** [ParseInt] inverts [FormatInt] on every 64-bit integer. *)
Lemma ParseInt_FormatInt z : is_int64 z → ParseInt (FormatInt z) = (z, None).
Proof.
  unfold_ints. intros Hz. unfold FormatInt. destruct z as [|p|p].
  - reflexivity.
  - change (pretty (Z.pos p)) with (pretty (N.pos p)).
    destruct (pretty_N_first (N.pos p)) as (d & r & E & Hd).
    rewrite E. apply ParseInt_unsigned.
    + apply (digit_not_sign d 43); lia.
    + apply (digit_not_sign d 45); lia.
    + rewrite <-E. apply (ParseUint_pretty (N.pos p)). unfold_ints. lia.
    + lia.
  - change (pretty (Z.neg p)) with (String "-"%char (pretty (N.pos p))).
    unfold ParseInt.
    destruct (decide ("-"%char = "+"%char)) as [|_]; [done|].
    destruct (decide ("-"%char = "-"%char)) as [_|]; [|done].
    rewrite ParseUint_pretty by (unfold_ints; lia).
    change (Z.of_N (N.pos p)) with (Z.pos p). cbn [negb andb].
    rewrite (proj2 (Z.ltb_ge _ _)) by lia.
    rewrite to_int64_id by (unfold_ints; lia). reflexivity.
Qed.

Lemma parse_uint_loop_range n s :
  is_uint64 n → is_uint64 (parse_uint_loop n s).1.
Proof.
  revert n. induction s as [|c r IH]; intros n Hn; cbn; [done|].
  repeat case_match; cbn; unfold_ints; try lia.
  apply IH. pose proof (to_uint64_range (n * 10 + digit_val c)). unfold_ints. lia.
Qed.

Lemma ParseUint_range s : is_uint64 (ParseUint s).1.
Proof. destruct s as [|c r]; [unfold_ints; cbn; lia|]. apply parse_uint_loop_range. unfold_ints. lia. Qed.

(** Whatever the text, the value [ParseInt] returns is a 64-bit integer. *)
Lemma ParseInt_range s : is_int64 (ParseInt s).1.
Proof.
  pose proof ParseUint_range as HU.
  unfold ParseInt. destruct s as [|c r]; [unfold_ints; cbn; lia|].
  repeat case_match; simplify_eq; cbn; try (unfold_ints; lia);
  try apply to_int64_range;
  match goal with
  | H : ParseUint ?s' = (?z, _) |- _ => pose proof (HU s') as Hr; rewrite H in Hr; cbn in Hr
  end; unfold_ints; lia.
Qed.

(** ** base64 *)

Lemma b64_val_char v : 0 ≤ v < 64 → b64_val (b64_char v) = Some v.
Proof.
  intros H.
  assert (Hall : forallb (λ n, bool_decide (b64_val (b64_char (Z.of_nat n)) = Some (Z.of_nat n)))
                         (seq 0 64) = true) by (vm_compute; reflexivity).
  rewrite forallb_forall in Hall. specialize (Hall (Z.to_nat v)).
  rewrite in_seq, Z2Nat.id in Hall by lia.
  apply bool_decide_eq_true in Hall; [done|lia].
Qed.

Lemma string3_ind (P : string → Prop) :
  P "" → (∀ a, P (String a "")) → (∀ a b, P (String a (String b ""))) →
  (∀ a b c r, P r → P (String a (String b (String c r)))) → ∀ s, P s.
Proof.
  intros H0 H1 H2 H3. fix IH 1. intros [|a [|b [|c r]]];
    [exact H0|apply H1|apply H2|apply H3, IH].
Qed.

Lemma b64_loop_val q pos v s :
  0 ≤ v < 64 →
  b64_loop q pos (String (b64_char v) s) =
  match q with
  | [_; _; _] => let '(out, e) := b64_loop [] (pos + 1) s in (b64_bytes (q ++ [v]) +:+ out, e)
  | _ => b64_loop (q ++ [v]) (pos + 1) s
  end.
Proof. intros H. cbn [b64_loop]. by rewrite b64_val_char. Qed.

Ltac b64_arith :=
  repeat match goal with
  | |- context [code ?a] =>
      lazymatch goal with
      | _ : 0 ≤ code a < 256 |- _ => fail
      | _ => pose proof (code_range a)
      end
  end;
  Z.to_euclidean_division_equations; lia.

Lemma b64_byte0 a b : 0 ≤ b < 16 → chr (code a / 4 * 4 + (code a mod 4 * 16 + b) / 16) = a.
Proof. intros Hb. rewrite <-(chr_code a) at 3. f_equal. b64_arith. Qed.

Lemma b64_byte1 a b c :
  0 ≤ c < 4 →
  chr ((code a mod 4 * 16 + code b / 16) mod 16 * 16 + (code b mod 16 * 4 + c) / 4) = b.
Proof. intros Hc. rewrite <-(chr_code b) at 3. f_equal. b64_arith. Qed.

Lemma b64_byte2 b c : chr ((code b mod 16 * 4 + code c / 64) mod 4 * 64 + code c mod 64) = c.
Proof. rewrite <-(chr_code c) at 3. f_equal. b64_arith. Qed.

Lemma b64_loop_encode s pos : b64_loop [] pos (b64_encode s) = (s, None).
Proof.
  revert pos. induction s as [|a|a b|a b c r IH] using string3_ind; intros pos; [done|..];
    cbn [b64_encode];
    rewrite b64_loop_val by b64_arith; cbn [app]; rewrite b64_loop_val by b64_arith; cbn [app].
  - cbn. rewrite <-(Z.add_0_r (code a mod 4 * 16)). by rewrite b64_byte0.
  - rewrite b64_loop_val by b64_arith. cbn [app]. cbn.
    rewrite <-(Z.add_0_r (code b mod 16 * 4)). rewrite b64_byte1 by lia.
    rewrite b64_byte0 by b64_arith. done.
  - rewrite b64_loop_val by b64_arith. cbn [app]. rewrite b64_loop_val by b64_arith.
    rewrite IH. cbn [app b64_bytes].
    rewrite b64_byte0 by b64_arith. rewrite b64_byte1 by b64_arith. rewrite b64_byte2. done.
Qed.

(** Decoding an encoded byte string gives it back. *)
Lemma b64_decode_encode s : b64_decode (b64_encode s) = (s, None).
Proof. apply b64_loop_encode. Qed.
