(* ===== verification/GoJson.v ===== *)
(** * Go standard library used as data: package encoding/json

    JSON texts, their syntax tree (string and number literals are kept as
    written, so a [json.RawMessage] is a tree up to insignificant white
    space), the parser and the printer, and the part of [Unmarshal]/[Marshal]
    the service uses, over a universe [gty] of Go types and [gval] of values:
    case-insensitive field matching, [null] handling, type errors that are
    recorded while decoding continues, [omitempty], sorted map keys. *)

From S2P Require Import Prelude Strconv.

(** ** Syntax trees *)

#[local] Set Warnings "-register-all".

Inductive json :=
| JNull
| JBool (b : bool)
| JNum (lit : string)
| JStr (raw : string) (* the text between the quotes *)
| JArr (l : list json)
| JObj (l : list (string * json)).

Section json_ind.
Variable P : json → Prop.
Hypothesis Hnull : P JNull.
Hypothesis Hbool : ∀ b, P (JBool b).
Hypothesis Hnum : ∀ s, P (JNum s).
Hypothesis Hstr : ∀ s, P (JStr s).
Hypothesis Harr : ∀ l, Forall P l → P (JArr l).
Hypothesis Hobj : ∀ l, Forall (λ kv, P kv.2) l → P (JObj l).

Fixpoint json_tree_ind (j : json) : P j :=
  match j with
  | JNull => Hnull
  | JBool b => Hbool b
  | JNum s => Hnum s
  | JStr s => Hstr s
  | JArr l =>
      Harr l ((fix all (l : list json) : Forall P l :=
        match l with
        | [] => Forall_nil_2 _
        | x :: l' => Forall_cons_2 _ _ _ (json_tree_ind x) (all l')
        end) l)
  | JObj l =>
      Hobj l ((fix all (l : list (string * json)) : Forall (λ kv, P kv.2) l :=
        match l with
        | [] => Forall_nil_2 _
        | x :: l' => Forall_cons_2 (λ kv, P kv.2) x l' (json_tree_ind x.2) (all l')
        end) l)
  end.
End json_ind.

(** ** Lexical analysis *)

Definition is_ws (c : ascii) : bool :=
  (code c =? 32) || (code c =? 9) || (code c =? 10) || (code c =? 13).

Fixpoint skip_ws (s : string) : string :=
  match s with
  | String c r => if is_ws c then skip_ws r else s
  | EmptyString => s
  end.

Definition hex_val (c : ascii) : option Z :=
  if in_range 48 57 c then Some (code c - 48)
  else if in_range 97 102 c then Some (code c - 87)
  else if in_range 65 70 c then Some (code c - 55)
  else None.

Definition hex_digit (v : Z) : ascii := if v <? 10 then chr (48 + v) else chr (87 + v).

Definition is_hex (c : ascii) : bool := match hex_val c with Some _ => true | None => false end.

Definition backslash : ascii := "\"%char.

(** The characters that may follow a backslash, [u] apart. *)
Definition simple_escape (c : ascii) : option ascii :=
  if decide (c = dquote) then Some dquote
  else if decide (c = backslash) then Some backslash
  else if decide (c = "/"%char) then Some "/"%char
  else if decide (c = "b"%char) then Some (chr 8)
  else if decide (c = "f"%char) then Some (chr 12)
  else if decide (c = "n"%char) then Some (chr 10)
  else if decide (c = "r"%char) then Some (chr 13)
  else if decide (c = "t"%char) then Some (chr 9)
  else None.

(** The literal up to the closing quote, and the text after it. *)
Fixpoint lex_str (s : string) : option (string * string) :=
  match s with
  | EmptyString => None
  | String c r =>
      if decide (c = dquote) then Some ("", r)
      else if decide (c = backslash) then
        match r with
        | String e r1 =>
            if bool_decide (is_Some (simple_escape e)) then
              '(raw, t) ← lex_str r1; Some (String c (String e raw), t)
            else if decide (e = "u"%char) then
              match r1 with
              | String h1 (String h2 (String h3 (String h4 r5))) =>
                  if is_hex h1 && is_hex h2 && is_hex h3 && is_hex h4 then
                    '(raw, t) ← lex_str r5;
                    Some (String c (String e (String h1 (String h2 (String h3 (String h4 raw))))), t)
                  else None
              | _ => None
              end
            else None
        | EmptyString => None
        end
      else if code c <? 32 then None
      else '(raw, t) ← lex_str r; Some (String c raw, t)
  end.

Fixpoint span_digits (s : string) : string * string :=
  match s with
  | String c r =>
      if is_digit c then let '(d, t) := span_digits r in (String c d, t) else ("", s)
  | EmptyString => ("", s)
  end.

Definition lex_int (s : string) : option (string * string) :=
  match s with
  | String c r =>
      if decide (c = "0"%char) then Some ("0", r)
      else if is_digit c then let '(d, t) := span_digits r in Some (String c d, t)
      else None
  | EmptyString => None
  end.

Definition lex_frac (s : string) : option (string * string) :=
  match s with
  | String c r =>
      if decide (c = "."%char) then
        match span_digits r with
        | (EmptyString, _) => None
        | (d, t) => Some (String c d, t)
        end
      else Some ("", s)
  | EmptyString => Some ("", s)
  end.

Definition lex_exp (s : string) : option (string * string) :=
  match s with
  | String c r =>
      if bool_decide (c = "e"%char) || bool_decide (c = "E"%char) then
        let '(sign, r1) :=
          match r with
          | String d r' =>
              if bool_decide (d = "+"%char) || bool_decide (d = "-"%char) then (String d "", r')
              else ("", r)
          | EmptyString => ("", r)
          end in
        match span_digits r1 with
        | (EmptyString, _) => None
        | (d, t) => Some (String c (sign +:+ d), t)
        end
      else Some ("", s)
  | EmptyString => Some ("", s)
  end.

Definition lex_num (s : string) : option (string * string) :=
  let '(sign, s0) :=
    match s with
    | String c r => if decide (c = "-"%char) then ("-", r) else ("", s)
    | EmptyString => ("", s)
    end in
  '(i, s1) ← lex_int s0;
  '(f, s2) ← lex_frac s1;
  '(e, s3) ← lex_exp s2;
  Some (sign +:+ i +:+ f +:+ e, s3).

(** [strip p s]: the text after the prefix [p]. *)
Fixpoint strip (p s : string) : option string :=
  match p, s with
  | EmptyString, _ => Some s
  | String c p', String d s' => if decide (c = d) then strip p' s' else None
  | String _ _, EmptyString => None
  end.

(** ** Parsing

    One value and the text after it; [n] is fuel, and [S (length s)] is
    enough ([parse_print]). *)

Fixpoint pval (n : nat) (s : string) : option (json * string) :=
  match n with
  | O => None
  | S n' =>
      match skip_ws s with
      | EmptyString => None
      | String c r =>
          if decide (c = "{"%char) then
            match skip_ws r with
            | EmptyString => None
            | String d r' =>
                if decide (d = "}"%char) then Some (JObj [], r')
                else '(l, t) ← pmembers n' r; Some (JObj l, t)
            end
          else if decide (c = "["%char) then
            match skip_ws r with
            | EmptyString => None
            | String d r' =>
                if decide (d = "]"%char) then Some (JArr [], r')
                else '(l, t) ← pelems n' r; Some (JArr l, t)
            end
          else if decide (c = dquote) then '(raw, t) ← lex_str r; Some (JStr raw, t)
          else if decide (c = "t"%char) then t ← strip "rue" r; Some (JBool true, t)
          else if decide (c = "f"%char) then t ← strip "alse" r; Some (JBool false, t)
          else if decide (c = "n"%char) then t ← strip "ull" r; Some (JNull, t)
          else '(lit, t) ← lex_num (String c r); Some (JNum lit, t)
      end
  end
with pelems (n : nat) (s : string) : option (list json * string) :=
  match n with
  | O => None
  | S n' =>
      '(v, t) ← pval n' s;
      match skip_ws t with
      | EmptyString => None
      | String c t' =>
          if decide (c = ","%char) then '(l, u) ← pelems n' t'; Some (v :: l, u)
          else if decide (c = "]"%char) then Some ([v], t')
          else None
      end
  end
with pmembers (n : nat) (s : string) : option (list (string * json) * string) :=
  match n with
  | O => None
  | S n' =>
      match skip_ws s with
      | EmptyString => None
      | String q r =>
          if decide (q = dquote) then
            '(k, t) ← lex_str r;
            match skip_ws t with
            | EmptyString => None
            | String c t' =>
                if decide (c = ":"%char) then
                  '(v, u) ← pval n' t';
                  match skip_ws u with
                  | EmptyString => None
                  | String d u' =>
                      if decide (d = ","%char) then
                        '(l, w) ← pmembers n' u'; Some ((k, v) :: l, w)
                      else if decide (d = "}"%char) then Some ([(k, v)], u')
                      else None
                  end
                else None
            end
          else None
      end
  end.

(** The next value of a stream, and the rest of the stream ([json.Decoder]). *)
Definition parse_next (s : string) : option (json * string) := pval (S (String.length s)) s.

(** A whole text ([json.Unmarshal]): only white space may follow the value. *)
Definition parse (s : string) : option json :=
  '(j, t) ← parse_next s;
  match skip_ws t with
  | EmptyString => Some j
  | _ => None
  end.

(** ** Printing *)

Definition quoted (raw : string) : string := String dquote (raw +:+ String dquote "").

Fixpoint print (j : json) : string :=
  match j with
  | JNull => "null"
  | JBool b => if b then "true" else "false"
  | JNum lit => lit
  | JStr raw => quoted raw
  | JArr l => String "["%char (String.concat "," (map print l) +:+ "]")
  | JObj l =>
      String "{"%char
        (String.concat "," (map (λ kv, quoted kv.1 +:+ String ":"%char (print kv.2)) l) +:+ "}")
  end.

(** ** String literals *)

Definition is_cont (c : ascii) : bool := in_range 128 191 c.

Definition utf8_2 (c0 c1 : ascii) : bool := in_range 194 223 c0 && is_cont c1.
Definition utf8_3 (c0 c1 c2 : ascii) : bool :=
  is_cont c2 &&
  ((code c0 =? 224) && in_range 160 191 c1
   || in_range 225 236 c0 && is_cont c1
   || (code c0 =? 237) && in_range 128 159 c1
   || in_range 238 239 c0 && is_cont c1).
Definition utf8_4 (c0 c1 c2 c3 : ascii) : bool :=
  is_cont c2 && is_cont c3 &&
  ((code c0 =? 240) && in_range 144 191 c1
   || in_range 241 243 c0 && is_cont c1
   || (code c0 =? 244) && in_range 128 143 c1).

Definition utf8_encode (r : Z) : string :=
  if r <? 128 then String (chr r) ""
  else if r <? 2048 then String (chr (192 + r / 64)) (String (chr (128 + r mod 64)) "")
  else if r <? 65536 then
    String (chr (224 + r / 4096))
      (String (chr (128 + r / 64 mod 64)) (String (chr (128 + r mod 64)) ""))
  else
    String (chr (240 + r / 262144))
      (String (chr (128 + r / 4096 mod 64))
         (String (chr (128 + r / 64 mod 64)) (String (chr (128 + r mod 64)) ""))).

Definition replacement : string := utf8_encode 65533.

Definition hex4 (a b c d : ascii) : option Z :=
  x ← hex_val a; y ← hex_val b; z ← hex_val c; w ← hex_val d;
  Some (((x * 16 + y) * 16 + z) * 16 + w).

Definition is_surrogate (r : Z) : bool := (55296 <=? r) && (r <? 57344).

(** [utf16.DecodeRune], [None] when the two do not form a pair. *)
Definition utf16_pair (r1 r2 : Z) : option Z :=
  if (55296 <=? r1) && (r1 <? 56320) && (56320 <=? r2) && (r2 <? 57344)
  then Some ((r1 - 55296) * 1024 + (r2 - 56320) + 65536) else None.

(** The Go string a literal denotes: escapes resolved, invalid UTF-8 and lone
    surrogates replaced by U+FFFD. *)
Fixpoint unquote (s : string) : string :=
  match s with
  | EmptyString => ""
  | String c r =>
      if decide (c = backslash) then
        match r with
        | EmptyString => ""
        | String e r1 =>
            match simple_escape e with
            | Some x => String x (unquote r1)
            | None =>
                match r1 with
                | String h1 (String h2 (String h3 (String h4 r5))) =>
                    match hex4 h1 h2 h3 h4 with
                    | None => ""
                    | Some rr =>
                        if is_surrogate rr then
                          match r5 with
                          | String bs (String u (String g1 (String g2 (String g3 (String g4 r6))))) =>
                              match
                                (if bool_decide (bs = backslash) && bool_decide (u = "u"%char)
                                 then rr1 ← hex4 g1 g2 g3 g4; utf16_pair rr rr1 else None)
                              with
                              | Some x => utf8_encode x +:+ unquote r6
                              | None => replacement +:+ unquote r5
                              end
                          | _ => replacement +:+ unquote r5
                          end
                        else utf8_encode rr +:+ unquote r5
                    end
                | _ => ""
                end
            end
        end
      else if code c <? 128 then String c (unquote r)
      else
        match r with
        | EmptyString => replacement +:+ unquote r
        | String c1 r1 =>
            if utf8_2 c c1 then String c (String c1 (unquote r1))
            else
              match r1 with
              | EmptyString => replacement +:+ unquote r
              | String c2 r2 =>
                  if utf8_3 c c1 c2 then String c (String c1 (String c2 (unquote r2)))
                  else
                    match r2 with
                    | EmptyString => replacement +:+ unquote r
                    | String c3 r3 =>
                        if utf8_4 c c1 c2 c3
                        then String c (String c1 (String c2 (String c3 (unquote r3))))
                        else replacement +:+ unquote r
                    end
              end
        end
  end.

Definition esc_u (hi lo : ascii) : string :=
  String backslash (String "u"%char (String "0"%char (String "0"%char (String hi (String lo ""))))).

(** One byte below 128 as [json.Marshal] writes it (HTML escaping on). *)
Definition quote_ascii (c : ascii) : string :=
  let z := code c in
  if bool_decide (c = dquote) || bool_decide (c = backslash) then String backslash (String c "")
  else if z =? 10 then String backslash "n"
  else if z =? 13 then String backslash "r"
  else if z =? 9 then String backslash "t"
  else if (z <? 32) || (z =? 60) || (z =? 62) || (z =? 38)
  then esc_u (hex_digit (z / 16)) (hex_digit (z mod 16))
  else String c "".

(** U+2028 and U+2029 are escaped too. *)
Definition is_line_sep (c c1 c2 : ascii) : bool :=
  (code c =? 226) && (code c1 =? 128) && ((code c2 =? 168) || (code c2 =? 169)).
Definition line_sep_esc (c2 : ascii) : string :=
  String backslash (if code c2 =? 168 then "u2028" else "u2029").
Definition bad_utf8_esc : string := String backslash "ufffd".

(** A Go string as the text of a literal. *)
Fixpoint quote (s : string) : string :=
  match s with
  | EmptyString => ""
  | String c r =>
      if code c <? 128 then quote_ascii c +:+ quote r
      else
        match r with
        | EmptyString => bad_utf8_esc +:+ quote r
        | String c1 r1 =>
            if utf8_2 c c1 then String c (String c1 (quote r1))
            else
              match r1 with
              | EmptyString => bad_utf8_esc +:+ quote r
              | String c2 r2 =>
                  if utf8_3 c c1 c2 then
                    if is_line_sep c c1 c2 then line_sep_esc c2 +:+ quote r2
                    else String c (String c1 (String c2 (quote r2)))
                  else
                    match r2 with
                    | EmptyString => bad_utf8_esc +:+ quote r
                    | String c3 r3 =>
                        if utf8_4 c c1 c2 c3
                        then String c (String c1 (String c2 (String c3 (quote r3))))
                        else bad_utf8_esc +:+ quote r
                    end
              end
        end
  end.

(** [json.Marshal] of a [RawMessage] compacts it and escapes HTML in literals. *)
Fixpoint escape_raw (s : string) : string :=
  match s with
  | EmptyString => ""
  | String c r =>
      if (code c =? 60) || (code c =? 62) || (code c =? 38)
      then esc_u (hex_digit (code c / 16)) (hex_digit (code c mod 16)) +:+ escape_raw r
      else
        match r with
        | String c1 (String c2 r2) =>
            if is_line_sep c c1 c2 then line_sep_esc c2 +:+ escape_raw r2
            else String c (escape_raw r)
        | _ => String c (escape_raw r)
        end
  end.

Fixpoint escape_json (j : json) : json :=
  match j with
  | JStr raw => JStr (escape_raw raw)
  | JArr l => JArr (map escape_json l)
  | JObj l => JObj (map (λ kv, (escape_raw kv.1, escape_json kv.2)) l)
  | _ => j
  end.
