(* ===== verification/GoValue.v ===== *)
(** * Go values and their JSON coding

    A universe [gty] of the Go types that cross a JSON or a reflection
    boundary of the service and the values [gval] they hold; [decode] is
    [json.Unmarshal] into a value of the type, [encode] is [json.Marshal];
    [GoData] relates a Rocq record to the Go struct it models. *)

From S2P Require Import Prelude Strconv GoJson.

#[local] Set Warnings "-register-all".

(** A Go [error] value as the service can observe it: its text, the code when
    it implements [rpc.Error], the data when it implements [rpc.DataError]. *)
Record goerror := GoError {
  err_text : string;
  err_code : option Z;
  err_data : option json
}.

Definition plain_error (msg : string) : goerror := GoError msg None None.

(** ** Types *)

Inductive gty :=
| TBool
| TInt
| TInt64
| TUint64
| TString
| TBytes                                   (* []byte *)
| TRaw                                     (* json.RawMessage *)
| TAny                                     (* interface{} *)
| TPtr (t : gty)
| TSlice (t : gty)
| TMap (t : gty)                           (* map[string]t *)
| TStruct (pkg name : string) (fields : list (string * (bool * gty)))
    (* JSON name, omitempty, type *)
| TError                                   (* the interface error *)
| TContext                                 (* the interface context.Context *)
| TSubscription                            (* rpc.Subscription *)
| TOpaque (name : string) (is_error : bool). (* any other type; does it implement error? *)

Inductive gval :=
| VBool (b : bool)
| VInt (z : Z)
| VStr (s : string)
| VBytes (b : option string)
| VRaw (j : option json)
| VAny (j : option json)
| VPtr (v : option gval)
| VSlice (l : option (list gval))
| VMap (m : option (list (string * gval)))
| VStruct (l : list gval)
| VErr (e : option goerror)
| VOpaque (marshal : json + string).       (* what json.Marshal makes of it *)

Fixpoint zero (t : gty) : gval :=
  match t with
  | TBool => VBool false
  | TInt | TInt64 | TUint64 => VInt 0
  | TString => VStr ""
  | TBytes => VBytes None
  | TRaw => VRaw None
  | TAny | TContext => VAny None
  | TPtr _ => VPtr None
  | TSlice _ => VSlice None
  | TMap _ => VMap None
  | TStruct _ _ fs => VStruct (map (λ f, zero f.2.2) fs)
  | TError => VErr None
  | TSubscription | TOpaque _ _ => VOpaque (inl JNull)
  end.

Fixpoint type_text (t : gty) : string :=
  match t with
  | TBool => "bool"
  | TInt => "int"
  | TInt64 => "int64"
  | TUint64 => "uint64"
  | TString => "string"
  | TBytes => "[]uint8"
  | TRaw => "json.RawMessage"
  | TAny => "interface {}"
  | TPtr t => "*" +:+ type_text t
  | TSlice t => "[]" +:+ type_text t
  | TMap t => "map[string]" +:+ type_text t
  | TStruct pkg name _ => pkg +:+ "." +:+ name
  | TError => "error"
  | TContext => "context.Context"
  | TSubscription => "rpc.Subscription"
  | TOpaque name _ => name
  end.

(** ** Decoding *)

(** The struct and the path of fields being decoded. *)
Definition field_ctx : Type := option (string * list string).

Inductive decode_error :=
| DType (value : string) (type : string) (ctx : field_ctx)
| DBase64 (offset : Z).

Definition decode_error_text (e : decode_error) : string :=
  match e with
  | DType v t None => "json: cannot unmarshal " +:+ v +:+ " into Go value of type " +:+ t
  | DType v t (Some (s, path)) =>
      "json: cannot unmarshal " +:+ v +:+ " into Go struct field " +:+ s +:+ "."
        +:+ String.concat "." path +:+ " of type " +:+ t
  | DBase64 off => "illegal base64 data at input byte " +:+ pretty off
  end.

(** [Unmarshal] reports the first error it met. *)
Definition first_error (a b : option decode_error) : option decode_error :=
  match a with Some _ => a | None => b end.

(** Keys match case-insensitively; the two non-ASCII letters that fold to
    ASCII ones (U+017F to s, U+212A to k) are folded too. *)
Fixpoint fold_key (s : string) : string :=
  match s with
  | EmptyString => ""
  | String c r =>
      match r with
      | String c1 r1 =>
          if (code c =? 197) && (code c1 =? 191) then String "s"%char (fold_key r1)
          else
            match r1 with
            | String c2 r2 =>
                if (code c =? 226) && (code c1 =? 132) && (code c2 =? 170)
                then String "k"%char (fold_key r2)
                else String (lower_ascii c) (fold_key r)
            | EmptyString => String (lower_ascii c) (fold_key r)
            end
      | EmptyString => String (lower_ascii c) ""
      end
  end.

Fixpoint find_field (i : nat) (key : string) (fs : list (string * (bool * gty)))
    : option (nat * (string * gty)) :=
  match fs with
  | [] => None
  | (n, (_, t)) :: fs' =>
      if decide (fold_key key = fold_key n) then Some (i, (n, t)) else find_field (S i) key fs'
  end.

(** Pointers: [Unmarshal] allocates the pointee when it is nil. *)
Fixpoint base_type (t : gty) : gty := match t with TPtr t' => base_type t' | _ => t end.
Fixpoint base_value (t : gty) (v : gval) : gval :=
  match t, v with
  | TPtr t', VPtr (Some v') => base_value t' v'
  | TPtr t', _ => zero (base_type t')
  | _, _ => v
  end.
Fixpoint rewrap (t : gty) (v : gval) : gval :=
  match t with TPtr t' => VPtr (Some (rewrap t' v)) | _ => v end.

(** JSON null: nil for the types that have it, no effect on the others. *)
Definition decode_null (t : gty) (old : gval) : gval :=
  match t with
  | TPtr _ => VPtr None
  | TSlice _ => VSlice None
  | TMap _ => VMap None
  | TBytes => VBytes None
  | TAny => VAny None
  | TRaw => VRaw (Some JNull)
  | TError => VErr None
  | _ => old
  end.

Definition is_int_type (t : gty) : bool :=
  match t with TInt | TInt64 => true | _ => false end.

Definition decode_num (ctx : field_ctx) (t : gty) (lit : string) (old : gval)
    : gval * option decode_error :=
  match t with
  | TInt | TInt64 =>
      match ParseInt lit with
      | (z, None) => (VInt z, None)
      | _ => (old, Some (DType ("number " +:+ lit) (type_text t) ctx))
      end
  | TUint64 =>
      match ParseUint lit with
      | (z, None) => (VInt z, None)
      | _ => (old, Some (DType ("number " +:+ lit) (type_text t) ctx))
      end
  | TAny => (VAny (Some (JNum lit)), None)
  | TRaw => (VRaw (Some (JNum lit)), None)
  | _ => (old, Some (DType "number" (type_text t) ctx))
  end.

Definition decode_str (ctx : field_ctx) (t : gty) (raw : string) (old : gval)
    : gval * option decode_error :=
  match t with
  | TString => (VStr (unquote raw), None)
  | TBytes =>
      match b64_decode (unquote raw) with
      | (b, None) => (VBytes (Some b), None)
      | (_, Some off) => (old, Some (DBase64 off))
      end
  | TAny => (VAny (Some (JStr raw)), None)
  | TRaw => (VRaw (Some (JStr raw)), None)
  | _ => (old, Some (DType "string" (type_text t) ctx))
  end.

Definition decode_bool (ctx : field_ctx) (t : gty) (b : bool) (old : gval)
    : gval * option decode_error :=
  match t with
  | TBool => (VBool b, None)
  | TAny => (VAny (Some (JBool b)), None)
  | TRaw => (VRaw (Some (JBool b)), None)
  | _ => (old, Some (DType "bool" (type_text t) ctx))
  end.

(** One element of a JSON array decoded into a [[]byte]. *)
Definition decode_byte (ctx : field_ctx) (j : json) : ascii * option decode_error :=
  let err v := (chr 0, Some (DType v "uint8" ctx)) in
  match j with
  | JNull => (chr 0, None)
  | JNum lit =>
      match ParseUint lit with
      | (z, None) => if z <? 256 then (chr z, None) else err ("number " +:+ lit)
      | _ => err ("number " +:+ lit)
      end
  | JBool _ => err "bool"
  | JStr _ => err "string"
  | JArr _ => err "array"
  | JObj _ => err "object"
  end.

Fixpoint decode_bytes (ctx : field_ctx) (l : list json) : string * option decode_error :=
  match l with
  | [] => ("", None)
  | j :: l' =>
      let '(c, e) := decode_byte ctx j in
      let '(s, e') := decode_bytes ctx l' in
      (String c s, first_error e e')
  end.

(** Last binding of a key wins; the order is that of first insertion. *)
Fixpoint assoc_set {A} (k : string) (v : A) (m : list (string * A)) : list (string * A) :=
  match m with
  | [] => [(k, v)]
  | (k', v') :: m' => if decide (k = k') then (k, v) :: m' else (k', v') :: assoc_set k v m'
  end.

Definition enter_field (ctx : field_ctx) (sname fname : string) : field_ctx :=
  Some (sname, (match ctx with Some (_, p) => p | None => [] end) ++ [fname]).

Fixpoint decode (ctx : field_ctx) (t : gty) (j : json) (old : gval) {struct j}
    : gval * option decode_error :=
  match j with
  | JNull => (decode_null t old, None)
  | _ =>
      let bt := base_type t in
      let bo := base_value t old in
      let '(v, e) :=
        match j with
        | JNull => (bo, None)
        | JBool b => decode_bool ctx bt b bo
        | JNum lit => decode_num ctx bt lit bo
        | JStr raw => decode_str ctx bt raw bo
        | JArr l =>
            match bt with
            | TSlice et =>
                let '(vs, e) :=
                  (fix elems (l : list json) : list gval * option decode_error :=
                     match l with
                     | [] => ([], None)
                     | x :: l' =>
                         let '(v, e) := decode ctx et x (zero et) in
                         let '(vs, e') := elems l' in
                         (v :: vs, first_error e e')
                     end) l in
                (VSlice (Some vs), e)
            | TBytes => let '(s, e) := decode_bytes ctx l in (VBytes (Some s), e)
            | TAny => (VAny (Some j), None)
            | TRaw => (VRaw (Some j), None)
            | _ => (bo, Some (DType "array" (type_text bt) ctx))
            end
        | JObj l =>
            match bt with
            | TStruct _ name fs =>
                let '(vs, e) :=
                  (fix members (l : list (string * json)) (vs : list gval)
                       : list gval * option decode_error :=
                     match l with
                     | [] => (vs, None)
                     | (k, x) :: l' =>
                         match find_field 0 (unquote k) fs with
                         | Some (i, (fname, ft)) =>
                             let '(v, e) :=
                               decode (enter_field ctx name fname) ft x
                                 (default (zero ft) (vs !! i)) in
                             let '(vs', e') := members l' (<[i := v]> vs) in
                             (vs', first_error e e')
                         | None => members l' vs
                         end
                     end) l (match bo with VStruct vs => vs | _ => map (λ f, zero f.2.2) fs end) in
                (VStruct vs, e)
            | TMap et =>
                let '(m, e) :=
                  (fix members (l : list (string * json)) (m : list (string * gval))
                       : list (string * gval) * option decode_error :=
                     match l with
                     | [] => (m, None)
                     | (k, x) :: l' =>
                         let '(v, e) := decode ctx et x (zero et) in
                         let '(m', e') := members l' (assoc_set (unquote k) v m) in
                         (m', first_error e e')
                     end) l (match bo with VMap (Some m) => m | _ => [] end) in
                (VMap (Some m), e)
            | TAny => (VAny (Some j), None)
            | TRaw => (VRaw (Some j), None)
            | _ => (bo, Some (DType "object" (type_text bt) ctx))
            end
        end in
      (rewrap t v, e)
  end.

(** [json.Unmarshal(data, &v)] for a text: a syntax error leaves [v] alone;
    a type error is reported but the rest is decoded. *)
Inductive unmarshal_error := USyntax | UType (e : decode_error).

Definition Unmarshal (t : gty) (text : string) (old : gval) : gval * option unmarshal_error :=
  match parse text with
  | None => (old, Some USyntax)
  | Some j => let '(v, e) := decode None t j old in (v, UType <$> e)
  end.

(** [json.Unmarshal] of a [RawMessage] that was already parsed; nil is the
    empty text, which is a syntax error. *)
Definition UnmarshalRaw (t : gty) (raw : option json) (old : gval)
    : gval * option unmarshal_error :=
  match raw with
  | None => (old, Some USyntax)
  | Some j => let '(v, e) := decode None t j old in (v, UType <$> e)
  end.

(** ** Encoding *)

Definition is_empty_value (v : gval) : bool :=
  match v with
  | VBool b => negb b
  | VInt z => z =? 0
  | VStr s => bool_decide (s = "")
  | VBytes b => match b with Some s => bool_decide (s = "") | None => true end
  | VRaw j | VAny j => match j with Some _ => false | None => true end
  | VPtr v => match v with Some _ => false | None => true end
  | VSlice l => match l with Some (_ :: _) => false | _ => true end
  | VMap m => match m with Some (_ :: _) => false | _ => true end
  | VStruct _ => false
  | VErr e => match e with Some _ => false | None => true end
  | VOpaque _ => false
  end.

(** [json.Marshal] writes map entries in the order of their keys. *)
Fixpoint insert_sorted {A} (k : string) (v : A) (m : list (string * A)) : list (string * A) :=
  match m with
  | [] => [(k, v)]
  | (k', v') :: m' =>
      if String.leb k k' then (k, v) :: m else (k', v') :: insert_sorted k v m'
  end.

Definition sort_keys {A} (m : list (string * A)) : list (string * A) :=
  foldr (λ kv acc, insert_sorted kv.1 kv.2 acc) [] m.

Definition elem_type (t : gty) : gty :=
  match t with TSlice t' | TMap t' | TPtr t' => t' | _ => t end.
Definition struct_fields (t : gty) : list (string * (bool * gty)) :=
  match t with TStruct _ _ fs => fs | _ => [] end.

Fixpoint encode (t : gty) (v : gval) {struct v} : json + string :=
  match v with
  | VBool b => inl (JBool b)
  | VInt z => inl (JNum (FormatInt z))
  | VStr s => inl (JStr (quote s))
  | VBytes None => inl JNull
  | VBytes (Some s) => inl (JStr (b64_encode s))
  | VRaw None | VAny None => inl JNull
  | VRaw (Some j) | VAny (Some j) => inl (escape_json j)
  | VPtr None => inl JNull
  | VPtr (Some v') => encode (elem_type t) v'
  | VSlice None => inl JNull
  | VSlice (Some l) =>
      let et := elem_type t in
      match
        (fix elems (l : list gval) : list json + string :=
           match l with
           | [] => inl []
           | x :: l' =>
               match encode et x, elems l' with
               | inl j, inl js => inl (j :: js)
               | inr e, _ => inr e
               | _, inr e => inr e
               end
           end) l
      with
      | inl js => inl (JArr js)
      | inr e => inr e
      end
  | VMap None => inl JNull
  | VMap (Some m) =>
      let et := elem_type t in
      match
        (fix entries (m : list (string * gval)) : list (string * json) + string :=
           match m with
           | [] => inl []
           | (k, x) :: m' =>
               match encode et x, entries m' with
               | inl j, inl js => inl ((k, j) :: js)
               | inr e, _ => inr e
               | _, inr e => inr e
               end
           end) m
      with
      | inl js => inl (JObj (map (λ kv, (quote kv.1, kv.2)) (sort_keys js)))
      | inr e => inr e
      end
  | VStruct vs =>
      match
        (fix members (fs : list (string * (bool * gty))) (vs : list gval) {struct vs}
             : list (string * json) + string :=
           match vs, fs with
           | x :: vs', (n, (omit, ft)) :: fs' =>
               match encode ft x, members fs' vs' with
               | inl j, inl js =>
                   if omit && is_empty_value x then inl js else inl ((quote n, j) :: js)
               | inr e, r => if omit && is_empty_value x then r else inr e
               | _, inr e => inr e
               end
           | _, _ => inl []
           end) (struct_fields t) vs
      with
      | inl js => inl (JObj js)
      | inr e => inr e
      end
  | VErr None => inl JNull
  | VErr (Some _) => inl (JObj [])  (* a pointer to a struct without exported fields *)
  | VOpaque m => m
  end.

(** ** Records of the model and the Go types they stand for *)

Class GoData (A : Type) := {
  go_type : gty;
  to_go : A → gval;
  of_go : gval → A
}.
Arguments go_type A {_}.

Class GoDataLaws (A : Type) `{GoData A} :=
  of_to_go : ∀ a : A, of_go (to_go a) = a.

#[export] Instance GoData_bool : GoData bool :=
  {| go_type := TBool; to_go := VBool;
     of_go v := match v with VBool b => b | _ => false end |}.
#[export] Instance GoData_string : GoData string :=
  {| go_type := TString; to_go := VStr;
     of_go v := match v with VStr s => s | _ => "" end |}.
(** [Z] stands for Go's [int] here; [int64] fields use [go_int64]. *)
#[export] Instance GoData_Z : GoData Z :=
  {| go_type := TInt; to_go := VInt;
     of_go v := match v with VInt z => z | _ => 0 end |}.
#[export] Instance GoData_list {A} `{GoData A} : GoData (list A) :=
  {| go_type := TSlice (go_type A); to_go l := VSlice (Some (to_go <$> l));
     of_go v := match v with VSlice (Some l) => of_go <$> l | _ => [] end |}.

(** [json.RawMessage]. *)
#[export] Instance GoData_raw : GoData (option json) :=
  {| go_type := TRaw; to_go := VRaw;
     of_go v := match v with VRaw j => j | _ => None end |}.

#[export] Instance GoDataLaws_raw : GoDataLaws (option json).
Proof. by intros ?. Qed.
#[export] Instance GoDataLaws_bool : GoDataLaws bool.
Proof. by intros ?. Qed.
#[export] Instance GoDataLaws_string : GoDataLaws string.
Proof. by intros ?. Qed.
#[export] Instance GoDataLaws_Z : GoDataLaws Z.
Proof. by intros ?. Qed.
#[export] Instance GoDataLaws_list {A} `{GoDataLaws A} : GoDataLaws (list A).
Proof.
  intros l. simpl. rewrite <-list_fmap_compose. transitivity (id <$> l);
    [|apply list_fmap_id]. apply list_fmap_ext. intros i x _. apply of_to_go.
Qed.

(** Field accessors for struct values. *)
Definition field {A} `{GoData A} (i : nat) (v : gval) : A :=
  match v with
  | VStruct vs => of_go (default (zero (go_type A)) (vs !! i))
  | _ => of_go (zero (go_type A))
  end.

(** [json.Unmarshal(data, &x)] into a Go variable of the type of [A]. *)
Definition unmarshal_into {A} `{GoData A} (text : string) : A * option unmarshal_error :=
  let '(v, e) := Unmarshal (go_type A) text (zero (go_type A)) in (of_go v, e).
Definition unmarshal_raw_into {A} `{GoData A} (raw : option json) : A * option unmarshal_error :=
  let '(v, e) := UnmarshalRaw (go_type A) raw (zero (go_type A)) in (of_go v, e).

Definition marshal {A} `{GoData A} (a : A) : json + string := encode (go_type A) (to_go a).
