(* ===== verification/JsonRound.v ===== *)
(** * Round trips of the JSON texts (encoding/json)

    A printed tree parses back to itself, and a Go string that is valid UTF-8
    survives quoting and unquoting.  Both ends of the RPC connection rely on
    it. *)

From S2P Require Import Prelude Strconv GoJson GoValue.

(** ** Trees that are what they print *)

Definition str_ok (raw : string) : Prop := lex_str (raw +:+ String dquote "") = Some (raw, "").
Definition num_ok (lit : string) : Prop := lex_num lit = Some (lit, "").

Inductive wf_json : json → Prop :=
| wf_null : wf_json JNull
| wf_bool b : wf_json (JBool b)
| wf_num lit : num_ok lit → wf_json (JNum lit)
| wf_str raw : str_ok raw → wf_json (JStr raw)
| wf_arr l : Forall wf_json l → wf_json (JArr l)
| wf_obj l : Forall (λ kv, str_ok kv.1 ∧ wf_json kv.2) l → wf_json (JObj l).

(** What may follow a number: nothing that would make it longer. *)
Definition delim (rest : string) : Prop :=
  match rest with
  | EmptyString => True
  | String c _ => is_digit c = false ∧ c ≠ "."%char ∧ c ≠ "e"%char ∧ c ≠ "E"%char
  end.

(** ** Literals *)

Lemma lex_str_app s raw t rest :
  lex_str s = Some (raw, t) → lex_str (s +:+ rest) = Some (raw, t +:+ rest).
Proof.
  revert raw t. induction s as [s IH] using (induction_ltof1 _ String.length).
  unfold ltof in IH. intros raw t. destruct s as [|c r]; [done|]. simpl.
  case_decide as E1; [by intros [= <- <-]|]. case_decide as E2.
  - destruct r as [|e r1]; [done|]. simpl. case_bool_decide as E3.
    + destruct (lex_str r1) as [[raw1 t1]|] eqn:El; [|done]. simpl. intros [= <- <-].
      rewrite (IH r1 ltac:(simpl; lia) _ _ El). done.
    + case_decide as E4; [|done].
      destruct r1 as [|h1 [|h2 [|h3 [|h4 r5]]]]; try done. simpl.
      destruct (is_hex h1 && is_hex h2 && is_hex h3 && is_hex h4); [|done].
      destruct (lex_str r5) as [[raw1 t1]|] eqn:El; [|done]. simpl. intros [= <- <-].
      rewrite (IH r5 ltac:(simpl; lia) _ _ El). done.
  - destruct (code c <? 32); [done|].
    destruct (lex_str r) as [[raw1 t1]|] eqn:El; [|done]. simpl. intros [= <- <-].
    rewrite (IH r ltac:(simpl; lia) _ _ El). done.
Qed.

Lemma str_ok_lex raw rest :
  str_ok raw → lex_str (raw +:+ String dquote rest) = Some (raw, rest).
Proof.
  intros H. pose proof (lex_str_app _ _ _ rest H) as H'.
  by rewrite <-string_app_assoc in H'.
Qed.

Lemma span_digits_app s d t rest :
  span_digits s = (d, t) → delim rest →
  span_digits (s +:+ rest) = (d, t +:+ rest).
Proof.
  revert d t. induction s as [|c s IH]; simpl; intros d t.
  - intros [= <- <-] Hr. destruct rest as [|c r]; [done|]. simpl. by destruct Hr as [-> _].
  - destruct (is_digit c).
    + destruct (span_digits s) as [d' t'] eqn:E. intros [= <- <-] Hr.
      by rewrite (IH _ _ eq_refl Hr).
    + intros [= <- <-] _. done.
Qed.

Lemma lex_int_app s i t rest :
  lex_int s = Some (i, t) → delim rest → lex_int (s +:+ rest) = Some (i, t +:+ rest).
Proof.
  destruct s as [|c s]; [done|]. simpl. case_decide; [by intros [= <- <-]|].
  destruct (is_digit c); [|done]. destruct (span_digits s) as [d t'] eqn:E.
  intros [= <- <-] Hr. by rewrite (span_digits_app _ _ _ _ E Hr).
Qed.

Lemma lex_frac_app s f t rest :
  lex_frac s = Some (f, t) → delim rest → lex_frac (s +:+ rest) = Some (f, t +:+ rest).
Proof.
  destruct s as [|c s]; simpl.
  - intros [= <- <-] Hr. destruct rest as [|c r]; [done|]. simpl.
    rewrite decide_False; [done|apply Hr].
  - case_decide; [|by intros [= <- <-]]. destruct (span_digits s) as [[|d0 d] t'] eqn:E; [done|].
    intros [= <- <-] Hr. by rewrite (span_digits_app _ _ _ _ E Hr).
Qed.

Lemma lex_exp_app s e t rest :
  lex_exp s = Some (e, t) → delim rest → lex_exp (s +:+ rest) = Some (e, t +:+ rest).
Proof.
  destruct s as [|c s]; simpl.
  - intros [= <- <-] Hr. destruct rest as [|c r]; [done|]. simpl.
    destruct Hr as (_ & _ & H1 & H2). by rewrite !bool_decide_eq_false_2 by done.
  - destruct (bool_decide (c = "e"%char) || bool_decide (c = "E"%char)); [|by intros [= <- <-]].
    destruct s as [|d s]; [done|]. simpl.
    destruct (bool_decide (d = "+"%char) || bool_decide (d = "-"%char)).
    + destruct (span_digits s) as [[|d0 d1] t'] eqn:E; [done|].
      intros [= <- <-] Hr. by rewrite (span_digits_app _ _ _ _ E Hr).
    + destruct (span_digits (String d s)) as [[|d0 d1] t'] eqn:E; [done|].
      intros [= <- <-] Hr. by rewrite (span_digits_app _ _ _ _ E Hr).
Qed.

Lemma lex_num_app lit rest :
  num_ok lit → delim rest → lex_num (lit +:+ rest) = Some (lit, rest).
Proof.
  unfold num_ok, lex_num. intros H Hr.
  assert (Hsign : ∀ sign s0, (match lit with
      | String c r => if decide (c = "-"%char) then ("-", r) else ("", lit)
      | EmptyString => ("", lit) end) = (sign, s0) → lit ≠ "" →
    (match lit +:+ rest with
      | String c r => if decide (c = "-"%char) then ("-", r) else ("", lit +:+ rest)
      | EmptyString => ("", lit +:+ rest) end) = (sign, s0 +:+ rest)).
  { intros sign s0. destruct lit as [|c r]; [done|]. simpl. by case_decide; intros [= <- <-]. }
  destruct (match lit with EmptyString => _ | String _ _ => _ end) as [sign s0] eqn:Es.
  assert (lit ≠ "") by (intros ->; simplify_eq/=).
  rewrite (Hsign _ _ eq_refl) by done. clear Hsign.
  destruct (lex_int s0) as [[i s1]|] eqn:Ei; [|done]. simpl in H.
  destruct (lex_frac s1) as [[f s2]|] eqn:Ef; [|done]. simpl in H.
  destruct (lex_exp s2) as [[e s3]|] eqn:Ee; [|done]. simpl in H. injection H as Hl ->.
  rewrite (lex_int_app _ _ _ _ Ei Hr). simpl. rewrite (lex_frac_app _ _ _ _ Ef Hr). simpl.
  rewrite (lex_exp_app _ _ _ _ Ee Hr). simpl. by rewrite Hl.
Qed.

(** ** Whole trees *)

Lemma string_length_app (s t : string) :
  String.length (s +:+ t) = (String.length s + String.length t)%nat.
Proof. induction s as [|c s IH]; [done|]. simpl. by rewrite IH. Qed.

(** The first character of a printed value. *)
Definition head_ok (s : string) : Prop :=
  match s with
  | String c _ => is_ws c = false ∧ c ≠ "]"%char ∧ c ≠ "}"%char
  | EmptyString => False
  end.

Lemma num_ok_head lit : num_ok lit →
  match lit with
  | String c _ => c = "-"%char ∨ is_digit c = true
  | EmptyString => False
  end.
Proof.
  unfold num_ok, lex_num. destruct lit as [|c r]; [done|].
  case_decide as E; [by left|]. right. simpl in H. destruct (decide (c = "0"%char)) as [->|]; [done|].
  by destruct (is_digit c).
Qed.

Lemma num_head_facts c : c = "-"%char ∨ is_digit c = true →
  is_ws c = false ∧ c ≠ "]"%char ∧ c ≠ "}"%char ∧ c ≠ "{"%char ∧ c ≠ "["%char ∧ c ≠ dquote ∧
  c ≠ "t"%char ∧ c ≠ "f"%char ∧ c ≠ "n"%char.
Proof.
  intros [->|H]; [by split_and!|]. revert H.
  destruct c as [[] [] [] [] [] [] [] []]; vm_compute; intros; split_and!; congruence.
Qed.

Lemma print_head j rest : wf_json j → head_ok (print j +:+ rest).
Proof.
  destruct 1 as [|[]|lit Hn| | |]; simpl; try by split_and!.
  apply num_ok_head in Hn. destruct lit as [|c r]; [done|].
  apply num_head_facts in Hn. simpl. tauto.
Qed.

Lemma skip_ws_head s : head_ok s → skip_ws s = s.
Proof. destruct s as [|c r]; [done|]. simpl. by intros [-> _]. Qed.

(** A value is read back, whatever delimits it. *)
Definition reads (j : json) : Prop := ∀ n rest,
  delim rest → (String.length (print j) ≤ n)%nat → pval n (print j +:+ rest) = Some (j, rest).

Lemma concat_map_cons {A} (f : A → string) x y l :
  String.concat "," (x :: map f (y :: l)) = x +:+ String ","%char (String.concat "," (map f (y :: l))).
Proof. done. Qed.

Lemma pelems_print l x n rest :
  Forall wf_json (x :: l) → Forall reads (x :: l) →
  (String.length (String.concat "," (map print (x :: l))) < n)%nat →
  pelems n (String.concat "," (map print (x :: l)) +:+ String "]"%char rest) = Some (x :: l, rest).
Proof.
  revert x n. induction l as [|y l IH]; intros x n Hw Hr Hn.
  - simpl in *. destruct n as [|n]; [lia|]. simpl.
    apply Forall_inv in Hr. rewrite Hr by (simpl; auto; lia). done.
  - inversion Hr as [|? ? Hx Hr']. inversion Hw as [|? ? Hwx Hw']. subst.
    specialize (λ n, IH y n Hw' Hr'). change (map print (x :: y :: l)) with (print x :: map print (y :: l)) in *.
    rewrite concat_map_cons in *. set (body := String.concat "," (map print (y :: l))) in *. clearbody body.
    rewrite string_length_app in Hn. simpl in Hn.
    destruct n as [|n]; [lia|]. simpl pelems. rewrite <-string_app_assoc, string_app_cons.
    rewrite Hx by (simpl; auto; lia). simpl. rewrite IH by lia. done.
Qed.

Definition print_member (kv : string * json) : string :=
  quoted kv.1 +:+ String ":"%char (print kv.2).

Lemma quoted_app raw rest : quoted raw +:+ rest = String dquote (raw +:+ String dquote rest).
Proof. unfold quoted. rewrite string_app_cons, <-string_app_assoc. done. Qed.

Lemma quoted_length raw : String.length (quoted raw) = (2 + String.length raw)%nat.
Proof. unfold quoted. simpl. rewrite string_length_app. simpl. lia. Qed.

Lemma pmembers_print l x n rest :
  Forall (λ kv, str_ok kv.1 ∧ wf_json kv.2) (x :: l) → Forall (λ kv, reads kv.2) (x :: l) →
  (String.length (String.concat "," (map print_member (x :: l))) < n)%nat →
  pmembers n (String.concat "," (map print_member (x :: l)) +:+ String "}"%char rest)
    = Some (x :: l, rest).
Proof.
  revert x n. induction l as [|y l IH]; intros [k v] n Hw Hr Hn;
    inversion Hw as [|? ? [Hk Hwv] Hw']; inversion Hr as [|? ? Hv Hr']; subst; simpl in Hk, Hv.
  - cbn [map String.concat] in *. unfold print_member in *. cbn [fst snd] in *.
    rewrite string_length_app, quoted_length in Hn. simpl in Hn.
    destruct n as [|n]; [lia|]. rewrite <-string_app_assoc, quoted_app. simpl.
    rewrite str_ok_lex by done. simpl. rewrite Hv by (simpl; auto; lia). done.
  - specialize (λ n, IH y n Hw' Hr').
    change (map print_member ((k, v) :: y :: l)) with (print_member (k, v) :: map print_member (y :: l)) in *.
    rewrite concat_map_cons in *. set (body := String.concat "," (map print_member (y :: l))) in *.
    clearbody body. unfold print_member in *. cbn [fst snd] in *.
    rewrite !string_length_app, quoted_length in Hn. simpl in Hn.
    destruct n as [|n]; [lia|]. rewrite <-!string_app_assoc, quoted_app. simpl pmembers.
    rewrite str_ok_lex by done. simpl.
    rewrite Hv by (simpl; auto; lia). simpl. rewrite IH by lia. done.
Qed.

Lemma delim_close c rest : c = "]"%char ∨ c = "}"%char ∨ c = ","%char → delim (String c rest).
Proof. intros [-> | [-> | ->]]; by split_and!. Qed.

Lemma pval_arr n r :
  head_ok r → pval (S n) (String "["%char r) = '(l, t) ← pelems n r; Some (JArr l, t).
Proof.
  destruct r as [|d r]; [done|]. intros (Hws & Hd & _). simpl. rewrite Hws.
  by rewrite decide_False by done.
Qed.

Lemma pval_obj n r :
  pval (S n) (String "{"%char (String dquote r))
    = '(l, t) ← pmembers n (String dquote r); Some (JObj l, t).
Proof. done. Qed.

Lemma print_arr_head x l rest :
  wf_json x → head_ok (String.concat "," (map print (x :: l)) +:+ rest).
Proof.
  intros Hx. destruct l as [|y l]; [by apply print_head|].
  change (map print (x :: y :: l)) with (print x :: map print (y :: l)).
  rewrite concat_map_cons, <-string_app_assoc. by apply print_head.
Qed.

Lemma print_obj_head kv l rest : ∃ r,
  String.concat "," (map print_member (kv :: l)) +:+ rest = String dquote r.
Proof.
  destruct l as [|y l].
  - cbn [map String.concat]. unfold print_member. rewrite <-string_app_assoc, quoted_app. by eexists.
  - change (map print_member (kv :: y :: l)) with (print_member kv :: map print_member (y :: l)).
    rewrite concat_map_cons. unfold print_member at 1. rewrite <-!string_app_assoc, quoted_app.
    by eexists.
Qed.

(** Enough fuel is as much as the text is long. *)
Lemma print_reads j : wf_json j → reads j.
Proof.
  induction j as [|b|lit|raw|l IH|l IH] using json_tree_ind; intros Hw n rest Hd Hn;
    inversion Hw as [| |? Hlit|? Hraw|? Hl|? Hl]; subst.
  - by destruct n; [simpl in Hn; lia|].
  - by destruct n, b; simpl in Hn; try lia.
  - pose proof (num_ok_head lit Hlit) as Hh. destruct lit as [|c r]; [done|].
    apply num_head_facts in Hh as (H1 & _ & _ & H2 & H3 & H4 & H5 & H6 & H7).
    destruct n as [|n]; [simpl in Hn; lia|].
    change (print (JNum (String c r)) +:+ rest) with (String c (r +:+ rest)).
    simpl. rewrite H1. rewrite !decide_False by done.
    change (String c (r +:+ rest)) with (String c r +:+ rest). by rewrite lex_num_app.
  - destruct n as [|n]; [simpl in Hn; lia|]. cbn [print]. rewrite quoted_app. simpl.
    by rewrite str_ok_lex.
  - destruct n as [|n]; [simpl in Hn; lia|]. destruct l as [|x l]; [done|].
    assert (Hr : Forall reads (x :: l)).
    { clear -IH Hl. induction IH; inversion Hl; subst; constructor; auto. }
    cbn [print] in *. rewrite string_app_cons, <-string_app_assoc in *.
    simpl in Hn. rewrite string_length_app in Hn. change ("]" +:+ rest) with (String "]"%char rest).
    rewrite pval_arr by (apply print_arr_head; by inversion Hl).
    rewrite pelems_print; [done..|]. simpl in *. lia.
  - destruct n as [|n]; [simpl in Hn; lia|]. destruct l as [|x l]; [done|].
    assert (Hr : Forall (λ kv, reads kv.2) (x :: l)).
    { clear -IH Hl. induction IH; inversion Hl; subst; constructor; naive_solver. }
    cbn [print] in *. change (λ kv, quoted kv.1 +:+ String ":" (print kv.2)) with print_member in *.
    rewrite string_app_cons, <-string_app_assoc in *.
    simpl in Hn. rewrite string_length_app in Hn. change ("}" +:+ rest) with (String "}"%char rest).
    destruct (print_obj_head x l (String "}"%char rest)) as [r Er]. rewrite Er, pval_obj, <-Er.
    rewrite pmembers_print; [done..|]. simpl in *. lia.
Qed.

(** The next value of a stream that begins with a printed one. *)
Lemma parse_next_print j rest : wf_json j → delim rest → parse_next (print j +:+ rest) = Some (j, rest).
Proof.
  intros Hw Hd. apply print_reads; [done..|]. rewrite string_length_app. lia.
Qed.

Lemma parse_print j : wf_json j → parse (print j) = Some j.
Proof.
  intros Hw. unfold parse. rewrite <-(string_app_nil_r (print j)).
  by rewrite parse_next_print.
Qed.

(** ** Quoted strings *)

(** The strings Go treats as valid UTF-8. *)
Inductive valid_utf8 : string → Prop :=
| valid_nil : valid_utf8 ""
| valid_ascii c r : code c < 128 → valid_utf8 r → valid_utf8 (String c r)
| valid_2 c c1 r : utf8_2 c c1 = true → valid_utf8 r → valid_utf8 (String c (String c1 r))
| valid_3 c c1 c2 r : utf8_3 c c1 c2 = true → valid_utf8 r →
    valid_utf8 (String c (String c1 (String c2 r)))
| valid_4 c c1 c2 c3 r : utf8_4 c c1 c2 c3 = true → valid_utf8 r →
    valid_utf8 (String c (String c1 (String c2 (String c3 r)))).

Fixpoint is_ascii (s : string) : bool :=
  match s with
  | String c r => (code c <? 128) && is_ascii r
  | EmptyString => true
  end.

Lemma is_ascii_valid s : is_ascii s = true → valid_utf8 s.
Proof.
  induction s as [|c s IH]; simpl; [constructor|]. intros [Hc Hs]%andb_true_iff.
  constructor; [lia|auto].
Qed.

(** Induction on a string by the pieces [quote] and [unquote] take off. *)
Lemma string_len_ind (P : string → Prop) :
  (∀ s, (∀ r, (String.length r < String.length s)%nat → P r) → P s) → ∀ s, P s.
Proof. intros H s. induction s as [s IH] using (induction_ltof1 _ String.length). apply H, IH. Qed.

Lemma hex_digit_val v : 0 ≤ v < 16 → hex_val (hex_digit v) = Some v.
Proof.
  intros Hv. assert (H : Forall (λ v, hex_val (hex_digit v) = Some v) (seqZ 0 16))
    by (repeat constructor).
  rewrite Forall_forall in H. apply H, elem_of_seqZ. lia.
Qed.

(** Escape sequences in a literal. *)
Lemma lex_simple e s raw t :
  is_Some (simple_escape e) → lex_str s = Some (raw, t) →
  lex_str (String backslash (String e s)) = Some (String backslash (String e raw), t).
Proof.
  intros He Hs. cbn [lex_str]. rewrite decide_False by done. rewrite decide_True by done.
  rewrite bool_decide_eq_true_2 by done. by rewrite Hs.
Qed.

Lemma lex_u h1 h2 h3 h4 s raw t :
  is_hex h1 && is_hex h2 && is_hex h3 && is_hex h4 = true → lex_str s = Some (raw, t) →
  let esc r := String backslash (String "u"%char (String h1 (String h2 (String h3 (String h4 r))))) in
  lex_str (esc s) = Some (esc raw, t).
Proof.
  intros Hh Hs. cbn [lex_str]. rewrite decide_False by done. rewrite decide_True by done.
  rewrite bool_decide_eq_false_2 by (by intros [? ?]). rewrite decide_True by done.
  by rewrite Hh, Hs.
Qed.

Lemma lex_plain c s raw t :
  c ≠ dquote → c ≠ backslash → 32 ≤ code c → lex_str s = Some (raw, t) →
  lex_str (String c s) = Some (String c raw, t).
Proof.
  intros H1 H2 H3 Hs. cbn [lex_str]. rewrite !decide_False by done. rewrite Hs.
  by destruct (Z.ltb_spec (code c) 32); [lia|].
Qed.

Lemma unquote_simple e x s :
  simple_escape e = Some x → unquote (String backslash (String e s)) = String x (unquote s).
Proof. intros He. cbn [unquote]. rewrite decide_True by done. by rewrite He. Qed.

Lemma unquote_u h1 h2 h3 h4 v s :
  hex4 h1 h2 h3 h4 = Some v → is_surrogate v = false →
  unquote (String backslash (String "u"%char (String h1 (String h2 (String h3 (String h4 s))))))
    = utf8_encode v +:+ unquote s.
Proof. intros Hv Hs. cbn [unquote]. rewrite decide_True by done. simpl. by rewrite Hv, Hs. Qed.

Lemma unquote_plain c s :
  c ≠ backslash → code c < 128 → unquote (String c s) = String c (unquote s).
Proof.
  intros H1 H2. cbn [unquote]. rewrite decide_False by done.
  by destruct (Z.ltb_spec (code c) 128); [|lia].
Qed.

(** How a byte below 128 is written. *)
Lemma quote_ascii_cases c : code c < 128 →
  (∃ e, quote_ascii c = String backslash (String e "") ∧ simple_escape e = Some c) ∨
  (0 ≤ code c / 16 < 16 ∧ 0 ≤ code c mod 16 < 16 ∧
   quote_ascii c = esc_u (hex_digit (code c / 16)) (hex_digit (code c mod 16))) ∨
  (quote_ascii c = String c "" ∧ c ≠ dquote ∧ c ≠ backslash ∧ 32 ≤ code c ∧
   (code c =? 60) || (code c =? 62) || (code c =? 38) = false).
Proof.
  intros Hc. pose proof (code_range c). unfold quote_ascii.
  destruct (bool_decide (c = dquote) || bool_decide (c = backslash)) eqn:E1.
  { left. exists c. split; [done|].
    apply orb_true_iff in E1 as [->%bool_decide_eq_true | ->%bool_decide_eq_true]; done. }
  apply orb_false_iff in E1 as [E1%bool_decide_eq_false E2%bool_decide_eq_false].
  destruct (Z.eqb_spec (code c) 10) as [E|].
  { left. exists "n"%char. split; [done|]. by rewrite <-(chr_code c), E. }
  destruct (Z.eqb_spec (code c) 13) as [E|].
  { left. exists "r"%char. split; [done|]. by rewrite <-(chr_code c), E. }
  destruct (Z.eqb_spec (code c) 9) as [E|].
  { left. exists "t"%char. split; [done|]. by rewrite <-(chr_code c), E. }
  right. destruct ((code c <? 32) || (code c =? 60) || (code c =? 62) || (code c =? 38)) eqn:E3.
  - left. split; [|split; [by apply Z.mod_pos_bound|done]].
    split; [by apply Z.div_pos; lia|apply Z.div_lt_upper_bound; lia].
  - right. split_and!; [done..| |]; [lia|]. lia.
Qed.

Lemma esc_hex c : 0 ≤ code c / 16 < 16 → 0 ≤ code c mod 16 < 16 →
  hex4 "0" "0" (hex_digit (code c / 16)) (hex_digit (code c mod 16)) = Some (code c).
Proof.
  intros H1 H2. unfold hex4. rewrite !hex_digit_val by done. simpl. f_equal.
  change (code "0") with 48. pose proof (Z.div_mod (code c) 16). lia.
Qed.

Lemma lex_quote_ascii c s raw t :
  code c < 128 → lex_str s = Some (raw, t) →
  lex_str (quote_ascii c +:+ s) = Some (quote_ascii c +:+ raw, t).
Proof.
  intros Hc Hs. destruct (quote_ascii_cases c Hc) as [(e & -> & He)|[(H1 & H2 & ->)|(-> & H1 & H2 & H3 & _)]].
  - apply (lex_simple e s raw t); [by eexists|done].
  - apply (lex_u "0" "0" _ _ s raw t); [|done]. unfold is_hex. by rewrite !hex_digit_val.
  - by apply (lex_plain c s raw t).
Qed.

Lemma unquote_quote_ascii c s :
  code c < 128 → unquote (quote_ascii c +:+ s) = String c (unquote s).
Proof.
  intros Hc. destruct (quote_ascii_cases c Hc) as [(e & -> & He)|[(H1 & H2 & ->)|(-> & H1 & H2 & H3 & _)]].
  - by apply unquote_simple.
  - unfold esc_u. rewrite !string_app_cons. rewrite (unquote_u _ _ _ _ (code c)).
    + unfold utf8_encode. destruct (Z.ltb_spec (code c) 128); [|lia]. by rewrite chr_code.
    + by apply esc_hex.
    + unfold is_surrogate. destruct (Z.leb_spec 55296 (code c)); [lia|done].
  - by apply unquote_plain.
Qed.

Lemma lex_high c s raw t :
  128 ≤ code c → lex_str s = Some (raw, t) → lex_str (String c s) = Some (String c raw, t).
Proof.
  intros Hc Hs. simpl. rewrite Hs.
  rewrite decide_False by (intros ->; revert Hc; by vm_compute).
  rewrite decide_False by (intros ->; revert Hc; by vm_compute).
  destruct (Z.ltb_spec (code c) 32); [lia|done].
Qed.

Lemma utf8_2_spec c c1 : utf8_2 c c1 = true → 194 ≤ code c ≤ 223 ∧ 128 ≤ code c1 ≤ 191.
Proof. unfold utf8_2, is_cont. rewrite andb_true_iff, !in_range_spec. tauto. Qed.

Lemma utf8_3_spec c c1 c2 :
  utf8_3 c c1 c2 = true → 224 ≤ code c ≤ 239 ∧ 128 ≤ code c1 ≤ 191 ∧ 128 ≤ code c2 ≤ 191.
Proof.
  unfold utf8_3, is_cont. rewrite !andb_true_iff, !orb_true_iff, !andb_true_iff, !in_range_spec.
  rewrite !Z.eqb_eq. lia.
Qed.

Lemma utf8_4_spec c c1 c2 c3 :
  utf8_4 c c1 c2 c3 = true →
  240 ≤ code c ≤ 244 ∧ 128 ≤ code c1 ≤ 191 ∧ 128 ≤ code c2 ≤ 191 ∧ 128 ≤ code c3 ≤ 191.
Proof.
  unfold utf8_4, is_cont. rewrite !andb_true_iff, !orb_true_iff, !andb_true_iff, !in_range_spec.
  rewrite !Z.eqb_eq. lia.
Qed.

Lemma is_line_sep_spec c c1 c2 :
  is_line_sep c c1 c2 = true → c = chr 226 ∧ c1 = chr 128 ∧ (c2 = chr 168 ∨ c2 = chr 169).
Proof.
  unfold is_line_sep. rewrite !andb_true_iff, orb_true_iff, !Z.eqb_eq.
  rewrite <-(chr_code c) at 2. rewrite <-(chr_code c1) at 2. rewrite <-(chr_code c2) at 3 4.
  intros [[-> ->] [-> | ->]]; auto.
Qed.

(** The cases of [quote]. *)
Lemma quote_cases (s : string) :
  s = "" ∨
  (∃ c r, s = String c r ∧ code c < 128 ∧ quote s = quote_ascii c +:+ quote r) ∨
  (∃ c c1 r, s = String c (String c1 r) ∧ utf8_2 c c1 = true ∧
     quote s = String c (String c1 (quote r))) ∨
  (∃ c c1 c2 r, s = String c (String c1 (String c2 r)) ∧ utf8_3 c c1 c2 = true ∧
     quote s = if is_line_sep c c1 c2 then line_sep_esc c2 +:+ quote r
               else String c (String c1 (String c2 (quote r)))) ∨
  (∃ c c1 c2 c3 r, s = String c (String c1 (String c2 (String c3 r))) ∧ utf8_4 c c1 c2 c3 = true ∧
     quote s = String c (String c1 (String c2 (String c3 (quote r))))) ∨
  (∃ c r, s = String c r ∧ 128 ≤ code c ∧ quote s = bad_utf8_esc +:+ quote r).
Proof.
  destruct s as [|c r]; [by left|]. right.
  destruct (Z.ltb_spec (code c) 128) as [Hc|Hc].
  { left. exists c, r. split_and!; [done..|]. simpl. by destruct (Z.ltb_spec (code c) 128); [|lia]. }
  right. destruct r as [|c1 r1].
  { do 3 right. exists c, "". split_and!; [done..|]. simpl. by destruct (Z.ltb_spec (code c) 128); [lia|]. }
  destruct (utf8_2 c c1) eqn:E2.
  { left. exists c, c1, r1. split_and!; [done..|]. simpl. rewrite E2.
    by destruct (Z.ltb_spec (code c) 128); [lia|]. }
  right. destruct r1 as [|c2 r2].
  { do 2 right. exists c, (String c1 ""). split_and!; [done..|]. cbn [quote]. rewrite E2.
    by destruct (Z.ltb_spec (code c) 128); [lia|]. }
  destruct (utf8_3 c c1 c2) eqn:E3.
  { left. exists c, c1, c2, r2. split_and!; [done..|]. cbn [quote]. rewrite E2, E3.
    by destruct (Z.ltb_spec (code c) 128); [lia|]. }
  right. destruct r2 as [|c3 r3].
  { right. exists c, (String c1 (String c2 "")). split_and!; [done..|]. cbn [quote]. rewrite E2, E3.
    by destruct (Z.ltb_spec (code c) 128); [lia|]. }
  destruct (utf8_4 c c1 c2 c3) eqn:E4; [left; exists c, c1, c2, c3, r3|right; exists c, (String c1 (String c2 (String c3 r3)))];
    (split_and!; [done..|]); cbn [quote]; rewrite E2, E3, E4; by destruct (Z.ltb_spec (code c) 128); [lia|].
Qed.

Lemma lex_bad s raw t :
  lex_str s = Some (raw, t) → lex_str (bad_utf8_esc +:+ s) = Some (bad_utf8_esc +:+ raw, t).
Proof. intros Hs. by apply (lex_u "f" "f" "f" "d" s raw t). Qed.

Lemma lex_line_sep c2 s raw t :
  lex_str s = Some (raw, t) → lex_str (line_sep_esc c2 +:+ s) = Some (line_sep_esc c2 +:+ raw, t).
Proof.
  intros Hs. unfold line_sep_esc. destruct (code c2 =? 168).
  - by apply (lex_u "2" "0" "2" "8" s raw t).
  - by apply (lex_u "2" "0" "2" "9" s raw t).
Qed.

(** Every quoted string is a literal. *)
Lemma lex_quote s rest : lex_str (quote s +:+ String dquote rest) = Some (quote s, rest).
Proof.
  induction s as [s IH] using string_len_ind.
  destruct (quote_cases s) as [->|[(c & r & -> & Hc & ->)|[(c & c1 & r & -> & H2 & ->)|
    [(c & c1 & c2 & r & -> & H3 & ->)|[(c & c1 & c2 & c3 & r & -> & H4 & ->)|(c & r & -> & Hc & ->)]]]]].
  - done.
  - rewrite <-string_app_assoc. apply lex_quote_ascii; [done|]. apply IH. simpl. lia.
  - apply utf8_2_spec in H2. rewrite !string_app_cons.
    do 2 (apply lex_high; [lia|]). apply IH. simpl. lia.
  - apply utf8_3_spec in H3. destruct (is_line_sep c c1 c2).
    + rewrite <-string_app_assoc. apply lex_line_sep, IH. simpl. lia.
    + rewrite !string_app_cons. do 3 (apply lex_high; [lia|]). apply IH. simpl. lia.
  - apply utf8_4_spec in H4. rewrite !string_app_cons.
    do 4 (apply lex_high; [lia|]). apply IH. simpl. lia.
  - rewrite <-string_app_assoc. apply lex_bad, IH. simpl. lia.
Qed.

Lemma quote_ok s : str_ok (quote s).
Proof. apply lex_quote. Qed.

Lemma not_backslash c : 128 ≤ code c → c ≠ backslash.
Proof. intros Hc ->. revert Hc. by vm_compute. Qed.

Lemma unquote_2 c c1 r :
  utf8_2 c c1 = true → unquote (String c (String c1 r)) = String c (String c1 (unquote r)).
Proof.
  intros H. pose proof (utf8_2_spec _ _ H). cbn [unquote].
  rewrite decide_False by (apply not_backslash; lia).
  destruct (Z.ltb_spec (code c) 128); [lia|]. by rewrite H.
Qed.

Lemma utf8_3_not_2 c c1 c2 : utf8_3 c c1 c2 = true → utf8_2 c c1 = false.
Proof.
  intros H%utf8_3_spec. apply not_true_is_false. intros H2%utf8_2_spec. lia.
Qed.

Lemma utf8_4_not_2 c c1 c2 c3 : utf8_4 c c1 c2 c3 = true → utf8_2 c c1 = false.
Proof.
  intros H%utf8_4_spec. apply not_true_is_false. intros H2%utf8_2_spec. lia.
Qed.

Lemma utf8_4_not_3 c c1 c2 c3 : utf8_4 c c1 c2 c3 = true → utf8_3 c c1 c2 = false.
Proof.
  intros H%utf8_4_spec. apply not_true_is_false. intros H2%utf8_3_spec. lia.
Qed.

Lemma unquote_3 c c1 c2 r :
  utf8_3 c c1 c2 = true →
  unquote (String c (String c1 (String c2 r))) = String c (String c1 (String c2 (unquote r))).
Proof.
  intros H. pose proof (utf8_3_spec _ _ _ H). cbn [unquote].
  rewrite decide_False by (apply not_backslash; lia).
  destruct (Z.ltb_spec (code c) 128); [lia|]. by rewrite (utf8_3_not_2 _ _ _ H), H.
Qed.

Lemma unquote_4 c c1 c2 c3 r :
  utf8_4 c c1 c2 c3 = true →
  unquote (String c (String c1 (String c2 (String c3 r))))
    = String c (String c1 (String c2 (String c3 (unquote r)))).
Proof.
  intros H. pose proof (utf8_4_spec _ _ _ _ H). cbn [unquote].
  rewrite decide_False by (apply not_backslash; lia).
  destruct (Z.ltb_spec (code c) 128); [lia|].
  by rewrite (utf8_4_not_2 _ _ _ _ H), (utf8_4_not_3 _ _ _ _ H), H.
Qed.

Lemma quote_2 c c1 r : utf8_2 c c1 = true → quote (String c (String c1 r)) = String c (String c1 (quote r)).
Proof.
  intros H. pose proof (utf8_2_spec _ _ H). cbn [quote].
  destruct (Z.ltb_spec (code c) 128); [lia|]. by rewrite H.
Qed.

Lemma quote_3 c c1 c2 r :
  utf8_3 c c1 c2 = true →
  quote (String c (String c1 (String c2 r)))
    = if is_line_sep c c1 c2 then line_sep_esc c2 +:+ quote r else String c (String c1 (String c2 (quote r))).
Proof.
  intros H. pose proof (utf8_3_spec _ _ _ H). cbn [quote].
  destruct (Z.ltb_spec (code c) 128); [lia|]. by rewrite (utf8_3_not_2 _ _ _ H), H.
Qed.

Lemma quote_4 c c1 c2 c3 r :
  utf8_4 c c1 c2 c3 = true →
  quote (String c (String c1 (String c2 (String c3 r))))
    = String c (String c1 (String c2 (String c3 (quote r)))).
Proof.
  intros H. pose proof (utf8_4_spec _ _ _ _ H). cbn [quote].
  destruct (Z.ltb_spec (code c) 128); [lia|].
  by rewrite (utf8_4_not_2 _ _ _ _ H), (utf8_4_not_3 _ _ _ _ H), H.
Qed.

(** A valid string is read back as it was written. *)
Lemma unquote_quote s : valid_utf8 s → unquote (quote s) = s.
Proof.
  induction 1 as [|c r Hc _ IH|c c1 r H _ IH|c c1 c2 r H _ IH|c c1 c2 c3 r H _ IH]; [done|..].
  - cbn [quote]. destruct (Z.ltb_spec (code c) 128); [|lia]. by rewrite unquote_quote_ascii, IH.
  - by rewrite quote_2, unquote_2, IH.
  - rewrite quote_3 by done. destruct (is_line_sep c c1 c2) eqn:E.
    + apply is_line_sep_spec in E as (-> & -> & [-> | ->]).
      * change (line_sep_esc (chr 168)) with (String backslash "u2028").
        rewrite !string_app_cons, (unquote_u _ _ _ _ 8232) by done. by rewrite string_app_nil_l, IH.
      * change (line_sep_esc (chr 169)) with (String backslash "u2029").
        rewrite !string_app_cons, (unquote_u _ _ _ _ 8233) by done. by rewrite string_app_nil_l, IH.
    + by rewrite unquote_3, IH.
  - by rewrite quote_4, unquote_4, IH.
Qed.

(** ** HTML escaping leaves quoted strings alone *)

Definition is_html (c : ascii) : bool := (code c =? 60) || (code c =? 62) || (code c =? 38).

Lemma escape_plain c r :
  is_html c = false → code c ≠ 226 → escape_raw (String c r) = String c (escape_raw r).
Proof.
  unfold is_html. intros Hh Hc. cbn [escape_raw]. rewrite Hh.
  destruct r as [|c1 [|c2 r]]; [done..|]. unfold is_line_sep.
  by destruct (Z.eqb_spec (code c) 226).
Qed.

Lemma simple_escape_plain e x : simple_escape e = Some x → is_html e = false ∧ code e ≠ 226.
Proof.
  unfold simple_escape. intros H. repeat (case_decide; [subst; by vm_compute|]). done.
Qed.

Lemma hex_plain c : is_hex c = true → is_html c = false ∧ code c ≠ 226.
Proof.
  unfold is_hex, hex_val, in_range, is_html. intros H.
  destruct ((48 <=? code c) && (code c <=? 57)) eqn:E1; [lia|].
  destruct ((97 <=? code c) && (code c <=? 102)) eqn:E2; [lia|].
  destruct ((65 <=? code c) && (code c <=? 70)) eqn:E3; [lia|done].
Qed.

Lemma escape_u h1 h2 h3 h4 r :
  is_hex h1 && is_hex h2 && is_hex h3 && is_hex h4 = true →
  let esc r := String backslash (String "u"%char (String h1 (String h2 (String h3 (String h4 r))))) in
  escape_raw (esc r) = esc (escape_raw r).
Proof.
  rewrite !andb_true_iff. intros [[[H1%hex_plain H2%hex_plain] H3%hex_plain] H4%hex_plain].
  intros esc. unfold esc. do 2 (rewrite escape_plain by (by vm_compute)).
  by rewrite !escape_plain by tauto.
Qed.

Lemma escape_quote_ascii c r :
  code c < 128 → escape_raw (quote_ascii c +:+ r) = quote_ascii c +:+ escape_raw r.
Proof.
  intros Hc. destruct (quote_ascii_cases c Hc) as [(e & -> & He)|[(H1 & H2 & ->)|(-> & H1 & H2 & H3 & H4)]].
  - apply simple_escape_plain in He as [He1 He2]. rewrite !string_app_cons, string_app_nil_l.
    rewrite escape_plain by (by vm_compute). by rewrite escape_plain.
  - apply (escape_u "0" "0"). unfold is_hex. by rewrite !hex_digit_val.
  - rewrite !string_app_cons, string_app_nil_l. apply escape_plain; [done|lia].
Qed.

Lemma escape_high c r : 128 ≤ code c → code c ≠ 226 → escape_raw (String c r) = String c (escape_raw r).
Proof. intros H1 H2. apply escape_plain; [unfold is_html; lia|done]. Qed.

Lemma escape_raw_quote s : escape_raw (quote s) = quote s.
Proof.
  induction s as [s IH] using string_len_ind.
  destruct (quote_cases s) as [->|[(c & r & -> & Hc & ->)|[(c & c1 & r & -> & H2 & ->)|
    [(c & c1 & c2 & r & -> & H3 & ->)|[(c & c1 & c2 & c3 & r & -> & H4 & ->)|(c & r & -> & Hc & ->)]]]]].
  - done.
  - rewrite escape_quote_ascii by done. rewrite IH by (simpl; lia). done.
  - apply utf8_2_spec in H2. rewrite !escape_high by lia. rewrite IH by (simpl; lia). done.
  - apply utf8_3_spec in H3. destruct (is_line_sep c c1 c2) eqn:E.
    + unfold line_sep_esc. destruct (code c2 =? 168).
      * etrans; [by apply (escape_u "2" "0" "2" "8")|]. rewrite IH by (simpl; lia). done.
      * etrans; [by apply (escape_u "2" "0" "2" "9")|]. rewrite IH by (simpl; lia). done.
    + cbn [escape_raw]. rewrite E. rewrite (proj2 (orb_false_iff _ _)) by lia.
      change (String c (escape_raw (String c1 (String c2 (quote r)))) = String c (String c1 (String c2 (quote r)))).
      rewrite !escape_high by lia. rewrite IH by (simpl; lia). done.
  - apply utf8_4_spec in H4. rewrite !escape_high by lia. rewrite IH by (simpl; lia). done.
  - etrans; [by apply (escape_u "f" "f" "f" "d")|]. rewrite IH by (simpl; lia). done.
Qed.

(** Trees that Go has marshalled: literals are quoted strings. *)
Inductive marshalled : json → Prop :=
| mar_null : marshalled JNull
| mar_bool b : marshalled (JBool b)
| mar_num lit : num_ok lit → marshalled (JNum lit)
| mar_str s : marshalled (JStr (quote s))
| mar_arr l : Forall marshalled l → marshalled (JArr l)
| mar_obj l : Forall (λ kv, (∃ k, kv.1 = quote k) ∧ marshalled kv.2) l → marshalled (JObj l).

Lemma marshalled_wf j : marshalled j → wf_json j.
Proof.
  induction j as [|b|lit|raw|l IH|l IH] using json_tree_ind; inversion 1 as [| |? Hn|s|? Hl|? Hl]; subst;
    constructor.
  - done.
  - apply quote_ok.
  - clear -IH Hl. induction IH; inversion Hl; subst; constructor; auto.
  - clear -IH Hl. induction IH as [|[k v] l Hk _ IH]; inversion Hl as [|? ? [[k' Hk'] Hv]]; subst;
      constructor; [|auto]. simpl in *. subst k. split; [apply quote_ok|auto].
Qed.

Lemma escape_marshalled j : marshalled j → escape_json j = j.
Proof.
  induction j as [|b|lit|raw|l IH|l IH] using json_tree_ind; inversion 1 as [| |? Hn|s|? Hl|? Hl]; subst;
    try done; cbn [escape_json].
  - by rewrite escape_raw_quote.
  - f_equal. clear -IH Hl. induction IH as [|j l Hj _ IH]; inversion Hl; subst; [done|].
    simpl. by rewrite Hj, IH.
  - f_equal. clear -IH Hl. induction IH as [|[k v] l Hk _ IH]; inversion Hl as [|? ? [[k' Hk'] Hv]];
      subst; [done|]. simpl in *. subst k. by rewrite escape_raw_quote, Hk, IH.
Qed.

(** ** Numbers *)

Fixpoint all_digits (s : string) : bool :=
  match s with
  | String c r => is_digit c && all_digits r
  | EmptyString => true
  end.

Lemma span_all_digits s : all_digits s = true → span_digits s = (s, "").
Proof.
  induction s as [|c s IH]; [done|]. simpl. intros [-> Hs]%andb_true_iff. by rewrite IH.
Qed.

Lemma digit_is_digit d : 0 ≤ d < 10 → is_digit (chr (48 + d)) = true.
Proof. intros Hd. apply in_range_spec. rewrite code_chr by lia. lia. Qed.

(** The digits of a positive number do not begin with a zero. *)
Lemma pretty_N_go_digits (x : N) s :
  (0 < x)%N → all_digits s = true →
  ∃ d r, pretty_N_go x s = String (chr (48 + d)) r ∧ 1 ≤ d < 10 ∧ all_digits r = true.
Proof.
  revert s. induction (N.lt_wf_0 x) as [x _ IH]. intros s Hx Hs.
  rewrite pretty_N_go_step by lia.
  assert (x / 10 < x)%N by (apply N.div_lt; lia).
  assert (x mod 10 < 10)%N by (apply N.mod_lt; lia).
  assert (x = 10 * (x / 10) + x mod 10)%N by (apply N.div_mod; lia).
  generalize dependent (x / 10)%N. generalize dependent (x mod 10)%N. intros d Hd q Hq Hdm.
  assert (Hs' : all_digits (String (pretty_N_char d) s) = true).
  { simpl. rewrite digit_char by lia. by rewrite digit_is_digit by lia. }
  destruct (decide (q = 0)%N) as [->|Hne].
  - rewrite pretty_N_go_0, digit_char by lia. exists (Z.of_N d), s. split_and!; [done|lia|lia|done].
  - apply IH; [done|lia|done].
Qed.

Lemma num_ok_digits d r : 1 ≤ d < 10 → all_digits r = true → num_ok (String (chr (48 + d)) r).
Proof.
  intros Hd Hr. unfold num_ok, lex_num.
  rewrite decide_False by (apply (digit_not_sign d 45); lia).
  cbn [lex_int]. rewrite decide_False.
  2: { intros E. apply (f_equal code) in E. rewrite code_chr in E by lia. revert E. vm_compute (code "0"). lia. }
  rewrite digit_is_digit by lia. rewrite span_all_digits by done. simpl.
  by rewrite !string_app_nil_r.
Qed.

Lemma num_ok_neg d r :
  1 ≤ d < 10 → all_digits r = true → num_ok (String "-"%char (String (chr (48 + d)) r)).
Proof.
  intros Hd Hr. unfold num_ok, lex_num. rewrite decide_True by done.
  cbn [lex_int]. rewrite decide_False.
  2: { intros E. apply (f_equal code) in E. rewrite code_chr in E by lia. revert E. vm_compute (code "0"). lia. }
  rewrite digit_is_digit by lia. rewrite span_all_digits by done. simpl.
  by rewrite !string_app_nil_r.
Qed.

Lemma num_ok_FormatInt z : num_ok (FormatInt z).
Proof.
  unfold FormatInt. destruct z as [|p|p]; [done|..].
  - change (pretty (Z.pos p)) with (pretty_N_go (N.pos p) "").
    destruct (pretty_N_go_digits (N.pos p) "") as (d & r & -> & Hd & Hr); [lia|done|].
    by apply num_ok_digits.
  - change (pretty (Z.neg p)) with (String "-"%char (pretty_N_go (N.pos p) "")).
    destruct (pretty_N_go_digits (N.pos p) "") as (d & r & -> & Hd & Hr); [lia|done|].
    by apply num_ok_neg.
Qed.

Lemma ParseUint_FormatInt z : is_uint64 z → ParseUint (FormatInt z) = (z, None).
Proof.
  unfold_ints. intros Hz. rewrite <-(Z2N.id z) at 1 by lia.
  destruct z as [|p|p]; [done| |lia]. apply (ParseUint_pretty (N.pos p)). unfold_ints. lia.
Qed.

(** ** base64 text is ASCII *)

Lemma b64_char_ascii v : 0 ≤ v < 64 → code (b64_char v) < 128.
Proof.
  intros Hv. unfold b64_char. destruct (Z.ltb_spec v 26); [rewrite code_chr; lia|].
  destruct (Z.ltb_spec v 52); [rewrite code_chr; lia|].
  destruct (Z.ltb_spec v 62); [rewrite code_chr; lia|]. by destruct (v =? 62).
Qed.

Lemma b64_encode_valid s : valid_utf8 (b64_encode s).
Proof.
  induction s as [|a|a b|a b c r IH] using string3_ind; cbn [b64_encode]; [constructor|..];
    repeat (apply valid_ascii; [first [apply b64_char_ascii; b64_arith|by vm_compute]|]);
    first [done|constructor].
Qed.

(** ** Structs, member by member *)

(** The loop of [decode] over the members of an object. *)
Fixpoint decode_members (ctx : field_ctx) (name : string) (fs : list (string * (bool * gty)))
    (l : list (string * json)) (vs : list gval) : list gval * option decode_error :=
  match l with
  | [] => (vs, None)
  | (k, x) :: l' =>
      match find_field 0 (unquote k) fs with
      | Some (i, (fname, ft)) =>
          let '(v, e) :=
            GoValue.decode (enter_field ctx name fname) ft x (default (zero ft) (vs !! i)) in
          let '(vs', e') := decode_members ctx name fs l' (<[i := v]> vs) in
          (vs', first_error e e')
      | None => decode_members ctx name fs l' vs
      end
  end.

Lemma decode_struct ctx pkg name fs l vs :
  GoValue.decode ctx (TStruct pkg name fs) (JObj l) (VStruct vs) =
  let '(vs', e) := decode_members ctx name fs l vs in (VStruct vs', e).
Proof.
  cbn -[decode_members].
  match goal with
  | |- context [?f l vs] =>
      assert (E : ∀ l vs, f l vs = decode_members ctx name fs l vs);
      [|rewrite E; by destruct (decode_members ctx name fs l vs)]
  end.
  clear. induction l as [|[k x] l IH]; intros vs; [done|]. cbn [decode_members].
  destruct (find_field 0 (unquote k) fs) as [[i [fname ft]]|]; [|apply IH].
  destruct (GoValue.decode _ ft x _). by rewrite IH.
Qed.

(** A nil pointer is made to point to a fresh struct. *)
Lemma decode_ptr_struct ctx pkg name fs l v e :
  GoValue.decode ctx (TStruct pkg name fs) (JObj l) (zero (TStruct pkg name fs)) = (v, e) →
  GoValue.decode ctx (TPtr (TStruct pkg name fs)) (JObj l) (VPtr None) = (VPtr (Some v), e).
Proof.
  cbn. match goal with |- context [?f l ?vs] => destruct (f l vs) as [vs' e'] end.
  by intros [= <- <-].
Qed.

(** A member whose key names the field [i]. *)
Lemma decode_members_cons ctx name fs k x l vs i fname ft v :
  find_field 0 (unquote k) fs = Some (i, (fname, ft)) →
  GoValue.decode (enter_field ctx name fname) ft x (default (zero ft) (vs !! i)) = (v, None) →
  decode_members ctx name fs ((k, x) :: l) vs = decode_members ctx name fs l (<[i := v]> vs).
Proof.
  intros Hf Hd. cbn [decode_members]. rewrite Hf, Hd.
  by destruct (decode_members ctx name fs l (<[i := v]> vs)).
Qed.

Lemma decode_int ctx z old : is_int64 z → GoValue.decode ctx TInt (JNum (FormatInt z)) old = (VInt z, None).
Proof. intros Hz. cbn. by rewrite ParseInt_FormatInt. Qed.

Lemma decode_uint ctx z old :
  is_uint64 z → GoValue.decode ctx TUint64 (JNum (FormatInt z)) old = (VInt z, None).
Proof. intros Hz. cbn. by rewrite ParseUint_FormatInt. Qed.

Lemma decode_string ctx s old :
  valid_utf8 s → GoValue.decode ctx TString (JStr (quote s)) old = (VStr s, None).
Proof. intros Hs. cbn. by rewrite unquote_quote. Qed.
