(* ===== verification/GoRound.v ===== *)
(** * json.Unmarshal inverts json.Marshal

    The values for which encoding and decoding is the identity, and the proof
    for all of them at once: messages, responses and strategies are instances. *)

From S2P Require Import Prelude Strconv GoJson GoValue JsonRound.

(** ** Values that survive *)

(** Every field is found under its own name, which is ASCII. *)
Definition fields_ok (fs : list (string * (bool * gty))) : bool :=
  forallb (λ '(i, (n, (_, t))),
    is_ascii n && match find_field 0 n fs with Some (j, _) => bool_decide (i = j) | None => false end)
    (imap pair fs).

(** The types a pointer may point to here: their values never encode to null. *)
Definition pointable (t : gty) : bool :=
  match t with TBool | TInt | TInt64 | TUint64 | TString | TStruct _ _ _ => true | _ => false end.

(** [rt t v]: [v] is a value of type [t] that JSON keeps: integers in range,
    valid UTF-8, an omitted field only with its zero value. *)
Fixpoint rt (t : gty) (v : gval) {struct v} : Prop :=
  match t, v with
  | TBool, VBool _ => True
  | (TInt | TInt64), VInt z => is_int64 z
  | TUint64, VInt z => is_uint64 z
  | TString, VStr s => valid_utf8 s
  | TBytes, VBytes _ => True
  | TRaw, VRaw (Some j) => marshalled j
  | TAny, VAny None => True
  | TAny, VAny (Some j) => marshalled j ∧ j ≠ JNull
  | TPtr _, VPtr None => True
  | TPtr t', VPtr (Some v') => pointable t' = true ∧ rt t' v'
  | TSlice _, VSlice None => True
  | TSlice t', VSlice (Some l) =>
      (fix all (l : list gval) : Prop :=
         match l with [] => True | x :: l' => rt t' x ∧ all l' end) l
  | TStruct _ _ fs, VStruct vs =>
      fields_ok fs = true ∧
      (fix all (fs : list (string * (bool * gty))) (vs : list gval) {struct vs} : Prop :=
         match fs, vs with
         | [], [] => True
         | (_, (omit, ft)) :: fs', x :: vs' =>
             (if omit && is_empty_value x then x = zero ft else rt ft x) ∧ all fs' vs'
         | _, _ => False
         end) fs vs
  | _, _ => False
  end.

(** ** The loops of [encode] *)

Fixpoint encode_elems (t : gty) (l : list gval) : list json + string :=
  match l with
  | [] => inl []
  | x :: l' =>
      match encode t x, encode_elems t l' with
      | inl j, inl js => inl (j :: js)
      | inr e, _ => inr e
      | _, inr e => inr e
      end
  end.

Fixpoint encode_members (fs : list (string * (bool * gty))) (vs : list gval)
    : list (string * json) + string :=
  match vs, fs with
  | x :: vs', (n, (omit, ft)) :: fs' =>
      match encode ft x, encode_members fs' vs' with
      | inl j, inl js => if omit && is_empty_value x then inl js else inl ((quote n, j) :: js)
      | inr e, r => if omit && is_empty_value x then r else inr e
      | _, inr e => inr e
      end
  | _, _ => inl []
  end.

Lemma encode_slice t l :
  encode (TSlice t) (VSlice (Some l)) =
  match encode_elems t l with inl js => inl (JArr js) | inr e => inr e end.
Proof.
  cbn. match goal with
  | |- match ?f l with _ => _ end = _ =>
      assert (E : ∀ l, f l = encode_elems t l); [|by rewrite E]
  end.
  clear. induction l as [|x l IH]; [done|]. cbn [encode_elems]. by rewrite <-IH.
Qed.

Lemma encode_struct pkg name fs vs :
  encode (TStruct pkg name fs) (VStruct vs) =
  match encode_members fs vs with inl js => inl (JObj js) | inr e => inr e end.
Proof.
  cbn. match goal with
  | |- match ?f fs vs with _ => _ end = _ =>
      assert (E : ∀ vs fs, f fs vs = encode_members fs vs); [|by rewrite E]
  end.
  clear. induction vs as [|x vs IH]; intros [|[n [omit ft]] fs]; [done..|].
  cbn [encode_members]. rewrite <-IH. reflexivity.
Qed.

(** ** The loops of [decode] *)

Fixpoint decode_elems (ctx : field_ctx) (t : gty) (l : list json) : list gval * option decode_error :=
  match l with
  | [] => ([], None)
  | x :: l' =>
      let '(v, e) := GoValue.decode ctx t x (zero t) in
      let '(vs, e') := decode_elems ctx t l' in
      (v :: vs, first_error e e')
  end.

Lemma decode_slice ctx t l old :
  GoValue.decode ctx (TSlice t) (JArr l) old =
  let '(vs, e) := decode_elems ctx t l in (VSlice (Some vs), e).
Proof.
  cbn -[decode_elems].
  match goal with
  | |- context [?f l] =>
      lazymatch f with decode_elems _ _ => fail | _ => idtac end;
      assert (E : ∀ l, f l = decode_elems ctx t l);
      [|rewrite E; by destruct (decode_elems ctx t l)]
  end.
  clear. induction l as [|x l IH]; [done|]. cbn [decode_elems].
  destruct (GoValue.decode ctx t x (zero t)). by rewrite IH.
Qed.

Lemma decode_ptr ctx t j v e :
  pointable t = true → j ≠ JNull → GoValue.decode ctx t j (zero t) = (v, e) →
  GoValue.decode ctx (TPtr t) j (VPtr None) = (VPtr (Some v), e).
Proof.
  intros Hp Hj. destruct t; try done; destruct j; try done; cbn;
    repeat first
      [ by intros [= <- <-]
      | match goal with
        | |- context [let '(_, _) := ?x in _] => destruct x
        | |- context [match ?x with _ => _ end] => destruct x
        end ].
Qed.

(** ** Induction on values *)

Definition leaf (v : gval) : bool :=
  match v with VPtr (Some _) | VSlice (Some _) | VStruct _ => false | _ => true end.

Section gval_ind.
Context (P : gval → Prop).
Context (Hleaf : ∀ v, leaf v = true → P v) (Hptr : ∀ v, P v → P (VPtr (Some v))).
Context (Hslice : ∀ l, Forall P l → P (VSlice (Some l))) (Hstruct : ∀ l, Forall P l → P (VStruct l)).

Fixpoint gval_tree_ind (v : gval) : P v :=
  let all := fix all (l : list gval) : Forall P l :=
    match l with
    | [] => Forall_nil_2 _
    | x :: l' => Forall_cons_2 _ _ _ (gval_tree_ind x) (all l')
    end in
  match v with
  | VPtr (Some v) => Hptr v (gval_tree_ind v)
  | VSlice (Some l) => Hslice l (all l)
  | VStruct l => Hstruct l (all l)
  | v => Hleaf v eq_refl
  end.
End gval_ind.

(** ** The round trip *)

Definition survives (t : gty) (v : gval) : Prop :=
  ∃ j, encode t v = inl j ∧ marshalled j ∧
    (∀ ctx, GoValue.decode ctx t j (zero t) = (v, None)) ∧
    (pointable t = true → j ≠ JNull).

(** base64 text needs no escapes. *)
Definition unescaped (c : ascii) : bool :=
  (code c <? 128) && bool_decide (quote_ascii c = String c "").

Lemma quote_unescaped c s : unescaped c = true → quote (String c s) = String c (quote s).
Proof.
  intros [Hc%Z.ltb_lt Hq%bool_decide_eq_true]%andb_true_iff. cbn [quote].
  destruct (Z.ltb_spec (code c) 128); [|lia]. by rewrite Hq.
Qed.

Lemma b64_char_unescaped v : 0 ≤ v < 64 → unescaped (b64_char v) = true.
Proof.
  intros Hv. assert (Hall : forallb (λ v, unescaped (b64_char v)) (seqZ 0 64) = true) by reflexivity.
  rewrite forallb_forall in Hall. apply Hall, list_elem_of_In, elem_of_seqZ. lia.
Qed.

Lemma b64_quote s : quote (b64_encode s) = b64_encode s.
Proof.
  induction s as [|a|a b|a b c r IH] using string3_ind; cbn [b64_encode]; [done|..];
    rewrite !quote_unescaped by (first [apply b64_char_unescaped; b64_arith|by vm_compute]);
    [done..|by rewrite IH].
Qed.

Lemma leaf_survives t v : leaf v = true → rt t v → survives t v.
Proof.
  intros Hl Hv. destruct t, v as [b|z|s|[s|]|[j|]|[j|]|[p|]|[l|]|m|vs|e|m]; try done; simpl in Hv.
  - eexists; split_and!; [done|constructor|done|done].
  - eexists; split_and!; [done|constructor; apply num_ok_FormatInt|intros ctx; by apply decode_int|done].
  - eexists; split_and!; [done|constructor; apply num_ok_FormatInt| |done].
    intros ctx. cbn. by rewrite ParseInt_FormatInt.
  - eexists; split_and!; [done|constructor; apply num_ok_FormatInt|intros ctx; by apply decode_uint|done].
  - eexists; split_and!; [done|constructor|intros ctx; by apply decode_string|done].
  - exists (JStr (b64_encode s)). split_and!; [done| | |done].
    + rewrite <-b64_quote. constructor.
    + intros ctx. cbn. rewrite <-b64_quote, unquote_quote, b64_decode_encode by apply b64_encode_valid. done.
  - eexists; split_and!; [done|constructor|done|done].
  - exists j. split_and!; [simpl; by rewrite escape_marshalled|done| |done].
    intros ctx. by destruct j.
  - destruct Hv as [Hv Hn]. exists j. split_and!; [simpl; by rewrite escape_marshalled|done| |done].
    intros ctx. by destruct j.
  - eexists; split_and!; [done|constructor|done|done].
  - eexists; split_and!; [done|constructor|done|done].
  - eexists; split_and!; [done|constructor|done|done].
Qed.

Lemma elems_survive t l :
  Forall (survives t) l →
  ∃ js, encode_elems t l = inl js ∧ Forall marshalled js ∧
    ∀ ctx, decode_elems ctx t js = (l, None).
Proof.
  induction 1 as [|x l (j & He & Hm & Hd & _) _ (js & IHe & IHm & IHd)]; [by exists []|].
  exists (j :: js). split_and!.
  - simpl. by rewrite He, IHe.
  - by constructor.
  - intros ctx. simpl. by rewrite Hd, IHd.
Qed.

(** A field that is omitted keeps its zero value. *)
Definition field_survives (omit : bool) (t : gty) (x : gval) : Prop :=
  if omit && is_empty_value x then x = zero t else survives t x.

Definition zeros (fs : list (string * (bool * gty))) : list gval := map (λ f, zero f.2.2) fs.

Lemma find_field_lookup k key fs j n t :
  find_field k key fs = Some (j, (n, t)) →
  ∃ i omit, j = (k + i)%nat ∧ fs !! i = Some (n, (omit, t)).
Proof.
  revert k. induction fs as [|[n' [omit t']] fs IH]; intros k; simpl; [done|].
  case_decide.
  - intros [= <- <- <-]. exists 0%nat, omit. split; [lia|done].
  - intros Hf. destruct (IH (S k) Hf) as (i & o & -> & Hi). exists (S i), o. split; [lia|done].
Qed.

Lemma fields_ok_lookup fs i n omit t :
  fields_ok fs = true → fs !! i = Some (n, (omit, t)) →
  valid_utf8 n ∧ find_field 0 n fs = Some (i, (n, t)).
Proof.
  unfold fields_ok. rewrite forallb_forall. intros Hall Hi.
  specialize (Hall (i, (n, (omit, t)))). simpl in Hall.
  apply andb_true_iff in Hall as [Ha Hf].
  - split; [by apply is_ascii_valid|]. destruct (find_field 0 n fs) as [[j [n' t']]|] eqn:E; [|done].
    apply bool_decide_eq_true in Hf. subst j.
    apply find_field_lookup in E as (i' & o' & -> & Hi'). simpl in Hi. congruence.
  - apply list_elem_of_In, list_elem_of_lookup. exists i. by rewrite list_lookup_imap, Hi.
Qed.

(** The members of a suffix of the fields, decoded over the zero values. *)
Lemma members_survive name fs fs1 vs1 fs2 vs2 :
  fields_ok fs = true → fs = fs1 ++ fs2 → length vs1 = length fs1 →
  Forall2 (λ f x, field_survives f.2.1 f.2.2 x) fs2 vs2 →
  ∃ js, encode_members fs2 vs2 = inl js ∧
    Forall (λ kv, (∃ k, kv.1 = quote k) ∧ marshalled kv.2) js ∧
    ∀ ctx, decode_members ctx name fs js (vs1 ++ zeros fs2) = (vs1 ++ vs2, None).
Proof.
  intros Hok Hfs Hlen H2. revert fs1 vs1 Hfs Hlen.
  induction H2 as [|[n [omit t]] x fs2 vs2 Hx _ IH]; intros fs1 vs1 Hfs Hlen; [by exists []|].
  destruct (IH (fs1 ++ [(n, (omit, t))]) (vs1 ++ [x])) as (js & IHe & IHm & IHd).
  { by rewrite <-app_assoc. }
  { rewrite !length_app. simpl. lia. }
  unfold field_survives in Hx. simpl in Hx. cbn [encode_members]. rewrite IHe.
  rewrite <-app_assoc in IHd. destruct (omit && is_empty_value x).
  - exists js. split_and!; [by destruct (encode t x)|done|]. intros ctx. subst x. simpl.
    specialize (IHd ctx). rewrite <-!app_assoc in IHd. exact IHd.
  - destruct Hx as (j & He & Hm & Hd & _). rewrite He. exists ((quote n, j) :: js).
    split_and!; [done|constructor; [split; [by exists n|done]|done]|]. intros ctx.
    destruct (fields_ok_lookup fs (length fs1) n omit t Hok) as [Hn Hf].
    { by rewrite Hfs, list_lookup_middle. }
    erewrite decode_members_cons; [|by rewrite unquote_quote|].
    + specialize (IHd ctx). rewrite <-!app_assoc in IHd. rewrite <-Hlen. simpl zeros.
      rewrite <-(Nat.add_0_r (length vs1)), insert_app_r. exact IHd.
    + rewrite <-Hlen, lookup_app_r, Nat.sub_diag by lia. apply Hd.
Qed.

Lemma rt_survives t v : rt t v → survives t v.
Proof.
  revert t. induction v as [v Hl|v IH|l IH|l IH] using gval_tree_ind; intros t Hv.
  - by apply leaf_survives.
  - destruct t; try done. destruct Hv as [Hp Hv].
    destruct (IH t Hv) as (j & He & Hm & Hd & Hn). exists j. split_and!; [done|done| |done].
    intros ctx. apply decode_ptr; auto.
  - destruct t as [| | | | | | | | |t| | | | | |]; try done. simpl in Hv.
    assert (Hall : Forall (survives t) l).
    { clear -IH Hv. induction IH; constructor; naive_solver. }
    destruct (elems_survive t l Hall) as (js & He & Hm & Hd). exists (JArr js). split_and!.
    + by rewrite encode_slice, He.
    + by constructor.
    + intros ctx. by rewrite decode_slice, Hd.
    + done.
  - destruct t as [| | | | | | | | | | |pkg name fs| | | |]; try done. destruct Hv as [Hok Hv].
    assert (Hall : Forall2 (λ f x, field_survives f.2.1 f.2.2 x) fs l).
    { clear Hok. revert fs Hv. induction IH as [|x l Hx _ IH]; intros [|[n [omit t]] fs]; try done.
      intros [Hv Hall]. constructor; [|by apply IH]. unfold field_survives. simpl.
      destruct (omit && is_empty_value x); [done|by apply Hx]. }
    destruct (members_survive name fs [] [] fs l Hok eq_refl eq_refl Hall) as (js & He & Hm & Hd).
    exists (JObj js). split_and!.
    + by rewrite encode_struct, He.
    + by constructor.
    + intros ctx. simpl zero. rewrite decode_struct. simpl in Hd. unfold zeros in Hd. by rewrite Hd.
    + done.
Qed.

(** A record of the model: marshalling succeeds, and the printed text
    unmarshals to it. *)
Lemma marshal_unmarshal `{GoDataLaws A} (a : A) :
  rt (go_type A) (to_go a) →
  ∃ j, marshal a = inl j ∧ marshalled j ∧ unmarshal_into (print j) = (a, None).
Proof.
  intros Hrt. destruct (rt_survives _ _ Hrt) as (j & He & Hm & Hd & _). exists j.
  split_and!; [done|done|]. unfold unmarshal_into, Unmarshal.
  rewrite parse_print by (by apply marshalled_wf). rewrite Hd. simpl. by rewrite of_to_go.
Qed.
