(* ===== verification/GoTyping.v ===== *)
(** * Typing of Go values

    Reflection gives the service values of statically known Go types; in the
    model that is a judgement [has_type] between [gty] and [gval].  Decoding
    keeps it whatever the JSON text says, errors included, so that what
    reflection hands to a handler is what its parameter list declares. *)

From S2P Require Import Prelude Strconv GoJson GoValue JsonRound GoRound.

Definition int64b (z : Z) : bool := (min_int64 <=? z) && (z <=? max_int64).
Definition uint64b (z : Z) : bool := (0 <=? z) && (z <=? max_uint64).

(** [has_type t v]: [v] can be held by a variable of type [t]. *)
Fixpoint has_type (t : gty) (v : gval) {struct v} : bool :=
  match t, v with
  | TBool, VBool _ => true
  | (TInt | TInt64), VInt z => int64b z
  | TUint64, VInt z => uint64b z
  | TString, VStr _ => true
  | TBytes, VBytes _ => true
  | TRaw, VRaw _ => true
  | (TAny | TContext), VAny _ => true
  | TPtr _, VPtr None => true
  | TPtr t', VPtr (Some v') => has_type t' v'
  | TSlice _, VSlice None => true
  | TSlice t', VSlice (Some l) => forallb (has_type t') l
  | TMap _, VMap None => true
  | TMap t', VMap (Some m) =>
      forallb (λ kv, has_type t' kv.2) m && bool_decide (NoDup (map fst m))
  | TStruct _ _ fs, VStruct vs =>
      (fix fields (fs : list (string * (bool * gty))) (vs : list gval) {struct vs} : bool :=
         match fs, vs with
         | [], [] => true
         | (_, (_, ft)) :: fs', x :: vs' => has_type ft x && fields fs' vs'
         | _, _ => false
         end) fs vs
  | TError, VErr _ => true
  | (TSubscription | TOpaque _ _), VOpaque _ => true
  | _, _ => false
  end.

Abbreviation typed t v := (has_type t v = true).

(** * Lemmas *)

Lemma int64b_spec z : int64b z = true ↔ is_int64 z.
Proof. unfold int64b. unfold_ints. rewrite andb_true_iff, !Z.leb_le. done. Qed.

Lemma uint64b_spec z : uint64b z = true ↔ is_uint64 z.
Proof. unfold uint64b. unfold_ints. rewrite andb_true_iff, !Z.leb_le. done. Qed.

(** A struct is typed field by field. *)
Lemma typed_struct pkg name fs vs :
  typed (TStruct pkg name fs) (VStruct vs) ↔ Forall2 (λ f v, typed f.2.2 v) fs vs.
Proof.
  cbn [has_type]. revert fs. induction vs as [|v vs IH]; intros [|[n [o ft]] fs].
  - split; [constructor|done].
  - split; [done|]. intros H. inversion H.
  - split; [done|]. intros H. inversion H.
  - rewrite andb_true_iff, IH, Forall2_cons. done.
Qed.

Lemma typed_struct_inv pkg name fs v :
  typed (TStruct pkg name fs) v → ∃ vs, v = VStruct vs ∧ Forall2 (λ f v, typed f.2.2 v) fs vs.
Proof. destruct v; try done. intros H%typed_struct. eauto. Qed.

Lemma typed_slice t l : typed (TSlice t) (VSlice (Some l)) ↔ Forall (λ v, typed t v) l.
Proof.
  cbn [has_type]. rewrite forallb_forall, Forall_forall.
  setoid_rewrite <-list_elem_of_In. done.
Qed.

Lemma typed_map t m :
  typed (TMap t) (VMap (Some m)) ↔ Forall (λ kv, typed t kv.2) m ∧ NoDup m.*1.
Proof.
  cbn [has_type]. rewrite andb_true_iff, bool_decide_eq_true, forallb_forall, Forall_forall.
  setoid_rewrite <-list_elem_of_In. done.
Qed.

(** The zero value of a type has the type. *)
Lemma zero_typed t : typed t (zero t).
Proof.
  revert t. fix IH 1. intros [| | | | | | | |t|t|t|pkg name fs| | | |n e]; try reflexivity.
  cbn [zero]. apply typed_struct.
  induction fs as [|[n [o ft]] fs IHfs]; cbn [map]; constructor; [exact (IH ft)|exact IHfs].
Qed.
#[export] Hint Resolve zero_typed : gotype.

(** Pointers, unwrapped and wrapped again. *)
Lemma typed_base t v : typed t v → typed (base_type t) (base_value t v).
Proof.
  revert v. induction t; intros v Hv; cbn [base_type base_value]; try done.
  destruct v; try apply zero_typed. destruct v; [by apply IHt|apply zero_typed].
Qed.

Lemma typed_rewrap t v : typed (base_type t) v → typed t (rewrap t v).
Proof. revert v. induction t; intros v Hv; cbn [base_type rewrap] in *; try done. by apply IHt. Qed.

Lemma base_type_not_ptr t t' : base_type t ≠ TPtr t'.
Proof. induction t; done. Qed.

(** ** Decoding *)

Lemma decode_null_typed t old : typed t old → typed t (decode_null t old).
Proof. by destruct t. Qed.

Lemma decode_num_typed ctx t lit old :
  typed t old → typed t (decode_num ctx t lit old).1.
Proof.
  intros Ho. destruct t; cbn [decode_num]; try done.
  1, 2: pose proof (ParseInt_range lit); destruct (ParseInt lit) as [z [e|]]; [done|by apply int64b_spec].
  pose proof (ParseUint_range lit). destruct (ParseUint lit) as [z [e|]]; [done|by apply uint64b_spec].
Qed.

Lemma decode_str_typed ctx t raw old :
  typed t old → typed t (decode_str ctx t raw old).1.
Proof. intros Ho. destruct t; cbn [decode_str]; try done. by destruct (b64_decode _) as [? []]. Qed.

Lemma decode_bool_typed ctx t b old : typed t old → typed t (decode_bool ctx t b old).1.
Proof. by destruct t. Qed.

Lemma assoc_set_keys {A} k (v : A) m :
  (assoc_set k v m).*1 = if decide (k ∈ m.*1) then m.*1 else m.*1 ++ [k].
Proof.
  induction m as [|[k' v'] m IH]; cbn; [done|].
  destruct (decide (k = k')) as [->|Hne]; cbn.
  - rewrite decide_True by (by left). done.
  - rewrite IH. do 2 case_decide; set_solver.
Qed.

Lemma assoc_set_typed t k v m :
  typed t v → typed (TMap t) (VMap (Some m)) → typed (TMap t) (VMap (Some (assoc_set k v m))).
Proof.
  rewrite !typed_map. intros Hv [Hm Hnd]. split.
  - induction m as [|[k' v'] m IH]; cbn; [by constructor|].
    apply Forall_cons in Hm as [? Hm]. cbn in Hnd. apply NoDup_cons in Hnd as [_ Hnd].
    case_decide; constructor; auto.
  - rewrite assoc_set_keys. case_decide; [done|]. apply NoDup_app. split; [done|].
    split; [|apply NoDup_singleton]. set_solver.
Qed.

(** The loop of [decode] over the entries of an object, into a map. *)
Fixpoint decode_entries (ctx : field_ctx) (t : gty) (l : list (string * json))
    (m : list (string * gval)) : list (string * gval) * option decode_error :=
  match l with
  | [] => (m, None)
  | (k, x) :: l' =>
      let '(v, e) := GoValue.decode ctx t x (zero t) in
      let '(m', e') := decode_entries ctx t l' (assoc_set (unquote k) v m) in
      (m', first_error e e')
  end.

(** ** Decoding keeps the type, one JSON value at a time *)

Definition keeps (j : json) : Prop :=
  ∀ ctx t old, typed t old → typed t (GoValue.decode ctx t j old).1.

Lemma elems_typed ctx t l :
  Forall keeps l → Forall (λ v, typed t v) (decode_elems ctx t l).1.
Proof.
  induction 1 as [|x l Hx _ IH]; cbn [decode_elems]; [constructor|].
  specialize (Hx ctx t (zero t) (zero_typed t)).
  destruct (GoValue.decode ctx t x (zero t)), (decode_elems ctx t l). by constructor.
Qed.

Lemma members_typed ctx name fs l vs :
  Forall (λ kv, keeps kv.2) l → Forall2 (λ f v, typed f.2.2 v) fs vs →
  Forall2 (λ f v, typed f.2.2 v) fs (decode_members ctx name fs l vs).1.
Proof.
  intros Hl. revert vs. induction Hl as [|[k x] l Hx _ IH]; intros vs Hvs; cbn [decode_members]; [done|].
  destruct (find_field 0 (unquote k) fs) as [[i [fname ft]]|] eqn:Hf; [|by apply IH].
  apply find_field_lookup in Hf as (i' & omit & -> & Hi). simpl.
  assert (Hold : typed ft (default (zero ft) (vs !! i'))).
  { destruct (Forall2_lookup_l _ _ _ _ _ Hvs Hi) as (v & -> & Hv). exact Hv. }
  cbn [snd] in Hx. specialize (Hx (enter_field ctx name fname) ft _ Hold).
  destruct (GoValue.decode _ ft x _) as [v e].
  specialize (IH (<[i':=v]> vs)).
  destruct (decode_members ctx name fs l _) as [vs' e']. apply IH.
  rewrite <-(list_insert_id fs i' _ Hi) at 1. apply Forall2_insert; [exact Hvs|exact Hx].
Qed.

Lemma entries_typed ctx t l m :
  Forall (λ kv, keeps kv.2) l → typed (TMap t) (VMap (Some m)) →
  typed (TMap t) (VMap (Some (decode_entries ctx t l m).1)).
Proof.
  intros Hl. revert m. induction Hl as [|[k x] l Hx _ IH]; intros m Hm; [done|].
  cbn [decode_entries]. specialize (Hx ctx t (zero t) (zero_typed t)). cbn [snd] in Hx.
  destruct (GoValue.decode ctx t x (zero t)) as [v e].
  specialize (IH _ (assoc_set_typed _ (unquote k) _ _ Hx Hm)).
  by destruct (decode_entries ctx t l _).
Qed.

Lemma base_value_base t v : base_value (base_type t) v = v.
Proof. pose proof (base_type_not_ptr t) as H. destruct (base_type t); try done. by edestruct H. Qed.

Lemma rewrap_base t v : rewrap (base_type t) v = v.
Proof. pose proof (base_type_not_ptr t) as H. destruct (base_type t); try done. by edestruct H. Qed.

Lemma base_type_idem t : base_type (base_type t) = base_type t.
Proof. induction t; done. Qed.

(** Decoding below pointers is decoding into the pointee. *)
Lemma decode_base ctx t j old :
  j ≠ JNull →
  GoValue.decode ctx t j old =
  let '(v, e) := GoValue.decode ctx (base_type t) j (base_value t old) in (rewrap t v, e).
Proof.
  intros Hj. destruct j; try done; cbn [GoValue.decode];
    rewrite ?base_type_idem, ?base_value_base;
    match goal with |- (let '(_, _) := ?x in _) = _ => destruct x as [v e] end;
    by rewrite rewrap_base.
Qed.

Lemma decode_map ctx t l m :
  GoValue.decode ctx (TMap t) (JObj l) (VMap m) =
  let '(m', e) := decode_entries ctx t l (default [] m) in (VMap (Some m'), e).
Proof.
  cbn -[decode_entries].
  match goal with
  | |- context [?f l ?m0] =>
      lazymatch f with decode_entries _ _ => fail | _ => idtac end;
      assert (E : ∀ l m, f l m = decode_entries ctx t l m);
      [|rewrite E; by destruct m, (decode_entries ctx t l _)]
  end.
  clear. induction l as [|[k x] l IH]; intros m; [done|]. cbn [decode_entries].
  destruct (GoValue.decode ctx t x (zero t)). by rewrite IH.
Qed.

(** The element of a pointer-free type from an array or an object. *)
Lemma arr_typed ctx t l old :
  (∀ t', t ≠ TPtr t') → Forall keeps l → typed t old →
  typed t (GoValue.decode ctx t (JArr l) old).1.
Proof.
  intros Hp Hl Ho. destruct t; try done; [|by destruct (Hp t)|].
  - cbn. by destruct (decode_bytes ctx l).
  - rewrite decode_slice. pose proof (elems_typed ctx t l Hl).
    destruct (decode_elems ctx t l). by apply typed_slice.
Qed.

Lemma obj_typed ctx t l old :
  (∀ t', t ≠ TPtr t') → Forall (λ kv, keeps kv.2) l → typed t old →
  typed t (GoValue.decode ctx t (JObj l) old).1.
Proof.
  intros Hp Hl Ho. destruct t; try done; [by destruct (Hp t)| |].
  - destruct old as [| | | | | | | |m| | |]; try done. rewrite decode_map.
    assert (Hm : typed (TMap t) (VMap (Some (default [] m)))) by (by destruct m).
    pose proof (entries_typed ctx t l _ Hl Hm). by destruct (decode_entries ctx t l _).
  - apply typed_struct_inv in Ho as (vs & -> & Hvs). rewrite decode_struct.
    pose proof (members_typed ctx name fields l vs Hl Hvs).
    destruct (decode_members ctx name fields l vs). by apply typed_struct.
Qed.

Lemma decode_keeps j : keeps j.
Proof.
  induction j as [|b|lit|raw|l IH|l IH] using json_tree_ind; intros ctx t old Ho.
  - by apply decode_null_typed.
  - rewrite decode_base by done. apply typed_base in Ho. cbn [GoValue.decode].
    pose proof (decode_bool_typed ctx (base_type t) b _ Ho) as H.
    rewrite base_type_idem, base_value_base. destruct (decode_bool _ _ _ _).
    rewrite rewrap_base. by apply typed_rewrap.
  - rewrite decode_base by done. apply typed_base in Ho. cbn [GoValue.decode].
    pose proof (decode_num_typed ctx (base_type t) lit _ Ho) as H.
    rewrite base_type_idem, base_value_base. destruct (decode_num _ _ _ _).
    rewrite rewrap_base. by apply typed_rewrap.
  - rewrite decode_base by done. apply typed_base in Ho. cbn [GoValue.decode].
    pose proof (decode_str_typed ctx (base_type t) raw _ Ho) as H.
    rewrite base_type_idem, base_value_base. destruct (decode_str _ _ _ _).
    rewrite rewrap_base. by apply typed_rewrap.
  - rewrite decode_base by done. apply typed_base in Ho.
    pose proof (arr_typed ctx (base_type t) l _ (base_type_not_ptr t) IH Ho).
    destruct (GoValue.decode ctx (base_type t) (JArr l) _). by apply typed_rewrap.
  - rewrite decode_base by done. apply typed_base in Ho.
    pose proof (obj_typed ctx (base_type t) l _ (base_type_not_ptr t) IH Ho).
    destruct (GoValue.decode ctx (base_type t) (JObj l) _). by apply typed_rewrap.
Qed.

(** Arguments decoded from a parameter list have the parameter types. *)
Lemma decode_typed ctx t j old v e :
  typed t old → GoValue.decode ctx t j old = (v, e) → typed t v.
Proof. intros Ho Hd. pose proof (decode_keeps j ctx t old Ho) as H. by rewrite Hd in H. Qed.
