(* ===== verification/Types.v ===== *)
(** * Package types (src/types/types.go)

    Commands, roles and the response record the service sends to the attacked
    node, with their JSON shape. *)

From S2P Require Import Prelude Strconv GoJson GoValue.

(** [type AttackerCommand int]: any integer; the constants are [iota]. *)
Definition AttackerCommand := Z.
Definition CMD_NULL : AttackerCommand := 0.
Definition CMD_CONTINUE : AttackerCommand := 1.
Definition CMD_RETURN : AttackerCommand := 2.
Definition CMD_ABORT : AttackerCommand := 3.
Definition CMD_SKIP : AttackerCommand := 4.
Definition CMD_ROLE_TO_NORMAL : AttackerCommand := 5.
Definition CMD_ROLE_TO_ATTACKER : AttackerCommand := 6.
Definition CMD_EXIT : AttackerCommand := 7.
Definition CMD_UPDATE_STATE : AttackerCommand := 8.

(** [type RoleType int]. *)
Definition RoleType := Z.
Definition NormalRole : RoleType := 0.
Definition AttackerRole : RoleType := 1.

Record AttackerResponse := Response { Cmd : AttackerCommand; Result : string }.

(** [AttackerResponse{Cmd: c}]: the result is the empty string. *)
Definition cmd_only (c : AttackerCommand) : AttackerResponse := Response c "".

#[export] Instance AttackerResponse_eq_dec : EqDecision AttackerResponse.
Proof. unfold EqDecision. intros [c1 r1] [c2 r2]. unfold Decision, AttackerCommand in *. 
  destruct (decide (c1 = c2)), (decide (r1 = r2)); [left|right|right|right]; congruence.
Defined.

#[export] Instance AttackerResponse_data : GoData AttackerResponse := {|
  go_type := TStruct "types" "AttackerResponse"
    [("cmd", (false, TInt)); ("result", (false, TString))];
  to_go r := VStruct [VInt (Cmd r); VStr (Result r)];
  of_go v := Response (field 0 v) (field 1 v)
|}.

#[export] Instance AttackerResponse_laws : GoDataLaws AttackerResponse.
Proof. by intros []. Qed.

Record ClientInfo := { UUID : string; ci_ValidatorIndex : Z }.

#[export] Instance ClientInfo_data : GoData ClientInfo := {|
  go_type := TStruct "types" "ClientInfo"
    [("uuid", (false, TString)); ("validatorIndex", (false, TInt))];
  to_go c := VStruct [VStr (UUID c); VInt (ci_ValidatorIndex c)];
  of_go v := {| UUID := field 0 v; ci_ValidatorIndex := field 1 v |}
|}.

#[export] Instance ClientInfo_laws : GoDataLaws ClientInfo.
Proof. by intros []. Qed.

(** The error of [json.Unmarshal] is dropped: what was decoded is returned. *)
Definition ToClientInfo (cliInfo : string) : ClientInfo := (unmarshal_into cliInfo).1.
