(* ===== verification/Strategy.v ===== *)
(** * Package strategy (src/strategy/strategy.go)

    The attack strategy: which validators act as attackers in which slots, and
    the delays of the block and attestation services. *)

From S2P Require Import Prelude Strconv GoJson GoValue Types.

Record ValidatorStrategy := {
  ValidatorIndex : Z;
  AttackerStartSlot : Z;
  AttackerEndSlot : Z
}.

Record BlockStrategy := {
  b_DelayEnable : bool;
  b_BroadCastDelay : Z; (* milliseconds, int64 *)
  b_ModifyEnable : bool
}.

Record AttestStrategy := {
  a_DelayEnable : bool;
  a_BroadCastDelay : Z;
  a_ModifyEnable : bool
}.

Record Strategy := {
  Validators : list ValidatorStrategy;
  Block : BlockStrategy;
  Attest : AttestStrategy
}.

Definition defaultBlockStrategy : BlockStrategy :=
  {| b_DelayEnable := false; b_BroadCastDelay := 3000; b_ModifyEnable := false |}.
Definition defaultAttestStrategy : AttestStrategy :=
  {| a_DelayEnable := false; a_BroadCastDelay := 3000; a_ModifyEnable := false |}.

#[export] Instance ValidatorStrategy_data : GoData ValidatorStrategy := {|
  go_type := TStruct "strategy" "ValidatorStrategy"
    [("validator_index", (false, TInt)); ("attacker_start_slot", (false, TInt));
     ("attacker_end_slot", (false, TInt))];
  to_go v := VStruct [VInt (ValidatorIndex v); VInt (AttackerStartSlot v); VInt (AttackerEndSlot v)];
  of_go v := {| ValidatorIndex := field 0 v; AttackerStartSlot := field 1 v;
                AttackerEndSlot := field 2 v |}
|}.

#[export] Instance BlockStrategy_data : GoData BlockStrategy := {|
  go_type := TStruct "strategy" "BlockStrategy"
    [("delay_enable", (false, TBool)); ("broad_cast_delay", (false, TInt64));
     ("modify_enable", (false, TBool))];
  to_go b := VStruct [VBool (b_DelayEnable b); VInt (b_BroadCastDelay b); VBool (b_ModifyEnable b)];
  of_go v := {| b_DelayEnable := field 0 v; b_BroadCastDelay := field 1 v;
                b_ModifyEnable := field 2 v |}
|}.

#[export] Instance AttestStrategy_data : GoData AttestStrategy := {|
  go_type := TStruct "strategy" "AttestStrategy"
    [("delay_enable", (false, TBool)); ("broad_cast_delay", (false, TInt64));
     ("modify_enable", (false, TBool))];
  to_go a := VStruct [VBool (a_DelayEnable a); VInt (a_BroadCastDelay a); VBool (a_ModifyEnable a)];
  of_go v := {| a_DelayEnable := field 0 v; a_BroadCastDelay := field 1 v;
                a_ModifyEnable := field 2 v |}
|}.

#[export] Instance Strategy_data : GoData Strategy := {|
  go_type := TStruct "strategy" "Strategy"
    [("validator", (false, go_type (list ValidatorStrategy)));
     ("block", (false, go_type BlockStrategy));
     ("attest", (false, go_type AttestStrategy))];
  to_go s := VStruct [to_go (Validators s); to_go (Block s); to_go (Attest s)];
  of_go v := {| Validators := field 0 v; Block := field 1 v; Attest := field 2 v |}
|}.

#[export] Instance ValidatorStrategy_laws : GoDataLaws ValidatorStrategy.
Proof. by intros []. Qed.
#[export] Instance BlockStrategy_laws : GoDataLaws BlockStrategy.
Proof. by intros []. Qed.
#[export] Instance AttestStrategy_laws : GoDataLaws AttestStrategy.
Proof. by intros []. Qed.

(** [(s *Strategy) GetValidatorRole(valIdx, slot)]: the loop over the entries. *)
Fixpoint role_in (vs : list ValidatorStrategy) (valIdx slot : Z) : RoleType :=
  match vs with
  | [] => NormalRole
  | v :: vs' =>
      if decide (ValidatorIndex v = valIdx) then
        if (AttackerStartSlot v <=? slot) && (slot <=? AttackerEndSlot v)
        then AttackerRole
        else role_in vs' valIdx slot
      else role_in vs' valIdx slot
  end.

Definition GetValidatorRole (s : Strategy) (valIdx slot : Z) : RoleType :=
  role_in (Validators s) valIdx slot.

(** [file] is what [os.ReadFile] returned, [None] for an error. *)
Definition ParseStrategy (file : option string) : Strategy :=
  let defautConfig :=
    {| Validators := []; Block := defaultBlockStrategy; Attest := defaultAttestStrategy |} in
  match file with
  | None => defautConfig
  | Some d =>
      match unmarshal_into d with
      | (_, Some _) => defautConfig
      | (s, None) => s
      end
  end.

(** ** Lemmas *)

(** An entry of the strategy makes [valIdx] an attacker in [slot]. *)
Definition attacks (v : ValidatorStrategy) (valIdx slot : Z) : Prop :=
  ValidatorIndex v = valIdx ∧ AttackerStartSlot v ≤ slot ≤ AttackerEndSlot v.

#[export] Instance attacks_dec v valIdx slot : Decision (attacks v valIdx slot).
Proof. unfold attacks. apply _. Defined.

Lemma role_in_spec vs valIdx slot :
  role_in vs valIdx slot =
    if decide (Exists (λ v, attacks v valIdx slot) vs) then AttackerRole else NormalRole.
Proof.
  induction vs as [|v vs IH]; cbn [role_in].
  - rewrite decide_False; [done|by inversion 1].
  - unfold attacks in *. destruct (decide (ValidatorIndex v = valIdx)) as [Hv|Hv].
    + destruct ((AttackerStartSlot v <=? slot) && (slot <=? AttackerEndSlot v)) eqn:E.
      * rewrite decide_True; [done|]. left. split; [done|lia].
      * rewrite IH. apply decide_ext. rewrite Exists_cons.
        assert (¬ (AttackerStartSlot v ≤ slot ≤ AttackerEndSlot v)) by lia. tauto.
    + rewrite IH. apply decide_ext. rewrite Exists_cons. tauto.
Qed.

Lemma role_in_binary vs valIdx slot :
  role_in vs valIdx slot = AttackerRole ∨ role_in vs valIdx slot = NormalRole.
Proof. rewrite role_in_spec. case_decide; auto. Qed.

(** * Properties *)

(** A validator has the attacker role in a slot exactly when one of its
    entries in the strategy covers the slot, whatever the order of the
    entries and the other entries for the same validator say; every other
    validator is normal, and a node without a readable strategy file has no
    attacker at all. *)
Theorem GetValidatorRole_correct (s : Strategy) (valIdx slot : Z) :
  (GetValidatorRole s valIdx slot = AttackerRole ↔
     ∃ v, v ∈ Validators s ∧ ValidatorIndex v = valIdx ∧
       AttackerStartSlot v ≤ slot ≤ AttackerEndSlot v) ∧
  (GetValidatorRole s valIdx slot ≠ AttackerRole → GetValidatorRole s valIdx slot = NormalRole) ∧
  GetValidatorRole (ParseStrategy None) valIdx slot = NormalRole.
Proof.
  unfold GetValidatorRole. split; [|split; [|done]].
  - rewrite role_in_spec. case_decide as E; rewrite Exists_exists in E; [tauto|].
    split; [done|]. intros (v & Hv & Ha). destruct E. by exists v.
  - destruct (role_in_binary (Validators s) valIdx slot); tauto.
Qed.

(** * The strategy file of the repository (src/strategy.json)

    Its key "enable" is no key of the structs: the delay of the blocks stays
    switched off even when the file says "enable": true. *)

Example strategy_json_enable :
  Block (ParseStrategy (Some (jq
    "{'validator':[{'validator_index':1,'attacker_start_slot':1,'attacker_end_slot':1000}],
      'block':{'enable':true,'broad_cast_delay':40000}, 'attest':{'enable':true}}")))
  = {| b_DelayEnable := false; b_BroadCastDelay := 40000; b_ModifyEnable := false |}.
Proof. vm_compute. reflexivity. Qed.
