(* ===== verification/ValidatorSet.v ===== *)
(** * Package validatorSet (src/validatorSet/validatorSet.go)

    The validators seen in the attester duties, and the signed attestations
    and blocks received per slot.  The [lock] of the data set makes every
    operation atomic; an operation is a function on the data set.  The
    pointers to [ValidatorInfo] are shared by the two indexes but never
    written after their creation, so they are values here. *)

From S2P Require Import Prelude.

Record ValidatorInfo := { Index : Z; Pubkey : string }.

Section validator_set.
(** [ethpb.Attestation] and [ethpb.GenericSignedBeaconBlock]. *)
Context {Att Blk : Type}.

Record SlotAttestSet := { Attestations : gmap string Att }.
Record SlotBlockSet := { Blocks : gmap string Blk }.

Record ValidatorDataSet := {
  ValidatorByIndex : gmap Z ValidatorInfo;
  ValidatorByPubkey : gmap string ValidatorInfo;
  AttestSet : gmap Z SlotAttestSet;
  BlockSet : gmap Z SlotBlockSet
}.

Definition NewValidatorSet : ValidatorDataSet :=
  {| ValidatorByIndex := ∅; ValidatorByPubkey := ∅; AttestSet := ∅; BlockSet := ∅ |}.

Definition padPubkey (p : string) : string :=
  if HasPrefix p "0x" then p else "0x" +:+ p.

Definition AddValidator (index : Z) (pubkey : string) (vs : ValidatorDataSet)
    : ValidatorDataSet :=
  let pubkey := padPubkey pubkey in
  let v := {| Index := to_int64 index; Pubkey := pubkey |} in
  {| ValidatorByIndex := <[index := v]> (ValidatorByIndex vs);
     ValidatorByPubkey := <[pubkey := v]> (ValidatorByPubkey vs);
     AttestSet := AttestSet vs;
     BlockSet := BlockSet vs |}.

Definition GetValidatorByIndex (index : Z) (vs : ValidatorDataSet) : option ValidatorInfo :=
  ValidatorByIndex vs !! index.

Definition GetValidatorByPubkey (pubkey : string) (vs : ValidatorDataSet)
    : option ValidatorInfo :=
  ValidatorByPubkey vs !! padPubkey pubkey.

Definition GetAttestSet (slot : Z) (vs : ValidatorDataSet) : option SlotAttestSet :=
  AttestSet vs !! slot.

Definition GetBlockSet (slot : Z) (vs : ValidatorDataSet) : option SlotBlockSet :=
  BlockSet vs !! slot.

(** The inner map is created on the first write of a slot. *)
Definition AddSignedAttestation (slot : Z) (pubkey : string) (attestation : Att)
    (vs : ValidatorDataSet) : ValidatorDataSet :=
  let pubkey := padPubkey pubkey in
  let sets :=
    match AttestSet vs !! slot with
    | Some _ => AttestSet vs
    | None => <[slot := {| Attestations := ∅ |}]> (AttestSet vs)
    end in
  {| ValidatorByIndex := ValidatorByIndex vs;
     ValidatorByPubkey := ValidatorByPubkey vs;
     AttestSet :=
       alter (λ s, {| Attestations := <[pubkey := attestation]> (Attestations s) |}) slot sets;
     BlockSet := BlockSet vs |}.

Definition AddSignedBlock (slot : Z) (pubkey : string) (block : Blk)
    (vs : ValidatorDataSet) : ValidatorDataSet :=
  let pubkey := padPubkey pubkey in
  let sets :=
    match BlockSet vs !! slot with
    | Some _ => BlockSet vs
    | None => <[slot := {| Blocks := ∅ |}]> (BlockSet vs)
    end in
  {| ValidatorByIndex := ValidatorByIndex vs;
     ValidatorByPubkey := ValidatorByPubkey vs;
     AttestSet := AttestSet vs;
     BlockSet := alter (λ s, {| Blocks := <[pubkey := block]> (Blocks s) |}) slot sets |}.

(** ** Abstract view: one finite map from (slot, padded key) to the object *)

Definition attestation_at (vs : ValidatorDataSet) (slot : Z) (key : string) : option Att :=
  s ← AttestSet vs !! slot; Attestations s !! key.

Definition block_at (vs : ValidatorDataSet) (slot : Z) (key : string) : option Blk :=
  s ← BlockSet vs !! slot; Blocks s !! key.

(** Keys are padded, and the two indexes hold what their keys say. *)
Record vset_wf (vs : ValidatorDataSet) : Prop := {
  wf_index : ∀ i v, ValidatorByIndex vs !! i = Some v →
    Index v = to_int64 i ∧ HasPrefix (Pubkey v) "0x" = true;
  wf_pubkey : ∀ k v, ValidatorByPubkey vs !! k = Some v →
    Pubkey v = k ∧ HasPrefix k "0x" = true;
  wf_attest : ∀ slot k a, attestation_at vs slot k = Some a → HasPrefix k "0x" = true;
  wf_block : ∀ slot k b, block_at vs slot k = Some b → HasPrefix k "0x" = true
}.

(** Every stored attestation belongs to a known validator. *)
Definition attesters_known (vs : ValidatorDataSet) : Prop :=
  ∀ slot k a, attestation_at vs slot k = Some a → is_Some (ValidatorByPubkey vs !! k).

(** ** Lemmas *)

Lemma padPubkey_prefix p : HasPrefix (padPubkey p) "0x" = true.
Proof.
  unfold padPubkey. destruct (HasPrefix p "0x") eqn:E; [done|]. apply prefix_app.
Qed.

Lemma padPubkey_padded p : HasPrefix p "0x" = true → padPubkey p = p.
Proof. unfold padPubkey. by intros ->. Qed.

Lemma padPubkey_idem p : padPubkey (padPubkey p) = padPubkey p.
Proof. apply padPubkey_padded, padPubkey_prefix. Qed.

Lemma attestation_at_add vs slot pubkey a slot' k :
  attestation_at (AddSignedAttestation slot pubkey a vs) slot' k =
    if decide (slot = slot' ∧ padPubkey pubkey = k) then Some a
    else attestation_at vs slot' k.
Proof.
  unfold attestation_at, AddSignedAttestation. simpl.
  destruct (decide (slot = slot')) as [<-|Hne].
  - destruct (AttestSet vs !! slot) as [s|] eqn:E.
    + rewrite lookup_alter_eq, E. simpl. rewrite lookup_insert.
      repeat case_decide; naive_solver.
    + rewrite lookup_alter_eq, lookup_insert_eq. simpl. rewrite lookup_insert.
      repeat case_decide; naive_solver.
  - rewrite lookup_alter_ne by done.
    destruct (AttestSet vs !! slot); [|rewrite lookup_insert_ne by done];
      case_decide; naive_solver.
Qed.

Lemma block_at_add vs slot pubkey b slot' k :
  block_at (AddSignedBlock slot pubkey b vs) slot' k =
    if decide (slot = slot' ∧ padPubkey pubkey = k) then Some b else block_at vs slot' k.
Proof.
  unfold block_at, AddSignedBlock. simpl.
  destruct (decide (slot = slot')) as [<-|Hne].
  - destruct (BlockSet vs !! slot) as [s|] eqn:E.
    + rewrite lookup_alter_eq, E. simpl. rewrite lookup_insert.
      repeat case_decide; naive_solver.
    + rewrite lookup_alter_eq, lookup_insert_eq. simpl. rewrite lookup_insert.
      repeat case_decide; naive_solver.
  - rewrite lookup_alter_ne by done.
    destruct (BlockSet vs !! slot); [|rewrite lookup_insert_ne by done];
      case_decide; naive_solver.
Qed.

Lemma vset_wf_new : vset_wf NewValidatorSet.
Proof. split; unfold attestation_at, block_at; simpl; intros *; rewrite lookup_empty; done. Qed.

Lemma vset_wf_add_validator i p vs : vset_wf vs → vset_wf (AddValidator i p vs).
Proof.
  intros [Hi Hp Ha Hb]. split; simpl.
  - intros j v. rewrite lookup_insert. case_decide; [|apply Hi].
    intros ?; simplify_eq. simpl. auto using padPubkey_prefix.
  - intros k v. rewrite lookup_insert. case_decide; [|apply Hp].
    intros ?; simplify_eq. simpl. auto using padPubkey_prefix.
  - apply Ha.
  - apply Hb.
Qed.

Lemma vset_wf_add_attestation slot p a vs :
  vset_wf vs → vset_wf (AddSignedAttestation slot p a vs).
Proof.
  intros [Hi Hp Ha Hb]. split; [apply Hi|apply Hp| |apply Hb].
  intros slot' k a'. rewrite attestation_at_add. case_decide as E; [|apply Ha].
  destruct E as [_ <-]. intros _. apply padPubkey_prefix.
Qed.

Lemma vset_wf_add_block slot p b vs : vset_wf vs → vset_wf (AddSignedBlock slot p b vs).
Proof.
  intros [Hi Hp Ha Hb]. split; [apply Hi|apply Hp|apply Ha|].
  intros slot' k b'. rewrite block_at_add. case_decide as E; [|apply Hb].
  destruct E as [_ <-]. intros _. apply padPubkey_prefix.
Qed.

Lemma attesters_known_new : attesters_known NewValidatorSet.
Proof. intros slot k a. unfold attestation_at. simpl. by rewrite lookup_empty. Qed.

Lemma attesters_known_add_validator i p vs :
  attesters_known vs → attesters_known (AddValidator i p vs).
Proof.
  intros H slot k a Ha. simpl. rewrite lookup_insert. case_decide; [by eexists|].
  by apply (H slot k a).
Qed.

Lemma attesters_known_add_attestation slot p a vs :
  is_Some (GetValidatorByPubkey p vs) →
  attesters_known vs → attesters_known (AddSignedAttestation slot p a vs).
Proof.
  intros Hp H slot' k a'. rewrite attestation_at_add. simpl.
  case_decide as E; [|apply H]. destruct E as [_ <-]. by intros _.
Qed.

(** ** Histories *)

Inductive vset_op :=
| OpAddValidator (index : Z) (pubkey : string)
| OpAddSignedAttestation (slot : Z) (pubkey : string) (a : Att)
| OpAddSignedBlock (slot : Z) (pubkey : string) (b : Blk).

Definition vset_step (vs : ValidatorDataSet) (op : vset_op) : ValidatorDataSet :=
  match op with
  | OpAddValidator i p => AddValidator i p vs
  | OpAddSignedAttestation slot p a => AddSignedAttestation slot p a vs
  | OpAddSignedBlock slot p b => AddSignedBlock slot p b vs
  end.

Definition vset_run (ops : list vset_op) : ValidatorDataSet := foldl vset_step NewValidatorSet ops.

(** The last entry of a history that [f] selects. *)
Definition last_such {X} (f : vset_op → option X) (ops : list vset_op) : option X :=
  foldl (λ acc op, match f op with Some x => Some x | None => acc end) None ops.

Lemma last_such_snoc {X} (f : vset_op → option X) ops op :
  last_such f (ops ++ [op]) = match f op with Some x => Some x | None => last_such f ops end.
Proof. unfold last_such. by rewrite foldl_app. Qed.

Lemma vset_run_snoc ops op : vset_run (ops ++ [op]) = vset_step (vset_run ops) op.
Proof. unfold vset_run. by rewrite foldl_app. Qed.

(** A reading that starts empty and that each operation updates where it is
    selected reads the last selected operation. *)
Lemma vset_run_last {X} (read : ValidatorDataSet → option X) (f : vset_op → option X) ops :
  read NewValidatorSet = None →
  (∀ vs op, read (vset_step vs op) = match f op with Some x => Some x | None => read vs end) →
  read (vset_run ops) = last_such f ops.
Proof.
  intros H0 Hstep. induction ops as [|op ops IH] using rev_ind; [done|].
  by rewrite vset_run_snoc, last_such_snoc, Hstep, IH.
Qed.
End validator_set.

Arguments SlotAttestSet : clear implicits.
Arguments SlotBlockSet : clear implicits.
Arguments ValidatorDataSet : clear implicits.

#[export] Hint Resolve vset_wf_new vset_wf_add_validator vset_wf_add_attestation
  vset_wf_add_block attesters_known_new attesters_known_add_validator : gom.

(** * Properties *)

(** C40: after any sequence of additions the data set answers each question
    with the last addition that concerns it: by index, by public key (with or
    without 0x), and for a slot and a public key the attestation and the block
    signed last; keys that differ only in the prefix 0x are the same key, and
    all stored keys carry it. *)
Theorem vset_history {Att Blk} (ops : list (@vset_op Att Blk)) :
  let vs := vset_run ops in
  (∀ i, GetValidatorByIndex i vs = last_such (λ op, match op with
     | OpAddValidator j p =>
         if decide (j = i) then Some {| Index := to_int64 i; Pubkey := padPubkey p |} else None
     | _ => None end) ops) ∧
  (∀ pubkey, GetValidatorByPubkey pubkey vs = last_such (λ op, match op with
     | OpAddValidator j p =>
         if decide (padPubkey p = padPubkey pubkey)
         then Some {| Index := to_int64 j; Pubkey := padPubkey pubkey |} else None
     | _ => None end) ops) ∧
  (∀ slot pubkey, (s ← GetAttestSet slot vs; Attestations s !! padPubkey pubkey) =
     last_such (λ op, match op with
     | OpAddSignedAttestation slot' p a =>
         if decide (slot' = slot ∧ padPubkey p = padPubkey pubkey) then Some a else None
     | _ => None end) ops) ∧
  (∀ slot pubkey, (s ← GetBlockSet slot vs; Blocks s !! padPubkey pubkey) =
     last_such (λ op, match op with
     | OpAddSignedBlock slot' p b =>
         if decide (slot' = slot ∧ padPubkey p = padPubkey pubkey) then Some b else None
     | _ => None end) ops) ∧
  vset_wf vs.
Proof.
  intros vs. subst vs. split_and!.
  - intros i. apply (vset_run_last (GetValidatorByIndex i)); [apply lookup_empty|].
    intros vs []; try done. unfold GetValidatorByIndex. simpl. rewrite lookup_insert.
    by case_decide; subst.
  - intros k. apply (vset_run_last (GetValidatorByPubkey k)); [apply lookup_empty|].
    intros vs []; try done. unfold GetValidatorByPubkey. simpl. rewrite lookup_insert.
    case_decide as E; [by rewrite E|done].
  - intros slot k. apply (vset_run_last (λ vs, attestation_at vs slot (padPubkey k))); [done|].
    intros vs []; try done. simpl. rewrite attestation_at_add. by case_decide.
  - intros slot k. apply (vset_run_last (λ vs, block_at vs slot (padPubkey k))); [done|].
    intros vs []; try done. simpl. rewrite block_at_add. by case_decide.
  - induction ops as [|op ops IH] using rev_ind; [apply vset_wf_new|].
    rewrite vset_run_snoc. destruct op; simpl; auto with gom.
Qed.
