(* ===== verification/Atts.v ===== *)
(** * Package types, attestation lists (src/types/atts.go)

    Filtering, deduplication, profitability order and truncation of a list of
    attestations.  The attestation type, its bit lists, the hash of its data
    and the max-cover algorithm are third-party code (prysm, go-bitfield):
    they are the operations of the class [AttestationLib], and what the code
    relies on is the class [AttestationLaws].  Attestations carry non-nil
    [Data], as the third-party methods require. *)

From S2P Require Import Prelude.
Local Open Scope nat_scope.

Class AttestationLib := {
  Att : Type;
  Bits : Type;                        (* go-bitfield Bitlist *)
  Bits64 : Type;                      (* go-bitfield Bitlist64 *)
  AggregationBits : Att → Bits;
  Data_Slot : Att → Z;
  HashTreeRoot : Att → option string; (* att.Data.HashTreeRoot(), None on error *)
  Contains : Bits → Bits → option bool;
  BitCount : Bits → Z;
  ToBitlist64 : Bits → option Bits64;
  (* aggregation.MaxCover: BitIndices of the selected keys and of their complement *)
  MaxCover : list Bits64 → nat → bool → option (list nat * list nat);
  VerifyAttestationNoVerifySignature : Att → bool;
  Aggregate : list Att → option (list Att); (* attaggregation.Aggregate *)
  MaxAttestations : Z                 (* params.BeaconConfig().MaxAttestations *)
}.

(** Documented behaviour of the third-party code: [Contains] is inclusion of
    bit sets, and [MaxCover] returns a bit list over the candidates. *)
Class AttestationLaws (L : AttestationLib) : Prop := {
  Contains_refl : ∀ b, Contains b b = Some true;
  Contains_trans : ∀ a b c,
    Contains a b = Some true → Contains b c = Some true → Contains a c = Some true;
  MaxCover_partition : ∀ cs k ov sel rest,
    MaxCover cs k ov = Some (sel, rest) → sel ++ rest ≡ₚ seq 0 (length cs);
  MaxAttestations_uint64 : is_uint64 MaxAttestations
}.

Section atts.
Context `{L : AttestationLib} `{!RangeOrder} `{!SortSlice}.

Abbreviation ProposerAtts := (list Att).

(** [Filter]: the attestations that pass the check, and the others. *)
Fixpoint Filter (a : ProposerAtts) : ProposerAtts * ProposerAtts :=
  match a with
  | [] => ([], [])
  | att :: a' =>
      let '(validAtts, invalidAtts) := Filter a' in
      if VerifyAttestationNoVerifySignature att
      then (att :: validAtts, invalidAtts)
      else (validAtts, att :: invalidAtts)
  end.

(** The closure [selectAtts] of [SortByProfitabilityUsingMaxCover]: a Go
    error is [Ret None], an index out of range panics. *)
Definition pick (atts : ProposerAtts) (keys : list nat) : outcome ProposerAtts :=
  mapM (λ key, match atts !! key with
               | Some att => Ret att
               | None => Panic (IndexOutOfRange "atts")
               end) keys.

Definition by_count (l : ProposerAtts) : ProposerAtts :=
  sort_slice (λ x y, (BitCount (AggregationBits y) <? BitCount (AggregationBits x))%Z) l.

Definition selectAtts (atts : ProposerAtts) : outcome (option ProposerAtts) :=
  if decide (length atts < 2) then Ret (Some atts)
  else
    match mapM (λ att, ToBitlist64 (AggregationBits att)) atts with
    | None => Ret None
    | Some candidates =>
        match MaxCover candidates (length candidates) true with
        | Some (selectedKeys, notSelected) =>
            selectedAtts ← pick atts selectedKeys;
            leftoverAtts ← pick atts notSelected;
            Ret (Some (by_count selectedAtts ++ by_count leftoverAtts))
        | None => Ret (Some atts)
        end
    end.

(** The slots in the order they are met, and the attestations of each. *)
Definition slot_step (acc : list Z * gmap Z ProposerAtts) (att : Att)
    : list Z * gmap Z ProposerAtts :=
  let '(slots, attsBySlot) := acc in
  let slot := Data_Slot att in
  (match attsBySlot !! slot with None => slots ++ [slot] | Some _ => slots end,
   group_append slot att attsBySlot).

Definition group_by_slot (a : ProposerAtts) : list Z * gmap Z ProposerAtts :=
  foldl slot_step ([], ∅) a.

Fixpoint select_slots (attsBySlot : gmap Z ProposerAtts) (slots : list Z)
    (sortedAtts : ProposerAtts) : outcome (option ProposerAtts) :=
  match slots with
  | [] => Ret (Some sortedAtts)
  | slot :: slots' =>
      r ← selectAtts (default [] (attsBySlot !! slot));
      match r with
      | None => Ret None
      | Some selected => select_slots attsBySlot slots' (sortedAtts ++ selected)
      end
  end.

Definition SortByProfitabilityUsingMaxCover (a : ProposerAtts)
    : outcome (option ProposerAtts) :=
  let '(slots, attsBySlot) := group_by_slot a in
  let slots := sort_slice (λ x y, (y <? x)%Z) slots in
  select_slots attsBySlot slots [].

Definition SortByProfitability (a : ProposerAtts) : outcome (option ProposerAtts) :=
  if decide (length a < 2) then Ret (Some a)
  else SortByProfitabilityUsingMaxCover a.

Definition LimitToMaxAttestations (a : ProposerAtts) : ProposerAtts :=
  if decide (MaxAttestations < Z.of_nat (length a))%Z
  then take (Z.to_nat MaxAttestations) a
  else a.

(** [s[k] = s[len(s)-1]; s = s[:len(s)-1]]. *)
Definition swap_remove (k : nat) (l : ProposerAtts) : ProposerAtts :=
  match last l with
  | Some z => take (length l - 1) (<[k := z]> l)
  | None => l
  end.

(** The inner loop of [Dedup] on the group [atts] for a fixed [i]: [None]
    when the fuel is exhausted, [Some None] for a Go error; the boolean is
    true when [atts[i]] was found redundant (the [break]). *)
Fixpoint dedup_inner (fuel i j : nat) (atts : ProposerAtts)
    : option (option (ProposerAtts * bool)) :=
  match fuel with
  | O => None
  | S fuel' =>
      match atts !! i, atts !! j with
      | Some a, Some b =>
          match Contains (AggregationBits a) (AggregationBits b) with
          | None => Some None
          | Some true => (* a contains b, b is redundant *)
              dedup_inner fuel' i j (swap_remove j atts)
          | Some false =>
              match Contains (AggregationBits b) (AggregationBits a) with
              | None => Some None
              | Some true => (* b contains a, a is redundant *)
                  Some (Some (swap_remove i atts, true))
              | Some false => dedup_inner fuel' i (S j) atts
              end
          end
      | _, _ => Some (Some (atts, false)) (* j < len(atts) fails *)
      end
  end.

Fixpoint dedup_outer (fuel i : nat) (atts : ProposerAtts) : option (option ProposerAtts) :=
  match fuel with
  | O => None
  | S fuel' =>
      if decide (i < length atts) then
        match dedup_inner (S (length atts)) i (S i) atts with
        | None => None
        | Some None => Some None
        | Some (Some (atts', removed)) =>
            dedup_outer fuel' (if removed : bool then i else S i) atts'
        end
      else Some (Some atts)
  end.

Definition dedup_group (atts : ProposerAtts) : option (option ProposerAtts) :=
  dedup_outer (S (length atts)) 0 atts.

(** [attsByDataRoot]; attestations whose root cannot be computed are skipped. *)
Definition root_step (m : gmap string ProposerAtts) (att : Att) : gmap string ProposerAtts :=
  match HashTreeRoot att with
  | Some root => group_append root att m
  | None => m
  end.

Definition group_by_root (a : ProposerAtts) : gmap string ProposerAtts := foldl root_step ∅ a.

Fixpoint dedup_groups (gs : list (string * ProposerAtts)) (uniqAtts : ProposerAtts)
    : option (option ProposerAtts) :=
  match gs with
  | [] => Some (Some uniqAtts)
  | (_, atts) :: gs' =>
      match dedup_group atts with
      | None => None
      | Some None => Some None
      | Some (Some atts') => dedup_groups gs' (uniqAtts ++ atts')
      end
  end.

(** [site] selects the iteration order of the map in this call. *)
Definition Dedup (site : nat) (a : ProposerAtts) : option (option ProposerAtts) :=
  if decide (length a < 2) then Some (Some a)
  else dedup_groups (range_order site (group_by_root a)) [].
End atts.

(** * Lemmas *)

Section lemmas.
Context `{L : AttestationLib} `{!RangeOrder} `{!SortSlice}.
Implicit Types (atts : list Att).

(** ** Filter *)

Lemma Filter_spec (a : list Att) :
  Filter a = (filter (λ x, VerifyAttestationNoVerifySignature x = true) a,
              filter (λ x, ¬ VerifyAttestationNoVerifySignature x = true) a).
Proof.
  induction a as [|x a IH]; [done|]. cbn [Filter]. rewrite IH, !filter_cons.
  by destruct (VerifyAttestationNoVerifySignature x).
Qed.

(** ** swap_remove *)

Lemma swap_remove_length k atts :
  atts ≠ [] → length (swap_remove k atts) = length atts - 1.
Proof.
  intros Hne. unfold swap_remove. destruct (last atts) eqn:E.
  - rewrite length_take, length_insert. lia.
  - by apply last_None in E.
Qed.

Lemma swap_remove_snoc k atts z :
  swap_remove k (atts ++ [z]) = if decide (k < length atts) then <[k := z]> atts else atts.
Proof.
  unfold swap_remove. rewrite last_snoc, length_app. simpl.
  replace (length atts + 1 - 1) with (length atts) by lia. case_decide.
  - rewrite insert_app_l by done. rewrite take_app_le by (rewrite length_insert; lia).
    apply take_ge. by rewrite length_insert.
  - rewrite insert_app_r_alt by lia. by rewrite take_app_length.
Qed.

Lemma swap_remove_perm k atts x : atts !! k = Some x → atts ≡ₚ x :: swap_remove k atts.
Proof.
  destruct atts as [|z atts _] using rev_ind; [done|]. rewrite swap_remove_snoc.
  intros Hk. case_decide as Hlt.
  - rewrite lookup_app_l in Hk by done.
    rewrite <-(take_drop_middle atts k x Hk) at 1.
    rewrite (insert_take_drop atts k z Hlt).
    rewrite <-!app_assoc. simpl. rewrite <-Permutation_middle. f_equiv.
    f_equiv. by rewrite Permutation_app_comm.
  - rewrite lookup_app_r in Hk by lia. apply list_lookup_singleton_Some in Hk as [_ ->].
    by rewrite Permutation_app_comm.
Qed.

Lemma swap_remove_lookup k atts q y :
  swap_remove k atts !! q = Some y →
  ∃ q', atts !! q' = Some y ∧ (q < k → q' = q) ∧ (k ≤ q → k ≤ q').
Proof.
  destruct atts as [|z atts _] using rev_ind; [done|]. rewrite swap_remove_snoc.
  case_decide as Hlt; intros Hq.
  - destruct (decide (q = k)) as [->|Hne].
    + rewrite list_lookup_insert_eq in Hq by done. simplify_eq. exists (length atts).
      rewrite lookup_app_r, Nat.sub_diag by lia. simpl. split; [done|lia].
    + rewrite list_lookup_insert_ne in Hq by done. exists q.
      rewrite (lookup_app_l_Some _ _ _ _ Hq). split; [done|lia].
  - exists q. rewrite (lookup_app_l_Some _ _ _ _ Hq). split; [done|lia].
Qed.

Lemma swap_remove_lookup_lt k atts q :
  q < k → k < length atts → swap_remove k atts !! q = atts !! q.
Proof.
  intros Hq Hk. destruct atts as [|z atts _] using rev_ind; [done|]. rewrite swap_remove_snoc.
  rewrite length_app in Hk. simpl in Hk. rewrite lookup_app_l by lia.
  case_decide; [|done]. by rewrite list_lookup_insert_ne by lia.
Qed.

Lemma swap_remove_elem k atts q y :
  q ≠ k → k < length atts → atts !! q = Some y → y ∈ swap_remove k atts.
Proof.
  intros Hne Hlen Hq. destruct atts as [|z atts _] using rev_ind; [done|].
  rewrite length_app in Hlen. simpl in Hlen. rewrite swap_remove_snoc. apply lookup_app_Some in Hq as [Hq|[Hge Hq]].
  - case_decide; [|by eapply list_elem_of_lookup_2].
    apply (list_elem_of_lookup_2 _ q). by rewrite list_lookup_insert_ne.
  - apply list_lookup_singleton_Some in Hq as [Hq ->]. assert (q = length atts) by lia. subst.
    case_decide; [|lia]. apply (list_elem_of_lookup_2 _ k). by apply list_lookup_insert_eq.
Qed.

Lemma swap_remove_submseteq k atts x : atts !! k = Some x → swap_remove k atts ⊆+ atts.
Proof. intros Hk. rewrite (swap_remove_perm k atts x Hk) at 2. by apply submseteq_cons. Qed.

(** ** Dedup *)

Definition bits (x : Att) : Bits := AggregationBits x.
Definition covers (x y : Att) : Prop := Contains (bits x) (bits y) = Some true.
Definition apart (x y : Att) : Prop :=
  Contains (bits x) (bits y) = Some false ∧ Contains (bits y) (bits x) = Some false.

(** Every attestation of [atts0] is covered by one that is kept. *)
Definition all_covered (atts0 atts : list Att) : Prop :=
  ∀ x, x ∈ atts0 → ∃ y, y ∈ atts ∧ covers y x.

(** The attestations before [i] are apart from all the later ones. *)
Definition settled (i : nat) (atts : list Att) : Prop :=
  ∀ p q x y, p < i → p < q → atts !! p = Some x → atts !! q = Some y → apart x y.

(** [atts !! i] is apart from the attestations between [i] and [j]. *)
Definition scanned (i j : nat) (atts : list Att) : Prop :=
  ∀ q x y, i < q < j → atts !! i = Some x → atts !! q = Some y → apart x y.

Record dedup_inv (atts0 : list Att) (i : nat) (atts : list Att) : Prop := {
  di_sub : atts ⊆+ atts0;
  di_cov : all_covered atts0 atts;
  di_set : settled i atts
}.

Section laws.
Context `{!AttestationLaws L}.

Lemma all_covered_remove atts0 atts k q a b :
  all_covered atts0 atts → q ≠ k → atts !! k = Some b → atts !! q = Some a →
  covers a b → all_covered atts0 (swap_remove k atts).
Proof.
  intros Hcov Hne Hk Hq Hab x Hx. destruct (Hcov x Hx) as (y & Hy & Hyx).
  assert (Ha : a ∈ swap_remove k atts).
  { eapply swap_remove_elem; eauto using lookup_lt_Some. }
  rewrite (swap_remove_perm k atts b Hk) in Hy. apply elem_of_cons in Hy as [->|Hy].
  - exists a. split; [done|]. unfold covers in *. by eapply Contains_trans.
  - by exists y.
Qed.

Lemma settled_remove i k atts : i ≤ k → settled i atts → settled i (swap_remove k atts).
Proof.
  intros Hik Hs p q x y Hp Hpq Hx Hy.
  apply swap_remove_lookup in Hx as (p' & Hx & Hp1 & _).
  apply swap_remove_lookup in Hy as (q' & Hy & Hq1 & Hq2).
  rewrite Hp1 in Hx by lia. apply (Hs p q'); try done.
  destruct (decide (q < k)); [rewrite Hq1; lia|]. lia.
Qed.

Lemma dedup_inv_remove atts0 i k q atts a b :
  dedup_inv atts0 i atts → i ≤ k → q ≠ k → atts !! k = Some b → atts !! q = Some a →
  covers a b → dedup_inv atts0 i (swap_remove k atts).
Proof.
  intros [H1 H2 H3] Hik Hne Hk Hq Hab. split.
  - etransitivity; [by eapply swap_remove_submseteq|done].
  - by eapply all_covered_remove.
  - by apply settled_remove.
Qed.

Lemma dedup_inv_next atts0 i j atts :
  dedup_inv atts0 i atts → scanned i j atts → atts !! i = None ∨ atts !! j = None →
  dedup_inv atts0 (S i) atts.
Proof.
  intros [H1 H2 H3] Hsc Hend. split; [done..|].
  intros p q x y Hp Hpq Hx Hy. destruct (decide (p = i)) as [->|].
  - apply (Hsc q x y); [|done..]. split; [done|].
    destruct Hend as [Hi|Hj]; [congruence|]. apply lookup_ge_None in Hj.
    apply lookup_lt_Some in Hy. lia.
  - apply (H3 p q); [lia..|done|done].
Qed.

(** What the inner loop achieves, whichever way it ends. *)
Definition inner_post (atts0 atts : list Att) (i : nat)
    (r : option (option (list Att * bool))) : Prop :=
  match r with
  | None => False
  | Some None => ∃ x y, x ∈ atts0 ∧ y ∈ atts0 ∧ Contains (bits x) (bits y) = None
  | Some (Some (atts', true)) =>
      dedup_inv atts0 i atts' ∧ length atts' < length atts
  | Some (Some (atts', false)) =>
      dedup_inv atts0 (S i) atts' ∧ length atts' ≤ length atts
  end.

Lemma inner_post_mono atts0 atts atts' i r :
  length atts' ≤ length atts → inner_post atts0 atts' i r → inner_post atts0 atts i r.
Proof.
  unfold inner_post. intros H'. destruct r as [[[? [|]]|]|]; naive_solver lia.
Qed.

Lemma dedup_inner_spec fuel atts0 i j atts :
  dedup_inv atts0 i atts → scanned i j atts → i < j →
  length atts - j < fuel → inner_post atts0 atts i (dedup_inner fuel i j atts).
Proof.
  revert j atts. induction fuel as [|fuel IH]; intros j atts Hinv Hsc Hij Hfuel; [lia|].
  assert (Hin : ∀ k x, atts !! k = Some x → x ∈ atts0).
  { intros k x Hk. eapply elem_of_submseteq; [by eapply list_elem_of_lookup_2|apply Hinv]. }
  cbn [dedup_inner].
  destruct (atts !! i) as [a|] eqn:Ha; [destruct (atts !! j) as [b|] eqn:Hb|].
  2, 3: split; [|done]; by eapply dedup_inv_next; eauto.
  pose proof (lookup_lt_Some _ _ _ Hb) as Hjl.
  destruct (Contains (AggregationBits a) (AggregationBits b)) as [[|]|] eqn:Hab.
  - assert (Hlen : length (swap_remove j atts) = length atts - 1).
    { apply swap_remove_length. by intros ->. }
    apply (inner_post_mono _ _ (swap_remove j atts)); [lia|].
    apply IH; [by apply (dedup_inv_remove _ _ _ i _ a b); [|lia..| | |]| |done|lia].
    intros q x y Hq Hx Hy. rewrite swap_remove_lookup_lt in Hx, Hy by lia.
    by apply (Hsc q).
  - destruct (Contains (AggregationBits b) (AggregationBits a)) as [[|]|] eqn:Hba.
    + split; [by apply (dedup_inv_remove _ _ _ j _ b a); [|lia..| | |]|].
      rewrite swap_remove_length; [lia|]. by intros ->.
    + apply IH; [done| |lia..]. intros q x y Hq Hx Hy.
      destruct (decide (q = j)) as [->|]; [|apply (Hsc q); [lia|done..]].
      simplify_eq. done.
    + exists b, a. eauto.
  - exists a, b. eauto.
Qed.

Definition outer_post (atts0 : list Att) (r : option (option (list Att))) : Prop :=
  match r with
  | None => False
  | Some None => ∃ x y, x ∈ atts0 ∧ y ∈ atts0 ∧ Contains (bits x) (bits y) = None
  | Some (Some atts) =>
      atts ⊆+ atts0 ∧ all_covered atts0 atts ∧
      (∀ p q x y, p ≠ q → atts !! p = Some x → atts !! q = Some y →
         Contains (bits x) (bits y) = Some false)
  end.

Lemma dedup_outer_spec fuel atts0 i atts :
  dedup_inv atts0 i atts → length atts - i < fuel →
  outer_post atts0 (dedup_outer fuel i atts).
Proof.
  revert i atts. induction fuel as [|fuel IH]; intros i atts Hinv Hfuel; [lia|].
  cbn [dedup_outer]. case_decide as Hi.
  - assert (Hr : inner_post atts0 atts i (dedup_inner (S (length atts)) i (S i) atts)).
    { apply dedup_inner_spec; [done|intros q ??; lia|lia|lia]. }
    unfold inner_post in Hr.
    destruct (dedup_inner _ i (S i) atts) as [[[atts' [|]]|]|]; [..|done].
    + destruct Hr. apply IH; [done|lia].
    + destruct Hr. apply IH; [done|lia].
    + done.
  - destruct Hinv as [H1 H2 H3]. split_and!; [done..|].
    intros p q x y Hpq Hx Hy.
    pose proof (lookup_lt_Some _ _ _ Hx). pose proof (lookup_lt_Some _ _ _ Hy).
    destruct (decide (p < q)); [apply (H3 p q x y); [lia|done..]|].
    apply (H3 q p y x); [lia..|done|done].
Qed.

(** The loop terminates within its fuel and keeps a covering antichain. *)
Lemma dedup_group_spec atts : outer_post atts (dedup_group atts).
Proof.
  apply dedup_outer_spec; [|lia]. split.
  - done.
  - intros x Hx. exists x. split; [done|]. apply Contains_refl.
  - intros p q x y ?. lia.
Qed.
End laws.

(** ** Groups by root *)

Lemma group_by_root_lookup (a : list Att) h :
  default [] (group_by_root a !! h) = filter (λ x, HashTreeRoot x = Some h) a.
Proof.
  unfold group_by_root. induction a as [|x a IH] using rev_ind.
  { simpl. by rewrite lookup_empty. }
  rewrite foldl_app, filter_app. simpl. rewrite <-IH. unfold root_step at 1.
  destruct (HashTreeRoot x) as [h'|] eqn:Hx.
  - rewrite lookup_group_append, filter_cons, filter_nil, Hx. f_equal.
    repeat case_decide; congruence.
  - rewrite filter_cons, filter_nil, Hx. case_decide; [done|]. by rewrite app_nil_r.
Qed.

Lemma group_by_root_elem (a : list Att) h l x :
  group_by_root a !! h = Some l → x ∈ l → x ∈ a ∧ HashTreeRoot x = Some h.
Proof.
  intros Hl Hx. pose proof (group_by_root_lookup a h) as E. rewrite Hl in E. simpl in E.
  rewrite E in Hx. by apply list_elem_of_filter in Hx as [??].
Qed.

Lemma group_by_root_in (a : list Att) h x :
  x ∈ a → HashTreeRoot x = Some h → ∃ l, group_by_root a !! h = Some l ∧ x ∈ l.
Proof.
  intros Hx Hh. pose proof (group_by_root_lookup a h) as E.
  assert (Hin : x ∈ default [] (group_by_root a !! h)).
  { rewrite E. by apply list_elem_of_filter. }
  destruct (group_by_root a !! h) as [l|]; [by exists l|]. by apply not_elem_of_nil in Hin.
Qed.

Lemma root_groups_submseteq site (a : list Att) :
  concat (range_order site (group_by_root a)).*2 ⊆+ a.
Proof.
  set (gs := range_order site (group_by_root a)).
  assert (Hgs : gs.*2 =
    (λ k, filter (λ x, HashTreeRoot x = k) (filter (λ x, HashTreeRoot x ∈ Some <$> gs.*1) a))
      <$> (Some <$> gs.*1)).
  { rewrite <-!list_fmap_compose. apply list_fmap_ext. intros i [h l] Hi. simpl.
    apply list_elem_of_lookup_2 in Hi.
    rewrite list_filter_filter_l.
    - pose proof (group_by_root_lookup a h) as <-.
      apply range_order_elem in Hi. by rewrite Hi.
    - intros x ->. apply list_elem_of_fmap. by exists (h, l). }
  rewrite Hgs, concat_groups.
  - apply sublist_submseteq, sublist_filter.
  - apply NoDup_fmap; [by intros ??[=]|]. apply range_order_NoDup.
  - intros x Hx. by apply list_elem_of_filter in Hx as [??].
Qed.

Section dedup_groups.
Context `{!AttestationLaws L}.

(** No attestation covers another one with the same data root. *)
Definition root_antichain (r : list Att) : Prop :=
  ∀ p q x y, p ≠ q → r !! p = Some x → r !! q = Some y →
    HashTreeRoot x = HashTreeRoot y → Contains (bits x) (bits y) = Some false.

Lemma root_antichain_app (r1 r2 : list Att) :
  root_antichain r1 →
  (∀ p q x y, p ≠ q → r2 !! p = Some x → r2 !! q = Some y →
     Contains (bits x) (bits y) = Some false) →
  (∀ x y, x ∈ r1 → y ∈ r2 → HashTreeRoot x ≠ HashTreeRoot y) →
  root_antichain (r1 ++ r2).
Proof.
  intros H1 H2 H12 p q x y Hpq Hx Hy Hr.
  apply lookup_app_Some in Hx as [Hx|[? Hx]];
    apply lookup_app_Some in Hy as [Hy|[? Hy]].
  - by apply (H1 p q).
  - apply list_elem_of_lookup_2 in Hx, Hy. exfalso. by apply (H12 x y).
  - apply list_elem_of_lookup_2 in Hx, Hy. exfalso. by apply (H12 y x).
  - apply (H2 (p - length r1) (q - length r1)); [lia|done..].
Qed.

Definition groups_post (gs : list (string * list Att)) (uniq : list Att)
    (r : option (option (list Att))) : Prop :=
  match r with
  | None => False
  | Some None => ∃ h l x y, (h, l) ∈ gs ∧ x ∈ l ∧ y ∈ l ∧ Contains (bits x) (bits y) = None
  | Some (Some r) =>
      r ⊆+ uniq ++ concat gs.*2 ∧ root_antichain r ∧
      (∀ x, x ∈ uniq → x ∈ r) ∧
      (∀ h l x, (h, l) ∈ gs → x ∈ l → ∃ y, y ∈ r ∧ y ∈ l ∧ covers y x)
  end.

Lemma dedup_groups_spec gs uniq :
  NoDup gs.*1 → (∀ h l x, (h, l) ∈ gs → x ∈ l → HashTreeRoot x = Some h) →
  root_antichain uniq → (∀ x h, x ∈ uniq → h ∈ gs.*1 → HashTreeRoot x ≠ Some h) →
  groups_post gs uniq (dedup_groups gs uniq).
Proof.
  revert uniq. induction gs as [|[h l] gs IH]; intros uniq Hnd Hroot Hanti Hsep.
  { simpl. rewrite app_nil_r. split_and!; [done..|]. intros * Hin. by apply not_elem_of_nil in Hin. }
  cbn [fmap list_fmap] in Hnd. apply NoDup_cons in Hnd as [Hh Hnd].
  cbn [dedup_groups].
  pose proof (dedup_group_spec l) as Hg. unfold outer_post in Hg.
  destruct (dedup_group l) as [[l'|]|]; [|destruct Hg as (x & y & ? & ? & ?)|done].
  2: { exists h, l, x, y. split; [left|done]. }
  destruct Hg as (Hsub & Hcov & Hanti').
  assert (Hl' : ∀ x, x ∈ l' → HashTreeRoot x = Some h).
  { intros x Hx. apply (Hroot h l x); [left|]. by eapply elem_of_submseteq. }
  assert (HIH : groups_post gs (uniq ++ l') (dedup_groups gs (uniq ++ l'))).
  { apply IH; [done| | |].
    - intros h' l'' x Hin. apply Hroot. by right.
    - apply root_antichain_app; [done|exact Hanti'|]. intros x y Hx Hy.
      rewrite (Hl' y Hy). apply Hsep; [done|]. left.
    - intros x h' [Hx|Hx]%elem_of_app Hh'; [apply Hsep; [done|by right]|].
      rewrite (Hl' x Hx). intros [= ->]. done. }
  unfold groups_post in *. destruct (dedup_groups gs (uniq ++ l')) as [[r|]|]; [| |done].
  - destruct HIH as (Hr & Ha & Hu & Hc). split_and!; [|done| |].
    + etransitivity; [exact Hr|]. simpl. rewrite <-app_assoc.
      by apply submseteq_app, submseteq_app.
    + intros x Hx. apply Hu. apply elem_of_app. by left.
    + intros h' l'' x [Heq|Hin]%elem_of_cons Hx; [|by eapply Hc].
      simplify_eq. destruct (Hcov x Hx) as (y & Hy & Hyx). exists y. split_and!; [|by eapply elem_of_submseteq|done].
      apply Hu, elem_of_app. by right.
  - destruct HIH as (h' & l'' & x & y & Hin & ?). exists h', l'', x, y. split; [by right|done].
Qed.
End dedup_groups.

(** ** Sorting by profitability *)

Lemma pick_seq atts keys :
  (∀ k, k ∈ keys → k < length atts) →
  ∃ r, pick atts keys = Ret r ∧ Forall2 (λ k x, atts !! k = Some x) keys r.
Proof.
  unfold pick. induction keys as [|k keys IH]; intros Hk; simpl.
  - exists []. by split.
  - destruct (lookup_lt_is_Some_2 atts k) as [x Hx]; [apply Hk; left|].
    destruct IH as (r & Hr & HF); [intros k' ?; apply Hk; by right|].
    exists (x :: r). rewrite Hx. simpl. rewrite Hr. simpl. split; [done|by constructor].
Qed.

Lemma pick_partition atts k1 k2 :
  k1 ++ k2 ≡ₚ seq 0 (length atts) →
  ∃ r1 r2, pick atts k1 = Ret r1 ∧ pick atts k2 = Ret r2 ∧ r1 ++ r2 ≡ₚ atts.
Proof.
  intros Hp.
  assert (Hk : ∀ k, k ∈ k1 ++ k2 → k < length atts).
  { intros k. rewrite Hp, elem_of_seq. lia. }
  destruct (pick_seq atts k1) as (r1 & E1 & F1); [intros; apply Hk, elem_of_app; by left|].
  destruct (pick_seq atts k2) as (r2 & E2 & F2); [intros; apply Hk, elem_of_app; by right|].
  exists r1, r2. split_and!; [done..|].
  assert (E : ∀ ks r, Forall2 (λ k x, atts !! k = Some x) ks r →
    r = omap (λ k, atts !! k) ks).
  { intros ks r. induction 1 as [|k x ks r Hkx _ ->]; [done|]. simpl. by rewrite Hkx. }
  rewrite (E k1 r1 F1), (E k2 r2 F2), <-omap_app, Hp. clear.
  induction atts as [|x atts IH] using rev_ind; [done|].
  rewrite length_app, seq_app, omap_app. simpl.
  rewrite lookup_app_r, Nat.sub_diag by lia. simpl. apply Permutation_app_tail.
  rewrite <-IH at 2. apply reflexive_eq, list_omap_ext, Forall_Forall2_diag, Forall_forall.
  intros k Hk%elem_of_seq. by rewrite lookup_app_l by lia.
Qed.

Definition unsized (atts : list Att) : Prop :=
  ∃ x, x ∈ atts ∧ ToBitlist64 (AggregationBits x) = None.

Lemma selectAtts_spec `{!AttestationLaws L} atts :
  match selectAtts atts with
  | Ret (Some r) => r ≡ₚ atts
  | Ret None => unsized atts
  | Panic _ => False
  end.
Proof.
  unfold selectAtts. case_decide as Hlen; [done|].
  destruct (mapM _ atts) as [cs|] eqn:Hcs; simpl.
  - apply length_mapM in Hcs. destruct (MaxCover cs _ true) as [[sel rest]|] eqn:Hmc; [|done].
    apply MaxCover_partition in Hmc. rewrite <-Hcs in Hmc.
    destruct (pick_partition _ _ _ Hmc) as (r1 & r2 & E1 & E2 & Hr).
    rewrite E1. simpl. rewrite E2. simpl. etransitivity; [|exact Hr].
    by apply Permutation_app; apply sort_slice_perm.
  - apply mapM_None in Hcs. apply Exists_exists in Hcs as (x & Hx & Hb). by exists x.
Qed.

Lemma group_by_slot_spec (a : list Att) :
  let '(slots, m) := group_by_slot a in
  NoDup slots ∧ (∀ s, default [] (m !! s) = filter (λ x, Data_Slot x = s) a) ∧
  (∀ s, s ∈ slots ↔ is_Some (m !! s)) ∧ (∀ x, x ∈ a → Data_Slot x ∈ slots).
Proof.
  unfold group_by_slot. induction a as [|x a IH] using rev_ind; simpl.
  { split_and!; [constructor|intros s; by rewrite lookup_empty| |].
    - intros s. rewrite lookup_empty, elem_of_nil. split; [done|by intros [??]].
    - intros x Hx. by apply not_elem_of_nil in Hx. }
  rewrite foldl_app. simpl. destruct (foldl slot_step ([], ∅) a) as [slots m]. cbn [slot_step].
  destruct IH as (Hnd & Hlk & Hdom & Hin).
  assert (Hs : ∀ s, s ∈ match m !! Data_Slot x with
                        | Some _ => slots
                        | None => slots ++ [Data_Slot x]
                        end ↔ s ∈ slots ∨ s = Data_Slot x).
  { intros s. destruct (m !! Data_Slot x) eqn:E; [|set_solver].
    split; [by left|intros [?| ->]; [done|]]. apply Hdom. by exists l. }
  split_and!.
  - destruct (m !! Data_Slot x) eqn:E; [done|]. apply NoDup_app. split_and!; [done| |apply NoDup_singleton].
    intros s Hss ->%list_elem_of_singleton. apply Hdom in Hss. rewrite E in Hss. by destruct Hss.
  - intros s. rewrite lookup_group_append, Hlk, filter_app, filter_cons, filter_nil. done.
  - intros s. rewrite Hs. unfold group_append. destruct (decide (s = Data_Slot x)) as [->|Hne].
    + rewrite lookup_insert_eq. split; [by eexists|by right].
    + rewrite lookup_insert_ne by done. rewrite <-Hdom. naive_solver.
  - intros y [Hy|Hy]%elem_of_app; apply Hs; [left; by apply Hin|right].
    by apply list_elem_of_singleton in Hy as ->.
Qed.

Lemma select_slots_spec `{!AttestationLaws L} (a : list Att) m slots acc :
  (∀ s, default [] (m !! s) = filter (λ x, Data_Slot x = s) a) →
  match select_slots m slots acc with
  | Ret (Some r) =>
      ∃ gs, r = acc ++ concat gs ∧
        Forall2 (λ s g, g ≡ₚ filter (λ x, Data_Slot x = s) a) slots gs
  | Ret None => unsized a
  | Panic _ => False
  end.
Proof.
  intros Hm. revert acc. induction slots as [|s slots IH]; intros acc; cbn [select_slots].
  { exists []. simpl. by rewrite app_nil_r. }
  pose proof (selectAtts_spec (default [] (m !! s))) as Hsel.
  destruct (selectAtts _) as [[g|]|]; simpl; [| |done].
  - specialize (IH (acc ++ g)). destruct (select_slots m slots (acc ++ g)) as [[r|]|]; [|done..].
    destruct IH as (gs & -> & HF). exists (g :: gs). simpl. rewrite <-app_assoc.
    split; [done|]. constructor; [|done]. by rewrite <-Hm.
  - destruct Hsel as (x & Hx & Hb). exists x. rewrite Hm in Hx.
    apply list_elem_of_filter in Hx as [_ ?]. done.
Qed.

Lemma slot_groups_sorted (a : list Att) slots gs :
  StronglySorted (λ x y, (y ≤ x)%Z) slots →
  Forall2 (λ s g, g ≡ₚ filter (λ x, Data_Slot x = s) a) slots gs →
  StronglySorted (λ x y, (Data_Slot y ≤ Data_Slot x)%Z) (concat gs).
Proof.
  intros Hs HF. induction HF as [|s g slots gs Hg HF IH]; simpl; [constructor|].
  inversion_clear Hs as [|? ? Hss Hall].
  assert (Hgs : ∀ x, x ∈ g → Data_Slot x = s).
  { intros x. rewrite Hg. intros Hx. by apply list_elem_of_filter in Hx as [??]. }
  assert (Hrest : ∀ y, y ∈ concat gs → (Data_Slot y ≤ s)%Z).
  { intros y Hy. apply list_elem_of_In, in_concat in Hy as (l & Hl & Hy).
    apply list_elem_of_In, list_elem_of_lookup in Hl as [i Hl].
    destruct (Forall2_lookup_r _ _ _ _ _ HF Hl) as (s' & Hs' & Hl').
    apply list_elem_of_In in Hy. rewrite Hl' in Hy. apply list_elem_of_filter in Hy as [-> _].
    rewrite Forall_forall in Hall. apply Hall. by eapply list_elem_of_lookup_2. }
  specialize (IH Hss). clear -IH Hgs Hrest.
  induction g as [|x g IHg]; simpl; [done|]. constructor.
  - apply IHg. intros y Hy. apply Hgs. by right.
  - rewrite (Hgs x) by left. apply Forall_forall. intros y [Hy|Hy]%elem_of_app.
    + rewrite (Hgs y) by by right. lia.
    + by apply Hrest.
Qed.

Lemma slot_groups_perm (a : list Att) slots gs :
  NoDup slots → (∀ x, x ∈ a → Data_Slot x ∈ slots) →
  Forall2 (λ s g, g ≡ₚ filter (λ x, Data_Slot x = s) a) slots gs → concat gs ≡ₚ a.
Proof.
  intros Hnd Hin HF.
  rewrite <-(concat_groups Data_Slot slots a Hnd Hin).
  clear Hnd Hin. induction HF as [|s g slots gs Hg HF IH]; simpl; [done|]. by rewrite Hg, IH.
Qed.
End lemmas.

Lemma Dedup_spec `{L : AttestationLib} `{!RangeOrder} `{!AttestationLaws L}
    (site : nat) (a : list Att) :
  match Dedup site a with
  | None => False
  | Some None =>
      ∃ x y h, x ∈ a ∧ y ∈ a ∧ HashTreeRoot x = Some h ∧ HashTreeRoot y = Some h ∧
        Contains (AggregationBits x) (AggregationBits y) = None
  | Some (Some r) =>
      r ⊆+ a ∧
      (∀ p q x y, p ≠ q → r !! p = Some x → r !! q = Some y →
         HashTreeRoot x = HashTreeRoot y →
         Contains (AggregationBits x) (AggregationBits y) = Some false) ∧
      (∀ x h, x ∈ a → HashTreeRoot x = Some h →
         ∃ y, y ∈ r ∧ HashTreeRoot y = Some h ∧
           Contains (AggregationBits y) (AggregationBits x) = Some true)
  end.
Proof.
  unfold Dedup. case_decide as Hlen.
  { split_and!; [done| |].
    - intros p q x y Hpq ?%lookup_lt_Some ?%lookup_lt_Some. lia.
    - intros x h Hx Hh. exists x. split_and!; [done..|]. apply Contains_refl. }
  set (gs := range_order site (group_by_root a)).
  assert (Hel : ∀ h l x, (h, l) ∈ gs → x ∈ l → x ∈ a ∧ HashTreeRoot x = Some h).
  { intros h l x Hin. apply range_order_elem in Hin. by apply group_by_root_elem. }
  assert (Hp : groups_post gs [] (dedup_groups gs [])).
  { apply dedup_groups_spec.
    - apply range_order_NoDup.
    - intros h l x ??. by eapply Hel.
    - intros p q x y _ Hx. by rewrite lookup_nil in Hx.
    - intros x h Hx. by apply not_elem_of_nil in Hx. }
  unfold groups_post in Hp. destruct (dedup_groups gs []) as [[r|]|]; [| |done].
  - destruct Hp as (Hsub & Hanti & _ & Hcov). split_and!; [|exact Hanti|].
    + rewrite Hsub. apply root_groups_submseteq.
    + intros x h Hx Hh. destruct (group_by_root_in a h x Hx Hh) as (l & Hl & Hxl).
      destruct (Hcov h l x) as (y & Hy & Hyl & Hyx); [by apply range_order_elem|done|].
      exists y. split_and!; [done|by eapply Hel; [apply range_order_elem|]|done].
  - destruct Hp as (h & l & x & y & Hin & Hx & Hy & Hc).
    destruct (Hel h l x Hin Hx), (Hel h l y Hin Hy). by exists x, y, h.
Qed.

Lemma SortByProfitability_spec `{L : AttestationLib} `{!SortSlice} `{!AttestationLaws L}
    (a : list Att) :
  match SortByProfitability a with
  | Ret (Some r) => r ≡ₚ a ∧ StronglySorted (λ x y, (Data_Slot y ≤ Data_Slot x)%Z) r
  | Ret None => ∃ x, x ∈ a ∧ ToBitlist64 (AggregationBits x) = None
  | Panic _ => False
  end.
Proof.
  unfold SortByProfitability. case_decide as Hlen.
  { split; [done|]. destruct a as [|x [|y a]]; simpl in Hlen; [| |lia]; repeat constructor. }
  unfold SortByProfitabilityUsingMaxCover.
  pose proof (group_by_slot_spec a) as Hg.
  destruct (group_by_slot a) as [slots m]. destruct Hg as (Hnd & Hlk & _ & Hin).
  set (less := λ x y : Z, (y <? x)%Z).
  pose proof (select_slots_spec a m (sort_slice less slots) [] Hlk) as Hsel.
  destruct (select_slots m (sort_slice less slots) []) as [[r|]|]; [|done..].
  destruct Hsel as (gs & -> & HF). simpl. split.
  - eapply slot_groups_perm; [| |done]; [by rewrite sort_slice_perm|].
    intros x Hx. rewrite sort_slice_perm. by apply Hin.
  - eapply slot_groups_sorted; [|done]. apply Sorted_StronglySorted; [intros ???; lia|].
    eapply Sorted_weaken; [|apply sort_slice_sorted, (gtb_swo (λ z, z))].
    subst less. simpl. intros. lia.
Qed.

Lemma LimitToMaxAttestations_nil `{L : AttestationLib} : LimitToMaxAttestations [] = [].
Proof. unfold LimitToMaxAttestations. case_decide; [by rewrite take_nil|done]. Qed.

Lemma LimitToMaxAttestations_spec `{L : AttestationLib} (a : list Att) :
  (0 ≤ MaxAttestations)%Z →
  (∃ l, a = LimitToMaxAttestations a ++ l) ∧
  (Z.of_nat (length (LimitToMaxAttestations a)) ≤ MaxAttestations)%Z.
Proof.
  intros Hmax. unfold LimitToMaxAttestations. case_decide.
  - split; [eexists; symmetry; apply take_drop|]. rewrite length_take. lia.
  - split; [exists []; by rewrite app_nil_r|lia].
Qed.

(** * Properties *)

(** C7: [Dedup] always terminates. On success the result is a sub-multiset of
    the input in which no attestation's bits contain those of another with the
    same data root, and every input attestation whose root can be computed is
    contained in a kept one with that root; it fails only when two input
    attestations with the same root have incomparable bit lists. *)
Theorem Dedup_correct `{L : AttestationLib} `{!RangeOrder} `{!AttestationLaws L}
    (site : nat) (a : list Att) :
  match Dedup site a with
  | None => False
  | Some None =>
      ∃ x y h, x ∈ a ∧ y ∈ a ∧ HashTreeRoot x = Some h ∧ HashTreeRoot y = Some h ∧
        Contains (AggregationBits x) (AggregationBits y) = None
  | Some (Some r) =>
      r ⊆+ a ∧
      (∀ p q x y, p ≠ q → r !! p = Some x → r !! q = Some y →
         HashTreeRoot x = HashTreeRoot y →
         Contains (AggregationBits x) (AggregationBits y) = Some false) ∧
      (∀ x h, x ∈ a → HashTreeRoot x = Some h →
         ∃ y, y ∈ r ∧ HashTreeRoot y = Some h ∧
           Contains (AggregationBits y) (AggregationBits x) = Some true)
  end.
Proof. apply Dedup_spec. Qed.


(** * A concrete instance

    Attestations with a slot and a bit list; the data root is the slot in
    decimal.  It shows that [AttestationLaws] can hold, and evaluates the
    witnesses. *)

Fixpoint bools_contain (a b : list bool) : option bool :=
  match a, b with
  | [], [] => Some true
  | x :: a', y :: b' =>
      match bools_contain a' b' with
      | Some r => Some (implb y x && r)
      | None => None
      end
  | _, _ => None
  end.

Definition bools_lib : AttestationLib := {|
  Att := Z * list bool;
  Bits := list bool;
  Bits64 := list bool;
  AggregationBits := snd;
  Data_Slot := fst;
  HashTreeRoot a := Some (pretty (fst a));
  Contains := bools_contain;
  BitCount b := Z.of_nat (length (filter (λ x, x = true) b));
  ToBitlist64 b := Some b;
  MaxCover cs _ _ := Some (seq 0 (length cs), []);
  VerifyAttestationNoVerifySignature a := negb (bool_decide (snd a = []));
  Aggregate l := Some l;
  MaxAttestations := 128
|}.

Lemma bools_contain_refl b : bools_contain b b = Some true.
Proof. induction b as [|[] b IH]; simpl; [done|by rewrite IH..]. Qed.

Lemma bools_contain_trans a b c :
  bools_contain a b = Some true → bools_contain b c = Some true → bools_contain a c = Some true.
Proof.
  revert b c. induction a as [|x a IH]; intros [|y b] [|z c]; simpl; try done.
  destruct (bools_contain a b) as [r1|] eqn:E1; [|done].
  destruct (bools_contain b c) as [r2|] eqn:E2; [|done].
  destruct x, y, z, r1, r2; simpl; try done; intros _ _; by rewrite (IH b c E1 E2).
Qed.

#[export] Instance bools_laws : AttestationLaws bools_lib.
Proof.
  split; simpl.
  - apply bools_contain_refl.
  - apply bools_contain_trans.
  - intros cs k ov sel rest [= <- <-]. by rewrite app_nil_r.
  - unfold_ints. lia.
Qed.

Definition sample_atts : list (Z * list bool) :=
  [(7%Z, [true; false; false]); (9%Z, [true; true; false]);
   (7%Z, [true; true; false]); (7%Z, [false; true; true])].

Lemma Dedup_correct_witness :
  @Dedup bools_lib default_range_order 0 sample_atts =
    Some (Some [(7%Z, [false; true; true]); (7%Z, [true; true; false]); (9%Z, [true; true; false])]) ∧
  match @Dedup bools_lib default_range_order 0 sample_atts with
  | None => False
  | Some None =>
      ∃ x y h, x ∈ sample_atts ∧ y ∈ sample_atts ∧
        @HashTreeRoot bools_lib x = Some h ∧ @HashTreeRoot bools_lib y = Some h ∧
        bools_contain (snd x) (snd y) = None
  | Some (Some r) =>
      r ⊆+ sample_atts ∧
      (∀ p q x y, p ≠ q → r !! p = Some x → r !! q = Some y →
         @HashTreeRoot bools_lib x = @HashTreeRoot bools_lib y →
         bools_contain (snd x) (snd y) = Some false) ∧
      (∀ x h, x ∈ sample_atts → @HashTreeRoot bools_lib x = Some h →
         ∃ y, y ∈ r ∧ @HashTreeRoot bools_lib y = Some h ∧
           bools_contain (snd y) (snd x) = Some true)
  end.
Proof.
  split; [vm_compute; reflexivity|].
  exact (@Dedup_correct bools_lib default_range_order bools_laws 0 sample_atts).
Defined.

