(* ===== verification/Beacon.v ===== *)
(** * Package beaconapi (src/beaconapi/beaconclient.go, type.go)

    The HTTP client of the beacon node.  Its state is the cached chain
    configuration; every request goes to the network, whose answer may depend
    on everything the service did before: [respond] is the third-party HTTP
    stack and the remote node ([None] is a transport error).  The unused gRPC
    client of the package is not modelled. *)

From S2P Require Import Prelude Strconv GoJson GoValue.

(** ** What the service does to the outside, in order *)

Inductive HttpReq :=
| HttpGet (url : string)
| HttpPost (url : string) (body : string).

Inductive event :=
| Request (r : HttpReq)
| Slept (ns : Z).

Class Network := { respond : list event → HttpReq → option string }.

(** ** Data *)

Record TotalReward := {
  tr_ValidatorIndex : string; Head : string; Target : string; Source : string;
  InclusionDelay : string; Inactivity : string
}.

#[export] Instance TotalReward_data : GoData TotalReward := {|
  go_type := TStruct "beaconapi" "TotalReward"
    [("validator_index", (false, TString)); ("head", (false, TString));
     ("target", (false, TString)); ("source", (false, TString));
     ("inclusion_delay", (false, TString)); ("inactivity", (false, TString))];
  to_go r := VStruct (VStr <$> [tr_ValidatorIndex r; Head r; Target r; Source r;
                                InclusionDelay r; Inactivity r]);
  of_go v := {| tr_ValidatorIndex := field 0 v; Head := field 1 v; Target := field 2 v;
                Source := field 3 v; InclusionDelay := field 4 v; Inactivity := field 5 v |}
|}.

Record RewardInfo := { TotalRewards : list TotalReward }.

#[export] Instance RewardInfo_data : GoData RewardInfo := {|
  go_type := TStruct "beaconapi" "RewardInfo"
    [("total_rewards", (false, go_type (list TotalReward)))];
  to_go r := VStruct [to_go (TotalRewards r)];
  of_go v := {| TotalRewards := field 0 v |}
|}.

Record HeaderMessage := {
  hm_Slot : string; ProposerIndex : string; ParentRoot : string;
  StateRoot : string; BodyRoot : string
}.

#[export] Instance HeaderMessage_data : GoData HeaderMessage := {|
  go_type := TStruct "" ""
    [("slot", (false, TString)); ("proposer_index", (false, TString));
     ("parent_root", (false, TString)); ("state_root", (false, TString));
     ("body_root", (false, TString))];
  to_go m := VStruct (VStr <$> [hm_Slot m; ProposerIndex m; ParentRoot m; StateRoot m; BodyRoot m]);
  of_go v := {| hm_Slot := field 0 v; ProposerIndex := field 1 v; ParentRoot := field 2 v;
                StateRoot := field 3 v; BodyRoot := field 4 v |}
|}.

Record HeaderHeader := { Message : HeaderMessage; Signature : string }.

#[export] Instance HeaderHeader_data : GoData HeaderHeader := {|
  go_type := TStruct "" ""
    [("message", (false, go_type HeaderMessage)); ("signature", (false, TString))];
  to_go h := VStruct [to_go (Message h); VStr (Signature h)];
  of_go v := {| Message := field 0 v; Signature := field 1 v |}
|}.

Record BeaconHeaderInfo := { Header : HeaderHeader; Root : string; Canonical : bool }.

#[export] Instance BeaconHeaderInfo_data : GoData BeaconHeaderInfo := {|
  go_type := TStruct "beaconapi" "BeaconHeaderInfo"
    [("header", (false, go_type HeaderHeader)); ("root", (false, TString));
     ("canonical", (false, TBool))];
  to_go h := VStruct [to_go (Header h); VStr (Root h); VBool (Canonical h)];
  of_go v := {| Header := field 0 v; Root := field 1 v; Canonical := field 2 v |}
|}.

Record ProposerDuty := { pd_Pubkey : string; pd_ValidatorIndex : string; pd_Slot : string }.

#[export] Instance ProposerDuty_data : GoData ProposerDuty := {|
  go_type := TStruct "beaconapi" "ProposerDuty"
    [("pubkey", (false, TString)); ("validator_index", (false, TString));
     ("slot", (false, TString))];
  to_go d := VStruct (VStr <$> [pd_Pubkey d; pd_ValidatorIndex d; pd_Slot d]);
  of_go v := {| pd_Pubkey := field 0 v; pd_ValidatorIndex := field 1 v; pd_Slot := field 2 v |}
|}.

Record AttestDuty := {
  ad_Pubkey : string; ad_ValidatorIndex : string; CommitteeIndex : string;
  CommitteeLength : string; CommitteesAtSlot : string;
  ValidatorCommitteeIndex : string; ad_Slot : string
}.

#[export] Instance AttestDuty_data : GoData AttestDuty := {|
  go_type := TStruct "beaconapi" "AttestDuty"
    [("pubkey", (false, TString)); ("validator_index", (false, TString));
     ("committee_index", (false, TString)); ("committee_length", (false, TString));
     ("committees_at_slot", (false, TString)); ("validator_committee_index", (false, TString));
     ("slot", (false, TString))];
  to_go d := VStruct (VStr <$> [ad_Pubkey d; ad_ValidatorIndex d; CommitteeIndex d;
                                CommitteeLength d; CommitteesAtSlot d;
                                ValidatorCommitteeIndex d; ad_Slot d]);
  of_go v := {| ad_Pubkey := field 0 v; ad_ValidatorIndex := field 1 v; CommitteeIndex := field 2 v;
                CommitteeLength := field 3 v; CommitteesAtSlot := field 4 v;
                ValidatorCommitteeIndex := field 5 v; ad_Slot := field 6 v |}
|}.

Record BeaconResponse := { Data : option json }.

#[export] Instance BeaconResponse_data : GoData BeaconResponse := {|
  go_type := TStruct "beaconapi" "BeaconResponse" [("data", (false, TRaw))];
  to_go r := VStruct [VRaw (Data r)];
  of_go v := {| Data := field 0 v |}
|}.

#[export] Instance TotalReward_laws : GoDataLaws TotalReward.
Proof. by intros []. Qed.
#[export] Instance RewardInfo_laws : GoDataLaws RewardInfo.
Proof. intros [l]. exact (f_equal Build_RewardInfo (of_to_go (A := list TotalReward) l)). Qed.
#[export] Instance BeaconHeaderInfo_laws : GoDataLaws BeaconHeaderInfo.
Proof. by intros [[[] ?] ? ?]. Qed.
#[export] Instance ProposerDuty_laws : GoDataLaws ProposerDuty.
Proof. by intros []. Qed.
#[export] Instance AttestDuty_laws : GoDataLaws AttestDuty.
Proof. by intros []. Qed.
#[export] Instance BeaconResponse_laws : GoDataLaws BeaconResponse.
Proof. by intros []. Qed.

(** The error values this client returns. *)
Inductive beacon_error :=
| ErrNet
| ErrDecode (e : unmarshal_error)
| ErrNum (e : num_error)
| ErrMarshal (msg : string)
| ErrMsg (msg : string).

Definition no_response : BeaconResponse := {| Data := None |}.
Definition no_header : BeaconHeaderInfo := of_go (zero (go_type BeaconHeaderInfo)).

(** ** State *)

Definition SLOTS_PER_EPOCH : string := "SLOTS_PER_EPOCH".
Definition SECONDS_PER_SLOT : string := "SECONDS_PER_SLOT".

Record BeaconGwClient := { endpoint : string; config : gmap string string }.

Definition NewBeaconGwClient (endpoint : string) : BeaconGwClient :=
  {| endpoint := endpoint; config := ∅ |}.

(** The client and the log of the actions so far. *)
Record World := { client : BeaconGwClient; trace : list event }.

Definition set_config (c : gmap string string) (w : World) : World :=
  {| client := {| endpoint := endpoint (client w); config := c |}; trace := trace w |}.

Definition log_event (e : event) (w : World) : World :=
  {| client := client w; trace := trace w ++ [e] |}.

(** The result of a call that returns [(value, error)]. *)
Definition with_err (A : Type) : Type := A * option beacon_error.

Section client.
Context `{!Network} `{!RangeOrder}.

(** ** Transport *)

Definition send (r : HttpReq) : GoM World (option string) := λ w,
  (Ret (respond (trace w) r), log_event (Request r) w).

(** [json.NewDecoder(body).Decode(&response)]: what follows the first value
    is not read; the error is logged and dropped. *)
Definition decode_body (body : string) : BeaconResponse :=
  match parse_next body with
  | Some (j, _) =>
      of_go (decode None (go_type BeaconResponse) j (zero (go_type BeaconResponse))).1
  | None => no_response
  end.

Definition doGet (url : string) : GoM World (with_err BeaconResponse) :=
  resp ← send (HttpGet url);
  match resp with
  | None => mret (no_response, Some ErrNet)
  | Some body => mret (decode_body body, None)
  end.

Definition doPost (url data : string) : GoM World (with_err BeaconResponse) :=
  resp ← send (HttpPost url data);
  match resp with
  | None => mret (no_response, Some ErrNet)
  | Some body => mret (decode_body body, None)
  end.

Definition http_url (path : string) : GoM World string :=
  w ← gets client; mret ("http://" +:+ endpoint w +:+ path).

(** ** The chain configuration *)

Definition config_entries (data : option json) : gmap string gval :=
  match (UnmarshalRaw (TMap TAny) data (VMap (Some []))).1 with
  | VMap (Some l) => list_to_map l
  | _ => ∅
  end.

Definition getBeaconConfig : GoM World (with_err (gmap string gval)) :=
  url ← http_url "/eth/v1/config/spec";
  response ← doGet url;
  mret (config_entries (Data response.1), None).

(** [v.(string)] *)
Definition as_string (v : gval) : GoM World string :=
  match v with
  | VAny (Some (JStr raw)) => mret (unquote raw)
  | _ => panic (TypeAssertion "string")
  end.

Definition store_entry (_ : unit) (kv : string * gval) : GoM World unit :=
  v ← as_string kv.2;
  modify (λ w, set_config (<[kv.1 := v]> (config (client w))) w).

Definition GetBeaconConfig : GoM World (gmap string string) :=
  c ← gets (λ w, config (client w));
  if decide (size c = 0%nat) then
    cfg ← getBeaconConfig;
    match cfg.2 with
    | Some _ => mret ∅
    | None =>
        _ ← modify (set_config ∅);
        _ ← foldM store_entry tt (range_order 0 cfg.1);
        gets (λ w, config (client w))
    end
  else mret c.

Definition GetIntConfig (key : string) : GoM World (with_err Z) :=
  config ← GetBeaconConfig;
  match config !! key with
  | None => mret (0, None)
  | Some v => let '(n, e) := Atoi v in mret (n, ErrNum <$> e)
  end.

(** ** Queries *)

Definition GetLatestBeaconHeader : GoM World (with_err BeaconHeaderInfo) :=
  url ← http_url "/eth/v1/beacon/headers";
  response ← doGet url;
  let '(headers, err) := unmarshal_raw_into (A := list BeaconHeaderInfo) (Data response.1) in
  match err with
  | Some e => mret (no_header, Some (ErrDecode e))
  | None =>
      match headers with
      | h :: _ => mret (h, None)
      | [] => panic (IndexOutOfRange "headers[0]")
      end
  end.

Definition GetAllValReward (epoch : Z) : GoM World (with_err (list TotalReward)) :=
  url ← http_url ("/eth/v1/beacon/rewards/attestations/" +:+ FormatInt epoch);
  response ← doPost url "[]";
  let '(rewardInfo, err) := unmarshal_raw_into (A := RewardInfo) (Data response.1) in
  match err with
  | Some e => mret ([], Some (ErrDecode e))
  | None => mret (TotalRewards rewardInfo, None)
  end.

Definition GetValReward (epoch : Z) (valIdxs : list Z) : GoM World (with_err BeaconResponse) :=
  url ← http_url ("/eth/v1/beacon/rewards/attestations/" +:+ FormatInt epoch);
  let vals := FormatInt <$> valIdxs in
  match marshal vals with
  | inr e => mret (no_response, Some (ErrMarshal e))
  | inl d => doPost url (print d)
  end.

Definition GetProposerDuties (epoch : Z) : GoM World (with_err (list ProposerDuty)) :=
  url ← http_url ("/eth/v1/validator/duties/proposer/" +:+ FormatInt epoch);
  response ← doGet url;
  let '(duties, err) := unmarshal_raw_into (A := list ProposerDuty) (Data response.1) in
  match err with
  | Some e => mret ([], Some (ErrDecode e))
  | None => mret (duties, None)
  end.

Definition GetAttesterDuties (epoch : Z) (vals : list Z) : GoM World (with_err (list AttestDuty)) :=
  url ← http_url ("/eth/v1/validator/duties/attester/" +:+ FormatInt epoch);
  let param := FormatInt <$> vals in
  let paramData := match marshal param with inl d => print d | inr _ => "" end in
  response ← doPost url paramData;
  let '(duties, err) := unmarshal_raw_into (A := list AttestDuty) (Data response.1) in
  match err with
  | Some e => mret ([], Some (ErrDecode e))
  | None => mret (duties, None)
  end.

(** The four duties of the current and the next epoch share their first
    lines: latest header, slots per epoch (errors dropped), epoch. *)
Definition GetNextEpochProposerDuties : GoM World (with_err (list ProposerDuty)) :=
  latestHeader ← GetLatestBeaconHeader;
  match latestHeader.2 with
  | Some e => mret ([], Some e)
  | None =>
      slotPerEpoch ← GetIntConfig SLOTS_PER_EPOCH;
      let curSlot := (Atoi (hm_Slot (Message (Header latestHeader.1)))).1 in
      epoch ← go_quot curSlot slotPerEpoch.1;
      GetProposerDuties (to_int64 (epoch + 1))
  end.

Definition GetCurrentEpochProposerDuties : GoM World (with_err (list ProposerDuty)) :=
  latestHeader ← GetLatestBeaconHeader;
  match latestHeader.2 with
  | Some e => mret ([], Some e)
  | None =>
      slotPerEpoch ← GetIntConfig SLOTS_PER_EPOCH;
      let curSlot := (Atoi (hm_Slot (Message (Header latestHeader.1)))).1 in
      epoch ← go_quot curSlot slotPerEpoch.1;
      GetProposerDuties epoch
  end.

Definition duty_validators : list Z := seqZ 0 64.

Definition GetCurrentEpochAttestDuties : GoM World (with_err (list AttestDuty)) :=
  latestHeader ← GetLatestBeaconHeader;
  match latestHeader.2 with
  | Some e => mret ([], Some e)
  | None =>
      slotPerEpoch ← GetIntConfig SLOTS_PER_EPOCH;
      let curSlot := (Atoi (hm_Slot (Message (Header latestHeader.1)))).1 in
      epoch ← go_quot curSlot slotPerEpoch.1;
      GetAttesterDuties epoch duty_validators
  end.

Definition GetNextEpochAttestDuties : GoM World (with_err (list AttestDuty)) :=
  latestHeader ← GetLatestBeaconHeader;
  match latestHeader.2 with
  | Some e => mret ([], Some e)
  | None =>
      slotPerEpoch ← GetIntConfig SLOTS_PER_EPOCH;
      let curSlot := (Atoi (hm_Slot (Message (Header latestHeader.1)))).1 in
      epoch ← go_quot curSlot slotPerEpoch.1;
      GetAttesterDuties (to_int64 (epoch + 1)) duty_validators
  end.
End client.

(** * Lemmas *)

Section lemmas.
Context `{!Network} `{!RangeOrder}.

(** The string held by an entry of the configuration, if it holds one. *)
Definition string_of (v : gval) : option string :=
  match v with VAny (Some (JStr raw)) => Some (unquote raw) | _ => None end.

Lemma as_string_spec v w :
  as_string v w = (match string_of v with
                   | Some s => Ret s
                   | None => Panic (TypeAssertion "string")
                   end, w).
Proof. by destruct v as [| | | | |[[]|]| | | | | |]. Qed.

Lemma store_entry_spec k v w :
  store_entry tt (k, v) w =
    match string_of v with
    | Some s => (Ret tt, set_config (<[k := s]> (config (client w))) w)
    | None => (Panic (TypeAssertion "string"), w)
    end.
Proof.
  unfold store_entry, mbind, GoM_bind. cbn. rewrite as_string_spec. by destruct (string_of v).
Qed.

(** The part of the world an operation on the cache leaves alone. *)
Definition same_outside (w w' : World) : Prop :=
  trace w' = trace w ∧ endpoint (client w') = endpoint (client w).

Lemma store_entries_spec l w :
  NoDup l.*1 →
  wp (foldM store_entry tt l)
    (λ _ w', same_outside w w' ∧ (∀ k v, (k, v) ∈ l → is_Some (string_of v)) ∧
       (∀ k v, (k, v) ∈ l → config (client w') !! k = string_of v) ∧
       (∀ k, k ∉ l.*1 → config (client w') !! k = config (client w) !! k))
    (λ why w', why = TypeAssertion "string" ∧
       (∃ k v, (k, v) ∈ l ∧ string_of v = None) ∧
       (∀ k s, config (client w') !! k = Some s →
          config (client w) !! k = Some s ∨ ∃ v, (k, v) ∈ l ∧ string_of v = Some s)) w.
Proof.
  revert w. induction l as [|[k v] l IH]; intros w Hnd.
  { cbn [foldM]. apply wp_ret. split; [done|].
    split_and!; [..|done]; intros ? ? Hin; by apply not_elem_of_nil in Hin. }
  cbn [fmap list_fmap] in Hnd. apply NoDup_cons in Hnd as [Hk Hnd].
  cbn [foldM]. apply wp_bind. unfold wp at 1. rewrite store_entry_spec.
  destruct (string_of v) as [s|] eqn:Hs.
  2: { split; [done|]. split; [|by left]. exists k, v. split; [left|done]. }
  eapply wp_mono; [by apply IH|..].
  - intros _ w' ((Ht & He) & Hall & Hin & Hout). split_and!.
    + by split.
    + intros k' v' [?|?]%elem_of_cons; [simplify_eq; by eexists|by eapply Hall].
    + intros k' v' [?|?]%elem_of_cons; [|by apply Hin]. simplify_eq.
      rewrite Hout by done. simpl. by rewrite lookup_insert_eq.
    + intros k' Hk'. apply not_elem_of_cons in Hk' as [Hne Hk']. rewrite Hout by done.
      simpl. by rewrite lookup_insert_ne by done.
  - intros why w' (-> & (k' & v' & Hin & Hnone) & Hsub). split_and!; [done| |].
    + exists k', v'. split; [by right|done].
    + intros q s' Hq. destruct (Hsub q s' Hq) as [Hc|(v'' & ? & ?)].
      * simpl in Hc. apply lookup_insert_Some in Hc as [[<- <-]|[_ Hc]]; [|by left].
        right. exists v. split; [left|done].
      * right. exists v''. split; [by right|done].
Qed.

(** The data field of the reply to a request, nil when there is none. *)
Definition reply_data (w : World) (r : HttpReq) : option json :=
  match respond (trace w) r with
  | Some body => Data (decode_body body)
  | None => None
  end.

Lemma bind_url {B} path (f : string → GoM World B) w :
  (http_url path ≫= f) w = f ("http://" +:+ endpoint (client w) +:+ path) w.
Proof. reflexivity. Qed.

Definition reply_error (w : World) (r : HttpReq) : option beacon_error :=
  match respond (trace w) r with
  | Some _ => None
  | None => Some ErrNet
  end.

Lemma bind_get {B} url (f : with_err BeaconResponse → GoM World B) w :
  (doGet url ≫= f) w =
    f ({| Data := reply_data w (HttpGet url) |}, reply_error w (HttpGet url))
      (log_event (Request (HttpGet url)) w).
Proof.
  unfold doGet, send, reply_data, reply_error, mbind, GoM_bind.
  destruct (respond (trace w) (HttpGet url)) as [body|]; [|done]. simpl.
  by destruct (decode_body body).
Qed.

Definition duties_url (w : World) (epoch : Z) : string :=
  "http://" +:+ endpoint (client w) +:+ "/eth/v1/validator/duties/proposer/" +:+ FormatInt epoch.

(** The duties the node sends for an epoch. *)
Definition served_duties (w : World) (epoch : Z) : with_err (list ProposerDuty) :=
  match unmarshal_raw_into (reply_data w (HttpGet (duties_url w epoch))) with
  | (_, Some e) => ([], Some (ErrDecode e))
  | (duties, None) => (duties, None)
  end.

Lemma GetProposerDuties_spec epoch w :
  GetProposerDuties epoch w =
    (Ret (served_duties w epoch), log_event (Request (HttpGet (duties_url w epoch))) w).
Proof.
  unfold GetProposerDuties, served_duties. rewrite bind_url, bind_get. unfold duties_url.
  destruct (unmarshal_raw_into _) as [duties [e|]]; done.
Qed.

(** The entries the beacon node sends for the configuration request. *)
Definition served_config (w : World) : gmap string gval :=
  config_entries (reply_data w
    (HttpGet ("http://" +:+ endpoint (client w) +:+ "/eth/v1/config/spec"))).

Lemma getBeaconConfig_spec w :
  ∃ e, getBeaconConfig w = (Ret (served_config w, None), log_event e w).
Proof.
  eexists. unfold getBeaconConfig, served_config. rewrite bind_url, bind_get. reflexivity.
Qed.

Lemma GetBeaconConfig_cached w :
  config (client w) ≠ ∅ → GetBeaconConfig w = (Ret (config (client w)), w).
Proof.
  intros Hne. unfold GetBeaconConfig, gets, mbind, GoM_bind. cbn.
  rewrite decide_False; [done|]. by rewrite map_size_empty_iff.
Qed.

Lemma GetBeaconConfig_spec w :
  config (client w) = ∅ →
  wp GetBeaconConfig
    (λ c w', c = config (client w') ∧ ∀ k, c !! k = served_config w !! k ≫= string_of)
    (λ why w', why = TypeAssertion "string" ∧
       (∃ k v, served_config w !! k = Some v ∧ string_of v = None) ∧
       (∀ k s, config (client w') !! k = Some s → served_config w !! k ≫= string_of = Some s)) w.
Proof.
  intros He. destruct (getBeaconConfig_spec w) as [e Hget].
  unfold GetBeaconConfig. apply wp_bind. unfold wp at 1, gets. cbn. rewrite He.
  rewrite decide_True by apply map_size_empty. apply wp_bind. unfold wp at 1. rewrite Hget. cbn.
  apply wp_bind. unfold wp at 1, modify. cbn. apply wp_bind.
  assert (Hel : ∀ k v, (k, v) ∈ range_order 0 (served_config w) ↔ served_config w !! k = Some v).
  { intros k v. rewrite range_order_perm. apply elem_of_map_to_list. }
  eapply wp_mono; [apply store_entries_spec|..].
  - rewrite range_order_perm. apply NoDup_fst_map_to_list.
  - intros _ w' (_ & Hall & Hin & Hout). unfold wp. cbn. split; [done|]. intros k.
    destruct (served_config w !! k) as [v|] eqn:Hk; simpl.
    + apply Hin. by apply Hel.
    + rewrite Hout; [done|]. intros ((k' & v) & -> & Hkv)%list_elem_of_fmap.
      apply Hel in Hkv. simpl in Hk. congruence.
  - intros why w' (-> & (k & v & Hin & Hnone) & Hsub). split_and!; [done| |].
    + exists k, v. by rewrite <-Hel.
    + intros k' s Hk'. destruct (Hsub k' s Hk') as [Hc|(v' & Hc & Hv')]; [done|].
      apply Hel in Hc. by rewrite Hc.
Qed.

Lemma GetIntConfig_cached key v w :
  config (client w) !! key = Some v →
  GetIntConfig key w = (Ret ((Atoi v).1, ErrNum <$> (Atoi v).2), w).
Proof.
  intros Hv. unfold GetIntConfig, mbind, GoM_bind. rewrite GetBeaconConfig_cached.
  - rewrite Hv. by destruct (Atoi v).
  - intros He. by rewrite He, lookup_empty in Hv.
Qed.

(** No reply: the cache stays empty and every key is missing. *)
Lemma GetIntConfig_unreachable key w :
  config (client w) = ∅ → (∀ h r, respond h r = None) →
  ∃ w', GetIntConfig key w = (Ret (0, None), w') ∧ config (client w') = ∅.
Proof.
  intros He Hr. pose proof (GetBeaconConfig_spec w He) as Hg.
  assert (Hs : served_config w = ∅).
  { unfold served_config, reply_data. rewrite Hr. reflexivity. }
  unfold wp in Hg. unfold GetIntConfig, mbind, GoM_bind.
  destruct (GetBeaconConfig w) as [[c|why] w']; rewrite Hs in Hg.
  - destruct Hg as [-> Hk]. assert (E : config (client w') = ∅).
    { apply map_eq. intros k. by rewrite Hk, !lookup_empty. }
    rewrite E, lookup_empty. by exists w'.
  - destruct Hg as (_ & (k & v & Hk & _) & _). by rewrite lookup_empty in Hk.
Qed.
End lemmas.

(** * Properties *)

(** With an empty cache, [GetBeaconConfig] returns and caches exactly the
    entries the node sent, whatever the iteration order of the map, when all
    of them are strings; when one is not, it panics, and the cache then holds
    nothing but correct entries, possibly not all of them. *)
Theorem GetBeaconConfig_correct `{!Network} `{!RangeOrder} (w : World) :
  config (client w) = ∅ →
  wp GetBeaconConfig
    (λ c w', c = config (client w') ∧ ∀ k, c !! k = served_config w !! k ≫= string_of)
    (λ why w', why = TypeAssertion "string" ∧
       (∃ k v, served_config w !! k = Some v ∧ string_of v = None) ∧
       (∀ k s, config (client w') !! k = Some s → served_config w !! k ≫= string_of = Some s)) w.
Proof. apply GetBeaconConfig_spec. Qed.

(** [GetLatestBeaconHeader] never touches the cache; it returns the first
    header of a reply that decodes to a non-empty list, an error when the
    reply does not decode or the request failed, and it panics exactly when
    the reply decodes to an empty (or null) list. *)
Theorem GetLatestBeaconHeader_correct `{!Network} (w : World) :
  let req := HttpGet ("http://" +:+ endpoint (client w) +:+ "/eth/v1/beacon/headers") in
  GetLatestBeaconHeader w =
    (match unmarshal_raw_into (A := list BeaconHeaderInfo) (reply_data w req) with
     | (_, Some e) => Ret (no_header, Some (ErrDecode e))
     | (h :: _, None) => Ret (h, None)
     | ([], None) => Panic (IndexOutOfRange "headers[0]")
     end, log_event (Request req) w).
Proof.
  intros req. unfold GetLatestBeaconHeader. rewrite bind_url, bind_get.
  destruct (unmarshal_raw_into _) as [[|h l] [e|]]; done.
Qed.

(** * A concrete network: the reply depends on the path only *)

Definition scripted (f : string → option string) : Network := {|
  respond _ r := match r with HttpGet u | HttpPost u _ => f u end
|}.

Definition sample_spec : string :=
  jq "{'data':{'SLOTS_PER_EPOCH':'32','SECONDS_PER_SLOT':'12','CONFIG_NAME':'mainnet'}}".

Definition sample_world : World :=
  {| client := NewBeaconGwClient "node:3500"; trace := [] |}.

Definition spec_only : Network :=
  scripted (λ u, if decide (u = "http://node:3500/eth/v1/config/spec") then Some sample_spec else None).

Lemma GetBeaconConfig_correct_witness :
  (@GetIntConfig spec_only default_range_order SECONDS_PER_SLOT sample_world).1 = Ret (12, None) ∧
  wp (@GetBeaconConfig spec_only default_range_order)
    (λ c w', c = config (client w') ∧
       ∀ k, c !! k = @served_config spec_only sample_world !! k ≫= string_of)
    (λ why w', why = TypeAssertion "string" ∧
       (∃ k v, @served_config spec_only sample_world !! k = Some v ∧ string_of v = None) ∧
       (∀ k s, config (client w') !! k = Some s →
          @served_config spec_only sample_world !! k ≫= string_of = Some s)) sample_world.
Proof.
  split; [vm_compute; reflexivity|].
  exact (@GetBeaconConfig_correct spec_only default_range_order sample_world eq_refl).
Defined.
