(* ===== verification/ConfigCache.v ===== *)
(** * Package beaconapi, the configuration cache under concurrent callers
    (src/beaconapi/beaconclient.go [GetBeaconConfig], [GetIntConfig])

    The handlers of the service and the duty monitor share one client and call
    [GetIntConfig] from goroutines of their own; the cache has no lock.  A step
    is one read or write of [b.config] or one store into the map, each taken to
    be atomic; maps are objects that [b.config] points to. *)

From S2P Require Import Prelude.

Section cache.
(** What the beacon node answers: its settings, all of them strings. *)
Context (spec : gmap string string).

(** Where a caller of [GetIntConfig] for a key is: before the test of the
    length, before the request, with the decoded reply, in the loop with what
    is left of it, before the second read of [b.config], before the lookup in
    the map it got, done with what the map has for the key. *)
Inductive caller :=
| CCheck (key : string)
| CFetch (key : string)
| CMake (key : string) (reply : list (string * string))
| CStore (key : string) (rest : list (string * string))
| CReturn (key : string)
| CLookup (key : string) (m : option nat)
| CDone (key : string) (found : option string).

Record cache := {
  heap : gmap nat (gmap string string);
  config : option nat;                       (* b.config, [None] is nil *)
  callers : gmap nat caller
}.

Definition set_caller (i : nat) (p : caller) (c : cache) : cache :=
  {| heap := heap c; config := config c; callers := <[i := p]> (callers c) |}.

(** [make]: a new object. *)
Definition make_config (c : cache) : cache :=
  let m := fresh (dom (heap c)) in
  {| heap := <[m := ∅]> (heap c); config := Some m; callers := callers c |}.

(** [b.config[key] = v], in the map [b.config] points to at that moment. *)
Definition store (kv : string * string) (c : cache) : cache :=
  match config c with
  | Some m => {| heap := alter <[kv.1 := kv.2]> m (heap c); config := config c; callers := callers c |}
  | None => c
  end.

Definition contents (c : cache) (m : option nat) : gmap string string :=
  match m with Some m => default ∅ (heap c !! m) | None => ∅ end.

(** The replies the decoder gives: the settings in the order of the loop, or
    nothing when the request or the decoding failed, which is not an error. *)
Definition good_reply (l : list (string * string)) : Prop := l ≡ₚ map_to_list spec.

Inductive cache_step (replies : list (string * string) → Prop) : cache → cache → Prop :=
| c_call i key c :
    callers c !! i = None → cache_step replies c (set_caller i (CCheck key) c)
| c_empty i key c :
    callers c !! i = Some (CCheck key) → contents c (config c) = ∅ →
    cache_step replies c (set_caller i (CFetch key) c)
| c_cached i key c :
    callers c !! i = Some (CCheck key) → contents c (config c) ≠ ∅ →
    cache_step replies c (set_caller i (CReturn key) c)
| c_reply i key l c :
    callers c !! i = Some (CFetch key) → replies l →
    cache_step replies c (set_caller i (CMake key l) c)
| c_make i key l c :
    callers c !! i = Some (CMake key l) →
    cache_step replies c (set_caller i (CStore key l) (make_config c))
| c_store i key kv l c :
    callers c !! i = Some (CStore key (kv :: l)) →
    cache_step replies c (set_caller i (CStore key l) (store kv c))
| c_filled i key c :
    callers c !! i = Some (CStore key []) →
    cache_step replies c (set_caller i (CReturn key) c)
| c_return i key c :
    callers c !! i = Some (CReturn key) →
    cache_step replies c (set_caller i (CLookup key (config c)) c)
| c_lookup i key m c :
    callers c !! i = Some (CLookup key m) →
    cache_step replies c (set_caller i (CDone key (contents c m !! key)) c).

(** [NewBeaconGwClient]: the map is empty. *)
Definition new_cache : cache := {| heap := {[0%nat := ∅]}; config := Some 0%nat; callers := ∅ |}.

(** A caller that found the cache empty and has not filled it yet. *)
Definition filling (p : caller) : bool :=
  match p with CFetch _ | CMake _ _ | CStore _ _ => true | _ => false end.

Definition quiet (c : cache) : Prop := ∀ i p, callers c !! i = Some p → filling p = false.
End cache.

(** * Lemmas *)

Section lemmas.
Context (spec : gmap string string).
Implicit Types (c : cache) (l : list (string * string)).

Abbreviation step := (cache_step (good_reply spec)).
Abbreviation current c := (contents c (config c)).

(** ** A filled cache stays *)

(** Nobody fills, and those that called since [old] see the contents [X]. *)
Record warm (old : gset nat) (m : nat) (X : gmap string string) c : Prop := {
  w_config : config c = Some m;
  w_current : heap c !! m = Some X;
  w_callers : ∀ i p, callers c !! i = Some p → filling p = false ∧
    (i ∉ old → match p with
               | CLookup _ m' => m' = Some m
               | CDone key r => r = X !! key
               | _ => True
               end)
}.

Lemma warm_contents old m X c : warm old m X c → current c = X.
Proof. intros [Hc Hx _]. unfold contents. by rewrite Hc, Hx. Qed.

Lemma warm_move old m X c i p :
  warm old m X c → filling p = false →
  (i ∉ old → match p with
             | CLookup _ m' => m' = Some m
             | CDone key r => r = X !! key
             | _ => True
             end) →
  warm old m X (set_caller i p c).
Proof.
  intros [Hc Hx Hp] Hf Hi. split; [done|done|]. intros j q. cbn.
  intros [(<- & <-)|(_ & Hq)]%lookup_insert_Some; [done|by apply Hp].
Qed.

Lemma warm_step replies old m X c c' :
  X ≠ ∅ → cache_step replies c c' → warm old m X c → warm old m X c'.
Proof.
  intros Hne Hst Hw. pose proof (warm_contents _ _ _ _ Hw) as Hcur. pose proof Hw as [Hc Hx Hp].
  destruct Hst as [i key c Hi|i key c Hi He|i key c Hi He|i key l c Hi Hl|i key l c Hi|i key kv l c Hi|i key c Hi
    |i key c Hi|i key k c Hi]; try (destruct (Hp i _ Hi) as [Hf Ho]; discriminate Hf).
  - by apply warm_move.
  - congruence.
  - by apply warm_move.
  - by apply warm_move.
  - destruct (Hp i _ Hi) as [_ Ho]. apply warm_move; [done|done|]. intros Hn. rewrite (Ho Hn).
    cbn. by rewrite Hx.
Qed.

Lemma warm_rtc replies old m X c c' :
  X ≠ ∅ → rtc (cache_step replies) c c' → warm old m X c → warm old m X c'.
Proof. intros Hne. induction 1; eauto using warm_step. Qed.

Lemma quiet_warm c m X :
  quiet c → config c = Some m → heap c !! m = Some X → warm (dom (callers c)) m X c.
Proof.
  intros Hq Hc Hx. split; [done|done|]. intros i p Hp. split; [by eapply Hq|].
  intros Hn. apply elem_of_dom_2 in Hp. done.
Qed.

(** ** Filling with good replies *)

(** What is left to store are settings of the node. *)
Definition entries_ok l : Prop := ∀ k v, (k, v) ∈ l → spec !! k = Some v.

(** What the current map lacks is still to be stored by the caller that made
    it; without such a caller it is complete, or no map was made yet. *)
Record cache_inv c : Prop := {
  ci_config : ∃ m X, config c = Some m ∧ heap c !! m = Some X;
  ci_part : ∀ k v, current c !! k = Some v → spec !! k = Some v;
  ci_entries : ∀ i key l, callers c !! i = Some (CMake key l) → good_reply spec l;
  ci_rest : ∀ i key l, callers c !! i = Some (CStore key l) → entries_ok l;
  ci_maker : current c = spec ∨
    (∃ i key l, callers c !! i = Some (CStore key l) ∧
       ∀ k v, spec !! k = Some v → current c !! k = Some v ∨ (k, v) ∈ l) ∨
    (current c = ∅ ∧ ∀ i key l, callers c !! i ≠ Some (CStore key l))
}.

Lemma good_entries l : good_reply spec l → entries_ok l.
Proof. intros Hl k v Hkv. rewrite (Hl : l ≡ₚ _) in Hkv. by apply elem_of_map_to_list. Qed.

(** A caller that does not store moves. *)
Lemma inv_move_caller i p p0 c :
  cache_inv c → callers c !! i = p0 → (∀ key l, p0 ≠ Some (CStore key l)) →
  (∀ key l, p ≠ CStore key l) → (∀ key l, p = CMake key l → good_reply spec l) →
  cache_inv (set_caller i p c).
Proof.
  intros [Hc Hp He Hr Hm] Hi Hn Hns Hnm. split; [done|done| | |].
  - cbn. intros j key l [(<- & E)|(_ & Hj)]%lookup_insert_Some; [by eapply Hnm|by eapply He].
  - cbn. intros j key l [(<- & E)|(_ & Hj)]%lookup_insert_Some; [by destruct (Hns key l)|by eapply Hr].
  - destruct Hm as [Hm|[(j & key & l & Hj & Hm)|[Hm Hj]]]; [by left|right; left|right; right].
    + exists j, key, l. split; [|done]. cbn. rewrite lookup_insert_ne; [done|]. intros ->. naive_solver.
    + split; [done|]. cbn. intros j key l [(<- & E)|(_ & Hjj)]%lookup_insert_Some; [by destruct (Hns key l)|by eapply Hj].
Qed.

Lemma contents_store kv c m X :
  config c = Some m → heap c !! m = Some X → contents (store kv c) (config c) = <[kv.1 := kv.2]> X.
Proof.
  intros Hc Hx. unfold store, contents. rewrite Hc. cbn. by rewrite lookup_alter_eq, Hx.
Qed.

Lemma inv_store i key kv l c :
  cache_inv c → callers c !! i = Some (CStore key (kv :: l)) →
  cache_inv (set_caller i (CStore key l) (store kv c)).
Proof.
  intros [(m & X & Hc & Hx) Hp He Hr Hm] Hi. destruct kv as [k0 v0].
  assert (Hs0 : spec !! k0 = Some v0) by (eapply Hr; [exact Hi|]; by left).
  assert (Hcs : config (store (k0, v0) c) = config c) by (unfold store; by destruct (config c)).
  assert (Hca : callers (store (k0, v0) c) = callers c) by (unfold store; by destruct (config c)).
  assert (Hcur : current (set_caller i (CStore key l) (store (k0, v0) c)) = <[k0 := v0]> X).
  { change (contents (store (k0, v0) c) (config (store (k0, v0) c)) = <[k0 := v0]> X). rewrite Hcs.
    by eapply (contents_store (k0, v0)). }
  assert (Hold : current c = X) by (unfold contents; by rewrite Hc, Hx).
  rewrite Hold in *. split.
  - exists m, (<[k0 := v0]> X). cbn. rewrite Hcs. split; [done|]. unfold store. rewrite Hc. cbn.
    by rewrite lookup_alter_eq, Hx.
  - rewrite Hcur. intros k v [(<- & <-)|(_ & Hk)]%lookup_insert_Some; [done|by apply Hp].
  - cbn. rewrite Hca. intros j key' l' [(<- & E)|(_ & Hj)]%lookup_insert_Some; [done|by eapply He].
  - cbn. rewrite Hca. intros j key' l' [(<- & E)|(_ & Hj)]%lookup_insert_Some; [|by eapply Hr].
    injection E as <- <-. intros k v Hkv. eapply Hr; [exact Hi|]. by right.
  - rewrite Hcur. cbn. rewrite Hca. destruct Hm as [->|[(j & key' & l' & Hj & Hm)|[_ Hno]]].
    + left. by apply insert_id.
    + right; left. destruct (decide (i = j)) as [<-|Hne].
      * rewrite Hi in Hj. injection Hj as <- <-. exists i, key, l. rewrite lookup_insert_eq. split; [done|].
        intros k v Hk. destruct (decide (k = k0)) as [->|Hnk]; [left; rewrite lookup_insert_eq; congruence|].
        rewrite lookup_insert_ne by done. destruct (Hm k v Hk) as [|[E|]%elem_of_cons]; [by left| |by right].
        congruence.
      * exists j, key', l'. rewrite lookup_insert_ne by done. split; [done|]. intros k v Hk.
        destruct (decide (k = k0)) as [->|Hnk]; [left; rewrite lookup_insert_eq; congruence|].
        rewrite lookup_insert_ne by done. by apply Hm.
    + by destruct (Hno i key ((k0, v0) :: l)).
Qed.

Lemma inv_filled i key c :
  cache_inv c → callers c !! i = Some (CStore key []) → cache_inv (set_caller i (CReturn key) c).
Proof.
  intros [Hc Hp He Hr Hm] Hi. split; [done|done| | |].
  - cbn. intros j key' l [(<- & E)|(_ & Hj)]%lookup_insert_Some; [done|by eapply He].
  - cbn. intros j key' l [(<- & E)|(_ & Hj)]%lookup_insert_Some; [done|by eapply Hr].
  - destruct Hm as [Hm|[(j & key' & l & Hj & Hm)|[Hm Hno]]]; [by left| |by destruct (Hno i key [])].
    destruct (decide (i = j)) as [<-|Hne].
    + left. rewrite Hi in Hj. injection Hj as <- <-. apply map_eq. intros k. change (current c !! k = spec !! k).
      destruct (spec !! k) as [v|] eqn:E; [by destruct (Hm k v E) as [|[]%elem_of_nil]|].
      destruct (current c !! k) as [v|] eqn:E'; [|done]. apply Hp in E'. congruence.
    + right; left. exists j, key', l. cbn. by rewrite lookup_insert_ne.
Qed.

Lemma inv_make i key l c :
  cache_inv c → callers c !! i = Some (CMake key l) → cache_inv (set_caller i (CStore key l) (make_config c)).
Proof.
  intros [Hc Hp He Hr Hm] Hi. pose proof (He i key l Hi) as Hl.
  assert (Hcur : current (set_caller i (CStore key l) (make_config c)) = ∅)
    by (cbn; by rewrite lookup_insert_eq).
  split.
  - exists (fresh (dom (heap c))), ∅. cbn. by rewrite lookup_insert_eq.
  - rewrite Hcur. intros k v. by rewrite lookup_empty.
  - cbn. intros j key' l' [(<- & E)|(_ & Hj)]%lookup_insert_Some; [done|by eapply He].
  - cbn. intros j key' l' [(<- & E)|(_ & Hj)]%lookup_insert_Some; [|by eapply Hr].
    injection E as <- <-. by apply good_entries.
  - right; left. exists i, key, l. cbn. rewrite lookup_insert_eq. split; [done|]. intros k v Hk. right.
    rewrite (Hl : l ≡ₚ _). by apply elem_of_map_to_list.
Qed.

Lemma cache_inv_step c c' : step c c' → cache_inv c → cache_inv c'.
Proof.
  intros Hst Hi. destruct Hst as [i key c Hc|i key c Hc He|i key c Hc He|i key l c Hc Hl|i key l c Hc|i key kv l c Hc
    |i key c Hc|i key c Hc|i key m c Hc]; try (by eapply inv_move_caller; [done|exact Hc|..]).
  - eapply inv_move_caller; [done|exact Hc|done|done|]. by intros ?? [= <- <-].
  - by apply inv_make.
  - by apply inv_store.
  - by apply inv_filled.
Qed.

Lemma cache_inv_reachable c : rtc step new_cache c → cache_inv c.
Proof.
  assert (H0 : cache_inv new_cache).
  { split; cbn; try done.
    - by exists 0%nat, ∅.
    - right; right. done. }
  intros H. revert H0. induction H; eauto using cache_inv_step.
Qed.

(** ** Runs of a caller *)

Lemma at_caller i p c : callers (set_caller i p c) !! i = Some p.
Proof. apply lookup_insert_eq. Qed.

Lemma other_caller i j p c : i ≠ j → callers (set_caller i p c) !! j = callers c !! j.
Proof. intros H. by apply lookup_insert_ne. Qed.
End lemmas.

Section races.
Context (spec : gmap string string) (k1 k2 v1 v2 : string).
Context (Hk1 : spec !! k1 = Some v1) (Hk2 : spec !! k2 = Some v2) (Hne : k1 ≠ k2).

(** A reply with the given setting first. *)
Definition reply_with (k v : string) : list (string * string) := (k, v) :: map_to_list (delete k spec).

Lemma reply_with_good k v : spec !! k = Some v → good_reply spec (reply_with k v).
Proof. intros Hk. unfold good_reply, reply_with. by apply (map_to_list_delete spec). Qed.

(** The first caller has stored its first setting. *)
Definition one_stored (k v : string) : cache :=
  set_caller 0 (CStore k (map_to_list (delete k spec)))
    (store (k, v) (set_caller 0 (CStore k (reply_with k v)) (make_config
      (set_caller 0 (CMake k (reply_with k v)) (set_caller 0 (CFetch k) (set_caller 0 (CCheck k) new_cache)))))).

Lemma one_stored_contents k v : contents (one_stored k v) (config (one_stored k v)) = {[k := v]}.
Proof. cbn. by rewrite lookup_alter_eq, lookup_insert_eq. Qed.

Lemma one_stored_reachable k v :
  spec !! k = Some v → rtc (cache_step (good_reply spec)) new_cache (one_stored k v).
Proof.
  intros Hk. eapply rtc_l; [by apply (c_call _ 0 k)|].
  eapply rtc_l; [apply (c_empty _ 0 k); [apply at_caller|done]|].
  eapply rtc_l; [apply (c_reply _ 0 k (reply_with k v)); [apply at_caller|by apply reply_with_good]|].
  eapply rtc_l; [apply (c_make _ 0 k (reply_with k v)), at_caller|].
  apply rtc_once, (c_store _ 0 k), at_caller.
Qed.

(** A caller of a setting that is not stored yet finds a cache that is not
    empty, and no entry. *)
Lemma cold_miss : ∃ c, rtc (cache_step (good_reply spec)) new_cache c ∧ callers c !! 1%nat = Some (CDone k1 None).
Proof.
  set (c0 := one_stored k2 v2). set (c1 := set_caller 1 (CCheck k1) c0).
  set (c2 := set_caller 1 (CReturn k1) c1). set (c3 := set_caller 1 (CLookup k1 (config c0)) c2).
  assert (Hc : contents c3 (config c0) !! k1 = None).
  { change (contents c0 (config c0) !! k1 = None). unfold c0. rewrite one_stored_contents.
    by apply lookup_singleton_ne. }
  exists (set_caller 1 (CDone k1 (contents c3 (config c0) !! k1)) c3). split; [|rewrite Hc; apply at_caller].
  etransitivity; [by apply (one_stored_reachable k2 v2)|]. fold c0.
  eapply rtc_l; [by apply (c_call _ 1 k1)|]. fold c1.
  eapply rtc_l; [apply (c_cached _ 1 k1); [apply at_caller|]|].
  { change (contents c0 (config c0) ≠ ∅). unfold c0. rewrite one_stored_contents. apply map_non_empty_singleton. }
  eapply rtc_l; [apply (c_return _ 1 k1), at_caller|]. apply rtc_once, (c_lookup _ 1 k1), at_caller.
Qed.

(** Two callers fill at once, and the reply of the second one fails: its empty
    map takes the place of the first one's between two stores. *)
Definition both_fetching : cache :=
  set_caller 1 (CMake k1 []) (set_caller 1 (CFetch k1) (set_caller 1 (CCheck k1)
    (set_caller 0 (CStore k1 (reply_with k1 v1)) (make_config
      (set_caller 0 (CMake k1 (reply_with k1 v1)) (set_caller 0 (CFetch k1) (set_caller 0 (CCheck k1) new_cache))))))).

Definition replies_may_fail (l : list (string * string)) : Prop := good_reply spec l ∨ l = [].

Lemma both_fetching_reachable : rtc (cache_step replies_may_fail) new_cache both_fetching.
Proof.
  eapply rtc_l; [by apply (c_call _ 0 k1)|].
  eapply rtc_l; [apply (c_empty _ 0 k1); [apply at_caller|done]|].
  eapply rtc_l; [apply (c_reply _ 0 k1 (reply_with k1 v1)); [apply at_caller|by left; apply reply_with_good]|].
  eapply rtc_l; [apply (c_make _ 0 k1 (reply_with k1 v1)), at_caller|].
  eapply rtc_l; [by apply (c_call _ 1 k1)|].
  eapply rtc_l; [apply (c_empty _ 1 k1); [apply at_caller|cbn; by rewrite lookup_insert_eq]|].
  apply rtc_once, (c_reply _ 1 k1 []); [apply at_caller|by right].
Qed.

(** Storing what is left, by the caller 0. *)
Lemma stores_run replies l c :
  callers c !! 0%nat = Some (CStore k1 l) →
  ∃ c', rtc (cache_step replies) c c' ∧ config c' = config c ∧
    callers c' = <[0%nat := CStore k1 []]> (callers c) ∧
    ∀ m X, config c = Some m → heap c !! m = Some X →
      heap c' !! m = Some (foldl (λ X kv, <[kv.1 := kv.2]> X) X l).
Proof.
  revert c. induction l as [|kv l IH]; intros c Hc.
  - exists c. split; [apply rtc_refl|]. split; [done|]. split; [by rewrite insert_id|done].
  - destruct (IH (set_caller 0 (CStore k1 l) (store kv c))) as (c' & Hr & Hcf & Hca & Hh); [apply at_caller|].
    exists c'. split; [eapply rtc_l; [by apply (c_store _ 0 k1 kv l)|exact Hr]|].
    assert (Hs : config (store kv c) = config c ∧ callers (store kv c) = callers c)
      by (unfold store; by destruct (config c) eqn:E).
    rewrite Hcf, Hca. destruct Hs as [Hs1 Hs2]. split; [exact Hs1|].
    split; [cbn; by rewrite Hs2, insert_insert_eq|].
    intros m X Hm HX. rewrite (Hh m (<[kv.1 := kv.2]> X)); [done|cbn; by rewrite Hs1|].
    cbn. unfold store. rewrite Hm. cbn. by rewrite lookup_alter_eq, HX.
Qed.

Lemma foldl_insert_lookup l (X : gmap string string) k :
  k ∉ l.*1 → foldl (λ X kv, <[kv.1 := kv.2]> X) X l !! k = X !! k.
Proof.
  revert X. induction l as [|kv l IH]; intros X Hn; [done|]. cbn in *. apply not_elem_of_cons in Hn as [Hn1 Hn2].
  rewrite IH by done. by apply lookup_insert_ne.
Qed.

Lemma foldl_insert_some l (X : gmap string string) k :
  k ∈ l.*1 → is_Some (foldl (λ X kv, <[kv.1 := kv.2]> X) X l !! k).
Proof.
  revert X. induction l as [|kv l IH]; intros X Hk; [by apply elem_of_nil in Hk|].
  apply elem_of_cons in Hk as [->|Hk]; cbn; [|by apply IH].
  destruct (decide (kv.1 ∈ l.*1)) as [Hin|Hn]; [by apply IH|].
  rewrite foldl_insert_lookup by done. rewrite lookup_insert_eq. by eexists.
Qed.

Lemma lasting_miss : ∃ c X m, rtc (cache_step replies_may_fail) new_cache c ∧
  warm (dom (callers c)) m X c ∧ X ≠ ∅ ∧ X !! k1 = None.
Proof.
  set (rest := map_to_list (delete k1 spec)).
  set (c1 := set_caller 0 (CStore k1 rest) (store (k1, v1) both_fetching)).
  set (c2 := set_caller 1 (CStore k1 []) (make_config c1)).
  set (c3 := set_caller 1 (CReturn k1) c2).
  assert (Hr1 : rtc (cache_step replies_may_fail) new_cache c1).
  { eapply rtc_r; [apply both_fetching_reachable|]. apply (c_store _ 0 k1). reflexivity. }
  assert (Hr3 : rtc (cache_step replies_may_fail) new_cache c3).
  { eapply rtc_r; [eapply rtc_r; [exact Hr1|]|].
    - apply (c_make _ 1 k1 []). cbn. reflexivity.
    - apply (c_filled _ 1 k1), at_caller. }
  destruct (stores_run replies_may_fail rest c3) as (c4 & Hr4 & Hcf & Hca & Hh); [reflexivity|].
  set (m := fresh (dom (heap c1))). specialize (Hh m ∅ eq_refl (lookup_insert_eq _ _ _)).
  set (X := foldl _ ∅ rest) in Hh. exists (set_caller 0 (CReturn k1) c4), X, m. split_and!.
  - eapply rtc_r; [etransitivity; [exact Hr3|exact Hr4]|]. apply (c_filled _ 0 k1). rewrite Hca. apply lookup_insert_eq.
  - apply quiet_warm; [|by cbn; rewrite Hcf|exact Hh]. intros i p. cbn. rewrite Hca, insert_insert_eq. cbn.
    intros [(_ & <-)|(Hi & Hp)]%lookup_insert_Some; [done|].
    rewrite !lookup_insert_Some in Hp. naive_solver.
  - intros E. assert (is_Some (X !! k2)) as [? Hs].
    { apply foldl_insert_some, list_elem_of_fmap. exists (k2, v2). split; [done|]. apply elem_of_map_to_list.
      by rewrite lookup_delete_ne. }
    by rewrite E, lookup_empty in Hs.
  - unfold X. rewrite foldl_insert_lookup; [apply lookup_empty|].
    intros ([k v] & E & Hin)%list_elem_of_fmap. cbn in E. subst k. apply elem_of_map_to_list in Hin.
    by rewrite lookup_delete_eq in Hin.
Qed.
End races.

(** * Properties *)


(** C23: The cache is not safe to fill concurrently.  With two settings or
    more, a caller that comes while another one fills can miss a setting the
    node has (its [GetIntConfig] then answers 0 without an error); and when a
    concurrent request fails, the cache can be left without a setting for
    good, so that no later call ever finds it. *)
Theorem concurrent_fill_loses (spec : gmap string string) (k1 k2 v1 v2 : string) :
  spec !! k1 = Some v1 → spec !! k2 = Some v2 → k1 ≠ k2 →
  (∃ c, rtc (cache_step (good_reply spec)) new_cache c ∧ callers c !! 1%nat = Some (CDone k1 None)) ∧
  (∃ c, rtc (cache_step (replies_may_fail spec)) new_cache c ∧
     ∀ c' i found, rtc (cache_step (replies_may_fail spec)) c c' → callers c !! i = None →
       callers c' !! i = Some (CDone k1 found) → found = None).
Proof.
  intros Hk1 Hk2 Hne. split; [by eapply cold_miss|].
  destruct (lasting_miss spec k1 k2 v1 v2 Hk1 Hk2 Hne) as (c & X & m & Hr & Hw & HX & Hn).
  exists c. split; [done|]. intros c' i found Hr' Hi Hd.
  destruct (w_callers _ _ _ _ (warm_rtc _ _ _ _ _ _ HX Hr' Hw) i _ Hd) as [_ Hf].
  rewrite Hf; [done|]. by apply not_elem_of_dom.
Qed.

Definition sample_spec : gmap string string :=
  {["SLOTS_PER_EPOCH" := "32"; "SECONDS_PER_SLOT" := "12"]}.


Example concurrent_fill_loses_witness :
  sample_spec !! "SLOTS_PER_EPOCH" = Some "32" ∧
  ∃ c, rtc (cache_step (good_reply sample_spec)) new_cache c ∧
    callers c !! 1%nat = Some (CDone "SLOTS_PER_EPOCH" None).
Proof.
  split; [reflexivity|].
  apply (concurrent_fill_loses sample_spec "SLOTS_PER_EPOCH" "SECONDS_PER_SLOT" "32" "12");
    [reflexivity|reflexivity|discriminate].
Defined.
