(* ===== verification/BeaconGrpc.v ===== *)
(** * Package beaconapi, the gRPC client (src/beaconapi/beaconGrpcClient.go,
    src/beaconapi/multiple_endpoints_grpc_resolver.go)

    The options of a connection, the list of the validators' keys, and the
    resolver that lets one endpoint name several addresses.  gRPC itself, the
    files of certificates and what the node answers are parameters. *)

From S2P Require Import Prelude GoJson JsonRound.

(** ** encoding/hex *)

Fixpoint EncodeToString (s : string) : string :=
  match s with
  | EmptyString => ""
  | String c r => String (hex_digit (code c / 16)) (String (hex_digit (code c mod 16)) (EncodeToString r))
  end.

Fixpoint DecodeString (s : string) : option string :=
  match s with
  | EmptyString => Some ""
  | String a (String b r) => x ← hex_val a; y ← hex_val b; String (chr (16 * x + y)) <$> DecodeString r
  | String _ EmptyString => None
  end.

(** ** The resolver *)

Record Address := { Addr : string; ServerName : string }.

(** [start]: the addresses of an endpoint. *)
Definition resolver_start (endpoint : string) : list Address :=
  (λ e, {| Addr := e; ServerName := e |}) <$> split_on "," endpoint.

(** ** Dialling *)

Inductive interceptor := Opentracing | Prometheus | Retry | LogRequests | LogStream.

Inductive DialOption :=
| WithTransportCredentials (creds : string)
| WithInsecure
| WithDefaultCallOptions (maxCallRecvMsgSize grpcRetries backoff : Z)
| WithStatsHandler
| WithUnaryInterceptor (chain : list interceptor)
| WithChainStreamInterceptor (chain : list interceptor)
| WithResolvers (resolve : string → list Address).

(** Reading a certificate, connecting with options, and the call
    [ListValidators]: per validator the public key, or nothing when the entry has
    no validator. *)
Class GrpcLib := {
  conn : Type;
  NewClientTLSFromFile : string → string + string;
  DialContext : string → list DialOption → conn + string;
  ListValidators : conn → list (option string) + string
}.

Definition second : Z := 1000000000.
Definition defaultRecvMsgSize : Z := Z.shiftl (10 * 5) 20.

Section client.
Context `{!GrpcLib}.

(** [None] is nil. *)
Definition ConstructDialOptions (maxCallRecvMsgSize : Z) (withCert : string) (grpcRetries grpcRetryDelay : Z)
    (extraOpts : list DialOption) : option (list DialOption) :=
  let security :=
    if decide (withCert = "") then Some WithInsecure
    else match NewClientTLSFromFile withCert with
         | inl creds => Some (WithTransportCredentials creds)
         | inr _ => None
         end in
  transportSecurity ← security;
  let maxCallRecvMsgSize := if maxCallRecvMsgSize =? 0 then defaultRecvMsgSize else maxCallRecvMsgSize in
  Some ([transportSecurity;
         WithDefaultCallOptions maxCallRecvMsgSize grpcRetries grpcRetryDelay;
         WithStatsHandler;
         WithUnaryInterceptor [Opentracing; Prometheus; Retry; LogRequests];
         WithChainStreamInterceptor [LogStream; Opentracing; Prometheus; Retry];
         WithResolvers resolver_start] ++ extraOpts).

(** An error gives the nil interface. *)
Definition NewGrpcBeaconChainClient (endpoint : string) : option conn :=
  dialOpts ← ConstructDialOptions (1024 * 1024) "" 5 second [];
  match DialContext endpoint dialOpts with
  | inl c => Some c
  | inr _ => None
  end.

(** The loop over the answer: a missing validator is dereferenced. *)
Fixpoint collect_keys (vals : list (option string)) (pubkeys : list string) : outcome (list string) :=
  match vals with
  | [] => Ret pubkeys
  | Some PublicKey :: vals' => collect_keys vals' (pubkeys ++ [EncodeToString PublicKey])
  | None :: _ => Panic (NilDeref "val.Validator")
  end.

Definition GetValidators (grpcEndpoint : string) : outcome (list string + string) :=
  match NewGrpcBeaconChainClient grpcEndpoint with
  | None => Panic (NilDeref "client")
  | Some client =>
      match ListValidators client with
      | inr err => Ret (inr err)
      | inl vals => pubkeys ← collect_keys vals []; Ret (inl pubkeys)
      end
  end.
End client.

(** * Lemmas *)

Lemma DecodeString_EncodeToString s : DecodeString (EncodeToString s) = Some s.
Proof.
  induction s as [|c r IH]; [done|]. cbn. pose proof (code_range c) as Hc.
  rewrite !hex_digit_val by (split; [apply Z.div_pos || apply Z.mod_pos_bound; lia|
    (apply Z.div_lt_upper_bound || apply Z.mod_pos_bound); lia]). cbn. rewrite IH. cbn.
  rewrite <-Z.div_mod by lia. by rewrite chr_code.
Qed.

Lemma EncodeToString_length s : String.length (EncodeToString s) = (2 * String.length s)%nat.
Proof. induction s as [|c r IH]; [done|]. cbn. rewrite IH. lia. Qed.

(** The options of the service's client. *)
Definition service_options : list DialOption :=
  [WithInsecure; WithDefaultCallOptions (1024 * 1024) 5 second; WithStatsHandler;
   WithUnaryInterceptor [Opentracing; Prometheus; Retry; LogRequests];
   WithChainStreamInterceptor [LogStream; Opentracing; Prometheus; Retry]; WithResolvers resolver_start].

Lemma NewGrpcBeaconChainClient_options `{!GrpcLib} endpoint :
  NewGrpcBeaconChainClient endpoint =
    match DialContext endpoint service_options with inl c => Some c | inr _ => None end.
Proof. reflexivity. Qed.

(** Options are missing exactly when a certificate was asked for and cannot be
    read, and no limit means fifty mebibytes. *)
Lemma ConstructDialOptions_None `{!GrpcLib} size cert retries delay extra :
  ConstructDialOptions size cert retries delay extra = None ↔ cert ≠ "" ∧ ∃ err, NewClientTLSFromFile cert = inr err.
Proof.
  unfold ConstructDialOptions. case_decide; [naive_solver|]. destruct (NewClientTLSFromFile cert); naive_solver.
Qed.

Lemma defaultRecvMsgSize_50MiB : defaultRecvMsgSize = 50 * 1024 * 1024.
Proof. reflexivity. Qed.

Lemma split_on_concat c s : String.concat (String c "") (split_on c s) = s ∧ split_on c s ≠ [].
Proof.
  induction s as [|d r [IH Hn]]; [done|]. cbn. destruct (decide (c = d)) as [->|Hne].
  - split; [|done]. destruct (split_on d r) as [|w ws]; [done|].
    change (String d (String.concat (String d "") (w :: ws)) = String d r). by rewrite IH.
  - destruct (split_on c r) as [|w ws]; [done|]. split; [|done].
    destruct ws as [|v vs]; cbn in *; [by rewrite IH|]. by rewrite <-IH.
Qed.

Lemma split_on_plain c s w : w ∈ split_on c s → string_mem c w = false.
Proof.
  revert w. induction s as [|d r IH]; intros w; cbn.
  - by intros ->%list_elem_of_singleton.
  - destruct (decide (c = d)) as [->|Hne].
    + intros [->|Hw]%elem_of_cons; [done|by apply IH].
    + destruct (split_on c r) as [|v vs].
      * intros ->%list_elem_of_singleton. cbn. by rewrite bool_decide_eq_false_2.
      * intros [->|Hw]%elem_of_cons; [|apply IH; by right]. cbn. rewrite bool_decide_eq_false_2 by done.
        apply IH. by left.
Qed.

(** The addresses are the parts between the commas, in order, none lost. *)
Theorem resolver_addresses (endpoint : string) :
  String.concat "," (Addr <$> resolver_start endpoint) = endpoint ∧
  ∀ a, a ∈ resolver_start endpoint → string_mem "," (Addr a) = false ∧ ServerName a = Addr a.
Proof.
  unfold resolver_start. split.
  - rewrite <-list_fmap_compose. etransitivity; [|apply (split_on_concat "," endpoint)]. f_equal.
    apply list_fmap_id.
  - intros a (e & -> & He)%list_elem_of_fmap. split; [by eapply split_on_plain|done].
Qed.

Lemma collect_keys_spec vals acc :
  collect_keys vals acc =
    match mapM (M := option) id vals with
    | Some keys => Ret (acc ++ (EncodeToString <$> keys))
    | None => Panic (NilDeref "val.Validator")
    end.
Proof.
  revert acc. induction vals as [|[k|] vals IH]; intros acc; cbn; [by rewrite app_nil_r| |done].
  rewrite IH. destruct (mapM id vals) as [keys|]; cbn; [|done]. by rewrite <-app_assoc.
Qed.

(** * Properties *)

(** The keys of the validators.  When the connection can be made and the
    node answers with validators, the result is their keys in hexadecimal
    digits, in order, from which the keys can be read back; an error of the node
    is the error of the result.  In two cases it panics: a connection that
    could not be made is a nil client that is called, and an entry without a
    validator is dereferenced. *)
Theorem GetValidators_correct `{!GrpcLib} (endpoint : string) :
  match DialContext endpoint service_options with
  | inr _ => GetValidators endpoint = Panic (NilDeref "client")
  | inl c =>
      match ListValidators c with
      | inr err => GetValidators endpoint = Ret (inr err)
      | inl vals =>
          (∀ keys, vals = Some <$> keys →
             ∃ l, GetValidators endpoint = Ret (inl l) ∧ (DecodeString <$> l) = (Some <$> keys) ∧
               Forall2 (λ h k, String.length h = (2 * String.length k)%nat) l keys) ∧
          (None ∈ vals → GetValidators endpoint = Panic (NilDeref "val.Validator"))
      end
  end.
Proof.
  unfold GetValidators. rewrite NewGrpcBeaconChainClient_options.
  destruct (DialContext endpoint service_options) as [c|e]; [|done].
  destruct (ListValidators c) as [vals|e]; [|done]. rewrite collect_keys_spec. split.
  - intros keys ->. exists (EncodeToString <$> keys). split_and!.
    + replace (mapM id (Some <$> keys)) with (Some keys); [done|]. symmetry. apply mapM_Some.
      induction keys; by constructor.
    + rewrite <-list_fmap_compose. apply list_fmap_ext. intros i k _. apply DecodeString_EncodeToString.
    + apply Forall2_fmap_l, Forall_Forall2_diag, Forall_true. apply EncodeToString_length.
  - intros Hn. destruct (mapM id vals) as [keys|] eqn:E; [|done]. exfalso.
    apply mapM_Some in E. induction E as [|v k vals keys Hv _ IH]; [by apply elem_of_nil in Hn|].
    apply elem_of_cons in Hn as [<-|Hn]; [done|by apply IH].
Qed.
