(* ===== verification/Backend.v ===== *)
(** * Package apis, the backend and the slot tool (src/server/apis/backend.go, slot.go)

    [Backend] is the interface between the API handlers and the server, as a
    class of operations on a state [S]; [BackendLaws] is what the handlers'
    theorems rely on: two views of the state (strategy and validator data set)
    and how every operation acts on them.  Server.v implements both. *)

From S2P Require Import Prelude Strconv GoJson GoValue Types Strategy ValidatorSet Beacon.

Class Backend (Att Blk S : Type) := {
  (* [GetStrategy] returns a pointer: the strategy read through it and the
     writes through it *)
  GetStrategy : GoM S Strategy;
  PutStrategy : Strategy → GoM S unit;
  UpdateBlockBroadDelay : Z → GoM S (option goerror);
  UpdateAttestBroadDelay : Z → GoM S (option goerror);
  GetValidatorRole : Z → Z → GoM S RoleType;
  GetValidatorRoleByPubkey : Z → string → GoM S RoleType;
  GetCurrentEpochProposeDuties : GoM S (with_err (list ProposerDuty));
  GetSlotsPerEpoch : GoM S Z;
  SlotsPerEpoch : GoM S Z;
  GetIntervalPerSlot : GoM S Z;
  AddSignedAttestation : Z → string → Att → GoM S unit;
  AddSignedBlock : Z → string → Blk → GoM S unit;
  GetAttestSet : Z → GoM S (option (SlotAttestSet Att));
  GetBlockSet : Z → GoM S (option (SlotBlockSet Blk));
  GetValidatorDataSet : GoM S (ValidatorDataSet Att Blk);
  GetValidatorByProposeSlot : Z → GoM S (with_err Z);
  GetProposeDuties : Z → GoM S (with_err (list ProposerDuty))
}.

(** What the handlers use besides the backend: the clock and the LRU cache of
    the block API (a package variable). *)
Class Host (S : Type) := {
  Sleep : Z → GoM S unit;               (* time.Sleep, nanoseconds *)
  cache_Add : string → Z → GoM S unit;  (* blockCacheContent.Add *)
  cache_Get : string → GoM S (option Z)
}.

(** A computation that changes neither view of the state. *)
Definition observer {S V A : Type} (view : S → V) (m : GoM S A) : Prop :=
  ∀ s, view (m s).2 = view s.

Class BackendLaws {Att Blk S : Type} (B : Backend Att Blk S) (T : Host S) := {
  bk_strategy : S → Strategy;
  bk_vset : S → ValidatorDataSet Att Blk;
  GetStrategy_spec s : GetStrategy s = (Ret (bk_strategy s), s);
  PutStrategy_spec st s :
    ∃ s', PutStrategy st s = (Ret tt, s') ∧ bk_strategy s' = st ∧ bk_vset s' = bk_vset s;
  GetValidatorRole_spec slot v s : 0 ≤ slot →
    GetValidatorRole slot v s = (Ret (Strategy.GetValidatorRole (bk_strategy s) v slot), s);
  GetValidatorRole_observer slot v :
    observer (λ s, (bk_strategy s, bk_vset s)) (GetValidatorRole slot v);
  GetValidatorRoleByPubkey_spec slot p s :
    GetValidatorRoleByPubkey slot p s =
      match ValidatorSet.GetValidatorByPubkey p (bk_vset s) with
      | Some val => GetValidatorRole slot (Index val) s
      | None => (Ret NormalRole, s)
      end;
  GetAttestSet_spec slot s : GetAttestSet slot s = (Ret (ValidatorSet.GetAttestSet slot (bk_vset s)), s);
  GetValidatorDataSet_spec s : GetValidatorDataSet s = (Ret (bk_vset s), s);
  AddSignedAttestation_spec slot p a s :
    ∃ s', AddSignedAttestation slot p a s = (Ret tt, s') ∧ bk_strategy s' = bk_strategy s ∧
      bk_vset s' = ValidatorSet.AddSignedAttestation slot p a (bk_vset s);
  SlotsPerEpoch_eq : SlotsPerEpoch = GetSlotsPerEpoch;
  GetSlotsPerEpoch_observer : observer (λ s, (bk_strategy s, bk_vset s)) GetSlotsPerEpoch;
  GetIntervalPerSlot_observer : observer (λ s, (bk_strategy s, bk_vset s)) GetIntervalPerSlot;
  GetProposeDuties_observer e : observer (λ s, (bk_strategy s, bk_vset s)) (GetProposeDuties e);
  GetCurrentEpochProposeDuties_observer :
    observer (λ s, (bk_strategy s, bk_vset s)) GetCurrentEpochProposeDuties;
  GetValidatorByProposeSlot_observer slot :
    observer (λ s, (bk_strategy s, bk_vset s)) (GetValidatorByProposeSlot slot);
  Sleep_spec d s : ∃ s', Sleep d s = (Ret tt, s') ∧
    bk_strategy s' = bk_strategy s ∧ bk_vset s' = bk_vset s;
  cache_Add_spec k v s : ∃ s', cache_Add k v s = (Ret tt, s') ∧
    bk_strategy s' = bk_strategy s ∧ bk_vset s' = bk_vset s;
  cache_Get_spec k s : ∃ r s', cache_Get k s = (Ret r, s') ∧
    bk_strategy s' = bk_strategy s ∧ bk_vset s' = bk_vset s
}.

(** ** The slot tool *)

Section slot_tool.
Context {Att Blk S : Type} `{!Backend Att Blk S}.

Definition SlotToEpoch (slot : Z) : GoM S Z :=
  n ← SlotsPerEpoch; go_quot slot n.

Definition EpochEnd (epoch : Z) : GoM S Z :=
  n ← SlotsPerEpoch; mret (to_int64 (to_int64 (to_int64 (epoch + 1) * n) - 1)).

Definition EpochStart (epoch : Z) : GoM S Z :=
  n ← SlotsPerEpoch; mret (to_int64 (epoch * n)).
End slot_tool.
