(* ===== verification/Server.v ===== *)
(** * Package server (src/server/server.go)

    The server's state and its implementation of [Backend]; the periodic task
    [monitorDuties], one call per tick.  Proved here: the implementation
    satisfies [BackendLaws], and what the slot and role queries return. *)

From S2P Require Import Prelude Strconv GoJson GoValue Types Strategy ValidatorSet Beacon.
From S2P Require Import Backend.

(** prysm's LRU cache, holding the delays in seconds. *)
Class LruLib := {
  Lru : Type;
  lru_New : Z → Lru;
  lru_Add : string → Z → Lru → Lru;
  lru_Get : string → Lru → option Z * Lru
}.

(** Documented behaviour: an entry just added is found, and a lookup only
    changes the recency of the entries. *)
Class LruLaws (L : LruLib) : Prop := {
  lru_get_add k v c : (lru_Get k (lru_Add k v c)).1 = Some v;
  lru_get_get k k' c : (lru_Get k (lru_Get k' c).2).1 = (lru_Get k c).1
}.

(** The client of the execution node, from go-ethereum: its answers at a time,
    for the latest block when no number is given. *)
Record ethClient (Block Header : Type) := {
  BlockNumber : Z + string;
  BlockByNumber : option Z → Block + string;
  HeaderByNumber : option Z → Header + string
}.
Arguments BlockNumber {Block Header} _.
Arguments BlockByNumber {Block Header} _ _.
Arguments HeaderByNumber {Block Header} _ _.

Section execution.
Context {Block Header : Type} (execClient : ethClient Block Header).

Definition SomeNeedBackend : bool := true.
Definition GetBlockHeight : Z + string := BlockNumber execClient.
Definition GetBlockByNumber (number : option Z) : Block + string := BlockByNumber execClient number.
Definition GetHeightByNumber (number : option Z) : Header + string := HeaderByNumber execClient number.
End execution.

Section server.
Context {Att Blk : Type} `{!Network} `{!RangeOrder} `{!LruLib}.

Record Server := {
  strategy : Strategy;
  beaconClient : World;
  validatorSetInfo : ValidatorDataSet Att Blk;
  blockCacheContent : Lru
}.

Definition set_strategy (st : Strategy) (s : Server) : Server :=
  {| strategy := st; beaconClient := beaconClient s; validatorSetInfo := validatorSetInfo s;
     blockCacheContent := blockCacheContent s |}.
Definition set_world (w : World) (s : Server) : Server :=
  {| strategy := strategy s; beaconClient := w; validatorSetInfo := validatorSetInfo s;
     blockCacheContent := blockCacheContent s |}.
Definition set_vset (v : ValidatorDataSet Att Blk) (s : Server) : Server :=
  {| strategy := strategy s; beaconClient := beaconClient s; validatorSetInfo := v;
     blockCacheContent := blockCacheContent s |}.
Definition set_cache (c : Lru) (s : Server) : Server :=
  {| strategy := strategy s; beaconClient := beaconClient s;
     validatorSetInfo := validatorSetInfo s; blockCacheContent := c |}.

(** A call of the beacon client. *)
Definition beacon {A} (m : GoM World A) : GoM Server A := zoom beaconClient set_world m.

(** [ethclient.Dial] is third-party: [dialled] is the error it returned. *)
Definition NewServer (strategyFile : option string) (beaconRpc : string)
    (dialled : option string) : outcome Server :=
  match dialled with
  | Some err => Panic (ExplicitPanic ("dial execute failed with err:" +:+ err))
  | None =>
      Ret {| strategy := ParseStrategy strategyFile;
             beaconClient := {| client := NewBeaconGwClient beaconRpc; trace := [] |};
             validatorSetInfo := NewValidatorSet;
             blockCacheContent := lru_New 1000 |}
  end.

(** One tick of [ticker.C] in [monitorDuties]. *)
Definition add_duty (_ : unit) (duty : AttestDuty) : GoM Server unit :=
  let idx := (Atoi (ad_ValidatorIndex duty)).1 in
  modify (λ s, set_vset (AddValidator idx (ad_Pubkey duty) (validatorSetInfo s)) s).

Definition monitorDuties_tick : GoM Server unit :=
  duties ← beacon GetCurrentEpochAttestDuties;
  match duties.2 with
  | Some _ => mret tt
  | None => foldM add_duty tt duties.1
  end.

(** ** Strategy *)

Definition srv_UpdateBlockBroadDelay (milliSecond : Z) : GoM Server (option goerror) :=
  _ ← modify (λ s, set_strategy
    {| Validators := Validators (strategy s);
       Block := {| b_DelayEnable := b_DelayEnable (Block (strategy s));
                   b_BroadCastDelay := milliSecond;
                   b_ModifyEnable := b_ModifyEnable (Block (strategy s)) |};
       Attest := Attest (strategy s) |} s);
  mret None.

Definition srv_UpdateAttestBroadDelay (milliSecond : Z) : GoM Server (option goerror) :=
  _ ← modify (λ s, set_strategy
    {| Validators := Validators (strategy s);
       Block := Block (strategy s);
       Attest := {| a_DelayEnable := a_DelayEnable (Attest (strategy s));
                    a_BroadCastDelay := milliSecond;
                    a_ModifyEnable := a_ModifyEnable (Attest (strategy s)) |} |} s);
  mret None.

(** ** Roles *)

(** A negative slot stands for the slot of the latest header. *)
Definition srv_GetValidatorRole (slot valIdx : Z) : GoM Server RoleType :=
  if slot <? 0 then
    header ← beacon GetLatestBeaconHeader;
    match header.2 with
    | Some _ => mret NormalRole
    | None =>
        let slot := (Atoi (hm_Slot (Message (Header header.1)))).1 in
        gets (λ s, Strategy.GetValidatorRole (strategy s) valIdx slot)
    end
  else gets (λ s, Strategy.GetValidatorRole (strategy s) valIdx slot).

Definition srv_GetValidatorRoleByPubkey (slot : Z) (pubkey : string) : GoM Server RoleType :=
  val ← gets (λ s, ValidatorSet.GetValidatorByPubkey pubkey (validatorSetInfo s));
  match val with
  | Some val => srv_GetValidatorRole slot (Index val)
  | None => mret NormalRole
  end.

(** ** Slots *)

Definition srv_GetSlotsPerEpoch : GoM Server Z :=
  r ← beacon (GetIntConfig SLOTS_PER_EPOCH);
  match r.2 with
  | Some _ => mret 6
  | None => mret r.1
  end.

Definition srv_GetIntervalPerSlot : GoM Server Z :=
  r ← beacon (GetIntConfig SECONDS_PER_SLOT);
  match r.2 with
  | Some _ => mret 12
  | None => mret r.1
  end.

(** The first duty of the slot. *)
Fixpoint find_proposer (slot : Z) (duties : list ProposerDuty) : option Z :=
  match duties with
  | [] => None
  | duty :: duties' =>
      let dutySlot := (ParseInt (pd_Slot duty)).1 in
      if decide (to_uint64 dutySlot = slot)
      then Some (Atoi (pd_ValidatorIndex duty)).1
      else find_proposer slot duties'
  end.

Definition srv_GetValidatorByProposeSlot (slot : Z) : GoM Server (with_err Z) :=
  n ← srv_GetSlotsPerEpoch;
  let epochPerSlot := to_uint64 n in
  epoch ← go_udiv slot epochPerSlot;
  duties ← beacon (GetProposerDuties (to_int64 epoch));
  match duties.2 with
  | Some err => mret (0, Some err)
  | None =>
      match find_proposer slot duties.1 with
      | Some idx => mret (idx, None)
      | None => mret (0, Some (ErrMsg "not found"))
      end
  end.

(** ** The backend *)

#[export] Instance Server_backend : Backend Att Blk Server := {|
  GetStrategy := gets strategy;
  PutStrategy st := modify (set_strategy st);
  UpdateBlockBroadDelay := srv_UpdateBlockBroadDelay;
  UpdateAttestBroadDelay := srv_UpdateAttestBroadDelay;
  GetValidatorRole := srv_GetValidatorRole;
  GetValidatorRoleByPubkey := srv_GetValidatorRoleByPubkey;
  GetCurrentEpochProposeDuties := beacon GetCurrentEpochProposerDuties;
  GetSlotsPerEpoch := srv_GetSlotsPerEpoch;
  SlotsPerEpoch := srv_GetSlotsPerEpoch;
  GetIntervalPerSlot := srv_GetIntervalPerSlot;
  AddSignedAttestation slot pubkey a :=
    modify (λ s, set_vset (ValidatorSet.AddSignedAttestation slot pubkey a (validatorSetInfo s)) s);
  AddSignedBlock slot pubkey b :=
    modify (λ s, set_vset (ValidatorSet.AddSignedBlock slot pubkey b (validatorSetInfo s)) s);
  GetAttestSet slot := gets (λ s, ValidatorSet.GetAttestSet slot (validatorSetInfo s));
  GetBlockSet slot := gets (λ s, ValidatorSet.GetBlockSet slot (validatorSetInfo s));
  GetValidatorDataSet := gets validatorSetInfo;
  GetValidatorByProposeSlot := srv_GetValidatorByProposeSlot;
  GetProposeDuties e := beacon (GetProposerDuties e)
|}.

#[export] Instance Server_host : Host Server := {|
  Sleep d := beacon (modify (log_event (Slept d)));
  cache_Add k v := modify (λ s, set_cache (lru_Add k v (blockCacheContent s)) s);
  cache_Get k := λ s,
    let '(r, c) := lru_Get k (blockCacheContent s) in (Ret r, set_cache c s)
|}.

(** * Lemmas *)

Definition views (s : Server) : Strategy * ValidatorDataSet Att Blk :=
  (strategy s, validatorSetInfo s).

Lemma observer_ret {A} (a : A) : observer views (mret a).
Proof. by intros s. Qed.

Lemma observer_panic {A} why : observer views (panic why : GoM Server A).
Proof. by intros s. Qed.

Lemma observer_gets {A} (f : Server → A) : observer views (gets f).
Proof. by intros s. Qed.

Lemma observer_bind {A B} (m : GoM Server A) (f : A → GoM Server B) :
  observer views m → (∀ a, observer views (f a)) → observer views (m ≫= f).
Proof.
  intros Hm Hf s. unfold mbind, GoM_bind. specialize (Hm s).
  destruct (m s) as [[a|w] s']; [|done]. by rewrite Hf.
Qed.

Lemma observer_beacon {A} (m : GoM World A) : observer views (beacon m).
Proof. intros s. unfold beacon, zoom. by destruct (m (beaconClient s)). Qed.

Lemma observer_udiv a b : observer views (go_udiv a b).
Proof. unfold go_udiv. case_decide; [apply observer_panic|apply observer_ret]. Qed.

Hint Resolve observer_ret observer_panic observer_gets observer_beacon observer_udiv : gom.

Ltac observe :=
  repeat first
    [ solve [eauto with gom]
    | apply observer_bind; [|intros ?]
    | match goal with
      | |- observer _ (if ?b then _ else _) => destruct b
      | |- observer _ (match ?x with _ => _ end) => destruct x
      end ].

Lemma srv_GetValidatorRole_observer slot v : observer views (srv_GetValidatorRole slot v).
Proof. unfold srv_GetValidatorRole. observe. Qed.

Lemma srv_GetSlotsPerEpoch_observer : observer views srv_GetSlotsPerEpoch.
Proof. unfold srv_GetSlotsPerEpoch. observe. Qed.

Lemma srv_GetIntervalPerSlot_observer : observer views srv_GetIntervalPerSlot.
Proof. unfold srv_GetIntervalPerSlot. observe. Qed.

Hint Resolve srv_GetValidatorRole_observer srv_GetSlotsPerEpoch_observer
  srv_GetIntervalPerSlot_observer : gom.

Lemma srv_GetValidatorByProposeSlot_observer slot :
  observer views (srv_GetValidatorByProposeSlot slot).
Proof. unfold srv_GetValidatorByProposeSlot. observe. Qed.

#[export] Program Instance Server_laws : BackendLaws Server_backend Server_host := {|
  bk_strategy := strategy;
  bk_vset := validatorSetInfo
|}.
Next Obligation. done. Qed.
Next Obligation. intros st s. eexists. by split_and!. Qed.
Next Obligation.
  intros slot v s Hslot. simpl. unfold srv_GetValidatorRole.
  destruct (slot <? 0) eqn:E; [lia|done].
Qed.
Next Obligation. exact srv_GetValidatorRole_observer. Qed.
Next Obligation.
  intros slot p s. simpl. unfold srv_GetValidatorRoleByPubkey, mbind, GoM_bind, gets.
  by destruct (ValidatorSet.GetValidatorByPubkey p (validatorSetInfo s)).
Qed.
Next Obligation. done. Qed.
Next Obligation. done. Qed.
Next Obligation. intros slot p a s. eexists. by split_and!. Qed.
Next Obligation. done. Qed.
Next Obligation. exact srv_GetSlotsPerEpoch_observer. Qed.
Next Obligation. exact srv_GetIntervalPerSlot_observer. Qed.
Next Obligation. intros e. apply observer_beacon. Qed.
Next Obligation. apply observer_beacon. Qed.
Next Obligation. exact srv_GetValidatorByProposeSlot_observer. Qed.
Next Obligation. intros d s. eexists. by split_and!. Qed.
Next Obligation. intros k v s. eexists. by split_and!. Qed.
Next Obligation.
  intros k s. simpl. destruct (lru_Get k (blockCacheContent s)) as [r c]. eexists _, _. by split_and!.
Qed.

(** ** Slots *)

Lemma bind_beacon {A B} (m : GoM World A) (f : A → GoM Server B) a w s :
  m (beaconClient s) = (Ret a, w) → (beacon m ≫= f) s = f a (set_world w s).
Proof. intros E. unfold beacon, zoom, mbind, GoM_bind. by rewrite E. Qed.

Lemma set_world_id s : set_world (beaconClient s) s = s.
Proof. by destruct s. Qed.

Lemma find_proposer_spec slot duties :
  match find_proposer slot duties with
  | Some idx => ∃ d1 d d2, duties = d1 ++ d :: d2 ∧ idx = (Atoi (pd_ValidatorIndex d)).1 ∧
      to_uint64 (ParseInt (pd_Slot d)).1 = slot ∧
      Forall (λ d, to_uint64 (ParseInt (pd_Slot d)).1 ≠ slot) d1
  | None => Forall (λ d, to_uint64 (ParseInt (pd_Slot d)).1 ≠ slot) duties
  end.
Proof.
  induction duties as [|d duties IH]; cbn [find_proposer]; [constructor|].
  case_decide as Hd; [by exists [], d, duties|].
  destruct (find_proposer slot duties) as [idx|].
  - destruct IH as (d1 & d' & d2 & -> & -> & Hd' & Hall). exists (d :: d1), d', d2.
    split_and!; [done..|by constructor].
  - by constructor.
Qed.

Lemma GetSlotsPerEpoch_cached n s :
  config (client (beaconClient s)) !! SLOTS_PER_EPOCH = Some (FormatInt n) → is_int64 n →
  srv_GetSlotsPerEpoch s = (Ret n, s).
Proof.
  intros Hc Hn. unfold srv_GetSlotsPerEpoch.
  erewrite bind_beacon by (by apply GetIntConfig_cached).
  unfold Atoi. rewrite ParseInt_FormatInt by done. simpl. by rewrite set_world_id.
Qed.

Lemma GetIntervalPerSlot_cached n s :
  config (client (beaconClient s)) !! SECONDS_PER_SLOT = Some (FormatInt n) → is_int64 n →
  srv_GetIntervalPerSlot s = (Ret n, s).
Proof.
  intros Hc Hn. unfold srv_GetIntervalPerSlot.
  erewrite bind_beacon by (by apply GetIntConfig_cached).
  unfold Atoi. rewrite ParseInt_FormatInt by done. simpl. by rewrite set_world_id.
Qed.

(** ** The data set under the periodic task *)

Lemma add_duties_spec duties s :
  ∃ s', foldM add_duty tt duties s = (Ret tt, s') ∧ strategy s' = strategy s ∧
    validatorSetInfo s' = foldl (λ v d, AddValidator (Atoi (ad_ValidatorIndex d)).1 (ad_Pubkey d) v)
      (validatorSetInfo s) duties.
Proof.
  revert s. induction duties as [|d duties IH]; intros s; [by exists s|].
  destruct (IH (set_vset (AddValidator (Atoi (ad_ValidatorIndex d)).1 (ad_Pubkey d)
                            (validatorSetInfo s)) s)) as (s' & E & Hs & Hv).
  exists s'. split; [exact E|done].
Qed.

Lemma monitorDuties_tick_preserves (P : ValidatorDataSet Att Blk → Prop) :
  (∀ i p v, P v → P (AddValidator i p v)) →
  preserves (λ s, P (validatorSetInfo s)) monitorDuties_tick.
Proof.
  intros HP. unfold monitorDuties_tick. apply preserves_bind.
  - intros s Hs. pose proof (f_equal snd (observer_beacon GetCurrentEpochAttestDuties s)) as E.
    exact (eq_ind_r P Hs E).
  - intros [duties [e|]]; simpl; [apply preserves_ret|].
    apply preserves_foldM. intros u d. destruct u. apply preserves_modify. intros s Hs. by apply HP.
Qed.
End server.

Arguments Server Att Blk {_}.

(** * Properties *)

(** For a slot that is not negative, a public key has the attacker role
    exactly when it is known (with or without the 0x prefix) and some entry of
    the strategy names its validator index with a slot range that covers the
    slot; the query changes nothing. *)
Theorem GetValidatorRoleByPubkey_correct {Att Blk} `{!Network} `{!LruLib}
    (s : Server Att Blk) (slot : Z) (pubkey : string) :
  0 ≤ slot →
  ∃ role, srv_GetValidatorRoleByPubkey slot pubkey s = (Ret role, s) ∧
    (role = AttackerRole ∨ role = NormalRole) ∧
    (role = AttackerRole ↔
       ∃ val, ValidatorByPubkey (validatorSetInfo s) !! padPubkey pubkey = Some val ∧
         ∃ v, v ∈ Validators (strategy s) ∧ attacks v (Index val) slot).
Proof.
  intros Hslot. unfold srv_GetValidatorRoleByPubkey, mbind, GoM_bind, gets. cbn.
  unfold ValidatorSet.GetValidatorByPubkey.
  destruct (ValidatorByPubkey (validatorSetInfo s) !! padPubkey pubkey) as [val|] eqn:Hval.
  - unfold srv_GetValidatorRole. destruct (slot <? 0) eqn:E; [lia|].
    eexists. split; [done|]. unfold Strategy.GetValidatorRole. rewrite role_in_spec.
    destruct (decide (Exists _ _)) as [Hx|Hx]; rewrite Exists_exists in Hx; naive_solver.
  - exists NormalRole. split_and!; [done|by right|]. split; [done|]. naive_solver.
Qed.

(** With the slots per epoch in the cache, [GetValidatorByProposeSlot]
    asks the node for the duties of the epoch that contains the slot and
    returns the validator of the first duty with that slot; it reports "not
    found" only when no duty has the slot, and it never panics. *)
Theorem GetValidatorByProposeSlot_correct {Att Blk} `{!Network} `{!RangeOrder} `{!LruLib}
    (s : Server Att Blk) (slot n : Z) :
  config (client (beaconClient s)) !! SLOTS_PER_EPOCH = Some (FormatInt n) →
  0 < n ≤ max_int64 → 0 ≤ slot ≤ max_int64 →
  let w := beaconClient s in
  let duties := served_duties w (slot / n) in
  ∃ r, srv_GetValidatorByProposeSlot slot s =
      (Ret r, set_world (log_event (Request (HttpGet (duties_url w (slot / n)))) w) s) ∧
    match duties.2, r.2 with
    | Some e, _ => r = (0, Some e)
    | None, Some e => e = ErrMsg "not found" ∧
        Forall (λ d, to_uint64 (ParseInt (pd_Slot d)).1 ≠ slot) duties.1
    | None, None => ∃ d1 d d2, duties.1 = d1 ++ d :: d2 ∧
        (ParseInt (pd_Slot d)).1 = slot ∧ r.1 = (Atoi (pd_ValidatorIndex d)).1 ∧
        Forall (λ d, to_uint64 (ParseInt (pd_Slot d)).1 ≠ slot) d1
    end.
Proof.
  intros Hc Hn Hslot w duties.
  assert (Hq : is_int64 (slot / n)).
  { unfold_ints. pose proof (Z.div_pos slot n). pose proof (Z.div_le_upper_bound slot n slot). nia. }
  unfold srv_GetValidatorByProposeSlot, mbind at 1, GoM_bind at 1.
  rewrite (GetSlotsPerEpoch_cached n s Hc) by (unfold_ints; lia).
  rewrite to_uint64_id by (unfold_ints; lia).
  unfold go_udiv. rewrite decide_False by lia. unfold mbind at 1, GoM_bind at 1. cbn.
  rewrite to_int64_id by done.
  erewrite bind_beacon by apply GetProposerDuties_spec. fold w. fold duties.
  pose proof (find_proposer_spec slot duties.1) as Hf.
  destruct (duties.2) as [e|]; [by eexists|].
  destruct (find_proposer slot duties.1) as [idx|]; [|by eexists].
  eexists. split; [done|]. cbn.
  destruct Hf as (d1 & d & d2 & -> & -> & Hd & Hall). exists d1, d, d2. split_and!; try done.
  apply to_uint64_inj; [apply ParseInt_range|unfold_ints; lia|].
  rewrite Hd, to_uint64_id; unfold_ints; lia.
Qed.

(** While the beacon node cannot be reached and nothing is cached,
    [GetSlotsPerEpoch] returns 0, not its fallback 6, [GetIntervalPerSlot]
    returns 0, not 12, and [GetValidatorByProposeSlot] panics with a division
    by zero for every slot. *)
Theorem GetValidatorByProposeSlot_unreachable {Att Blk} `{!Network} `{!RangeOrder} `{!LruLib}
    (s : Server Att Blk) (slot : Z) :
  config (client (beaconClient s)) = ∅ → (∀ h r, respond h r = None) →
  (srv_GetSlotsPerEpoch s).1 = Ret 0 ∧ (srv_GetIntervalPerSlot s).1 = Ret 0 ∧
  (srv_GetValidatorByProposeSlot slot s).1 = Panic DivideByZero.
Proof.
  intros Hc Hr.
  destruct (GetIntConfig_unreachable SLOTS_PER_EPOCH _ Hc Hr) as (w1 & E1 & _).
  destruct (GetIntConfig_unreachable SECONDS_PER_SLOT _ Hc Hr) as (w2 & E2 & _).
  assert (Hn : srv_GetSlotsPerEpoch s = (Ret 0, set_world w1 s)).
  { unfold srv_GetSlotsPerEpoch. by erewrite bind_beacon by exact E1. }
  split_and!; [by rewrite Hn| |].
  - unfold srv_GetIntervalPerSlot. by erewrite bind_beacon by exact E2.
  - unfold srv_GetValidatorByProposeSlot, mbind at 1, GoM_bind at 1. by rewrite Hn.
Qed.

(** * A concrete cache, node and server *)

(** Newest first; a full cache drops its oldest entry. *)
Fixpoint find_entry (k : string) (l : list (string * Z)) : option Z :=
  match l with
  | [] => None
  | (k', v) :: l' => if decide (k' = k) then Some v else find_entry k l'
  end.

Definition fifo_lru : LruLib := {|
  Lru := nat * list (string * Z);
  lru_New size := (Z.to_nat (size - 1), []);
  lru_Add k v c := (c.1, (k, v) :: take c.1 (filter (λ e, e.1 ≠ k) c.2));
  lru_Get k c := (find_entry k c.2, c)
|}.

#[export] Instance fifo_lru_laws : LruLaws fifo_lru.
Proof.
  split; [|done]. intros k v c. cbn [lru_Get lru_Add fifo_lru fst snd find_entry].
  by rewrite decide_True by done.
Qed.

Definition sample_duties : string :=
  jq "{'data':[{'pubkey':'0xa3','validator_index':'3','slot':'33'},
               {'pubkey':'0xa5','validator_index':'5','slot':'40'},
               {'pubkey':'0xa7','validator_index':'7','slot':'41'}]}".

Definition sample_headers : string :=
  jq "{'data':[{'root':'0x1','canonical':true,'header':{'message':{'slot':'40'}}}]}".

Definition sample_attesters : string :=
  jq "{'data':[{'pubkey':'0xa3','validator_index':'3','slot':'40'}]}".

Definition sample_node : Network := scripted (λ u,
  if decide (u = "http://node:3500/eth/v1/config/spec") then Some sample_spec
  else if decide (u = "http://node:3500/eth/v1/beacon/headers") then Some sample_headers
  else if decide (u = "http://node:3500/eth/v1/validator/duties/proposer/1") then Some sample_duties
  else if decide (u = "http://node:3500/eth/v1/validator/duties/attester/1") then Some sample_attesters
  else None).

Definition down_node : Network := scripted (λ _, None).

Definition sample_strategy : Strategy :=
  {| Validators := [{| ValidatorIndex := 3; AttackerStartSlot := 0; AttackerEndSlot := 100 |};
                    {| ValidatorIndex := 5; AttackerStartSlot := 0; AttackerEndSlot := 100 |}];
     Block := defaultBlockStrategy; Attest := defaultAttestStrategy |}.

Section sample.
Context {Att Blk : Type}.

Definition sample_vset : ValidatorDataSet Att Blk :=
  AddValidator 3 "a3" (AddValidator 7 "0xa7" NewValidatorSet).

(** Nothing cached, and the state after the configuration was read. *)
Definition fresh_server : @Server Att Blk fifo_lru :=
  {| strategy := sample_strategy; beaconClient := sample_world;
     validatorSetInfo := sample_vset; blockCacheContent := @lru_New fifo_lru 1000 |}.

Definition sample_server : @Server Att Blk fifo_lru :=
  (@srv_GetSlotsPerEpoch Att Blk sample_node default_range_order fifo_lru fresh_server).2.
End sample.

Lemma GetValidatorRoleByPubkey_correct_witness :
  ∃ role, @srv_GetValidatorRoleByPubkey unit unit sample_node fifo_lru 40 "a3" fresh_server =
      (Ret role, fresh_server) ∧
    (role = AttackerRole ∨ role = NormalRole) ∧
    (role = AttackerRole ↔
       ∃ val, ValidatorByPubkey (@sample_vset unit unit) !! "0xa3" = Some val ∧
         ∃ v, v ∈ Validators sample_strategy ∧ attacks v (Index val) 40).
Proof.
  apply (@GetValidatorRoleByPubkey_correct unit unit sample_node fifo_lru fresh_server 40 "a3").
  lia.
Defined.

Lemma GetValidatorByProposeSlot_correct_witness :
  (@srv_GetValidatorByProposeSlot unit unit sample_node default_range_order fifo_lru 40
     sample_server).1 = Ret (5, None) ∧
  let w := beaconClient (@sample_server unit unit) in
  let duties := @served_duties sample_node w (40 / 32) in
  ∃ r, @srv_GetValidatorByProposeSlot unit unit sample_node default_range_order fifo_lru 40
      sample_server =
      (Ret r, set_world (log_event (Request (HttpGet (duties_url w (40 / 32)))) w) sample_server) ∧
    match duties.2, r.2 with
    | Some e, _ => r = (0, Some e)
    | None, Some e => e = ErrMsg "not found" ∧
        Forall (λ d, to_uint64 (ParseInt (pd_Slot d)).1 ≠ 40) duties.1
    | None, None => ∃ d1 d d2, duties.1 = d1 ++ d :: d2 ∧
        (ParseInt (pd_Slot d)).1 = 40 ∧ r.1 = (Atoi (pd_ValidatorIndex d)).1 ∧
        Forall (λ d, to_uint64 (ParseInt (pd_Slot d)).1 ≠ 40) d1
    end.
Proof.
  split; [vm_compute; reflexivity|].
  apply (@GetValidatorByProposeSlot_correct unit unit sample_node default_range_order fifo_lru
    sample_server 40 32).
  - vm_compute. reflexivity.
  - unfold max_int64. lia.
  - unfold max_int64. lia.
Defined.

Lemma GetValidatorByProposeSlot_unreachable_witness :
  (@srv_GetSlotsPerEpoch unit unit down_node default_range_order fifo_lru fresh_server).1 = Ret 0 ∧
  (@srv_GetIntervalPerSlot unit unit down_node default_range_order fifo_lru fresh_server).1 = Ret 0 ∧
  (@srv_GetValidatorByProposeSlot unit unit down_node default_range_order fifo_lru 7 fresh_server).1 =
    Panic DivideByZero.
Proof.
  apply (@GetValidatorByProposeSlot_unreachable unit unit down_node default_range_order fifo_lru
    fresh_server 7).
  - reflexivity.
  - intros h [u|u d]; reflexivity.
Defined.
