(* ===== verification/Monitor.v ===== *)
(** * Package server, the duty monitor in time (src/server/server.go [monitorDuties])

    The loop of the goroutine that asks the beacon node for duties: its ticker,
    with the one value its channel holds, and the requests, which take any time.
    What a request does to the server is in Server.v.  The second ticker of the
    loop has no effect.  Times are nanoseconds. *)

From S2P Require Import Prelude Strconv GoJson GoValue Types Strategy ValidatorSet Beacon.
From S2P Require Import Backend Server.

Definition millisecond : Z := 1000000.
Definition first_period : Z := 100 * millisecond.
Definition warm_period : Z := 2000 * millisecond.

(** [time.Ticker]: the next tick, and the tick that waits in the channel. *)
Record ticker := { next : Z; period : Z; chan : option Z }.

(** A tick is dropped when the channel is full. *)
Definition tick (k : ticker) : ticker :=
  {| next := next k + period k; period := period k;
     chan := match chan k with Some t => Some t | None => Some (next k) end |}.

(** [Reset]; what waits in the channel stays. *)
Definition Reset (now d : Z) (k : ticker) : ticker :=
  {| next := now + d; period := d; chan := chan k |}.

Definition take (k : ticker) : ticker := {| next := next k; period := period k; chan := None |}.

Section monitor.
Context {Att Blk : Type} `{!Network} `{!RangeOrder} `{!LruLib}.

(** [busy]: a request is being made.  [starts]: when requests began, the latest
    first; [warm]: when the first one succeeded. *)
Record monitor := {
  now : Z;
  tk : ticker;
  busy : bool;
  node : Server Att Blk;
  starts : list Z;
  warm : option Z
}.

Definition start_monitor (t : Z) (n : Server Att Blk) : monitor :=
  {| now := t; tk := {| next := t + first_period; period := first_period; chan := None |}; busy := false;
     node := n; starts := []; warm := None |}.

Definition begin (m : monitor) : monitor :=
  {| now := now m; tk := take (tk m); busy := true; node := node m; starts := now m :: starts m; warm := warm m |}.

(** [continue] after an error. *)
Definition failed (n : Server Att Blk) (m : monitor) : monitor :=
  {| now := now m; tk := tk m; busy := false; node := n; starts := starts m; warm := warm m |}.

Definition succeeded (n : Server Att Blk) (m : monitor) : monitor :=
  {| now := now m; tk := Reset (now m) warm_period (tk m); busy := false; node := n; starts := starts m;
     warm := match warm m with Some w => Some w | None => Some (now m) end |}.

Definition set_now (t : Z) (m : monitor) : monitor :=
  {| now := t; tk := tk m; busy := busy m; node := node m; starts := starts m; warm := warm m |}.
Definition set_ticker (k : ticker) (m : monitor) : monitor :=
  {| now := now m; tk := k; busy := busy m; node := node m; starts := starts m; warm := warm m |}.
Definition set_node (n : Server Att Blk) (m : monitor) : monitor :=
  {| now := now m; tk := tk m; busy := busy m; node := n; starts := starts m; warm := warm m |}.

(** Time passes up to the next tick; handlers change the server meanwhile.  A
    panic in a request ends the process: there is no step for it. *)
Inductive monitor_step : monitor → monitor → Prop :=
| m_wait m t : now m ≤ t → t ≤ next (tk m) → monitor_step m (set_now t m)
| m_tick m : now m = next (tk m) → monitor_step m (set_ticker (tick (tk m)) m)
| m_take m t : busy m = false → chan (tk m) = Some t → monitor_step m (begin m)
| m_error m duties err n :
    busy m = true → beacon GetCurrentEpochAttestDuties (node m) = (Ret (duties, Some err), n) →
    monitor_step m (failed n m)
| m_duties m duties n n' :
    busy m = true → beacon GetCurrentEpochAttestDuties (node m) = (Ret (duties, None), n) →
    foldM add_duty tt duties n = (Ret tt, n') → monitor_step m (succeeded n' m)
| m_handler m n : monitor_step m (set_node n m).

(** * Lemmas *)

(** A request does to the server what [monitorDuties_tick] says. *)
Lemma request_is_tick m m' n :
  busy m = true → monitor_step m m' → busy m' = false → node m' = n →
  monitorDuties_tick (node m) = (Ret tt, n).
Proof.
  intros Hb Hst Hb' <-. unfold monitorDuties_tick, mbind, GoM_bind.
  destruct Hst as [m t _ _|m _|m t Hn _|m duties err n _ E|m duties n n' _ E E'|m n]; cbn in Hb' |- *; try congruence.
  - by rewrite E.
  - by rewrite E.
Qed.

Record timely (m : monitor) : Prop := {
  ti_next : now m ≤ next (tk m) ≤ now m + period (tk m);
  ti_period : period (tk m) = match warm m with Some _ => warm_period | None => first_period end;
  ti_warm w : warm m = Some w → w ≤ now m;
  ti_chan t : chan (tk m) = Some t → t ≤ now m ∧ t + period (tk m) ≤ next (tk m);
  ti_past s : s ∈ starts m → s ≤ now m;
  ti_latest s t : head (starts m) = Some s → chan (tk m) = Some t → s ≤ t;
  ti_before s : starts m !! 1%nat = Some s →
    s + period (tk m) ≤ next (tk m) ∧
    ∀ t, chan (tk m) = Some t →
      s + first_period ≤ t ∧ ∀ w, warm m = Some w → w ≤ s → s + warm_period ≤ t;
  ti_apart i a b : starts m !! i = Some a → starts m !! (i + 2)%nat = Some b →
    b + first_period ≤ a ∧ ∀ w, warm m = Some w → w ≤ b → b + warm_period ≤ a
}.

Lemma timely_start t n : timely (start_monitor t n).
Proof.
  split; cbn; try done; [unfold first_period, millisecond; lia|]. intros s Hs. by apply elem_of_nil in Hs.
Qed.

Ltac times := unfold warm_period, first_period, millisecond in *; lia.

Lemma period_pos m : timely m → first_period ≤ period (tk m).
Proof. intros Hi. rewrite (ti_period m Hi). destruct (warm m); times. Qed.

Lemma timely_wait m t : timely m → now m ≤ t → t ≤ next (tk m) → timely (set_now t m).
Proof.
  intros [Hn Hp Hw Hc Hs Hl Hb Ha] Ht Ht'. split; cbn; try done; [lia|..].
  - intros w E. specialize (Hw w E). lia.
  - intros u E. specialize (Hc u E). lia.
  - intros s E. specialize (Hs s E). lia.
Qed.

Lemma timely_tick m : timely m → now m = next (tk m) → timely (set_ticker (tick (tk m)) m).
Proof.
  intros Hi Hm. pose proof (period_pos m Hi) as Hpos. destruct Hi as [Hn Hp Hw Hc Hs Hl Hb Ha].
  assert (Hpp : 0 < period (tk m)) by times.
  split; cbn; try done; [lia|..].
  - intros t. destruct (chan (tk m)) as [t0|] eqn:E; intros [= <-]; [specialize (Hc t0 eq_refl)|]; lia.
  - intros s t E. destruct (chan (tk m)) as [t0|] eqn:Et; intros [= <-]; [by apply Hl|].
    rewrite <-Hm. apply Hs. by apply head_Some_elem_of.
  - intros s E. destruct (Hb s E) as [B1 B2]. split; [lia|]. intros t.
    destruct (chan (tk m)) as [t0|] eqn:Et; intros [= <-]; [by apply B2|].
    split; [lia|]. intros w Ew Hws. rewrite Hp, Ew in B1. lia.
Qed.

Lemma timely_take m t : timely m → chan (tk m) = Some t → timely (begin m).
Proof.
  intros [Hn Hp Hw Hc Hs Hl Hb Ha] Ht. destruct (Hc t Ht) as [Hc1 Hc2].
  split; cbn; try done.
  - intros s [->|Hin]%elem_of_cons; [done|by apply Hs].
  - intros s E. split; [|done]. assert (E0 : head (starts m) = Some s) by (destruct (starts m); [discriminate E|exact E]). specialize (Hl s t E0 Ht). lia.
  - intros [|i] a b; cbn; [|by apply Ha]. intros [= <-] E. destruct (Hb b E) as [_ B2].
    destruct (B2 t Ht) as [B3 B4]. split; [lia|]. intros w Ew Hwb. specialize (B4 w Ew Hwb). lia.
Qed.

Lemma timely_succeeded m n : timely m → timely (succeeded n m).
Proof.
  intros Hi. pose proof (period_pos m Hi) as Hpos. destruct Hi as [Hn Hp Hw Hc Hs Hl Hb Ha].
  assert (Hfirst : ∀ w, warm (succeeded n m) = Some w → warm m = Some w ∨ w = now m).
  { cbn. destruct (warm m); intros w [= <-]; auto. }
  split; cbn; try done; [times| |..].
  - by destruct (warm m).
  - intros w E. destruct (Hfirst w E) as [E'| ->]; [by apply (Hw w E')|done].
  - intros t E. destruct (Hc t E). times.
  - intros s E. pose proof (Hs s (list_elem_of_lookup_2 _ _ _ E)). destruct (Hb s E) as [_ B2]. split; [times|].
    intros t Et. destruct (B2 t Et) as [B3 B4]. split; [done|]. intros w Ew Hws.
    destruct (Hfirst w Ew) as [E'| ->]; [by apply (B4 w E')|]. destruct (Hc t Et). times.
  - intros i a b E1 E2. destruct (Ha i a b E1 E2) as [B1 B2]. split; [done|]. intros w Ew Hwb.
    destruct (Hfirst w Ew) as [E'| ->]; [by apply (B2 w E')|].
    pose proof (Hs a (list_elem_of_lookup_2 _ _ _ E1)). times.
Qed.

Lemma timely_step m m' : monitor_step m m' → timely m → timely m'.
Proof.
  intros Hst Hi. destruct Hst.
  - by apply timely_wait.
  - by apply timely_tick.
  - by eapply timely_take.
  - destruct Hi. by split.
  - by apply timely_succeeded.
  - destruct Hi. by split.
Qed.

Lemma timely_rtc m m' : rtc monitor_step m m' → timely m → timely m'.
Proof. induction 1; eauto using timely_step. Qed.

(** An idle monitor can begin its next request within a period. *)
Lemma idle_begins m :
  timely m → busy m = false →
  ∃ m', rtc monitor_step m m' ∧ busy m' = true ∧ now m ≤ now m' ≤ now m + period (tk m).
Proof.
  intros Hi Hb. pose proof (period_pos m Hi) as Hpos. pose proof (ti_next m Hi) as Hn.
  destruct (chan (tk m)) as [t|] eqn:E.
  - exists (begin m). split; [by eapply rtc_once, m_take|]. split; [done|]. cbn. times.
  - set (m1 := set_now (next (tk m)) m). set (m2 := set_ticker (tick (tk m1)) m1).
    exists (begin m2). split; [|split; [done|cbn; lia]].
    eapply rtc_l; [apply (m_wait m (next (tk m))); lia|]. eapply rtc_l; [by apply (m_tick m1)|].
    apply rtc_once, (m_take m2 (next (tk m))); [done|]. cbn. by rewrite E.
Qed.
End monitor.

(** * Properties *)

(** C20: The monitor polls without end and without a rush.  Whatever the
    beacon node answers and however long it takes, the next tick is never more
    than a period away, and an idle monitor can begin a request within a period,
    which is a tenth of a second until the first success and two seconds from
    then on, whatever fails later.  Two requests may follow one another at once,
    when a tick has waited for a slow answer, but three requests take at least a
    period.  A request changes the server as a tick of the duty monitor does. *)
Theorem monitor_polls {Att Blk} `{!Network} `{!RangeOrder} `{!LruLib} (t0 : Z) (n0 : Server Att Blk) (m : monitor) :
  rtc monitor_step (start_monitor t0 n0) m →
  now m ≤ next (tk m) ≤ now m + period (tk m) ∧
  (busy m = false → ∃ m', rtc monitor_step m m' ∧ busy m' = true ∧ now m ≤ now m' ≤ now m + period (tk m)) ∧
  period (tk m) = match warm m with Some _ => warm_period | None => first_period end ∧
  (∀ i a b, starts m !! i = Some a → starts m !! (i + 2)%nat = Some b →
     b + first_period ≤ a ∧ ∀ w, warm m = Some w → w ≤ b → b + warm_period ≤ a) ∧
  ∀ m', monitor_step m m' → busy m = true → busy m' = false → monitorDuties_tick (node m) = (Ret tt, node m').
Proof.
  intros Hr. pose proof (timely_rtc _ _ Hr (timely_start t0 n0)) as Hi. split; [exact (ti_next m Hi)|].
  split; [by apply idle_begins|]. destruct Hi as [Hn Hp Hw Hc Hs Hl Hb Ha]. split; [done|]. split; [exact Ha|].
  intros m' Hst Hbusy Hidle. by eapply request_is_tick.
Qed.

Section sample.
Existing Instances sample_node default_range_order fifo_lru.

(** The first request begins a tenth of a second after the start. *)
Definition first_request : monitor (Att := unit) (Blk := unit) :=
  let m := set_now first_period (start_monitor 0 sample_server) in
  begin (set_ticker (tick (tk m)) m).

Example monitor_polls_witness :
  rtc monitor_step (start_monitor 0 sample_server) first_request ∧
  starts first_request = [first_period] ∧ now first_request ≤ next (tk first_request).
Proof.
  assert (Hr : rtc monitor_step (start_monitor 0 sample_server) first_request).
  { eapply rtc_l; [by apply (m_wait (start_monitor 0 sample_server) first_period)|].
    eapply rtc_l; [by apply m_tick|]. apply rtc_once. by apply (m_take _ first_period). }
  split; [exact Hr|]. split; [reflexivity|].
  apply (proj1 (monitor_polls 0 sample_server first_request Hr)).
Defined.
End sample.
