(* ===== verification/AttestApi.v ===== *)
(** * Package apis, the attestation service and the admin service
    (src/server/apis/attest.go, roles.go)

    The handlers the attacked node calls around the life of an attestation,
    against the interface [Backend].  Log lines are left out. *)

From S2P Require Import Prelude Strconv GoJson GoValue Types Strategy ValidatorSet Beacon.
From S2P Require Import Backend Server.

(** [proto.Unmarshal] of an attestation, third-party; [None] is an error. *)
Class AttestationProto (Att : Type) := { proto_UnmarshalAttestation : string → option Att }.

Section attest.
Context {Att Blk S : Type} `{B : !Backend Att Blk S} `{!AttestationProto Att}.

Definition GetStrategy : GoM S string :=
  st ← Backend.GetStrategy;
  mret (match marshal (Attest st) with inl d => print d | inr _ => "" end).

Definition UpdateStrategy (data : string) : GoM S (option unmarshal_error) :=
  let '(attestStrategy, err) := unmarshal_into (A := AttestStrategy) data in
  match err with
  | Some e => mret (Some e)
  | None =>
      st ← Backend.GetStrategy;
      _ ← PutStrategy {| Validators := Validators st; Block := Block st; Attest := attestStrategy |};
      mret None
  end.

Definition BeforeBroadCast (slot : Z) : GoM S AttackerResponse := mret (cmd_only CMD_NULL).
Definition AfterBroadCast (slot : Z) : GoM S AttackerResponse := mret (cmd_only CMD_NULL).

Definition BeforeSign (slot : Z) (pubkey attestDataBase64 : string) : GoM S AttackerResponse :=
  mret (Response CMD_NULL attestDataBase64).

Definition AfterSign (slot : Z) (pubkey signedAttestDataBase64 : string)
    : GoM S AttackerResponse :=
  let '(signedAttestData, err) := b64_decode signedAttestDataBase64 in
  match err with
  | Some _ => mret (Response CMD_NULL signedAttestDataBase64)
  | None =>
      role ← GetValidatorRoleByPubkey (to_int64 slot) pubkey;
      if decide (role = NormalRole) then mret (Response CMD_NULL signedAttestDataBase64)
      else
        match proto_UnmarshalAttestation signedAttestData with
        | None => mret (Response CMD_NULL signedAttestDataBase64)
        | Some attest =>
            _ ← AddSignedAttestation slot pubkey attest;
            mret (Response CMD_NULL signedAttestDataBase64)
        end
  end.

(** Attackers do not broadcast their attestations. *)
Definition BeforePropose (slot : Z) (pubkey signedAttestDataBase64 : string)
    : GoM S AttackerResponse :=
  role ← GetValidatorRoleByPubkey (to_int64 slot) pubkey;
  let isAttacker := bool_decide (role = AttackerRole) in
  if isAttacker then mret (cmd_only CMD_RETURN) else mret (cmd_only CMD_NULL).

Definition AfterPropose (slot : Z) (pubkey signedAttestDataBase64 : string)
    : GoM S AttackerResponse :=
  mret (Response CMD_NULL signedAttestDataBase64).

(** ** The admin service (roles.go): both bodies are commented out *)
Definition SetRoleAttacker (valIndex : Z) : GoM S unit := mret tt.
Definition SetRoleNormal (valIndex : Z) : GoM S unit := mret tt.
End attest.

(** * Lemmas *)

Section lemmas.
Context {Att Blk S : Type} `{B : !Backend Att Blk S} `{T : !Host S} `{!BackendLaws B T}
  `{!AttestationProto Att}.

(** Whoever has a role other than normal is known. *)
Lemma role_known slot p s role s' :
  GetValidatorRoleByPubkey slot p s = (Ret role, s') → role ≠ NormalRole →
  is_Some (ValidatorSet.GetValidatorByPubkey p (bk_vset s)).
Proof.
  intros E Hr. rewrite GetValidatorRoleByPubkey_spec in E.
  destruct (ValidatorSet.GetValidatorByPubkey p (bk_vset s)); [by eexists|].
  by simplify_eq.
Qed.

Lemma role_views slot p s :
  bk_strategy (GetValidatorRoleByPubkey slot p s).2 = bk_strategy s ∧
  bk_vset (GetValidatorRoleByPubkey slot p s).2 = bk_vset s.
Proof.
  rewrite GetValidatorRoleByPubkey_spec.
  destruct (ValidatorSet.GetValidatorByPubkey p (bk_vset s)) as [val|]; [|done].
  pose proof (GetValidatorRole_observer slot (Index val) s) as E. simpl in E. by simplify_eq.
Qed.
(** The three ways [AfterSign] goes on. *)
Lemma AfterSign_cases slot pubkey b64 s :
  (∃ o s', AfterSign slot pubkey b64 s = (o, s') ∧ bk_strategy s' = bk_strategy s ∧
     bk_vset s' = bk_vset s ∧ (o = Ret (Response CMD_NULL b64) ∨ ∃ why, o = Panic why)) ∨
  (∃ data a s', b64_decode b64 = (data, None) ∧ proto_UnmarshalAttestation data = Some a ∧
     is_Some (ValidatorSet.GetValidatorByPubkey pubkey (bk_vset s)) ∧
     AfterSign slot pubkey b64 s = (Ret (Response CMD_NULL b64), s') ∧
     bk_strategy s' = bk_strategy s ∧
     bk_vset s' = ValidatorSet.AddSignedAttestation slot pubkey a (bk_vset s)).
Proof.
  unfold AfterSign. destruct (b64_decode b64) as [data [err|]]; [left; naive_solver|].
  unfold mbind at 1 3, GoM_bind at 1 3.
  pose proof (role_known (to_int64 slot) pubkey s) as Hk.
  pose proof (role_views (to_int64 slot) pubkey s) as [Hs Hv].
  destruct (GetValidatorRoleByPubkey (to_int64 slot) pubkey s) as [[role|why] s1]; simpl in *.
  2: { left. eexists _, s1. split_and!; [done..|]. right. by eexists. }
  case_decide as Hr; [left; eexists _, s1; split_and!; [done..|by left]|].
  destruct (proto_UnmarshalAttestation data) as [a|] eqn:Ha.
  2: { left. eexists _, s1. split_and!; [done..|by left]. }
  destruct (AddSignedAttestation_spec slot pubkey a s1) as (s' & E & Hs' & Hv').
  right. exists data, a, s'. split_and!; [done..|by eapply Hk| | |].
  - unfold mbind, GoM_bind. by rewrite E.
  - congruence.
  - congruence.
Qed.
End lemmas.

(** * Properties *)

(** Whatever the input, [AfterSign] answers "go on" with the data it was
    given (or panics inside a role query); it changes the strategy never, and
    the data set at most by storing one attestation, decoded from the data,
    under the given slot and the padded key of a known validator; so the stored
    attestations keep belonging to known validators. *)
Theorem AfterSign_attest_correct {Att Blk S} {B : Backend Att Blk S} {T : Host S}
    `{!BackendLaws B T} `{!AttestationProto Att} (slot : Z) (pubkey b64 : string) (s : S) :
  attesters_known (bk_vset s) →
  let s' := (AfterSign slot pubkey b64 s).2 in
  (∀ r, (AfterSign slot pubkey b64 s).1 = Ret r → r = Response CMD_NULL b64) ∧
  bk_strategy s' = bk_strategy s ∧
  attesters_known (bk_vset s') ∧
  ∀ slot' k a, attestation_at (bk_vset s') slot' k = Some a →
    attestation_at (bk_vset s) slot' k = Some a ∨
    slot' = slot ∧ k = padPubkey pubkey ∧ (b64_decode b64).2 = None ∧
      proto_UnmarshalAttestation (b64_decode b64).1 = Some a.
Proof.
  intros Hk s'. subst s'.
  destruct (AfterSign_cases slot pubkey b64 s)
    as [(o & s' & -> & Hs & Hv & Ho)|(data & a & s' & Hd & Ha & Hval & -> & Hs & Hv)]; simpl.
  - rewrite Hv. split_and!; [|done..|by left]. intros r ->.
    destruct Ho as [Ho|[why Ho]]; congruence.
  - rewrite Hv. split_and!; [by intros r [= <-]|done| |].
    + by apply attesters_known_add_attestation.
    + intros slot' k a'. rewrite attestation_at_add. case_decide as E; [|by left].
      intros [= <-]. right. rewrite Hd. naive_solver.
Qed.

(** An attacker's attestation is never broadcast: for a slot below 2^63,
    the answer before the broadcast is CMD_RETURN when the key belongs to a
    known validator with the attacker role in that slot, and CMD_NULL
    otherwise; nothing changes. *)
Theorem BeforePropose_attest_correct {Att Blk S} {B : Backend Att Blk S} {T : Host S}
    `{!BackendLaws B T} (slot : Z) (pubkey b64 : string) (s : S) :
  0 ≤ slot ≤ max_int64 →
  BeforePropose slot pubkey b64 s =
    (Ret (cmd_only
       match ValidatorSet.GetValidatorByPubkey pubkey (bk_vset s) with
       | Some val =>
           if decide (Strategy.GetValidatorRole (bk_strategy s) (Index val) slot = AttackerRole)
           then CMD_RETURN else CMD_NULL
       | None => CMD_NULL
       end), s).
Proof.
  intros Hslot. unfold BeforePropose, mbind, GoM_bind.
  rewrite to_int64_id by (unfold_ints; lia). rewrite GetValidatorRoleByPubkey_spec.
  destruct (ValidatorSet.GetValidatorByPubkey pubkey (bk_vset s)) as [val|]; [|done].
  rewrite GetValidatorRole_spec by lia. 
  destruct (decide (Strategy.GetValidatorRole (bk_strategy s) (Index val) slot = AttackerRole)) as [->|Hr];
    [by rewrite bool_decide_true by done|by rewrite bool_decide_false by done].
Qed.

(** * A concrete instance *)

#[export] Instance string_proto : AttestationProto string :=
  {| proto_UnmarshalAttestation s := if decide (s = "") then None else Some s |}.

Definition sample_backend : Backend string unit (@Server.Server string unit fifo_lru) :=
  @Server_backend string unit sample_node default_range_order fifo_lru.
Definition sample_host : Host (@Server.Server string unit fifo_lru) :=
  @Server_host string unit fifo_lru.
Definition sample_laws : BackendLaws sample_backend sample_host :=
  @Server_laws string unit sample_node default_range_order fifo_lru.

Lemma BeforePropose_attest_correct_witness :
  @BeforePropose string unit _ sample_backend 40 "a3" "" fresh_server =
    (Ret (cmd_only CMD_RETURN), fresh_server).
Proof.
  rewrite (@BeforePropose_attest_correct string unit _ sample_backend sample_host sample_laws
    40 "a3" "" fresh_server) by (unfold max_int64; lia).
  vm_compute. reflexivity.
Defined.

Lemma AfterSign_attest_correct_witness :
  attestation_at (validatorSetInfo (@AfterSign string unit _ sample_backend string_proto
    40 "a3" (b64_encode "vote") fresh_server).2) 40 "0xa3" = Some "vote" ∧
  attesters_known (validatorSetInfo (@AfterSign string unit _ sample_backend string_proto
    40 "a3" (b64_encode "vote") fresh_server).2).
Proof.
  split; [vm_compute; reflexivity|].
  apply (@AfterSign_attest_correct string unit _ sample_backend sample_host sample_laws string_proto
    40 "a3" (b64_encode "vote") fresh_server).
  apply attesters_known_add_validator, attesters_known_add_validator, attesters_known_new.
Defined.
