(* ===== verification/BlockApi.v ===== *)
(** * Package apis, the block service (src/server/apis/block.go)

    The handlers the attacked node calls around the life of a block, against
    the interface [Backend].  A block is decoded from protobuf by third-party
    code; the records below keep the fields the service reads and writes, the
    rest of each message is opaque.  Log lines are left out. *)

From S2P Require Import Prelude Strconv GoJson GoValue Types Atts Strategy ValidatorSet Beacon.
From S2P Require Import Backend Server.

(** ** Protobuf messages *)

(** What the messages hold besides the fields used here, and the variants of
    the two [oneof]s the service never opens. *)
Class BlockTypes := {
  OtherBlock : Type;
  BodyRest : Type;
  BlockRest : Type;
  SignedRest : Type;
  GenericRest : Type
}.

Section messages.
Context `{L : AttestationLib} `{!BlockTypes}.

(** Pointers may be nil after decoding: [option]. *)
Record BodyCapella := { Attestations : list Att; body_rest : BodyRest }.
Record BlockCapella := { Body : option BodyCapella; block_rest : BlockRest }.
Record SignedBlockCapella := { sb_Block : option BlockCapella; signed_rest : SignedRest }.

Inductive signed_block :=
| SB_nil
| SB_Phase0 (b : OtherBlock)
| SB_Altair (b : OtherBlock)
| SB_Bellatrix (b : OtherBlock)
| SB_BlindedBellatrix (b : OtherBlock)
| SB_Capella (Capella : option SignedBlockCapella)
| SB_BlindedCapella (b : OtherBlock)
| SB_Deneb (b : OtherBlock)
| SB_BlindedDeneb (b : OtherBlock).

Record GenericSignedBeaconBlock := { gs_Block : signed_block; gs_rest : GenericRest }.

Inductive unsigned_block :=
| UB_nil
| UB_Phase0 (b : OtherBlock)
| UB_Altair (b : OtherBlock)
| UB_Bellatrix (b : OtherBlock)
| UB_BlindedBellatrix (b : OtherBlock)
| UB_Capella (Capella : option BlockCapella)
| UB_BlindedCapella (b : OtherBlock)
| UB_Deneb (b : OtherBlock)
| UB_BlindedDeneb (b : OtherBlock).

Record GenericBeaconBlock := { gb_Block : unsigned_block; gb_rest : GenericRest }.

(** [proto.Marshal] and [proto.Unmarshal]; [None] is an error. *)
Class BlockProto := {
  proto_UnmarshalSigned : string → option GenericSignedBeaconBlock;
  proto_MarshalSigned : GenericSignedBeaconBlock → option string;
  proto_UnmarshalGeneric : string → option GenericBeaconBlock;
  proto_MarshalGeneric : GenericBeaconBlock → option string
}.

Inductive block_error :=
| ErrNilObject
| ErrUnsupportedBeaconBlock
| ErrBase64 (offset : Z)
| ErrProto.

Definition getCapellaBlockFromGenericSigned (block : GenericSignedBeaconBlock)
    : option SignedBlockCapella + block_error :=
  match gs_Block block with
  | SB_nil => inr ErrNilObject
  | SB_Phase0 _ => inr ErrUnsupportedBeaconBlock
  | SB_Altair _ => inr ErrUnsupportedBeaconBlock
  | SB_Bellatrix _ => inr ErrUnsupportedBeaconBlock
  | SB_BlindedBellatrix _ => inr ErrUnsupportedBeaconBlock
  | SB_Capella b => inl b
  | SB_BlindedCapella _ => inr ErrUnsupportedBeaconBlock
  | SB_Deneb _ => inr ErrUnsupportedBeaconBlock
  | SB_BlindedDeneb _ => inr ErrUnsupportedBeaconBlock
  end.

Definition getCapellaBlockFromGeneric (block : GenericBeaconBlock)
    : option BlockCapella + block_error :=
  match gb_Block block with
  | UB_nil => inr ErrNilObject
  | UB_Phase0 _ => inr ErrUnsupportedBeaconBlock
  | UB_Altair _ => inr ErrUnsupportedBeaconBlock
  | UB_Bellatrix _ => inr ErrUnsupportedBeaconBlock
  | UB_BlindedBellatrix _ => inr ErrUnsupportedBeaconBlock
  | UB_Capella b => inl b
  | UB_BlindedCapella _ => inr ErrUnsupportedBeaconBlock
  | UB_Deneb _ => inr ErrUnsupportedBeaconBlock
  | UB_BlindedDeneb _ => inr ErrUnsupportedBeaconBlock
  end.

Context `{!BlockProto}.

Definition getGenericBlockFromData (blockDataBase64 : string)
    : GenericBeaconBlock + block_error :=
  let '(blockData, err) := b64_decode blockDataBase64 in
  match err with
  | Some off => inr (ErrBase64 off)
  | None =>
      match proto_UnmarshalGeneric blockData with
      | None => inr ErrProto
      | Some block => inl block
      end
  end.

Definition getGenericSignedBlockFromData (signedBlockDataBase64 : string)
    : GenericSignedBeaconBlock + block_error :=
  let '(blockData, err) := b64_decode signedBlockDataBase64 in
  match err with
  | Some off => inr (ErrBase64 off)
  | None =>
      match proto_UnmarshalSigned blockData with
      | None => inr ErrProto
      | Some block => inl block
      end
  end.

Definition genericBlockToBase64 (block : GenericBeaconBlock) : string + block_error :=
  match proto_MarshalGeneric block with
  | None => inr ErrProto
  | Some data => inl (b64_encode data)
  end.

Definition genericSignedBlockToBase64 (block : GenericSignedBeaconBlock)
    : string + block_error :=
  match proto_MarshalSigned block with
  | None => inr ErrProto
  | Some data => inl (b64_encode data)
  end.

(** ** The attestations of the modified block *)

Context `{!RangeOrder} `{!SortSlice}.

(** [attDataRoot] keeps the zero root when hashing fails. *)
Definition zero_root : string := String.concat "" (replicate 32 (String (chr 0) "")).

Definition inclusion_step (m : gmap string (list Att)) (att : Att) : gmap string (list Att) :=
  group_append (default zero_root (HashTreeRoot att)) att m.

Definition aggregate_groups (groups : list (string * list Att)) : list Att :=
  concat (map (λ g, match Aggregate g.2 with Some atts => atts | None => [] end) groups).

(** Lines 159-188; [Dedup] errors are dropped, and its result is then nil.
    [Dedup] returns within its fuel ([Dedup_correct]), so the outer [None]
    of its model never occurs. *)
Definition dedup_or_nil (site : nat) (a : list Att) : list Att :=
  match Dedup site a with
  | Some (Some r) => r
  | Some None => []
  | None => []
  end.

Definition pool_attestations (allAtt : list Att) : outcome (list Att) :=
  let atts := dedup_or_nil 1 allAtt in
  let attsByDataRoot := foldl inclusion_step ∅ atts in
  let attsForInclusion := aggregate_groups (range_order 2 attsByDataRoot) in
  let deduped := dedup_or_nil 3 attsForInclusion in
  sorted ← SortByProfitability deduped;
  match sorted with
  | None => Ret atts
  | Some sorted => Ret (LimitToMaxAttestations sorted)
  end.
End messages.

Arguments BlockProto : clear implicits.
Arguments BlockProto {L _}.

(** ** Handlers *)

Section block.
Context `{L : AttestationLib} `{!BlockTypes} `{!BlockProto} `{!RangeOrder} `{!SortSlice}.
Context {Blk S : Type} `{B : !Backend Att Blk S} `{T : !Host S}.

Definition GetStrategy (cliInfo : string) : GoM S string :=
  st ← Backend.GetStrategy;
  mret (match marshal (Block st) with inl d => print d | inr _ => "" end).

Definition UpdateStrategy (data : string) : GoM S (option unmarshal_error) :=
  let '(blockStrategy, err) := unmarshal_into (A := BlockStrategy) data in
  match err with
  | Some e => mret (Some e)
  | None =>
      st ← Backend.GetStrategy;
      _ ← PutStrategy {| Validators := Validators st; Block := blockStrategy; Attest := Attest st |};
      mret None
  end.

Definition Millisecond : Z := 1000000.
Definition Second : Z := 1000000000.

Definition BroadCastDelay : GoM S AttackerResponse :=
  st ← Backend.GetStrategy;
  let bs := Block st in
  if negb (b_DelayEnable bs) then mret (cmd_only CMD_NULL)
  else
    st ← Backend.GetStrategy;
    _ ← Sleep (to_int64 (Millisecond * b_BroadCastDelay (Block st)));
    mret (cmd_only CMD_NULL).

(** The validator that proposes in the slot; when the duties do not tell,
    the one with the given key ([None]: unknown). *)
Definition proposer (slot : Z) (pubkey : string) : GoM S (option Z) :=
  r ← GetValidatorByProposeSlot slot;
  match r.2 with
  | None => mret (Some r.1)
  | Some _ =>
      vals ← GetValidatorDataSet;
      mret (Index <$> ValidatorSet.GetValidatorByPubkey pubkey vals)
  end.

(** The loop for [latestSlotWithAttacker]; the role is asked for [slot]. *)
Definition latest_step (slot latestSlotWithAttacker : Z) (duty : ProposerDuty) : GoM S Z :=
  let dutySlot := (ParseInt (pd_Slot duty)).1 in
  let dutyValIdx := (Atoi (pd_ValidatorIndex duty)).1 in
  role ← GetValidatorRole (to_int64 slot) dutyValIdx;
  mret (if bool_decide (role = AttackerRole) && (latestSlotWithAttacker <? dutySlot)
        then dutySlot else latestSlotWithAttacker).

Definition latest_attacker_slot (slot : Z) (duties : list ProposerDuty) : GoM S Z :=
  foldM (latest_step slot) (-1) duties.

(** Lines 149-156: one slot's attestations in some order. The index of the
    validator is read before the nil test. *)
Definition collect_step (i : Z) (acc : list Att) (kv : string * Att) : GoM S (list Att) :=
  validatorSet ← GetValidatorDataSet;
  match ValidatorSet.GetValidatorByPubkey kv.1 validatorSet with
  | None => panic (NilDeref "val.Index")
  | Some val =>
      valRole ← GetValidatorRole i (Index val);
      mret (if decide (valRole = AttackerRole) then acc ++ [kv.2] else acc)
  end.

Definition collect_slot (acc : list Att) (i : Z) : GoM S (list Att) :=
  allSlotAttest ← GetAttestSet (to_uint64 i);
  match allSlotAttest with
  | None => mret acc
  | Some set => foldM (collect_step i) acc (range_order 4 (ValidatorSet.Attestations set))
  end.

(** [for i := startEpoch; i <= endEpoch; i++]; it would not end for
    [endEpoch = max_int64], which needs 2^62 slots per epoch. *)
Definition attacker_attestations (startEpoch endEpoch : Z) : GoM S (list Att) :=
  foldM collect_slot [] (seqZ startEpoch (endEpoch - startEpoch + 1)).

(** [block.Capella.Block.Body.Attestations] read and written. *)
Definition body_of (b : option SignedBlockCapella)
    : GoM S (SignedBlockCapella * BlockCapella * BodyCapella) :=
  match b with
  | None => panic (NilDeref "block.Capella")
  | Some sb =>
      match sb_Block sb with
      | None => panic (NilDeref "block.Capella.Block")
      | Some bl =>
          match Body bl with
          | None => panic (NilDeref "block.Capella.Block.Body")
          | Some body => mret (sb, bl, body)
          end
      end
  end.

Definition with_attestations (allAtt : list Att)
    (b : SignedBlockCapella * BlockCapella * BodyCapella) : option SignedBlockCapella :=
  let '(sb, bl, body) := b in
  Some {| sb_Block := Some {| Body := Some {| Attestations := allAtt; body_rest := body_rest body |};
                              block_rest := block_rest bl |};
          signed_rest := signed_rest sb |}.

Definition lift_outcome {A} (o : outcome A) : GoM S A := λ s, (o, s).

(** Lines 121-205: the block of the last attacker slot of the epoch. *)
Definition rebuild_block (epoch : Z) (blockDataBase64 : string) : GoM S AttackerResponse :=
  match getGenericSignedBlockFromData blockDataBase64 with
  | inr _ => mret (Response CMD_NULL blockDataBase64)
  | inl genericBlock =>
      match getCapellaBlockFromGenericSigned genericBlock with
      | inr _ => mret (Response CMD_NULL blockDataBase64)
      | inl block =>
          startEpoch ← EpochStart epoch;
          endEpoch ← EpochEnd epoch;
          attackerAttestations ← attacker_attestations startEpoch endEpoch;
          b ← body_of block;
          allAtt ← lift_outcome (pool_attestations (Attestations b.2 ++ attackerAttestations));
          let block := with_attestations allAtt b in
          let genericBlock := {| gs_Block := SB_Capella block; gs_rest := gs_rest genericBlock |} in
          match genericSignedBlockToBase64 genericBlock with
          | inr _ => mret (Response CMD_NULL blockDataBase64)
          | inl resBlockBase64 => mret (Response CMD_NULL resBlockBase64)
          end
      end
  end.

Definition modifyBlock (slot : Z) (pubkey blockDataBase64 : string) : GoM S AttackerResponse :=
  val ← proposer slot pubkey;
  match val with
  | None => mret (Response CMD_NULL blockDataBase64)
  | Some valIdx =>
      role ← GetValidatorRole (to_int64 slot) valIdx;
      if decide (role ≠ AttackerRole) then mret (Response CMD_NULL blockDataBase64)
      else
        epoch ← SlotToEpoch (to_int64 slot);
        duties ← GetProposeDuties epoch;
        match duties.2 with
        | Some _ => mret (Response CMD_NULL blockDataBase64)
        | None =>
            latestSlotWithAttacker ← latest_attacker_slot slot duties.1;
            if decide (slot ≠ to_uint64 latestSlotWithAttacker)
            then mret (Response CMD_RETURN blockDataBase64)
            else rebuild_block epoch blockDataBase64
        end
  end.

Definition BeforeMakeBlock (slot : Z) (pubkey : string) : GoM S AttackerResponse :=
  val ← proposer slot pubkey;
  match val with
  | None => mret (cmd_only CMD_NULL)
  | Some valIdx =>
      role ← GetValidatorRole (to_int64 slot) valIdx;
      if decide (role ≠ AttackerRole) then mret (cmd_only CMD_NULL)
      else
        epoch ← SlotToEpoch (to_int64 slot);
        duties ← GetProposeDuties epoch;
        match duties.2 with
        | Some _ => mret (cmd_only CMD_NULL)
        | None =>
            latestSlotWithAttacker ← latest_attacker_slot slot duties.1;
            if decide (slot ≠ to_uint64 latestSlotWithAttacker)
            then mret (cmd_only CMD_RETURN)
            else mret (cmd_only CMD_NULL)
        end
  end.

Definition BeforeSign (slot : Z) (pubkey blockDataBase64 : string) : GoM S AttackerResponse :=
  modifyBlockRes ← modifyBlock slot pubkey blockDataBase64;
  mret modifyBlockRes.

Definition AfterSign (slot : Z) (pubkey signedBlockDataBase64 : string)
    : GoM S AttackerResponse :=
  val ← proposer slot pubkey;
  match val with
  | None => mret (cmd_only CMD_NULL)
  | Some valIdx =>
      role ← GetValidatorRole (to_int64 slot) valIdx;
      if decide (role ≠ AttackerRole) then mret (cmd_only CMD_NULL)
      else
        epoch ← SlotToEpoch (to_int64 slot);
        duties ← GetProposeDuties epoch;
        match duties.2 with
        | Some _ => mret (cmd_only CMD_NULL)
        | None =>
            latestSlotWithAttacker ← latest_attacker_slot slot duties.1;
            if decide (slot ≠ to_uint64 latestSlotWithAttacker)
            then mret (cmd_only CMD_RETURN)
            else mret (Response CMD_NULL signedBlockDataBase64)
        end
  end.

(** ** The delays *)

(** The loop for [latestAttackerVal]: the validator index of the last duty
    (in list order) of an attacker, the role asked for the duty's slot. *)
Definition last_attacker_step (latestAttackerVal : Z) (duty : ProposerDuty) : GoM S Z :=
  let dutySlot := (Atoi (pd_Slot duty)).1 in
  let dutyValIdx := (Atoi (pd_ValidatorIndex duty)).1 in
  role ← GetValidatorRole dutySlot dutyValIdx;
  mret (if decide (role = AttackerRole) then dutyValIdx else latestAttackerVal).

Definition last_attacker (duties : list ProposerDuty) : GoM S Z :=
  foldM last_attacker_step (-1) duties.

Definition delay_key (slot valIdx : Z) : string :=
  "delay_" +:+ FormatInt slot +:+ "_" +:+ FormatInt valIdx.

Definition receive_delay (slot epochSlots seconds : Z) : GoM S Z :=
  m ← go_umod slot (to_uint64 epochSlots);
  mret (to_int64 (to_int64 (epochSlots - to_int64 m) * seconds)).

Definition DelayForReceiveBlock (slot : Z) : GoM S AttackerResponse :=
  r ← GetValidatorByProposeSlot slot;
  match r.2 with
  | Some _ => mret (cmd_only CMD_NULL)
  | None =>
      let valIdx := r.1 in
      valRole ← GetValidatorRole (to_int64 slot) valIdx;
      if decide (valRole ≠ AttackerRole) then mret (cmd_only CMD_NULL)
      else
        duties ← GetCurrentEpochProposeDuties;
        match duties.2 with
        | Some _ => mret (cmd_only CMD_NULL)
        | None =>
            latestAttackerVal ← last_attacker duties.1;
            if decide (valIdx ≠ latestAttackerVal) then mret (cmd_only CMD_RETURN)
            else
              epochSlots ← GetSlotsPerEpoch;
              seconds ← GetIntervalPerSlot;
              delay ← receive_delay slot epochSlots seconds;
              _ ← Sleep (to_int64 (Second * delay));
              _ ← cache_Add (delay_key slot valIdx) delay;
              mret (cmd_only CMD_UPDATE_STATE)
        end
  end.

Definition BeforeBroadCast (slot : Z) : GoM S AttackerResponse :=
  r ← GetValidatorByProposeSlot slot;
  match r.2 with
  | Some _ => mret (cmd_only CMD_NULL)
  | None =>
      let valIdx := r.1 in
      valRole ← GetValidatorRole (to_int64 slot) valIdx;
      if decide (valRole ≠ AttackerRole) then mret (cmd_only CMD_NULL)
      else
        duties ← GetCurrentEpochProposeDuties;
        match duties.2 with
        | Some _ => mret (cmd_only CMD_NULL)
        | None =>
            latestAttackerVal ← last_attacker duties.1;
            if decide (valIdx ≠ latestAttackerVal) then mret (cmd_only CMD_RETURN)
            else
              t ← cache_Get (delay_key slot valIdx);
              let lastDelay := default 0 t in
              seconds ← GetIntervalPerSlot;
              let n2delay := to_int64 (12 * seconds) in
              let total := to_int64 (n2delay + lastDelay) in
              _ ← Sleep (to_int64 (Second * total));
              mret (cmd_only CMD_NULL)
        end
  end.

(** ** The remaining handlers *)

Definition AfterBroadCast (slot : Z) : GoM S AttackerResponse := mret (cmd_only CMD_NULL).

Definition BeforePropose (slot : Z) (pubkey signedBlockDataBase64 : string)
    : GoM S AttackerResponse := mret (Response CMD_NULL signedBlockDataBase64).

Definition AfterPropose (slot : Z) (pubkey signedBlockDataBase64 : string)
    : GoM S AttackerResponse := mret (Response CMD_NULL signedBlockDataBase64).
End block.

(** * Lemmas *)

Lemma bind_Ret {S A B} (m : GoM S A) (f : A → GoM S B) s a s' :
  m s = (Ret a, s') → (m ≫= f) s = f a s'.
Proof. intros E. unfold mbind, GoM_bind. by rewrite E. Qed.

Lemma bind_Panic {S A B} (m : GoM S A) (f : A → GoM S B) s w s' :
  m s = (Panic w, s') → (m ≫= f) s = (Panic w, s').
Proof. intros E. unfold mbind, GoM_bind. by rewrite E. Qed.

Section lemmas.
Context `{L : AttestationLib} `{!BlockTypes} `{!RangeOrder} `{!SortSlice}.
Context {Blk S : Type} `{B : !Backend Att Blk S} `{T : !Host S} `{!BackendLaws B T}.

(** ** The latest attacker slot *)

Definition is_attacker (st : Strategy) (slot : Z) (duty : ProposerDuty) : Prop :=
  Strategy.GetValidatorRole st (Atoi (pd_ValidatorIndex duty)).1 slot = AttackerRole.

#[export] Instance is_attacker_dec st slot duty : Decision (is_attacker st slot duty).
Proof. unfold is_attacker. apply _. Defined.

(** The slots of the duties whose validator attacks in [slot]. *)
Definition attacker_slots (st : Strategy) (slot : Z) (duties : list ProposerDuty) : list Z :=
  (λ d, (ParseInt (pd_Slot d)).1) <$> filter (is_attacker st slot) duties.

Definition last_slot (slots : list Z) (z : Z) : Z := foldl Z.max z slots.

Lemma latest_step_spec slot z d s :
  0 ≤ slot ≤ max_int64 →
  latest_step slot z d s =
    (Ret (if decide (is_attacker (bk_strategy s) slot d)
          then Z.max z (ParseInt (pd_Slot d)).1 else z), s).
Proof.
  intros Hslot. unfold latest_step. rewrite to_int64_id by (unfold_ints; lia).
  erewrite bind_Ret by (apply GetValidatorRole_spec; lia).
  unfold mret, GoM_ret. f_equal. f_equal. unfold is_attacker.
  destruct (decide (Strategy.GetValidatorRole _ _ _ = AttackerRole)) as [->|Hn].
  - rewrite bool_decide_true by done. simpl.
    destruct (z <? (ParseInt (pd_Slot d)).1) eqn:E; lia.
  - by rewrite bool_decide_false by done.
Qed.

Lemma latest_attacker_slot_spec slot duties s :
  0 ≤ slot ≤ max_int64 →
  latest_attacker_slot slot duties s =
    (Ret (last_slot (attacker_slots (bk_strategy s) slot duties) (-1)), s).
Proof.
  intros Hslot. unfold latest_attacker_slot, attacker_slots. generalize (-1).
  induction duties as [|d duties IH]; intros z; [done|]. cbn [foldM].
  erewrite bind_Ret by (by apply latest_step_spec). rewrite IH, filter_cons. by case_decide.
Qed.

Lemma last_slot_max slots z :
  z ≤ last_slot slots z ∧ (∀ t, t ∈ slots → t ≤ last_slot slots z) ∧
  (last_slot slots z = z ∨ last_slot slots z ∈ slots).
Proof.
  unfold last_slot. revert z. induction slots as [|t slots IH]; intros z; simpl.
  - split_and!; [lia| |by left]. intros t Ht. by apply not_elem_of_nil in Ht.
  - destruct (IH (Z.max z t)) as (Hlo & Hup & Hor). split_and!; [lia| |].
    + intros t' [->|Ht]%elem_of_cons; [lia|by apply Hup].
    + destruct Hor as [->|Hor]; [|right; by right].
      destruct (Z.max_spec z t) as [[_ ->]|[_ ->]]; [right; left|by left].
Qed.

Lemma attacker_slots_range st slot duties t :
  t ∈ attacker_slots st slot duties → is_int64 t.
Proof.
  intros (d & -> & _)%list_elem_of_fmap. apply ParseInt_range.
Qed.

(** The slot is the last one, among the duties, of an attacker. *)
Definition last_of (slots : list Z) (slot : Z) : Prop :=
  slot ∈ slots ∧ Forall (λ t, t ≤ slot) slots.

#[export] Instance last_of_dec slots slot : Decision (last_of slots slot).
Proof. unfold last_of. apply _. Defined.

Lemma last_slot_eq st slot duties :
  0 ≤ slot ≤ max_int64 →
  slot = to_uint64 (last_slot (attacker_slots st slot duties) (-1)) ↔
  last_of (attacker_slots st slot duties) slot.
Proof.
  intros Hslot. set (l := attacker_slots st slot duties).
  destruct (last_slot_max l (-1)) as (Hlo & Hup & Hor).
  assert (Hr : is_int64 (last_slot l (-1))).
  { destruct Hor as [->|Hor]; [unfold_ints; lia|]. by eapply attacker_slots_range. }
  split.
  - intros E. assert (E' : last_slot l (-1) = slot).
    { apply to_uint64_inj; [done|unfold_ints; lia|].
      rewrite <-E, to_uint64_id; unfold_ints; lia. }
    rewrite E' in Hup, Hor. split; [destruct Hor; [lia|done]|]. by apply Forall_forall.
  - intros [Hin Hall]. rewrite Forall_forall in Hall. pose proof (Hup slot Hin) as Hle.
    assert (E : last_slot l (-1) = slot).
    { destruct Hor as [E|Hor]; [rewrite E in Hle; lia|]. specialize (Hall _ Hor). lia. }
    rewrite E, to_uint64_id; unfold_ints; lia.
Qed.

(** ** Observers *)

Lemma proposer_views slot pubkey s :
  bk_strategy (proposer slot pubkey s).2 = bk_strategy s ∧
  bk_vset (proposer slot pubkey s).2 = bk_vset s.
Proof.
  pose proof (GetValidatorByProposeSlot_observer slot s) as E. simpl in E.
  unfold proposer, mbind, GoM_bind.
  destruct (GetValidatorByProposeSlot slot s) as [[[v [e|]]|w] s']; simpl in *;
    [|by simplify_eq..].
  rewrite GetValidatorDataSet_spec. by simplify_eq.
Qed.

Lemma SlotToEpoch_views slot s :
  bk_strategy (SlotToEpoch slot s).2 = bk_strategy s ∧
  bk_vset (SlotToEpoch slot s).2 = bk_vset s.
Proof.
  pose proof (GetSlotsPerEpoch_observer s) as E. simpl in E.
  unfold SlotToEpoch, mbind, GoM_bind. rewrite SlotsPerEpoch_eq.
  destruct (GetSlotsPerEpoch s) as [[n|w] s']; simpl in *; [|by simplify_eq].
  unfold go_quot. case_decide; by simplify_eq.
Qed.

Lemma EpochStart_views e s :
  bk_strategy (EpochStart e s).2 = bk_strategy s ∧ bk_vset (EpochStart e s).2 = bk_vset s.
Proof.
  pose proof (GetSlotsPerEpoch_observer s) as E. simpl in E.
  unfold EpochStart, mbind, GoM_bind. rewrite SlotsPerEpoch_eq.
  destruct (GetSlotsPerEpoch s) as [[n|w] s']; simpl in *; by simplify_eq.
Qed.

Lemma EpochEnd_views e s :
  bk_strategy (EpochEnd e s).2 = bk_strategy s ∧ bk_vset (EpochEnd e s).2 = bk_vset s.
Proof.
  pose proof (GetSlotsPerEpoch_observer s) as E. simpl in E.
  unfold EpochEnd, mbind, GoM_bind. rewrite SlotsPerEpoch_eq.
  destruct (GetSlotsPerEpoch s) as [[n|w] s']; simpl in *; by simplify_eq.
Qed.

Lemma GetProposeDuties_views e s :
  bk_strategy (GetProposeDuties e s).2 = bk_strategy s ∧
  bk_vset (GetProposeDuties e s).2 = bk_vset s.
Proof. pose proof (GetProposeDuties_observer e s) as E. simpl in E. by simplify_eq. Qed.

(** ** The attestations of the attackers *)

Definition attacker_entry (st : Strategy) (vs : ValidatorDataSet Att Blk) (i : Z)
    (kv : string * Att) : Prop :=
  match ValidatorSet.GetValidatorByPubkey kv.1 vs with
  | Some val => Strategy.GetValidatorRole st (Index val) i = AttackerRole
  | None => False
  end.

#[export] Instance attacker_entry_dec st vs i kv : Decision (attacker_entry st vs i kv).
Proof. unfold attacker_entry. destruct (ValidatorSet.GetValidatorByPubkey _ _); apply _. Defined.

Definition slot_entries (vs : ValidatorDataSet Att Blk) (i : Z) : list (string * Att) :=
  match ValidatorSet.GetAttestSet i vs with
  | Some set => range_order 4 (ValidatorSet.Attestations set)
  | None => []
  end.

Lemma slot_entries_elem vs i k a :
  (k, a) ∈ slot_entries vs i ↔ attestation_at vs i k = Some a.
Proof.
  unfold slot_entries, attestation_at, ValidatorSet.GetAttestSet.
  destruct (AttestSet vs !! i) as [set|]; simpl.
  - rewrite range_order_perm. apply elem_of_map_to_list.
  - split; [|done]. intros Hin. by apply not_elem_of_nil in Hin.
Qed.

Lemma collect_entries_spec i l acc s :
  0 ≤ i → (∀ kv, kv ∈ l → is_Some (ValidatorSet.GetValidatorByPubkey kv.1 (bk_vset s))) →
  foldM (collect_step i) acc l s =
    (Ret (acc ++ (filter (attacker_entry (bk_strategy s) (bk_vset s) i) l).*2), s).
Proof.
  intros Hi. revert acc. induction l as [|kv l IH]; intros acc Hk.
  { cbn. by rewrite app_nil_r. }
  destruct (Hk kv) as [val Hval]; [left|].
  assert (E : collect_step i acc kv s =
    (Ret (acc ++ if decide (attacker_entry (bk_strategy s) (bk_vset s) i kv) then [kv.2] else []), s)).
  { unfold collect_step. erewrite bind_Ret by apply GetValidatorDataSet_spec. rewrite Hval.
    erewrite bind_Ret by (by apply GetValidatorRole_spec). unfold mret, GoM_ret.
    f_equal. f_equal.
    destruct (decide (attacker_entry (bk_strategy s) (bk_vset s) i kv)) as [Ha|Ha];
      unfold attacker_entry in Ha; rewrite Hval in Ha.
    - by rewrite decide_True by done.
    - by rewrite decide_False, app_nil_r by done. }
  cbn [foldM]. erewrite bind_Ret by exact E. rewrite IH by (intros; apply Hk; by right).
  rewrite <-app_assoc, filter_cons. f_equal. f_equal. f_equal. by case_decide.
Qed.

Definition slot_attackers (st : Strategy) (vs : ValidatorDataSet Att Blk) (i : Z) : list Att :=
  (filter (attacker_entry st vs i) (slot_entries vs i)).*2.

(** Known attesters, in the form the loop looks them up. *)
Definition attesters_found (vs : ValidatorDataSet Att Blk) : Prop :=
  ∀ i k a, attestation_at vs i k = Some a → is_Some (ValidatorSet.GetValidatorByPubkey k vs).

Lemma attesters_found_known vs : vset_wf vs → attesters_known vs → attesters_found vs.
Proof.
  intros Hwf Hk i k a Ha. unfold ValidatorSet.GetValidatorByPubkey.
  rewrite padPubkey_padded by (by eapply wf_attest). by eapply Hk.
Qed.

Lemma collect_slot_spec i acc s :
  is_uint64 i → attesters_found (bk_vset s) →
  collect_slot acc i s = (Ret (acc ++ slot_attackers (bk_strategy s) (bk_vset s) i), s).
Proof.
  intros Hi Hk. unfold collect_slot. rewrite to_uint64_id by done.
  erewrite bind_Ret by apply GetAttestSet_spec.
  unfold slot_attackers, slot_entries.
  pose proof (λ k a, slot_entries_elem (bk_vset s) i k a) as Hel. unfold slot_entries in Hel.
  destruct (ValidatorSet.GetAttestSet i (bk_vset s)) as [set|].
  - apply collect_entries_spec; [unfold_ints; lia|]. intros [k a] Hin.
    eapply Hk, Hel. exact Hin.
  - cbn. by rewrite app_nil_r.
Qed.

Lemma attacker_attestations_spec start last s :
  0 ≤ start → last ≤ max_int64 → attesters_found (bk_vset s) →
  attacker_attestations start last s =
    (Ret (concat (slot_attackers (bk_strategy s) (bk_vset s) <$> seqZ start (last - start + 1))), s).
Proof.
  intros Hs Hl Hk. unfold attacker_attestations.
  assert (Hi : Forall is_uint64 (seqZ start (last - start + 1))).
  { apply Forall_seqZ. intros. unfold_ints. lia. }
  change (concat ?l) with ([] ++ concat l). generalize (@nil Att).
  induction Hi as [|i l Hi Hall IH]; intros acc; [cbn; by rewrite app_nil_r|].
  cbn [foldM]. erewrite bind_Ret by (by apply collect_slot_spec).
  rewrite IH. cbn. by rewrite app_assoc.
Qed.
(** What is collected: the attestations stored in the slots under the key of
    a validator that attacks in its slot. *)
Lemma collected_elem st (vs : ValidatorDataSet Att Blk) start last a :
  vset_wf vs →
  a ∈ concat (slot_attackers st vs <$> seqZ start (last - start + 1)) ↔
    ∃ i k val, start ≤ i ≤ last ∧ attestation_at vs i k = Some a ∧
      ValidatorByPubkey vs !! k = Some val ∧
      Strategy.GetValidatorRole st (Index val) i = AttackerRole.
Proof.
  intros Hwf. rewrite list_elem_of_In, in_concat. split.
  - intros (l & Hin & Ha). apply list_elem_of_In, list_elem_of_fmap in Hin as (i & -> & Hi).
    apply elem_of_seqZ in Hi.
    apply list_elem_of_In, list_elem_of_fmap in Ha as ([k a'] & -> & Hka).
    apply list_elem_of_filter in Hka as [Hat Hka]. apply slot_entries_elem in Hka.
    unfold attacker_entry, ValidatorSet.GetValidatorByPubkey in Hat. simpl in Hat.
    rewrite padPubkey_padded in Hat by (by eapply wf_attest).
    destruct (ValidatorByPubkey vs !! k) as [val|] eqn:Hval; [|done].
    exists i, k, val. split_and!; [lia..|done|done|done].
  - intros (i & k & val & Hi & Hka & Hval & Hrole).
    exists (slot_attackers st vs i). split.
    + apply list_elem_of_In, list_elem_of_fmap. exists i. split; [done|].
      apply elem_of_seqZ. lia.
    + apply list_elem_of_In, list_elem_of_fmap. exists (k, a). split; [done|].
      apply list_elem_of_filter. split; [|by apply slot_entries_elem].
      unfold attacker_entry, ValidatorSet.GetValidatorByPubkey. simpl.
      rewrite padPubkey_padded by (by eapply wf_attest). by rewrite Hval.
Qed.
End lemmas.

(** * Properties *)

Section properties.
Context `{L : AttestationLib} `{!BlockTypes} `{!BlockProto} `{!RangeOrder} `{!SortSlice}.
Context {Blk S : Type} {B : Backend Att Blk S} {T : Host S} `{!BackendLaws B T}.

(** The state in which the three handlers have read the duties. *)
Record duties_read (slot : Z) (pubkey : string) (s : S) (valIdx epoch : Z)
    (duties : list ProposerDuty) (s1 s2 s3 : S) : Prop := {
  dr_proposer : proposer slot pubkey s = (Ret (Some valIdx), s1);
  dr_epoch : SlotToEpoch slot s1 = (Ret epoch, s2);
  dr_duties : GetProposeDuties epoch s2 = (Ret (duties, None), s3)
}.

Lemma duties_read_views slot pubkey s v e duties s1 s2 s3 :
  duties_read slot pubkey s v e duties s1 s2 s3 →
  bk_strategy s1 = bk_strategy s ∧ bk_strategy s3 = bk_strategy s ∧ bk_vset s3 = bk_vset s.
Proof.
  intros [E1 E2 E3].
  pose proof (proposer_views slot pubkey s) as [P1 P2]. rewrite E1 in P1, P2.
  pose proof (SlotToEpoch_views slot s1) as [Q1 Q2]. rewrite E2 in Q1, Q2.
  pose proof (GetProposeDuties_views e s2) as [R1 R2]. rewrite E3 in R1, R2.
  simpl in *. split_and!; congruence.
Qed.

(** The common part of the three handlers: [no] is the answer to a validator
    that is not an attacker, [skip] the one when another attacker proposes
    later, [last] what is done for the last attacker slot. *)
Definition gate (slot : Z) (pubkey : string) (no skip : AttackerResponse)
    (last : Z → GoM S AttackerResponse) : GoM S AttackerResponse :=
  val ← proposer slot pubkey;
  match val with
  | None => mret no
  | Some valIdx =>
      role ← GetValidatorRole (to_int64 slot) valIdx;
      if decide (role ≠ AttackerRole) then mret no
      else
        epoch ← SlotToEpoch (to_int64 slot);
        duties ← GetProposeDuties epoch;
        match duties.2 with
        | Some _ => mret no
        | None =>
            latestSlotWithAttacker ← latest_attacker_slot slot duties.1;
            if decide (slot ≠ to_uint64 latestSlotWithAttacker) then mret skip else last epoch
        end
  end.

Lemma gate_attacker slot pubkey no skip last s v e duties s1 s2 s3 :
  0 ≤ slot ≤ max_int64 → duties_read slot pubkey s v e duties s1 s2 s3 →
  Strategy.GetValidatorRole (bk_strategy s) v slot = AttackerRole →
  gate slot pubkey no skip last s =
    if decide (last_of (attacker_slots (bk_strategy s) slot duties) slot)
    then last e s3 else (Ret skip, s3).
Proof.
  intros Hslot Hd Hr. destruct (duties_read_views _ _ _ _ _ _ _ _ _ Hd) as (V1 & V3 & _).
  destruct Hd as [E1 E2 E3]. unfold gate. rewrite to_int64_id by (unfold_ints; lia).
  erewrite bind_Ret by exact E1. cbn beta iota.
  erewrite bind_Ret by (apply GetValidatorRole_spec; lia). rewrite V1, Hr.
  rewrite decide_False by (intros Hn; by apply Hn).
  erewrite bind_Ret by exact E2. erewrite bind_Ret by exact E3. cbn [snd fst].
  erewrite bind_Ret by (by apply latest_attacker_slot_spec). rewrite V3.
  pose proof (last_slot_eq (bk_strategy s) slot duties Hslot) as Hl.
  destruct (decide (last_of _ slot)) as [Hlast|Hlast].
  - rewrite decide_False by tauto. done.
  - rewrite decide_True by tauto. done.
Qed.

Lemma gate_normal slot pubkey no skip last s v s1 :
  0 ≤ slot ≤ max_int64 → proposer slot pubkey s = (Ret (Some v), s1) →
  Strategy.GetValidatorRole (bk_strategy s) v slot ≠ AttackerRole →
  gate slot pubkey no skip last s = (Ret no, s1).
Proof.
  intros Hslot E1 Hr. pose proof (proposer_views slot pubkey s) as [V1 _]. rewrite E1 in V1.
  simpl in V1. unfold gate. rewrite to_int64_id by (unfold_ints; lia).
  erewrite bind_Ret by exact E1. cbn beta iota. erewrite bind_Ret by (apply GetValidatorRole_spec; lia).
  rewrite V1. by rewrite decide_True by done.
Qed.
End properties.

(** C2: the last-attacker rule. When the proposer of a slot is an attacker and
    the duties of its epoch are known, the three handlers agree: if the slot
    is the greatest one whose duty belongs to an attacker, the block is made,
    rebuilt and signed (CMD_NULL); otherwise every one of them answers
    CMD_RETURN and nothing is written. *)
Theorem last_attacker_rule `{L : AttestationLib} `{!BlockTypes} `{!BlockProto} `{!RangeOrder}
    `{!SortSlice} {Blk S} {B : Backend Att Blk S} {T : Host S} `{!BackendLaws B T}
    (slot : Z) (pubkey data : string) (s s1 s2 s3 : S) v e duties :
  0 ≤ slot ≤ max_int64 →
  duties_read slot pubkey s v e duties s1 s2 s3 →
  Strategy.GetValidatorRole (bk_strategy s) v slot = AttackerRole →
  if decide (last_of (attacker_slots (bk_strategy s) slot duties) slot) then
    BeforeMakeBlock slot pubkey s = (Ret (cmd_only CMD_NULL), s3) ∧
    AfterSign slot pubkey data s = (Ret (Response CMD_NULL data), s3) ∧
    modifyBlock slot pubkey data s = rebuild_block e data s3
  else
    BeforeMakeBlock slot pubkey s = (Ret (cmd_only CMD_RETURN), s3) ∧
    AfterSign slot pubkey data s = (Ret (cmd_only CMD_RETURN), s3) ∧
    modifyBlock slot pubkey data s = (Ret (Response CMD_RETURN data), s3).
Proof.
  intros Hslot Hd Hr.
  assert (G1 : BeforeMakeBlock slot pubkey =
    gate slot pubkey (cmd_only CMD_NULL) (cmd_only CMD_RETURN) (λ _, mret (cmd_only CMD_NULL))) by done.
  assert (G2 : AfterSign slot pubkey data =
    gate slot pubkey (cmd_only CMD_NULL) (cmd_only CMD_RETURN) (λ _, mret (Response CMD_NULL data))) by done.
  assert (G3 : modifyBlock slot pubkey data =
    gate slot pubkey (Response CMD_NULL data) (Response CMD_RETURN data)
      (λ e, rebuild_block e data)) by done.
  rewrite G1, G2, G3, !(gate_attacker _ _ _ _ _ _ _ _ _ _ _ _ Hslot Hd Hr).
  by case_decide.
Qed.

(** A proposer that is not an attacker is left alone: its block is made,
    signed as it is and never rebuilt, and nothing is written. *)
Theorem normal_proposer_untouched `{L : AttestationLib} `{!BlockTypes} `{!BlockProto} `{!RangeOrder}
    `{!SortSlice} {Blk S} {B : Backend Att Blk S} {T : Host S} `{!BackendLaws B T}
    (slot : Z) (pubkey data : string) (s s1 : S) v :
  0 ≤ slot ≤ max_int64 →
  proposer slot pubkey s = (Ret (Some v), s1) →
  Strategy.GetValidatorRole (bk_strategy s) v slot ≠ AttackerRole →
  BeforeMakeBlock slot pubkey s = (Ret (cmd_only CMD_NULL), s1) ∧
  AfterSign slot pubkey data s = (Ret (cmd_only CMD_NULL), s1) ∧
  BeforeSign slot pubkey data s = (Ret (Response CMD_NULL data), s1) ∧
  bk_strategy s1 = bk_strategy s ∧ bk_vset s1 = bk_vset s.
Proof.
  intros Hslot E Hr. pose proof (proposer_views slot pubkey s) as [V1 V2].
  rewrite E in V1, V2. split_and!; [..|exact V1|exact V2].
  - exact (gate_normal slot pubkey (cmd_only CMD_NULL) (cmd_only CMD_RETURN)
      (λ _, mret (cmd_only CMD_NULL)) s v s1 Hslot E Hr).
  - exact (gate_normal slot pubkey (cmd_only CMD_NULL) (cmd_only CMD_RETURN)
      (λ _, mret (Response CMD_NULL data)) s v s1 Hslot E Hr).
  - unfold BeforeSign. erewrite bind_Ret; [done|].
    exact (gate_normal slot pubkey (Response CMD_NULL data) (Response CMD_RETURN data)
      (λ e, rebuild_block e data) s v s1 Hslot E Hr).
Qed.

(** C4: when every stored attestation belongs to a known validator, collecting
    the attackers' attestations of the slots [start..last] never panics,
    changes nothing, and finds exactly the attestations stored in those slots
    under the key of a validator that attacks in the slot of its attestation. *)
Theorem attacker_attestations_correct `{L : AttestationLib} `{!RangeOrder}
    {Blk S} {B : Backend Att Blk S} {T : Host S} `{!BackendLaws B T} (start last : Z) (s : S) :
  0 ≤ start → last ≤ max_int64 →
  vset_wf (bk_vset s) → attesters_known (bk_vset s) →
  ∃ l, attacker_attestations start last s = (Ret l, s) ∧
    ∀ a, a ∈ l ↔ ∃ i k val, start ≤ i ≤ last ∧
      attestation_at (bk_vset s) i k = Some a ∧
      ValidatorByPubkey (bk_vset s) !! k = Some val ∧
      Strategy.GetValidatorRole (bk_strategy s) (Index val) i = AttackerRole.
Proof.
  intros Hs Hl Hwf Hk. eexists. split.
  { apply attacker_attestations_spec; [done..|]. by apply attesters_found_known. }
  intros a. by apply collected_elem.
Qed.

(** ** The attestation pool of a rebuilt block *)

Section pool.
Context `{L : AttestationLib} `{!RangeOrder} `{!SortSlice} `{!AttestationLaws L}.

(** The root under which the block service groups an attestation. *)
Definition inclusion_root (x : Att) : string := default zero_root (HashTreeRoot x).

Lemma inclusion_groups (a : list Att) h :
  default [] (foldl inclusion_step ∅ a !! h) = filter (λ x, inclusion_root x = h) a.
Proof.
  induction a as [|x a IH] using rev_ind.
  { simpl. by rewrite lookup_empty. }
  rewrite foldl_app, filter_app. simpl. rewrite <-IH. unfold inclusion_step at 1.
  rewrite lookup_group_append, filter_cons, filter_nil. f_equal.
Qed.

Lemma dedup_or_nil_sub site (a : list Att) : dedup_or_nil site a ⊆+ a.
Proof.
  pose proof (Dedup_spec site a) as Hd. unfold dedup_or_nil.
  destruct (Dedup site a) as [[r|]|]; [by destruct Hd|apply submseteq_nil_l..].
Qed.

(** [x] is one of the aggregates of a group of attestations of [a] that
    share a root. *)
Definition aggregated_from (a : list Att) (x : Att) : Prop :=
  ∃ h group agg, Aggregate group = Some agg ∧ x ∈ agg ∧
    ∀ y, y ∈ group → y ∈ a ∧ inclusion_root y = h.

Lemma aggregate_groups_from site (a : list Att) x :
  x ∈ aggregate_groups (range_order site (foldl inclusion_step ∅ a)) → aggregated_from a x.
Proof.
  unfold aggregate_groups. intros Hx. apply list_elem_of_In, in_concat in Hx as (l & Hl & Hx).
  apply list_elem_of_In in Hx. apply in_map_iff in Hl as ([h g] & <- & Hg).
  apply list_elem_of_In in Hg. rewrite range_order_elem in Hg. simpl in Hx.
  destruct (Aggregate g) as [agg|] eqn:E; [|by apply not_elem_of_nil in Hx].
  exists h, g, agg. split_and!; [done..|]. intros y Hy.
  pose proof (inclusion_groups a h) as Hgr. rewrite Hg in Hgr. simpl in Hgr.
  rewrite Hgr in Hy. by apply list_elem_of_filter in Hy as [??].
Qed.

Lemma pool_cases (a : list Att) :
  ∃ r, pool_attestations a = Ret r ∧
    ((r = dedup_or_nil 1 a ∧ ∃ x, aggregated_from a x ∧ ToBitlist64 (AggregationBits x) = None) ∨
     (Z.of_nat (length r) ≤ MaxAttestations ∧
      StronglySorted (λ x y, Data_Slot y ≤ Data_Slot x) r ∧
      ∀ x, x ∈ r → aggregated_from a x)).
Proof.
  assert (Hfrom : ∀ x, x ∈ dedup_or_nil 3 (aggregate_groups
    (range_order 2 (foldl inclusion_step ∅ (dedup_or_nil 1 a)))) → aggregated_from a x).
  { intros x Hx. eapply elem_of_submseteq in Hx; [|apply dedup_or_nil_sub].
    destruct (aggregate_groups_from 2 _ _ Hx) as (h & g & agg & E & Hin & Hg).
    exists h, g, agg. split_and!; [done..|]. intros y Hy. destruct (Hg y Hy) as [??].
    split; [|done]. eapply elem_of_submseteq; [done|apply dedup_or_nil_sub]. }
  unfold pool_attestations. set (deduped := dedup_or_nil 3 _) in *.
  pose proof (SortByProfitability_spec deduped) as Hs.
  destruct (SortByProfitability deduped) as [[r|]|]; simpl; [| |done].
  - destruct Hs as [Hp Hsort].
    destruct (LimitToMaxAttestations_spec r) as [[l Hl] Hlen];
      [pose proof MaxAttestations_uint64; unfold_ints; lia|].
    eexists. split; [done|]. right. split_and!; [done| |].
    + rewrite Hl in Hsort. by apply StronglySorted_app_1_l in Hsort.
    + intros x Hx. apply Hfrom. rewrite <-Hp, Hl. apply elem_of_app. by left.
  - eexists. split; [done|]. left. destruct Hs as (x & Hx & Hb). split; [done|].
    exists x. split; [by apply Hfrom|done].
Qed.
End pool.


(** An error of the first [Dedup] (two attestations with the same root and
    incomparable bit lists) is dropped, and the rebuilt block then carries no
    attestation at all, not even those it came with. *)
Theorem pool_attestations_dedup_error `{L : AttestationLib} `{!RangeOrder} `{!SortSlice}
    (a : list Att) :
  Dedup 1 a = Some None → pool_attestations a = Ret [].
Proof.
  intros E. unfold pool_attestations.
  assert (E1 : dedup_or_nil 1 a = []). { unfold dedup_or_nil. rewrite E. reflexivity. }
  rewrite E1.
  cbn [foldl]. assert (Hr : range_order 2 (∅ : gmap string (list Att)) = []).
  { apply Permutation_nil_r. by rewrite range_order_perm, map_to_list_empty. }
  rewrite Hr. change (dedup_or_nil 3 (aggregate_groups [])) with (@nil Att).
  change (SortByProfitability []) with (Ret (Some (@nil Att))). simpl.
  by rewrite LimitToMaxAttestations_nil.
Qed.

(** ** The rebuilt block *)

(** Documented behaviour of protobuf: a marshalled message unmarshals to
    itself. *)
Class BlockProtoLaws {L : AttestationLib} `{!BlockTypes} (P : BlockProto) : Prop := {
  unmarshal_marshal_signed b d : proto_MarshalSigned b = Some d → proto_UnmarshalSigned d = Some b
}.

(** The signed block [g] with other attestations. *)
Definition replace_attestations `{L : AttestationLib} `{!BlockTypes}
    (g : GenericSignedBeaconBlock) (sb : SignedBlockCapella) (bl : BlockCapella)
    (body : BodyCapella) (l : list Att) : GenericSignedBeaconBlock :=
  {| gs_Block := SB_Capella (Some
       {| sb_Block := Some
            {| Body := Some {| Attestations := l; body_rest := body_rest body |};
               block_rest := block_rest bl |};
          signed_rest := signed_rest sb |});
     gs_rest := gs_rest g |}.

(** What [rebuild_block] answers and where it leaves the state. *)
Lemma rebuild_block_spec `{L : AttestationLib} `{!BlockTypes} `{P : !BlockProto} `{!RangeOrder}
    `{!SortSlice} `{!AttestationLaws L} {Blk S} {B : Backend Att Blk S} {T : Host S}
    `{!BackendLaws B T} epoch start last data (s s1 s2 : S) g sb bl body :
  getGenericSignedBlockFromData data = inl g →
  gs_Block g = SB_Capella (Some sb) → sb_Block sb = Some bl → Body bl = Some body →
  EpochStart epoch s = (Ret start, s1) → EpochEnd epoch s1 = (Ret last, s2) →
  0 ≤ start → last ≤ max_int64 → attesters_found (bk_vset s2) →
  let theirs := concat (slot_attackers (bk_strategy s2) (bk_vset s2) <$>
    seqZ start (last - start + 1)) in
  ∃ pool, pool_attestations (Attestations body ++ theirs) = Ret pool ∧
    rebuild_block epoch data s = (Ret (Response CMD_NULL
      match genericSignedBlockToBase64 (replace_attestations g sb bl body pool) with
      | inl d => d
      | inr _ => data
      end), s2).
Proof.
  intros Hg Hc Hsb Hbl E1 E2 Hs Hl Hk theirs.
  pose proof (attacker_attestations_spec start last s2 Hs Hl Hk) as Hatt.
  fold theirs in Hatt. destruct (pool_cases (Attestations body ++ theirs)) as (pool & Hpool & _).
  exists pool. split; [done|].
  unfold rebuild_block, getCapellaBlockFromGenericSigned. rewrite Hg, Hc.
  erewrite bind_Ret by exact E1. erewrite bind_Ret by exact E2.
  erewrite bind_Ret by exact Hatt. unfold body_of. rewrite Hsb, Hbl.
  erewrite bind_Ret by reflexivity.
  erewrite bind_Ret by (unfold lift_outcome; simpl; rewrite Hpool; reflexivity).
  change {| gs_Block := SB_Capella (with_attestations pool (sb, bl, body)); gs_rest := gs_rest g |}
    with (replace_attestations g sb bl body pool).
  by destruct (genericSignedBlockToBase64 (replace_attestations g sb bl body pool)).
Qed.

(** A marshalled block is decoded again; one that cannot be marshalled is
    replaced by the original. *)
Lemma rebuilt_decodes `{L : AttestationLib} `{!BlockTypes} `{P : !BlockProto}
    `{!BlockProtoLaws P} (b : GenericSignedBeaconBlock) (data : string) :
  let data' := match genericSignedBlockToBase64 b with inl d => d | inr _ => data end in
  match proto_MarshalSigned b with
  | Some _ => getGenericSignedBlockFromData data' = inl b
  | None => data' = data
  end.
Proof.
  unfold genericSignedBlockToBase64, getGenericSignedBlockFromData.
  destruct (proto_MarshalSigned b) as [d|] eqn:Hm; simpl; [|done].
  rewrite b64_decode_encode. by erewrite unmarshal_marshal_signed.
Qed.


(** ** The delays *)

Section delays.
Context `{L : AttestationLib} {Blk S : Type} {B : Backend Att Blk S} {T : Host S} `{!BackendLaws B T}.

(** The validator index of the last duty of an attacker, -1 if none. *)
Definition last_attacker_index (st : Strategy) (duties : list ProposerDuty) : Z :=
  foldl (λ z d,
    let dutyValIdx := (Atoi (pd_ValidatorIndex d)).1 in
    if decide (Strategy.GetValidatorRole st dutyValIdx (Atoi (pd_Slot d)).1 = AttackerRole)
    then dutyValIdx else z) (-1) duties.

Definition slots_known (duties : list ProposerDuty) : Prop :=
  Forall (λ d, 0 ≤ (Atoi (pd_Slot d)).1) duties.

Lemma last_attacker_step_spec z d s :
  0 ≤ (Atoi (pd_Slot d)).1 →
  last_attacker_step z d s =
    (Ret (if decide (Strategy.GetValidatorRole (bk_strategy s) (Atoi (pd_ValidatorIndex d)).1
                       (Atoi (pd_Slot d)).1 = AttackerRole)
          then (Atoi (pd_ValidatorIndex d)).1 else z), s).
Proof.
  intros Hd. unfold last_attacker_step.
  erewrite bind_Ret by (by apply GetValidatorRole_spec). done.
Qed.

Lemma last_attacker_spec duties s :
  slots_known duties →
  last_attacker duties s = (Ret (last_attacker_index (bk_strategy s) duties), s).
Proof.
  unfold last_attacker, last_attacker_index. generalize (-1).
  induction duties as [|d duties IH]; intros z Hd; [done|].
  apply Forall_cons in Hd as [Hd Hall]. cbn [foldM].
  erewrite bind_Ret by (by apply last_attacker_step_spec). by rewrite IH by done.
Qed.

(** The first lines of both handlers: [last] is what the last attacker does. *)
Definition delay_gate (slot : Z) (last : Z → GoM S AttackerResponse) : GoM S AttackerResponse :=
  r ← GetValidatorByProposeSlot slot;
  match r.2 with
  | Some _ => mret (cmd_only CMD_NULL)
  | None =>
      let valIdx := r.1 in
      valRole ← GetValidatorRole (to_int64 slot) valIdx;
      if decide (valRole ≠ AttackerRole) then mret (cmd_only CMD_NULL)
      else
        duties ← GetCurrentEpochProposeDuties;
        match duties.2 with
        | Some _ => mret (cmd_only CMD_NULL)
        | None =>
            latestAttackerVal ← last_attacker duties.1;
            if decide (valIdx ≠ latestAttackerVal) then mret (cmd_only CMD_RETURN)
            else last valIdx
        end
  end.

Record current_duties_read (slot : Z) (s : S) (v : Z) (duties : list ProposerDuty) (s1 s2 : S)
    : Prop := {
  cd_proposer : GetValidatorByProposeSlot slot s = (Ret (v, None), s1);
  cd_role : Strategy.GetValidatorRole (bk_strategy s) v slot = AttackerRole;
  cd_duties : GetCurrentEpochProposeDuties s1 = (Ret (duties, None), s2);
  cd_slots : slots_known duties
}.

Lemma delay_gate_spec slot last s v duties s1 s2 :
  0 ≤ slot ≤ max_int64 → current_duties_read slot s v duties s1 s2 →
  delay_gate slot last s =
    if decide (v = last_attacker_index (bk_strategy s) duties)
    then last v s2 else (Ret (cmd_only CMD_RETURN), s2).
Proof.
  intros Hslot [E1 Hr E2 Hd].
  pose proof (GetValidatorByProposeSlot_observer slot s) as V1. rewrite E1 in V1.
  pose proof (GetCurrentEpochProposeDuties_observer s1) as V2. rewrite E2 in V2.
  simpl in V1, V2. injection V1 as V1 _. injection V2 as V2 _.
  unfold delay_gate. rewrite to_int64_id by (unfold_ints; lia).
  erewrite bind_Ret by exact E1. cbn beta iota zeta. cbn [fst snd].
  erewrite bind_Ret by (apply GetValidatorRole_spec; lia). rewrite V1, Hr.
  rewrite decide_False by (intros Hn; by apply Hn).
  erewrite bind_Ret by exact E2. cbn [fst snd].
  erewrite bind_Ret by (by apply last_attacker_spec). rewrite V2, V1.
  destruct (decide (v = last_attacker_index (bk_strategy s) duties)).
  - by rewrite decide_False by tauto.
  - by rewrite decide_True by tauto.
Qed.

(** From the slot to the start of the next epoch. *)
Lemma receive_delay_spec slot n sec (s : S) :
  0 ≤ slot ≤ max_int64 → 0 < n → 0 < sec → n * sec ≤ max_int64 →
  receive_delay slot n sec s = (Ret ((n - slot mod n) * sec), s).
Proof.
  intros Hslot Hn Hsec Hb. pose proof (Z.mod_pos_bound slot n Hn).
  assert (n ≤ max_int64) by nia. unfold receive_delay, go_umod.
  rewrite to_uint64_id by (unfold_ints; lia). rewrite decide_False by lia.
  erewrite bind_Ret by reflexivity. unfold mret, GoM_ret.
  rewrite (to_int64_id (slot mod n)) by (unfold_ints; lia).
  rewrite (to_int64_id (n - slot mod n)) by (unfold_ints; lia).
  rewrite to_int64_id; [done|]. unfold_ints. nia.
Qed.
End delays.

(** C38: the delay of the last attacker of the epoch. When the proposer of the
    slot is an attacker, [DelayForReceiveBlock] returns CMD_RETURN unless the
    proposer is the validator of the last attacker duty; then it sleeps exactly
    until the start of the next epoch (between one slot and one epoch, a whole
    number of slots that ends at a multiple of the slots per epoch), stores the
    delay under the slot and validator, and answers CMD_UPDATE_STATE. *)
Theorem DelayForReceiveBlock_correct `{L : AttestationLib} {Blk S} {B : Backend Att Blk S} {T : Host S}
    `{!BackendLaws B T} (slot n sec : Z) (s s1 s2 s3 s4 : S) v duties :
  0 ≤ slot ≤ max_int64 → current_duties_read slot s v duties s1 s2 →
  GetSlotsPerEpoch s2 = (Ret n, s3) → GetIntervalPerSlot s3 = (Ret sec, s4) →
  0 < n → 0 < sec → n * sec * Second ≤ max_int64 →
  if decide (v = last_attacker_index (bk_strategy s) duties) then
    ∃ k, 0 < k ≤ n ∧ (slot + k) mod n = 0 ∧
      DelayForReceiveBlock slot s =
        (Ret (cmd_only CMD_UPDATE_STATE),
         (cache_Add (delay_key slot v) (k * sec) (Sleep (k * sec * Second) s4).2).2)
  else DelayForReceiveBlock slot s = (Ret (cmd_only CMD_RETURN), s2).
Proof.
  intros Hslot Hd En Es Hn Hsec Hb.
  assert (Hg : DelayForReceiveBlock slot s = delay_gate slot (λ valIdx,
    epochSlots ← GetSlotsPerEpoch; seconds ← GetIntervalPerSlot;
    delay ← receive_delay slot epochSlots seconds;
    _ ← Sleep (to_int64 (Second * delay));
    _ ← cache_Add (delay_key slot valIdx) delay;
    mret (cmd_only CMD_UPDATE_STATE)) s) by done.
  rewrite Hg, (delay_gate_spec slot _ s v duties s1 s2 Hslot Hd). clear Hg.
  case_decide as Hv; [|done].
  pose proof (Z.mod_pos_bound slot n Hn) as Hm. unfold Second in *.
  exists (n - slot mod n). split_and!; [lia|lia| |].
  { rewrite Z.add_sub_assoc, (Z.add_comm slot n), <-Z.add_sub_assoc.
    rewrite <-(Z.mul_1_l n) at 1. rewrite Z.add_comm, Z_mod_plus_full.
    rewrite Zminus_mod_idemp_r, Z.sub_diag. apply Z.mod_0_l. lia. }
  erewrite bind_Ret by exact En. erewrite bind_Ret by exact Es.
  erewrite bind_Ret by (apply receive_delay_spec; (lia || nia)).
  rewrite to_int64_id by (unfold_ints; nia).
  rewrite (Z.mul_comm 1000000000).
  destruct (Sleep_spec ((n - slot mod n) * sec * 1000000000) s4) as (t & Et & _).
  erewrite bind_Ret by exact Et. rewrite Et. cbn [snd].
  destruct (cache_Add_spec (delay_key slot v) ((n - slot mod n) * sec) t) as (t' & E & _).
  erewrite bind_Ret by exact E. by rewrite E.
Qed.

(** Before the broadcast of the block the last attacker sleeps twelve slots
    more than the delay stored by [DelayForReceiveBlock] for the same slot and
    validator (no stored delay counts as 0); another attacker's block is
    dropped with CMD_RETURN. *)
Theorem BeforeBroadCast_correct `{L : AttestationLib} {Blk S} {B : Backend Att Blk S} {T : Host S}
    `{!BackendLaws B T} (slot sec : Z) (t : option Z) (s s1 s2 s3 s4 : S) v duties :
  0 ≤ slot ≤ max_int64 → current_duties_read slot s v duties s1 s2 →
  cache_Get (delay_key slot v) s2 = (Ret t, s3) → GetIntervalPerSlot s3 = (Ret sec, s4) →
  0 ≤ sec → 0 ≤ default 0 t → (12 * sec + default 0 t) * Second ≤ max_int64 →
  BeforeBroadCast slot s =
    if decide (v = last_attacker_index (bk_strategy s) duties)
    then (Ret (cmd_only CMD_NULL), (Sleep ((12 * sec + default 0 t) * Second) s4).2)
    else (Ret (cmd_only CMD_RETURN), s2).
Proof.
  intros Hslot Hd Ec Es Hsec Ht Hb.
  assert (Hg : BeforeBroadCast slot s = delay_gate slot (λ valIdx,
    t ← cache_Get (delay_key slot valIdx);
    let lastDelay := default 0 t in
    seconds ← GetIntervalPerSlot;
    let n2delay := to_int64 (12 * seconds) in
    let total := to_int64 (n2delay + lastDelay) in
    _ ← Sleep (to_int64 (Second * total));
    mret (cmd_only CMD_NULL)) s) by done.
  rewrite Hg, (delay_gate_spec slot _ s v duties s1 s2 Hslot Hd). clear Hg.
  case_decide as Hv; [|done]. unfold Second in *.
  erewrite bind_Ret by exact Ec. cbn zeta. erewrite bind_Ret by exact Es.
  rewrite (to_int64_id (12 * sec)) by (unfold_ints; lia).
  rewrite (to_int64_id (12 * sec + default 0 t)) by (unfold_ints; lia).
  rewrite to_int64_id by (unfold_ints; lia).
  rewrite (Z.mul_comm 1000000000).
  destruct (Sleep_spec ((12 * sec + default 0 t) * 1000000000) s4) as (u & E & _).
  erewrite bind_Ret by exact E. by rewrite E.
Qed.

(** * A concrete instance

    Attestations are bit lists ([bools_lib]); a message is its attestations,
    written in the binary digits of stdpp's encoding of the list. *)

Definition unit_types : BlockTypes :=
  {| OtherBlock := unit; BodyRest := unit; BlockRest := unit; SignedRest := unit;
     GenericRest := unit |}.

Fixpoint pos_digits (p : positive) : string :=
  match p with
  | xH => ""
  | xO p => String "0" (pos_digits p)
  | xI p => String "1" (pos_digits p)
  end.

Fixpoint digits_pos (s : string) : positive :=
  match s with
  | EmptyString => xH
  | String c r => if decide (c = "1"%char) then xI (digits_pos r) else xO (digits_pos r)
  end.

Lemma digits_pos_digits p : digits_pos (pos_digits p) = p.
Proof. induction p as [p IH|p IH|]; simpl; by rewrite ?IH. Qed.

Definition bool_block (l : list (Z * list bool)) : @GenericSignedBeaconBlock bools_lib unit_types :=
  @Build_GenericSignedBeaconBlock bools_lib unit_types
    (@SB_Capella bools_lib unit_types
       (Some {| sb_Block := Some {| Body := Some {| Attestations := l : list (@Att bools_lib);
                                                   body_rest := tt : @BodyRest unit_types |};
                                    block_rest := tt : @BlockRest unit_types |};
                signed_rest := tt : @SignedRest unit_types |}))
    (tt : @GenericRest unit_types).

Definition bool_proto : @BlockProto bools_lib unit_types := {|
  proto_UnmarshalSigned d := bool_block <$> countable.decode (digits_pos d);
  proto_MarshalSigned b :=
    match gs_Block b with
    | SB_Capella (Some sb) =>
        match sb_Block sb with
        | Some bl =>
            match Body bl with
            | Some body => Some (pos_digits (countable.encode (Attestations body : list (Z * list bool))))
            | None => None
            end
        | None => None
        end
    | _ => None
    end;
  proto_UnmarshalGeneric _ := None;
  proto_MarshalGeneric _ := None
|}.

#[export] Instance bool_proto_laws : @BlockProtoLaws bools_lib unit_types bool_proto.
Proof.
  split. intros [[|?|?|?|?|[[[[[[l []]|] []]|] []]|]|?|?|?] []] d; simpl; try done.
  intros [= <-]. by rewrite digits_pos_digits, countable.decode_encode.
Qed.

Abbreviation bool_server := (@Server.Server (Z * list bool) unit fifo_lru).

Definition bool_backend : Backend (@Att bools_lib) unit bool_server :=
  @Server_backend (Z * list bool) unit sample_node default_range_order fifo_lru.
Definition bool_host : Host bool_server := @Server_host (Z * list bool) unit fifo_lru.
Definition bool_backend_laws : BackendLaws bool_backend bool_host :=
  @Server_laws (Z * list bool) unit sample_node default_range_order fifo_lru.

(** Validator 3 attacks and has attested in slot 40. *)
Definition voted_server : bool_server :=
  set_vset (ValidatorSet.AddSignedAttestation 40 "a3" (40, [true; false]) sample_vset) sample_server.

Section witnesses.
Existing Instances bool_backend bool_host bool_backend_laws unit_types bool_proto bools_lib
  default_range_order merge_sort_slice.

Definition w_s1 : bool_server := (proposer (L := bools_lib) 40 "0xa5" voted_server).2.
Definition w_s2 : bool_server := (SlotToEpoch (Att := @Att bools_lib) 40 w_s1).2.
Definition w_s3 : bool_server := (GetProposeDuties (Att := @Att bools_lib) 1 w_s2).2.
Definition w_duties : list ProposerDuty :=
  (@served_duties sample_node (beaconClient voted_server) 1).1.

Definition block_data : string :=
  match genericSignedBlockToBase64 (bool_block [(39, [true; true])]) with
  | inl d => d
  | inr _ => ""
  end.

Lemma w_duties_read : duties_read (L := bools_lib) 40 "0xa5" voted_server 5 1 w_duties w_s1 w_s2 w_s3.
Proof. split; vm_compute; reflexivity. Defined.

Lemma last_attacker_rule_witness :
  BeforeMakeBlock (L := bools_lib) 40 "0xa5" voted_server = (Ret (cmd_only CMD_NULL), w_s3).
Proof.
  pose proof (last_attacker_rule (L := bools_lib) 40 "0xa5" block_data voted_server w_s1 w_s2 w_s3
    5 1 w_duties) as Hrule.
  specialize (Hrule ltac:(unfold max_int64; lia) w_duties_read ltac:(vm_compute; reflexivity)).
  case_decide as Hl; [exact (proj1 Hrule)|]. exfalso. apply Hl.
  eapply bool_decide_unpack. vm_compute. exact I.
Defined.

Lemma normal_proposer_untouched_witness :
  (BeforeSign (L := bools_lib) 41 "0xa7" block_data voted_server).1 =
    Ret (Response CMD_NULL block_data).
Proof.
  set (s1 := (proposer (L := bools_lib) 41 "0xa7" voted_server).2).
  destruct (normal_proposer_untouched (L := bools_lib) 41 "0xa7" block_data voted_server s1 7)
    as (_ & _ & Hr & _).
  - unfold max_int64. lia.
  - vm_compute. reflexivity.
  - vm_compute. discriminate.
  - by rewrite Hr.
Defined.

Lemma voted_wf : vset_wf (bk_vset voted_server) ∧ attesters_known (bk_vset voted_server).
Proof.
  split.
  - apply vset_wf_add_attestation, vset_wf_add_validator, vset_wf_add_validator, vset_wf_new.
  - apply attesters_known_add_attestation; [eexists; vm_compute; reflexivity|].
    apply attesters_known_add_validator, attesters_known_add_validator, attesters_known_new.
Qed.

Lemma attacker_attestations_correct_witness :
  ∃ l, attacker_attestations (L := bools_lib) 32 63 voted_server = (Ret l, voted_server) ∧
    (40, [true; false]) ∈ l.
Proof.
  destruct (attacker_attestations_correct (L := bools_lib) 32 63 voted_server) as (l & Hl & Hin).
  - lia.
  - unfold max_int64. lia.
  - exact (proj1 voted_wf).
  - exact (proj2 voted_wf).
  - exists l. split; [exact Hl|]. apply Hin.
    exists 40, "0xa3", {| Index := 3; Pubkey := "0xa3" |}. split; [lia|].
    split_and!; vm_compute; reflexivity.
Defined.


Lemma pool_attestations_dedup_error_witness :
  pool_attestations (L := bools_lib) [(7, [true]); (7, [true; false])] = Ret [].
Proof.
  apply (pool_attestations_dedup_error (L := bools_lib)). vm_compute. reflexivity.
Defined.

Definition w_d1 : bool_server :=
  (GetValidatorByProposeSlot (Att := @Att bools_lib) 40 voted_server).2.
Definition w_d2 : bool_server :=
  (GetCurrentEpochProposeDuties (Att := @Att bools_lib) w_d1).2.

Lemma w_current : current_duties_read (L := bools_lib) 40 voted_server 5 w_duties w_d1 w_d2.
Proof.
  split; [vm_compute; reflexivity..|]. eapply bool_decide_unpack. vm_compute. exact I.
Defined.

(** Slot 40 is the ninth of its epoch: 24 slots of 12 seconds remain. *)
Lemma DelayForReceiveBlock_correct_witness :
  ∃ s', DelayForReceiveBlock (L := bools_lib) 40 voted_server = (Ret (cmd_only CMD_UPDATE_STATE), s').
Proof.
  pose proof (DelayForReceiveBlock_correct (L := bools_lib) 40 32 12 voted_server w_d1 w_d2 w_d2 w_d2
    5 w_duties) as Hrule.
  specialize (Hrule ltac:(unfold max_int64; lia) w_current ltac:(vm_compute; reflexivity)
    ltac:(vm_compute; reflexivity) ltac:(lia) ltac:(lia) ltac:(unfold max_int64, Second; lia)).
  case_decide as Hv.
  - destruct Hrule as (k & _ & _ & Hrun). eexists. exact Hrun.
  - exfalso. apply Hv. vm_compute. reflexivity.
Defined.

Lemma BeforeBroadCast_correct_witness :
  ∃ s', BeforeBroadCast (L := bools_lib) 40 voted_server = (Ret (cmd_only CMD_NULL), s').
Proof.
  pose proof (BeforeBroadCast_correct (L := bools_lib) 40 12 None voted_server w_d1 w_d2 w_d2 w_d2
    5 w_duties) as Hrule.
  specialize (Hrule ltac:(unfold max_int64; lia) w_current ltac:(vm_compute; reflexivity)
    ltac:(vm_compute; reflexivity) ltac:(lia) ltac:(simpl; lia)
    ltac:(unfold max_int64, Second; simpl; lia)).
  case_decide as Hv.
  - eexists. exact Hrule.
  - exfalso. apply Hv. vm_compute. reflexivity.
Defined.

(** The two sleeps of the attack on slot 40: to the end of the epoch, then
    twelve slots more than that. *)
Example attack_sleeps :
  let s1 := (DelayForReceiveBlock (L := bools_lib) 40 voted_server).2 in
  let s2 := (BeforeBroadCast (L := bools_lib) 40 s1).2 in
  omap (λ e, match e with Slept d => Some (d / Second) | _ => None end)
    (trace (beaconClient s2)) = [24 * 12; 12 * 12 + 24 * 12].
Proof. vm_compute. reflexivity. Qed.

End witnesses.
