(* ===== verification/StrategyRound.v ===== *)
(** * Strategies as texts

    What GetStrategy of the block and attestation services prints,
    UpdateStrategy of the same service reads, and a strategy file with the
    text of a strategy is that strategy. *)

From S2P Require Import AttestApi BlockApi.
From S2P Require Import Prelude Strconv GoJson GoValue JsonRound GoRound Types Atts Strategy.
From S2P Require Import ValidatorSet Beacon Backend Server.

(** The numbers of a strategy that a Go program can hold. *)
Record strategy_ok (st : Strategy) : Prop := {
  so_validators : ∀ v, v ∈ Validators st →
    is_int64 (ValidatorIndex v) ∧ is_int64 (AttackerStartSlot v) ∧ is_int64 (AttackerEndSlot v);
  so_block : is_int64 (b_BroadCastDelay (Block st));
  so_attest : is_int64 (a_BroadCastDelay (Attest st))
}.

#[export] Instance Strategy_laws : GoDataLaws Strategy.
Proof.
  intros [vs b a]. transitivity {| Validators := of_go (to_go vs); Block := of_go (to_go b);
    Attest := of_go (to_go a) |}; [reflexivity|]. by rewrite !of_to_go.
Qed.

Lemma block_rt b : is_int64 (b_BroadCastDelay b) → rt (go_type BlockStrategy) (to_go b).
Proof. intros Hb. split; [reflexivity|]. by split_and!. Qed.

Lemma attest_rt a : is_int64 (a_BroadCastDelay a) → rt (go_type AttestStrategy) (to_go a).
Proof. intros Ha. split; [reflexivity|]. by split_and!. Qed.

Lemma strategy_rt st : strategy_ok st → rt (go_type Strategy) (to_go st).
Proof.
  intros [Hv Hb Ha]. destruct st as [vs b a]. split; [reflexivity|].
  split; [|split; [exact (block_rt b Hb)|split; [exact (attest_rt a Ha)|done]]]. simpl in Hv.
  clear Hb Ha.
  induction vs as [|v vs IH]; [done|]. split.
  - split; [reflexivity|]. destruct (Hv v) as (H1 & H2 & H3); [by left|]. by split_and!.
  - apply IH. intros w Hw. apply Hv. by right.
Qed.

(** * Properties *)

(** C37: the strategy of a service is the same after a trip through its text:
    what GetStrategy of one node answers, UpdateStrategy of any node accepts
    and takes over, leaving the rest of that node's strategy and its data set
    alone; and a strategy file with the text of a whole strategy is parsed to
    exactly that strategy. *)
Theorem strategy_roundtrip `{L : AttestationLib} {Blk S} {B : Backend Att Blk S} {T : Host S}
    `{!BackendLaws B T} (cliInfo : string) (s t : S) :
  strategy_ok (bk_strategy s) →
  let st := bk_strategy s in let st' := bk_strategy t in
  (∃ text t', AttestApi.GetStrategy s = (Ret text, s) ∧
     AttestApi.UpdateStrategy text t = (Ret None, t') ∧ bk_vset t' = bk_vset t ∧
     bk_strategy t' = {| Validators := Validators st'; Block := Block st'; Attest := Attest st |}) ∧
  (∃ text t', BlockApi.GetStrategy cliInfo s = (Ret text, s) ∧
     BlockApi.UpdateStrategy text t = (Ret None, t') ∧ bk_vset t' = bk_vset t ∧
     bk_strategy t' = {| Validators := Validators st'; Block := Block st; Attest := Attest st' |}) ∧
  (∃ j, marshal st = inl j ∧ ParseStrategy (Some (print j)) = st).
Proof.
  intros Hok st st'. destruct (marshal_unmarshal st (strategy_rt st Hok)) as (j & Hj & _ & Hu).
  destruct Hok as [_ Hb Ha].
  destruct (marshal_unmarshal _ (block_rt _ Hb)) as (jb & Hjb & _ & Hub).
  destruct (marshal_unmarshal _ (attest_rt _ Ha)) as (ja & Hja & _ & Hua).
  split_and!.
  - destruct (PutStrategy_spec {| Validators := Validators st'; Block := Block st'; Attest := Attest st |} t)
      as (t' & E & Hs & Hv).
    exists (print ja), t'. unfold AttestApi.GetStrategy, AttestApi.UpdateStrategy, mbind, GoM_bind.
    rewrite GetStrategy_spec, Hja, Hua. cbn. rewrite GetStrategy_spec. fold st' st. by rewrite E.
  - destruct (PutStrategy_spec {| Validators := Validators st'; Block := Block st; Attest := Attest st' |} t)
      as (t' & E & Hs & Hv).
    exists (print jb), t'. unfold BlockApi.GetStrategy, BlockApi.UpdateStrategy, mbind, GoM_bind.
    rewrite GetStrategy_spec, Hjb, Hub. cbn. rewrite GetStrategy_spec. fold st' st. by rewrite E.
  - exists j. split; [done|]. unfold ParseStrategy. by rewrite Hu.
Qed.

Section sample.
Existing Instances sample_node default_range_order merge_sort_slice fifo_lru bools_lib
  BlockApi.unit_types BlockApi.bool_proto.

Lemma strategy_roundtrip_witness :
  let st := bk_strategy (Blk := unit) BlockApi.voted_server in
  ∃ j, marshal st = inl j ∧ ParseStrategy (Some (print j)) = st.
Proof.
  intros st. refine (proj2 (proj2 (strategy_roundtrip (L := bools_lib) "" BlockApi.voted_server
    BlockApi.voted_server _))).
  split; [|by vm_compute..]. intros v Hv. vm_compute in Hv.
  repeat (apply elem_of_cons in Hv as [->|Hv]; [by vm_compute|]). by apply not_elem_of_nil in Hv.
Defined.
End sample.
