(* ===== verification/Node.v ===== *)
(** * The running service

    The server under the calls of the attacked node and the periodic task: a
    step relation on server states.  Remote calls run concurrently in the
    program; a step is one call run to its end, and every operation on the
    shared data set is atomic in the source (it holds the lock), so the
    invariants below, preserved by every single operation, hold under any
    interleaving of the calls as well. *)

From S2P Require Import AttestApi BlockApi.
From S2P Require Import Prelude Strconv GoJson GoValue Types Atts Strategy ValidatorSet Beacon.
From S2P Require Import Backend Server.

(** What the attacked node can call, by service, and the tick of the monitor. *)
Inductive call :=
| block_getStrategy (cliInfo : string)
| block_updateStrategy (data : string)
| block_broadCastDelay
| block_delayForReceiveBlock (slot : Z)
| block_beforeBroadCast (slot : Z)
| block_afterBroadCast (slot : Z)
| block_beforeMakeBlock (slot : Z) (pubkey : string)
| block_beforeSign (slot : Z) (pubkey data : string)
| block_afterSign (slot : Z) (pubkey data : string)
| block_beforePropose (slot : Z) (pubkey data : string)
| block_afterPropose (slot : Z) (pubkey data : string)
| attest_getStrategy
| attest_updateStrategy (data : string)
| attest_beforeBroadCast (slot : Z)
| attest_afterBroadCast (slot : Z)
| attest_beforeSign (slot : Z) (pubkey data : string)
| attest_afterSign (slot : Z) (pubkey data : string)
| attest_beforePropose (slot : Z) (pubkey data : string)
| attest_afterPropose (slot : Z) (pubkey data : string)
| admin_setRoleAttacker (valIndex : Z)
| admin_setRoleNormal (valIndex : Z)
| monitor_tick.

Section node.
Context `{L : AttestationLib} `{!BlockApi.BlockTypes} `{!BlockApi.BlockProto}
  `{!AttestApi.AttestationProto Att}.
Context {Blk : Type} `{!Network} `{!RangeOrder} `{!SortSlice} `{!LruLib}.

Definition server : Type := Server Att Blk.

Definition forget {A} (m : GoM server A) : GoM server unit := _ ← m; mret tt.

(** The effect of a call on the server; its answer is dropped. *)
Definition run_call (c : call) : GoM server unit :=
  match c with
  | block_getStrategy i => forget (BlockApi.GetStrategy i)
  | block_updateStrategy d => forget (BlockApi.UpdateStrategy d)
  | block_broadCastDelay => forget BlockApi.BroadCastDelay
  | block_delayForReceiveBlock slot => forget (BlockApi.DelayForReceiveBlock slot)
  | block_beforeBroadCast slot => forget (BlockApi.BeforeBroadCast slot)
  | block_afterBroadCast slot => forget (BlockApi.AfterBroadCast slot)
  | block_beforeMakeBlock slot p => forget (BlockApi.BeforeMakeBlock slot p)
  | block_beforeSign slot p d => forget (BlockApi.BeforeSign slot p d)
  | block_afterSign slot p d => forget (BlockApi.AfterSign slot p d)
  | block_beforePropose slot p d => forget (BlockApi.BeforePropose slot p d)
  | block_afterPropose slot p d => forget (BlockApi.AfterPropose slot p d)
  | attest_getStrategy => forget AttestApi.GetStrategy
  | attest_updateStrategy d => forget (AttestApi.UpdateStrategy d)
  | attest_beforeBroadCast slot => forget (AttestApi.BeforeBroadCast slot)
  | attest_afterBroadCast slot => forget (AttestApi.AfterBroadCast slot)
  | attest_beforeSign slot p d => forget (AttestApi.BeforeSign slot p d)
  | attest_afterSign slot p d => forget (AttestApi.AfterSign slot p d)
  | attest_beforePropose slot p d => forget (AttestApi.BeforePropose slot p d)
  | attest_afterPropose slot p d => forget (AttestApi.AfterPropose slot p d)
  | admin_setRoleAttacker v => forget (AttestApi.SetRoleAttacker v)
  | admin_setRoleNormal v => forget (AttestApi.SetRoleNormal v)
  | monitor_tick => monitorDuties_tick
  end.

(** A panic in a call is recovered by the RPC service and the state it left
    stays; a panic of the monitor ends the process, so it is no step. *)
Inductive step : server → server → Prop :=
| step_call c s o s' :
    c ≠ monitor_tick → run_call c s = (o, s') → step s s'
| step_tick s s' :
    run_call monitor_tick s = (Ret tt, s') → step s s'.

Definition reachable (strategyFile : option string) (beaconRpc : string) (s : server) : Prop :=
  ∃ s0, NewServer strategyFile beaconRpc None = Ret s0 ∧ rtc step s0 s.

(** * The invariant *)

Definition node_inv (s : server) : Prop :=
  vset_wf (validatorSetInfo s) ∧ attesters_known (validatorSetInfo s).

Definition not_val_index (w : panic_reason) : Prop := w ≠ NilDeref "val.Index".

Lemma E_div : not_val_index DivideByZero. Proof. done. Qed.
Lemma E_assert t : not_val_index (TypeAssertion t). Proof. done. Qed.
Lemma E_index t : not_val_index (IndexOutOfRange t). Proof. done. Qed.
Hint Resolve E_div E_assert E_index : gom.

(** ** The beacon client panics for other reasons only *)

Abbreviation wok := (guards (λ _ : World, True) not_val_index).

Lemma wok_send r : wok (send r).
Proof. by intros w _. Qed.
Lemma wok_doGet u : wok (doGet u).
Proof. unfold doGet. apply guards_bind; [apply wok_send|]. intros [?|]; guarding. Qed.
Lemma wok_doPost u d : wok (doPost u d).
Proof. unfold doPost. apply guards_bind; [apply wok_send|]. intros [?|]; guarding. Qed.
Lemma wok_url p : wok (http_url p).
Proof. by intros w _. Qed.
Hint Resolve wok_doGet wok_doPost wok_url : gom.

Lemma wok_modify f : wok (modify f).
Proof. by intros w _. Qed.
Hint Resolve wok_modify : gom.

Lemma wok_store u kv : wok (store_entry u kv).
Proof.
  unfold store_entry. apply guards_bind; [|intros; apply wok_modify].
  unfold as_string. destruct kv.2 as [| | | | |[[]|]| | | | | |]; guarding.
Qed.
Hint Resolve wok_store : gom.

Lemma wok_config : wok GetBeaconConfig.
Proof. unfold GetBeaconConfig, getBeaconConfig. guarding. Qed.
Hint Resolve wok_config : gom.

Lemma wok_int key : wok (GetIntConfig key).
Proof. unfold GetIntConfig. guarding. Qed.
Lemma wok_header : wok GetLatestBeaconHeader.
Proof. unfold GetLatestBeaconHeader. guarding. Qed.
Lemma wok_proposer e : wok (GetProposerDuties e).
Proof. unfold GetProposerDuties. guarding. Qed.
Lemma wok_attester e vs : wok (GetAttesterDuties e vs).
Proof. unfold GetAttesterDuties. guarding. Qed.
Hint Resolve wok_int wok_header wok_proposer wok_attester : gom.

Lemma wok_current_proposer : wok GetCurrentEpochProposerDuties.
Proof. unfold GetCurrentEpochProposerDuties. guarding. Qed.
Lemma wok_current_attest : wok GetCurrentEpochAttestDuties.
Proof. unfold GetCurrentEpochAttestDuties. guarding. Qed.

Hint Resolve wok_current_proposer wok_current_attest : gom.

(** ** Calls that leave the data set alone *)

Abbreviation ok V := (guards (λ s : server, validatorSetInfo s = V) not_val_index).

Section fixed.
Context (V : ValidatorDataSet Att Blk).

Lemma ok_beacon {A} (m : GoM World A) : wok m → ok V (beacon m).
Proof. intros Hm. eapply zoom_guards; [..|exact Hm]; naive_solver. Qed.
Hint Resolve ok_beacon : gom.

Lemma ok_role slot v : ok V (GetValidatorRole slot v).
Proof. simpl. unfold srv_GetValidatorRole. guarding. Qed.
Hint Resolve ok_role : gom.

Lemma ok_role_pubkey slot p : ok V (GetValidatorRoleByPubkey slot p).
Proof. simpl. unfold srv_GetValidatorRoleByPubkey. guarding. apply ok_role. Qed.
Lemma ok_slots : ok V GetSlotsPerEpoch.
Proof. simpl. unfold srv_GetSlotsPerEpoch. guarding. Qed.
Lemma ok_slots' : ok V SlotsPerEpoch.
Proof. exact ok_slots. Qed.
Lemma ok_interval : ok V GetIntervalPerSlot.
Proof. simpl. unfold srv_GetIntervalPerSlot. guarding. Qed.
Hint Resolve ok_role_pubkey ok_slots ok_slots' ok_interval : gom.

Lemma ok_by_slot slot : ok V (GetValidatorByProposeSlot slot).
Proof. simpl. unfold srv_GetValidatorByProposeSlot. guarding. Qed.
Lemma ok_duties e : ok V (GetProposeDuties e).
Proof. simpl. guarding. Qed.
Lemma ok_current : ok V GetCurrentEpochProposeDuties.
Proof. simpl. guarding. Qed.
Lemma ok_strategy : ok V Backend.GetStrategy.
Proof. simpl. guarding. Qed.
Lemma ok_put st : ok V (PutStrategy st).
Proof. by intros s Hs. Qed.
Lemma ok_sleep d : ok V (Sleep d).
Proof. by intros s Hs. Qed.
Lemma ok_add k v : ok V (cache_Add k v).
Proof. by intros s Hs. Qed.
Lemma ok_get k : ok V (cache_Get k).
Proof. intros s Hs. unfold wp. simpl. by destruct (lru_Get k (blockCacheContent s)). Qed.
Lemma ok_set slot : ok V (GetAttestSet slot).
Proof. simpl. guarding. Qed.
Lemma ok_vset : ok V GetValidatorDataSet.
Proof. simpl. guarding. Qed.
Hint Resolve ok_by_slot ok_duties ok_current ok_strategy ok_put ok_sleep ok_add ok_get
  ok_set ok_vset : gom.

Lemma ok_epoch slot : ok V (SlotToEpoch slot).
Proof. unfold SlotToEpoch. guarding. Qed.
Lemma ok_start e : ok V (EpochStart e).
Proof. unfold EpochStart. guarding. Qed.
Lemma ok_end e : ok V (EpochEnd e).
Proof. unfold EpochEnd. guarding. Qed.
Lemma ok_proposer slot p : ok V (BlockApi.proposer slot p).
Proof. unfold BlockApi.proposer. guarding. Qed.
Lemma ok_latest slot duties : ok V (BlockApi.latest_attacker_slot slot duties).
Proof. unfold BlockApi.latest_attacker_slot, BlockApi.latest_step. guarding. Qed.
Lemma ok_last duties : ok V (BlockApi.last_attacker duties).
Proof. unfold BlockApi.last_attacker, BlockApi.last_attacker_step. guarding. Qed.
Lemma ok_delay slot n sec : ok V (BlockApi.receive_delay slot n sec).
Proof. unfold BlockApi.receive_delay. guarding. Qed.
Hint Resolve ok_epoch ok_start ok_end ok_proposer ok_latest ok_last ok_delay : gom.

Lemma ok_body b : ok V (BlockApi.body_of b).
Proof. unfold BlockApi.body_of. guarding; by apply guards_panic. Qed.

Lemma ok_outcome {A} (o : outcome A) :
  (∀ w, o = Panic w → not_val_index w) → ok V (BlockApi.lift_outcome o).
Proof. intros Ho s Hs. unfold BlockApi.lift_outcome, wp. destruct o; naive_solver. Qed.

(** ** The handlers *)

Context `{!AttestationLaws L} (Hfound : BlockApi.attesters_found V).

Lemma ok_collect acc i : ok V (BlockApi.collect_slot acc i).
Proof.
  intros s Hs.
  assert (E : BlockApi.collect_slot acc i s =
    match ValidatorSet.GetAttestSet (to_uint64 i) (validatorSetInfo s) with
    | None => mret acc
    | Some set => foldM (BlockApi.collect_step i) acc (range_order 4 (Attestations set))
    end s) by reflexivity.
  unfold wp. rewrite E, Hs. clear E.
  destruct (ValidatorSet.GetAttestSet (to_uint64 i) V) as [set|] eqn:Hset; [|done].
  refine (guards_foldM_elem _ _ _ _ _ _ s Hs). clear s Hs. intros acc' [k a] Hin s Hs.
  assert (E : BlockApi.collect_step i acc' (k, a) s =
    match ValidatorSet.GetValidatorByPubkey k (validatorSetInfo s) with
    | None => panic (NilDeref "val.Index")
    | Some val =>
        valRole ← GetValidatorRole i (Index val);
        mret (if decide (valRole = AttackerRole) then acc' ++ [a] else acc')
    end s) by reflexivity.
  unfold wp. rewrite E, Hs. clear E. destruct (Hfound (to_uint64 i) k a) as [val ->].
  - apply BlockApi.slot_entries_elem. unfold BlockApi.slot_entries. by rewrite Hset.
  - refine (guards_bind _ _ _ _ (ok_role _ _) _ s Hs). intros; apply guards_ret.
Qed.

Lemma ok_attestations a b : ok V (BlockApi.attacker_attestations a b).
Proof. unfold BlockApi.attacker_attestations. apply guards_foldM. intros. apply ok_collect. Qed.

Lemma ok_rebuild e d : ok V (BlockApi.rebuild_block e d).
Proof.
  unfold BlockApi.rebuild_block.
  destruct (BlockApi.getGenericSignedBlockFromData d) as [g|]; [|guarding].
  destruct (BlockApi.getCapellaBlockFromGenericSigned g) as [b|]; [|guarding].
  apply guards_bind; [apply ok_start|intros start].
  apply guards_bind; [apply ok_end|intros last].
  apply guards_bind; [apply ok_attestations|intros theirs].
  apply guards_bind; [apply ok_body|intros body].
  apply guards_bind.
  - apply ok_outcome. intros w Hw.
    destruct (BlockApi.pool_cases (BlockApi.Attestations body.2 ++ theirs)) as (r & Hr & _).
    congruence.
  - intros l. destruct (BlockApi.genericSignedBlockToBase64 _); guarding.
Qed.
Hint Resolve ok_rebuild : gom.

Lemma ok_modify slot p d : ok V (BlockApi.modifyBlock slot p d).
Proof. unfold BlockApi.modifyBlock. guarding. Qed.
Hint Resolve ok_modify : gom.

(** Every call but the two that write to the data set. *)
Definition writes (c : call) : bool :=
  match c with attest_afterSign _ _ _ | monitor_tick => true | _ => false end.

Lemma ok_call c : writes c = false → ok V (run_call c).
Proof.
  intros Hc. destruct c; try done; simpl; unfold forget;
    (apply guards_bind; [|intros ?; apply guards_ret]).
  - unfold BlockApi.GetStrategy. guarding.
  - unfold BlockApi.UpdateStrategy. destruct (unmarshal_into data) as [? [?|]]; guarding.
  - unfold BlockApi.BroadCastDelay. guarding.
  - unfold BlockApi.DelayForReceiveBlock. guarding.
  - unfold BlockApi.BeforeBroadCast. guarding.
  - unfold BlockApi.AfterBroadCast. guarding.
  - unfold BlockApi.BeforeMakeBlock. guarding.
  - unfold BlockApi.BeforeSign. guarding.
  - unfold BlockApi.AfterSign. guarding.
  - unfold BlockApi.BeforePropose. guarding.
  - unfold BlockApi.AfterPropose. guarding.
  - unfold AttestApi.GetStrategy. guarding.
  - unfold AttestApi.UpdateStrategy. destruct (unmarshal_into data) as [? [?|]]; guarding.
  - unfold AttestApi.BeforeBroadCast. guarding.
  - unfold AttestApi.AfterBroadCast. guarding.
  - unfold AttestApi.BeforeSign. guarding.
  - unfold AttestApi.BeforePropose. guarding.
  - unfold AttestApi.AfterPropose. guarding.
  - unfold AttestApi.SetRoleAttacker. guarding.
  - unfold AttestApi.SetRoleNormal. guarding.
Qed.
End fixed.

(** ** Every step keeps the invariant *)

Context `{!AttestationLaws L}.

Lemma inv_found s : node_inv s → BlockApi.attesters_found (validatorSetInfo s).
Proof. intros [??]. by apply BlockApi.attesters_found_known. Qed.

Lemma run_call_inv c : preserves node_inv (run_call c).
Proof.
  intros s Hs. destruct (writes c) eqn:Hw.
  - destruct c; try done; simpl; unfold forget.
    + destruct Hs as [Hwf Hk].
      destruct (AttestApi.AfterSign_cases slot pubkey data s)
        as [(o & s' & E & _ & Hv & _)|(d & a & s' & _ & _ & Hval & E & _ & Hv)];
        unfold mbind, GoM_bind; rewrite E; simpl in Hv |- *.
      * destruct o; unfold node_inv; simpl; by rewrite Hv.
      * unfold node_inv. simpl. rewrite Hv.
        split; [by apply vset_wf_add_attestation|by apply attesters_known_add_attestation].
    + revert s Hs. apply (monitorDuties_tick_preserves (λ v, vset_wf v ∧ attesters_known v)).
      intros i p v [??]. split; [by apply vset_wf_add_validator|by apply attesters_known_add_validator].
  - pose proof (ok_call _ (inv_found s Hs) c Hw s eq_refl) as Hok. unfold wp in Hok.
    destruct (run_call c s) as [[u|w] s']; simpl; unfold node_inv in *;
      [by rewrite Hok|by rewrite (proj2 Hok)].
Qed.

Lemma step_inv s s' : node_inv s → step s s' → node_inv s'.
Proof.
  intros Hs Hst. revert Hs. destruct Hst as [c s1 o s2 _ E|s1 s2 E]; intros Hs.
  - pose proof (run_call_inv c s1 Hs) as Hi. by rewrite E in Hi.
  - pose proof (run_call_inv monitor_tick s1 Hs) as Hi. by rewrite E in Hi.
Qed.

Lemma reachable_inv file rpc s : reachable file rpc s → node_inv s.
Proof.
  intros (s0 & [= <-] & Hsteps).
  assert (Hinv : ∀ s1 s2, rtc step s1 s2 → node_inv s1 → node_inv s2).
  { induction 1 as [|? ? ? Hst _ IH]; [done|]. intros Hi. by eapply IH, step_inv. }
  eapply Hinv; [done|]. split; [apply vset_wf_new|apply attesters_known_new].
Qed.
End node.

(** * Properties *)

(** C18: in every state the service can reach, through any sequence of calls of
    the attacked node and ticks of the monitor, and whatever the network
    replies, every stored attestation belongs to a known validator and all the
    keys of the data set are padded. *)
Theorem reachable_attesters_known `{L : AttestationLib} `{!AttestationLaws L}
    `{!BlockApi.BlockTypes} `{!BlockApi.BlockProto} `{!AttestApi.AttestationProto Att} {Blk}
    `{!Network} `{!RangeOrder} `{!SortSlice} `{!LruLib} file rpc (s : Server Att Blk) :
  reachable file rpc s →
  vset_wf (validatorSetInfo s) ∧ attesters_known (validatorSetInfo s).
Proof. apply reachable_inv. Qed.

(** Although [modifyBlock] reads the index of a looked-up validator before
    testing the lookup for nil, this never panics in a reachable state: a
    panic of [BeforeSign] there has another reason (division by the missing
    slots per epoch, a reply of the wrong shape, a block without a body). *)
Theorem modifyBlock_val_never_nil `{L : AttestationLib} `{!AttestationLaws L}
    `{!BlockApi.BlockTypes} `{!BlockApi.BlockProto} `{!AttestApi.AttestationProto Att} {Blk}
    `{!Network} `{!RangeOrder} `{!SortSlice} `{!LruLib} file rpc (s : Server Att Blk)
    (slot : Z) (pubkey data : string) :
  reachable file rpc s →
  (BlockApi.modifyBlock slot pubkey data s).1 ≠ Panic (NilDeref "val.Index").
Proof.
  intros Hs%reachable_inv.
  intros Hp. by apply (guards_reason _ _ _ s _ (ok_modify _ (inv_found s Hs) slot pubkey data) eq_refl Hp).
Qed.

(** * A reachable state *)

Section witnesses.
Existing Instances sample_node default_range_order merge_sort_slice fifo_lru bools_lib
  BlockApi.unit_types BlockApi.bool_proto.

Definition vote_proto : AttestApi.AttestationProto (@Att bools_lib) :=
  {| AttestApi.proto_UnmarshalAttestation s := Some (40, [true; false]) |}.
Existing Instance vote_proto.

Definition strategy_file : option string :=
  Some (jq "{'validator':[{'validator_index':3,'attacker_start_slot':0,'attacker_end_slot':100}]}").

Definition start_server : @Server (@Att bools_lib) unit fifo_lru :=
  {| strategy := ParseStrategy strategy_file;
     beaconClient := {| client := NewBeaconGwClient "node:3500"; trace := [] |};
     validatorSetInfo := NewValidatorSet;
     blockCacheContent := @lru_New fifo_lru 1000 |}.

(** A tick learns validator 3, whose attestation is then stored. *)
Definition after_tick : @Server (@Att bools_lib) unit fifo_lru :=
  (run_call (L := bools_lib) monitor_tick start_server).2.
Definition after_vote : @Server (@Att bools_lib) unit fifo_lru :=
  (run_call (L := bools_lib) (attest_afterSign 40 "a3" "") after_tick).2.

Example after_vote_stored :
  attestation_at (validatorSetInfo after_vote) 40 "0xa3" = Some (40, [true; false]).
Proof. vm_compute. reflexivity. Qed.

Lemma after_vote_reachable : reachable (L := bools_lib) strategy_file "node:3500" after_vote.
Proof.
  exists start_server. split; [reflexivity|].
  apply (rtc_l _ _ after_tick).
  - apply step_tick. vm_compute. reflexivity.
  - apply rtc_once. eapply (step_call (attest_afterSign 40 "a3" "")); [discriminate|].
    apply surjective_pairing.
Defined.

Lemma reachable_attesters_known_witness :
  vset_wf (validatorSetInfo after_vote) ∧ attesters_known (validatorSetInfo after_vote).
Proof. exact (reachable_attesters_known (L := bools_lib) strategy_file _ _ after_vote_reachable). Defined.

Lemma modifyBlock_val_never_nil_witness :
  (BlockApi.modifyBlock (L := bools_lib) 40 "a3" "" after_vote).1 ≠ Panic (NilDeref "val.Index").
Proof.
  exact (modifyBlock_val_never_nil (L := bools_lib) strategy_file _ after_vote 40 "a3" "" after_vote_reachable).
Defined.
End witnesses.
