(* ===== verification/Attack.v ===== *)
(** * The attack, from the signature of a vote to the block that carries it

    The calls of the attacked node composed over time.  The attestation an
    attacker signs is recorded and withheld; it stays recorded whatever is
    called and however often the monitor ticks; and when the last attacker of
    an epoch that covers its slot has its block signed, the block is rebuilt
    with that attestation among its inputs.  Of the inputs nothing is lost:
    aggregation and deduplication cover every one of them, until the limit of
    a block is reached.

    The aggregation itself is third-party code (prysm's [attaggregation]):
    what is used of it is the class [AggregateLaws]. *)

From S2P Require Import AttestApi BlockApi Node.
From S2P Require Import Prelude Strconv GoJson GoValue Types Atts Strategy ValidatorSet Beacon.
From S2P Require Import Backend Server.

(** ** What the pool is computed from *)

(** [y] is for the same data as [x] and has all its votes. *)
Definition carries `{L : AttestationLib} (y x : Att) : Prop :=
  HashTreeRoot y = HashTreeRoot x ∧
  Contains (AggregationBits y) (AggregationBits x) = Some true.

(** The data of every attestation can be hashed. *)
Definition rooted `{L : AttestationLib} (a : list Att) : Prop :=
  ∀ x, x ∈ a → is_Some (HashTreeRoot x).

(** Attestations for the same data come from one committee: their bit lists
    have one length, and can be compared. *)
Definition comparable `{L : AttestationLib} (a : list Att) : Prop :=
  ∀ x y, x ∈ a → y ∈ a → HashTreeRoot x = HashTreeRoot y →
    Contains (AggregationBits x) (AggregationBits y) ≠ None.

(** The attestations are all for the data with root [h]. *)
Definition of_root `{L : AttestationLib} (h : string) (g : list Att) : Prop :=
  ∀ x, x ∈ g → HashTreeRoot x = Some h.

(** Documented behaviour of [attaggregation.Aggregate] on attestations for the
    same data: the aggregates are for that data, on bit lists of that length,
    and no vote is dropped. *)
Class AggregateLaws (L : AttestationLib) : Prop := {
  Aggregate_root : ∀ h g r, of_root h g → Aggregate g = Some r → of_root h r;
  Aggregate_comparable : ∀ h g r,
    of_root h g → comparable g → Aggregate g = Some r → comparable r;
  Aggregate_carries : ∀ h g r x, of_root h g → comparable g → Aggregate g = Some r →
    x ∈ g → ∃ y, y ∈ r ∧ carries y x
}.

Section pool.
Context `{L : AttestationLib} `{!RangeOrder} `{!SortSlice} `{!AttestationLaws L} `{!AggregateLaws L}.
Implicit Types a g r : list Att.

Lemma carries_trans x y z : carries z y → carries y x → carries z x.
Proof. intros [H1 C1] [H2 C2]. split; [congruence|]. by eapply Contains_trans. Qed.

Lemma comparable_sub a r : (∀ x, x ∈ r → x ∈ a) → comparable a → comparable r.
Proof. intros Hsub Hc x y Hx Hy. apply Hc; by apply Hsub. Qed.

Lemma rooted_sub a r : (∀ x, x ∈ r → x ∈ a) → rooted a → rooted r.
Proof. intros Hsub Hr x Hx. by apply Hr, Hsub. Qed.

(** Comparable attestations are deduplicated, and what is kept carries all. *)
Lemma dedup_carries site a :
  rooted a → comparable a →
  (∀ x, x ∈ dedup_or_nil site a → x ∈ a) ∧
  ∀ x, x ∈ a → ∃ y, y ∈ dedup_or_nil site a ∧ carries y x.
Proof.
  intros Hr Hc. split.
  { intros x Hx. eapply elem_of_submseteq; [done|apply dedup_or_nil_sub]. }
  pose proof (Dedup_spec site a) as Hd. unfold dedup_or_nil.
  destruct (Dedup site a) as [[r|]|]; [|exfalso|done].
  2: { destruct Hd as (x & y & h & Hx & Hy & Ex & Ey & E).
       by apply (Hc x y Hx Hy); [congruence|]. }
  destruct Hd as (_ & _ & Hcov). intros x Hx. destruct (Hr x Hx) as [h Hh].
  destruct (Hcov x h Hx Hh) as (y & Hy & Hyh & Hyx). exists y. split; [done|].
  split; [congruence|done].
Qed.

(** ** The groups of the inclusion *)

Lemma inclusion_group a h g :
  rooted a → foldl inclusion_step ∅ a !! h = Some g →
  of_root h g ∧ ∀ x, x ∈ g → x ∈ a.
Proof.
  intros Hr E. pose proof (inclusion_groups a h) as Hg. rewrite E in Hg. simpl in Hg. subst g.
  split; intros x [Hx Hin]%list_elem_of_filter; [|done].
  unfold inclusion_root in Hx. destruct (Hr x Hin) as [h' E']. rewrite E' in *. by simplify_eq/=.
Qed.

Lemma inclusion_group_of a x h :
  x ∈ a → HashTreeRoot x = Some h → ∃ g, foldl inclusion_step ∅ a !! h = Some g ∧ x ∈ g.
Proof.
  intros Hx Hh. pose proof (inclusion_groups a h) as Hg.
  assert (Hin : x ∈ filter (λ y, inclusion_root y = h) a).
  { apply list_elem_of_filter. split; [|done]. unfold inclusion_root. by rewrite Hh. }
  rewrite <-Hg in Hin. destruct (foldl inclusion_step ∅ a !! h) as [g|]; [by exists g|].
  by apply not_elem_of_nil in Hin.
Qed.

Lemma aggregate_groups_elem (groups : list (string * list Att)) x :
  x ∈ aggregate_groups groups ↔
    ∃ h g r, (h, g) ∈ groups ∧ Aggregate g = Some r ∧ x ∈ r.
Proof.
  unfold aggregate_groups. rewrite list_elem_of_In, in_concat. split.
  - intros (l & Hl & Hx%list_elem_of_In). apply in_map_iff in Hl as ([h g] & <- & Hg%list_elem_of_In).
    simpl in Hx. destruct (Aggregate g) as [r|] eqn:E; [by exists h, g, r|].
    by apply not_elem_of_nil in Hx.
  - intros (h & g & r & Hg & E & Hx). exists r. split; [|by apply list_elem_of_In].
    apply in_map_iff. exists (h, g). simpl. rewrite E. split; [done|by apply list_elem_of_In].
Qed.

Definition included a : list Att :=
  aggregate_groups (range_order 2 (foldl inclusion_step ∅ a)).

Lemma included_elem a x :
  x ∈ included a ↔ ∃ h g r, foldl inclusion_step ∅ a !! h = Some g ∧ Aggregate g = Some r ∧ x ∈ r.
Proof.
  unfold included. rewrite aggregate_groups_elem.
  split; intros (h & g & r & Hg & ?); exists h, g, r; by rewrite range_order_elem in *.
Qed.

Lemma included_root a x :
  rooted a → x ∈ included a → ∃ h g r, foldl inclusion_step ∅ a !! h = Some g ∧
    Aggregate g = Some r ∧ x ∈ r ∧ HashTreeRoot x = Some h.
Proof.
  intros Hr (h & g & r & Hg & E & Hx)%included_elem. exists h, g, r. split_and!; [done..|].
  destruct (inclusion_group a h g Hr Hg) as [Hof _]. by eapply Aggregate_root.
Qed.

Lemma included_rooted a : rooted a → rooted (included a).
Proof. intros Hr x (h & g & r & _ & _ & _ & E)%included_root; [by exists h|done]. Qed.

Lemma included_comparable a : rooted a → comparable a → comparable (included a).
Proof.
  intros Hr Hc x y (h & g & r & Hg & E & Hx & Hxh)%included_root
    (h' & g' & r' & Hg' & E' & Hy & Hyh)%included_root Heq; [|done..].
  assert (h' = h) as -> by congruence. simplify_eq.
  destruct (inclusion_group a h g Hr Hg) as [Hof Hsub].
  eapply (Aggregate_comparable h g r); eauto using comparable_sub.
Qed.

(** Aggregation drops no vote when it succeeds on the group of its data. *)
Lemma included_carries a x h :
  rooted a → comparable a → x ∈ a → HashTreeRoot x = Some h →
  (∀ g, of_root h g → (∀ y, y ∈ g → y ∈ a) → Aggregate g ≠ None) →
  ∃ y, y ∈ included a ∧ carries y x.
Proof.
  intros Hr Hc Hx Hh Hagg. destruct (inclusion_group_of a x h Hx Hh) as (g & Hg & Hxg).
  destruct (inclusion_group a h g Hr Hg) as [Hof Hsub].
  destruct (Aggregate g) as [r|] eqn:E; [|by destruct (Hagg g Hof Hsub)].
  destruct (Aggregate_carries h g r x Hof) as (y & Hy & Hyx); [by eapply comparable_sub|done..|].
  exists y. split; [|done]. apply included_elem. by exists h, g, r.
Qed.

Lemma LimitToMaxAttestations_short a :
  (Z.of_nat (length (LimitToMaxAttestations a)) < MaxAttestations)%Z →
  LimitToMaxAttestations a = a.
Proof. unfold LimitToMaxAttestations. case_decide; [|done]. rewrite length_take. lia. Qed.

(** In the pool of a block with room left every vote is carried. *)
Lemma pool_carries a r x h :
  rooted a → comparable a → pool_attestations a = Ret r →
  (Z.of_nat (length r) < MaxAttestations)%Z →
  x ∈ a → HashTreeRoot x = Some h →
  (∀ g, of_root h g → (∀ y, y ∈ g → y ∈ a) → Aggregate g ≠ None) →
  ∃ y, y ∈ r ∧ carries y x.
Proof.
  intros Hr Hc Hpool Hlen Hx Hh Hagg.
  destruct (dedup_carries 1 a Hr Hc) as [Hsub1 Hcov1].
  pose proof (rooted_sub _ _ Hsub1 Hr) as Hr1. pose proof (comparable_sub _ _ Hsub1 Hc) as Hc1.
  unfold pool_attestations in Hpool. fold (included (dedup_or_nil 1 a)) in Hpool.
  set (atts := dedup_or_nil 1 a) in *. destruct (Hcov1 x Hx) as (y & Hy & Hyx).
  pose proof (SortByProfitability_spec (dedup_or_nil 3 (included atts))) as Hsort.
  destruct (SortByProfitability _) as [[sorted|]|]; [| |done]; simpl in Hpool; simplify_eq.
  2: by exists y.
  rewrite LimitToMaxAttestations_short in * by done. destruct Hsort as [Hperm _].
  destruct (included_carries atts y h) as (z & Hz & Hzy);
    [done..|by rewrite (proj1 Hyx)|intros g Hof Hg; apply Hagg; naive_solver|].
  destruct (dedup_carries 3 (included atts)) as [_ Hcov3];
    [by apply included_rooted|by apply included_comparable|].
  destruct (Hcov3 z Hz) as (w & Hw & Hwz). exists w. split; [by rewrite Hperm|].
  eauto using carries_trans.
Qed.
End pool.

(** C5: no vote is lost in a rebuilt block. When the attestations have a root
    and those for the same data can be compared, the aggregation of the data
    of an attestation does not fail and the pool has room left, then some
    attestation of the pool is for the same data and has all the votes of it:
    neither the two deduplications, nor the grouping by data, nor the sorting
    drops one. *)
Theorem no_vote_lost `{L : AttestationLib} `{!RangeOrder} `{!SortSlice} `{!AttestationLaws L}
    `{!AggregateLaws L} (a r : list Att) (x : Att) (h : string) :
  rooted a → comparable a → pool_attestations a = Ret r →
  (Z.of_nat (length r) < MaxAttestations)%Z →
  x ∈ a → HashTreeRoot x = Some h →
  (∀ g, of_root h g → (∀ y, y ∈ g → y ∈ a) → Aggregate g ≠ None) →
  ∃ y, y ∈ r ∧ carries y x.
Proof. apply pool_carries. Qed.

(** ** The attack on the running service *)

Section attack.
Context `{L : AttestationLib} `{!AttestationLaws L} `{!BlockApi.BlockTypes} `{P : !BlockApi.BlockProto}
  `{!BlockApi.BlockProtoLaws P} `{!AttestApi.AttestationProto Att}.
Context {Blk : Type} `{!Network} `{!RangeOrder} `{!SortSlice} `{!LruLib}.
Implicit Types s t : Server Att Blk.

(** [data] is an attestation that a known validator, an attacker in its slot,
    has signed. *)
Record attacker_vote (slot : Z) (pubkey data : string) (a : Att) s : Prop := {
  av_slot : 0 ≤ slot ≤ max_int64;
  av_known : ∃ val, ValidatorSet.GetValidatorByPubkey pubkey (validatorSetInfo s) = Some val ∧
    Strategy.GetValidatorRole (strategy s) (Index val) slot = AttackerRole;
  av_decodes : (b64_decode data).2 = None;
  av_attestation : AttestApi.proto_UnmarshalAttestation (b64_decode data).1 = Some a
}.

(** The call signs another attestation with the same key for the same slot. *)
Definition votes_again (slot : Z) (pubkey : string) (c : call) : Prop :=
  match c with
  | attest_afterSign slot' pubkey' _ => slot' = slot ∧ padPubkey pubkey' = padPubkey pubkey
  | _ => False
  end.

(** A step of the service that is no such vote. *)
Inductive quiet (slot : Z) (pubkey : string) : Server Att Blk → Server Att Blk → Prop :=
| quiet_call c s o s' :
    ¬ votes_again slot pubkey c → c ≠ monitor_tick → run_call c s = (o, s') →
    quiet slot pubkey s s'
| quiet_tick s s' :
    run_call monitor_tick s = (Ret tt, s') → quiet slot pubkey s s'.

(** The attacker proposes the last attacker's block of the epoch: the duties
    are read, the signed block decodes, and the slots of the epoch are those
    from [start] to [last]. *)
Record last_attacker_signs (slot : Z) (pubkey data : string) s (e : Z) g sb bl body
    (start last : Z) t : Prop := {
  la_slot : 0 ≤ slot ≤ max_int64;
  la_read : ∃ v duties t1 t2 t3 t4,
    BlockApi.duties_read slot pubkey s v e duties t1 t2 t3 ∧
    Strategy.GetValidatorRole (strategy s) v slot = AttackerRole ∧
    BlockApi.last_of (BlockApi.attacker_slots (strategy s) slot duties) slot ∧
    EpochStart e t3 = (Ret start, t4) ∧ EpochEnd e t4 = (Ret last, t);
  la_data : BlockApi.getGenericSignedBlockFromData data = inl g;
  la_capella : BlockApi.gs_Block g = BlockApi.SB_Capella (Some sb);
  la_block : BlockApi.sb_Block sb = Some bl;
  la_body : BlockApi.Body bl = Some body;
  la_start : 0 ≤ start;
  la_last : last ≤ max_int64
}.

(** *** Recorded and withheld *)

Lemma vote_recorded slot pubkey data a s :
  attacker_vote slot pubkey data a s →
  ∃ s', AttestApi.AfterSign slot pubkey data s = (Ret (Response CMD_NULL data), s') ∧
    strategy s' = strategy s ∧
    validatorSetInfo s' = ValidatorSet.AddSignedAttestation slot pubkey a (validatorSetInfo s).
Proof.
  intros [Hslot (val & Hval & Hrole) Hd Ha]. unfold AttestApi.AfterSign.
  destruct (b64_decode data) as [d err]. simpl in Hd, Ha. subst err.
  destruct (AddSignedAttestation_spec slot pubkey a s) as (s' & E & Hs & Hv).
  exists s'. split; [|done]. rewrite to_int64_id by (unfold_ints; lia).
  erewrite bind_Ret.
  2: { rewrite GetValidatorRoleByPubkey_spec. change (bk_vset s) with (validatorSetInfo s).
       rewrite Hval. apply GetValidatorRole_spec. lia. }
  change (bk_strategy s) with (strategy s). rewrite Hrole, decide_False by done.
  rewrite Ha. by erewrite bind_Ret by exact E.
Qed.

Lemma vote_withheld slot pubkey data a s :
  attacker_vote slot pubkey data a s →
  AttestApi.BeforePropose slot pubkey data s = (Ret (cmd_only CMD_RETURN), s).
Proof.
  intros [Hslot (val & Hval & Hrole) _ _]. unfold AttestApi.BeforePropose.
  rewrite to_int64_id by (unfold_ints; lia). erewrite bind_Ret.
  2: { rewrite GetValidatorRoleByPubkey_spec. change (bk_vset s) with (validatorSetInfo s).
       rewrite Hval. apply GetValidatorRole_spec. lia. }
  change (bk_strategy s) with (strategy s). rewrite Hrole. by rewrite bool_decide_true by done.
Qed.

(** *** Kept *)

Lemma quiet_step slot pubkey s s' : quiet slot pubkey s s' → step s s'.
Proof. intros []; [by eapply step_call|by apply step_tick]. Qed.

Lemma quiet_keeps slot pubkey a s s' :
  node_inv s → quiet slot pubkey s s' →
  attestation_at (validatorSetInfo s) slot (padPubkey pubkey) = Some a →
  attestation_at (validatorSetInfo s') slot (padPubkey pubkey) = Some a.
Proof.
  intros Hi Hq Ha. destruct Hq as [c s o s' Hc Ht E|s s' E].
  - destruct (writes c) eqn:Hw.
    + destruct c; try done. simpl in Hc. unfold run_call, forget, server, mbind, mret, GoM_bind, GoM_ret in E.
      destruct (AttestApi.AfterSign_cases slot0 pubkey0 data s)
        as [(o' & s1 & E' & _ & Hv & _)|(d & a' & s1 & _ & _ & _ & E' & _ & Hv)];
        rewrite E' in E; simpl in Hv.
      * assert (s1 = s') as -> by (destruct o'; by simplify_eq/=). by rewrite Hv.
      * simpl in E. simplify_eq. rewrite Hv, attestation_at_add. by rewrite decide_False.
    + pose proof (ok_call _ (inv_found s Hi) c Hw s eq_refl) as Hok. unfold wp in Hok.
      rewrite E in Hok. destruct o as [u|w]; [by rewrite Hok|by rewrite (proj2 Hok)].
  - pose proof (monitorDuties_tick_preserves
      (λ v, attestation_at v slot (padPubkey pubkey) = Some a) ltac:(done) s Ha) as Hk.
    simpl in E. by rewrite E in Hk.
Qed.

Lemma quiet_run slot pubkey a s s' :
  node_inv s → rtc (quiet slot pubkey) s s' →
  attestation_at (validatorSetInfo s) slot (padPubkey pubkey) = Some a →
  node_inv s' ∧ attestation_at (validatorSetInfo s') slot (padPubkey pubkey) = Some a.
Proof.
  intros Hi Hr. induction Hr as [|s t s' Hq _ IH]; [done|]. intros Ha.
  apply IH; [by eapply step_inv, quiet_step|by eapply quiet_keeps].
Qed.

(** *** Included *)

(** What the last attacker collects for its block. *)
Definition collected (st : Strategy) (vs : ValidatorDataSet Att Blk) (start last : Z) : list Att :=
  concat (BlockApi.slot_attackers st vs <$> seqZ start (last - start + 1)).

(** The voter, if it is still known, is still an attacker in its slot. *)
Definition still_attacks (slot : Z) (pubkey : string) s : Prop :=
  ∀ val, ValidatorSet.GetValidatorByPubkey pubkey (validatorSetInfo s) = Some val →
    Strategy.GetValidatorRole (strategy s) (Index val) slot = AttackerRole.

Lemma vote_collected slot pubkey a s start last :
  node_inv s → attestation_at (validatorSetInfo s) slot (padPubkey pubkey) = Some a →
  still_attacks slot pubkey s → start ≤ slot ≤ last →
  a ∈ collected (strategy s) (validatorSetInfo s) start last.
Proof.
  intros [Hwf Hk] Ha Hrole Hslot. apply BlockApi.collected_elem; [done|].
  destruct (Hk _ _ _ Ha) as [val Hval].
  exists slot, (padPubkey pubkey), val. split_and!; [lia..|done|done|].
  by apply Hrole.
Qed.

Lemma last_block_signed slot pubkey data s e g sb bl body start last t :
  node_inv s → last_attacker_signs slot pubkey data s e g sb bl body start last t →
  let theirs := collected (strategy s) (validatorSetInfo s) start last in
  ∃ pool data', BlockApi.pool_attestations (BlockApi.Attestations body ++ theirs) = Ret pool ∧
    BlockApi.BeforeSign slot pubkey data s = (Ret (Response CMD_NULL data'), t) ∧
    match BlockApi.proto_MarshalSigned (BlockApi.replace_attestations g sb bl body pool) with
    | Some _ => BlockApi.getGenericSignedBlockFromData data' =
        inl (BlockApi.replace_attestations g sb bl body pool)
    | None => data' = data
    end.
Proof.
  intros Hi [Hslot (v & duties & t1 & t2 & t3 & t4 & Hd & Hrole & Hlast & E1 & E2)
    Hg Hc Hsb Hbl Hst Hla] theirs.
  pose proof (BlockApi.duties_read_views _ _ _ _ _ _ _ _ _ Hd) as (_ & S3 & V3).
  pose proof (BlockApi.EpochStart_views e t3) as [S4 V4]. rewrite E1 in S4, V4.
  pose proof (BlockApi.EpochEnd_views e t4) as [S5 V5]. rewrite E2 in S5, V5. simpl in *.
  destruct (BlockApi.rebuild_block_spec e start last data t3 t4 t g sb bl body)
    as (pool & Hpool & Hrun); [done..| |].
  { simpl. rewrite V5, V4, V3. by apply inv_found. }
  simpl in Hpool. rewrite S5, S4, S3, V5, V4, V3 in Hpool.
  eexists pool, _. split_and!; [exact Hpool| |apply BlockApi.rebuilt_decodes].
  unfold BlockApi.BeforeSign. erewrite bind_Ret; [done|].
  etransitivity; [|exact Hrun].
  pose proof (BlockApi.gate_attacker slot pubkey (Response CMD_NULL data) (Response CMD_RETURN data)
    (λ e, BlockApi.rebuild_block e data) s v e duties t1 t2 t3 Hslot Hd Hrole) as Hgate.
  rewrite decide_True in Hgate by done. exact Hgate.
Qed.

Lemma vote_step_inv slot pubkey data s :
  node_inv s → node_inv (AttestApi.AfterSign slot pubkey data s).2.
Proof.
  intros Hi. pose proof (run_call_inv (attest_afterSign slot pubkey data) s Hi) as Hp.
  unfold run_call, forget, server, mbind, mret, GoM_bind, GoM_ret in Hp.
  by destruct (AttestApi.AfterSign slot pubkey data s) as [[] ?].
Qed.
End attack.


(** * A concrete attack *)

#[export] Instance bools_aggregate : AggregateLaws bools_lib.
Proof.
  split.
  - by intros h g r Hg [= <-].
  - by intros h g r _ Hc [= <-].
  - intros h g r x _ _ [= <-] Hx. exists x. split; [done|]. split; [done|]. apply Contains_refl.
Qed.

Section witnesses.
Existing Instances sample_node default_range_order merge_sort_slice fifo_lru bools_lib
  BlockApi.unit_types BlockApi.bool_proto vote_proto.

(** Validators 3 and 5 attack. *)
Definition two_attackers : option string :=
  Some (jq "{'validator':[{'validator_index':3,'attacker_start_slot':0,'attacker_end_slot':100},
                          {'validator_index':5,'attacker_start_slot':0,'attacker_end_slot':100}]}").

Definition attack_start : @Server (@Att bools_lib) unit fifo_lru :=
  {| strategy := ParseStrategy two_attackers;
     beaconClient := {| client := NewBeaconGwClient "node:3500"; trace := [] |};
     validatorSetInfo := NewValidatorSet;
     blockCacheContent := @lru_New fifo_lru 1000 |}.

(** A tick learns validator 3, which then signs its vote for slot 40; the
    proposer, validator 5, is asked for its strategy, and the monitor ticks. *)
Definition attack_known := (run_call (L := bools_lib) monitor_tick attack_start).2.
Definition attack_voted := (AttestApi.AfterSign 40 "a3" "" attack_known).2.
Definition attack_asked := (run_call (L := bools_lib) (block_getStrategy "5") attack_voted).2.
Definition attack_ready := (run_call (L := bools_lib) monitor_tick attack_asked).2.

Lemma attack_known_reachable : reachable (L := bools_lib) two_attackers "node:3500" attack_known.
Proof.
  exists attack_start. split; [reflexivity|]. apply rtc_once, step_tick. vm_compute. reflexivity.
Defined.

Lemma attack_vote : attacker_vote (L := bools_lib) 40 "a3" "" (40, [true; false]) attack_known.
Proof.
  split; [unfold max_int64; lia| |reflexivity..].
  eexists. split; vm_compute; reflexivity.
Defined.

Lemma attack_quiet : rtc (quiet (L := bools_lib) 40 "a3") attack_voted attack_ready.
Proof.
  apply (rtc_l _ _ attack_asked).
  - eapply (quiet_call 40 "a3" (block_getStrategy "5")); [intros []|discriminate|].
    apply surjective_pairing.
  - apply rtc_once, quiet_tick. vm_compute. reflexivity.
Defined.

Definition attack_duties : list ProposerDuty :=
  (@served_duties sample_node (beaconClient attack_ready) 1).1.
Definition attack_read1 := (BlockApi.proposer (L := bools_lib) 40 "0xa5" attack_ready).2.
Definition attack_read2 := (SlotToEpoch (Att := @Att bools_lib) 40 attack_read1).2.
Definition attack_read3 := (GetProposeDuties (Att := @Att bools_lib) 1 attack_read2).2.
Definition attack_read4 := (EpochStart (Att := @Att bools_lib) 1 attack_read3).2.
Definition attack_end := (EpochEnd (Att := @Att bools_lib) 1 attack_read4).2.

(** The block of slot 40 carries one attestation for slot 39. *)
Definition own : list (@Att bools_lib) := [(39, [true; true])].
Definition own_body : @BlockApi.BodyCapella bools_lib BlockApi.unit_types :=
  {| BlockApi.Attestations := own; BlockApi.body_rest := tt : @BlockApi.BodyRest BlockApi.unit_types |}.
Definition own_block : @BlockApi.BlockCapella bools_lib BlockApi.unit_types :=
  {| BlockApi.Body := Some own_body;
     BlockApi.block_rest := tt : @BlockApi.BlockRest BlockApi.unit_types |}.
Definition own_signed : @BlockApi.SignedBlockCapella bools_lib BlockApi.unit_types :=
  {| BlockApi.sb_Block := Some own_block;
     BlockApi.signed_rest := tt : @BlockApi.SignedRest BlockApi.unit_types |}.

Lemma attack_signs :
  last_attacker_signs (L := bools_lib) 40 "0xa5" BlockApi.block_data attack_ready 1
    (BlockApi.bool_block own) own_signed own_block own_body 32 63 attack_end.
Proof.
  split; [unfold max_int64; lia| |vm_compute; reflexivity|reflexivity..|lia|unfold max_int64; lia].
  exists 5, attack_duties, attack_read1, attack_read2, attack_read3, attack_read4.
  split_and!; [split; vm_compute; reflexivity|vm_compute; reflexivity|
    eapply bool_decide_unpack; vm_compute; exact I|vm_compute; reflexivity..].
Defined.

Definition two_votes : list (@Att bools_lib) := [(39, [true; true]); (40, [true; false])].

Lemma two_votes_comparable : comparable (L := bools_lib) two_votes.
Proof.
  intros x y [->|<-%list_elem_of_singleton%eq_sym]%elem_of_cons
    [->|<-%list_elem_of_singleton%eq_sym]%elem_of_cons; vm_compute; discriminate.
Qed.

Definition two_votes_pool : list (@Att bools_lib) :=
  match BlockApi.pool_attestations (L := bools_lib) two_votes with Ret r => r | Panic _ => [] end.

Lemma no_vote_lost_witness :
  BlockApi.pool_attestations (L := bools_lib) two_votes = Ret two_votes_pool ∧
    ∃ y, y ∈ two_votes_pool ∧ carries (L := bools_lib) y (40, [true; false]).
Proof.
  assert (E : BlockApi.pool_attestations (L := bools_lib) two_votes = Ret two_votes_pool)
    by (vm_compute; reflexivity).
  split; [exact E|].
  apply (no_vote_lost (L := bools_lib) two_votes two_votes_pool (40, [true; false]) "40").
  - intros x Hx. by eexists.
  - exact two_votes_comparable.
  - exact E.
  - vm_compute. reflexivity.
  - apply elem_of_cons. right. by apply list_elem_of_singleton.
  - vm_compute. reflexivity.
  - intros g _ _. discriminate.
Defined.

End witnesses.
