(* ===== verification/Race.v ===== *)
(** * The data the handlers share (src/validatorSet/validatorSet.go,
    src/server/apis/block.go [modifyBlock], src/server/server.go)

    Each request runs in a goroutine of its own, next to the duty monitor.
    Here an operation is the sequence of its lock operations and of its accesses
    to the maps and structs that goroutines share; goroutines are interleaved
    access by access.  What the operations compute is in the other files.  A
    waiting writer, which makes new readers of Go's lock wait, is left out: no
    operation takes the lock while it holds it. *)

From S2P Require Import Prelude.

(** The shared objects: the two maps of [ValidatorDataSet] by slot, the map of
    a slot's attestations or blocks, the two structs of the strategy that are
    assigned while the server runs. *)
Inductive object :=
| AttestSet
| BlockSet
| Attestations (slot : Z)
| Blocks (slot : Z)
| StrategyBlock
| StrategyAttest.

#[export] Instance object_eq_dec : EqDecision object.
Proof. solve_decision. Defined.

Inductive action :=
| ALock | AUnlock                     (* vs.lock *)
| ARLock | ARUnlock
| ARead (o : object)
| AWrite (o : object)
| ANext (o : object).                 (* the next entry of a range loop *)

(** ** The operations *)

(** [missing]: the slot has no entry yet.  [entries]: how many attestations the
    slot has, none when it has no entry.  [enabled]: the delay is on.  [decodes]:
    the strategy in the request can be read. *)
Inductive operation :=
| AddValidator                        (* the two sync.Maps need no lock *)
| GetValidatorByIndex
| GetValidatorByPubkey
| GetAttestSet
| GetBlockSet
| AddSignedAttestation (slot : Z) (missing : bool)
| AddSignedBlock (slot : Z) (missing : bool)
| CollectAttestations (slot : Z) (entries : option nat)
| GetBlockStrategy | UpdateBlockStrategy (decodes : bool) | BroadCastDelay (enabled : bool)
| UpdateBlockBroadDelay
| GetAttestStrategy | UpdateAttestStrategy (decodes : bool)
| UpdateAttestBroadDelay.

Definition locked (l : list action) : list action := ALock :: l ++ [AUnlock].
Definition rlocked (l : list action) : list action := ARLock :: l ++ [ARUnlock].

(** The entries of one slot of the loop of [modifyBlock]: each asks for the
    validator of its key. *)
Fixpoint collect_entries (slot : Z) (entries : nat) : list action :=
  match entries with
  | O => [ANext (Attestations slot)]
  | S n => ANext (Attestations slot) :: rlocked [] ++ collect_entries slot n
  end.

Definition accesses (op : operation) : list action :=
  match op with
  | AddValidator => locked []
  | GetValidatorByIndex | GetValidatorByPubkey => rlocked []
  | GetAttestSet => rlocked [ARead AttestSet]
  | GetBlockSet => rlocked [ARead BlockSet]
  | AddSignedAttestation slot missing =>
      locked (ARead AttestSet :: (if missing then [AWrite AttestSet] else [])
              ++ [ARead AttestSet; AWrite (Attestations slot)])
  | AddSignedBlock slot missing =>
      locked (ARead BlockSet :: (if missing then [AWrite BlockSet] else [])
              ++ [ARead BlockSet; AWrite (Blocks slot)])
  | CollectAttestations slot entries =>
      rlocked [ARead AttestSet] ++ match entries with Some n => collect_entries slot n | None => [] end
  | GetBlockStrategy => [ARead StrategyBlock]
  | UpdateBlockStrategy decodes => if decodes : bool then [AWrite StrategyBlock] else []
  | BroadCastDelay enabled => ARead StrategyBlock :: if enabled : bool then [ARead StrategyBlock] else []
  | UpdateBlockBroadDelay => [AWrite StrategyBlock]
  | GetAttestStrategy => [ARead StrategyAttest]
  | UpdateAttestStrategy decodes => if decodes : bool then [AWrite StrategyAttest] else []
  | UpdateAttestBroadDelay => [AWrite StrategyAttest]
  end.

Definition program (ops : list operation) : list action := ops ≫= accesses.

(** ** The goroutines *)

Inductive mode := Shared | Exclusive.

(** What is left to do, and how the lock is held. *)
Record machine := { todo : gmap nat (list action); holds : gmap nat mode }.

Definition advance (t : nat) (rest : list action) (f : gmap nat mode → gmap nat mode) (c : machine) : machine :=
  {| todo := <[t := rest]> (todo c); holds := f (holds c) |}.

Inductive run_step : machine → machine → Prop :=
| r_lock t l c :
    todo c !! t = Some (ALock :: l) → holds c = ∅ → run_step c (advance t l <[t := Exclusive]> c)
| r_rlock t l c :
    todo c !! t = Some (ARLock :: l) → (∀ u, holds c !! u ≠ Some Exclusive) →
    run_step c (advance t l <[t := Shared]> c)
| r_unlock t l c :
    todo c !! t = Some (AUnlock :: l) → holds c !! t = Some Exclusive →
    run_step c (advance t l (delete t) c)
| r_runlock t l c :
    todo c !! t = Some (ARUnlock :: l) → holds c !! t = Some Shared →
    run_step c (advance t l (delete t) c)
| r_access t a l c :
    todo c !! t = Some (a :: l) → (a ≠ ALock ∧ a ≠ AUnlock ∧ a ≠ ARLock ∧ a ≠ ARUnlock) →
    run_step c (advance t l id c).

(** Goroutines that each run a sequence of operations. *)
Definition start (gs : gmap nat (list operation)) : machine := {| todo := program <$> gs; holds := ∅ |}.

(** Two goroutines are about to access one object, one of them to write it:
    the Go memory model gives no meaning to what follows, and for a map the
    runtime ends the process when it notices. *)
Definition touches (a : action) (o : object) : Prop := a = ARead o ∨ a = AWrite o ∨ a = ANext o.

Definition race (c : machine) (o : object) (a : action) : Prop :=
  ∃ t u l l', t ≠ u ∧ todo c !! t = Some (AWrite o :: l) ∧ todo c !! u = Some (a :: l') ∧ touches a o.

(** Nothing is left to do. *)
Definition finished (c : machine) : Prop := ∀ t l, todo c !! t = Some l → l = [].

(** * Lemmas *)

(** ** The locking discipline *)

Definition unguarded (o : object) : bool :=
  match o with StrategyBlock | StrategyAttest => true | _ => false end.

Definition is_attestations (o : object) : bool := match o with Attestations _ => true | _ => false end.

(** With the lock held in this way the actions keep to the discipline: the maps
    are read under the lock and written under the exclusive lock, except that
    [range] goes over attestations without it. *)
Fixpoint keeps (m : option mode) (l : list action) : bool :=
  match l, m with
  | [], None => true
  | [], Some _ => false
  | ALock :: l, None => keeps (Some Exclusive) l
  | ARLock :: l, None => keeps (Some Shared) l
  | AUnlock :: l, Some Exclusive => keeps None l
  | ARUnlock :: l, Some Shared => keeps None l
  | ARead o :: l, None => unguarded o && keeps m l
  | ARead o :: l, Some _ => keeps m l
  | AWrite o :: l, Some Exclusive => keeps m l
  | AWrite o :: l, _ => unguarded o && keeps m l
  | ANext o :: l, _ => is_attestations o && keeps m l
  | _, _ => false
  end.

Lemma keeps_app m l l' : keeps m l = true → keeps None l' = true → keeps m (l ++ l') = true.
Proof.
  intros Hl Hl'. revert m Hl. induction l as [|a l IH]; intros [[]|]; cbn; try done;
    destruct a; try done; try apply IH; intros [? ?]%andb_true_iff; apply andb_true_iff; auto.
Qed.

Lemma accesses_keep op : keeps None (accesses op) = true.
Proof.
  destruct op as [| | | | |slot []|slot []|slot [n|]| |[]|[]| | |[]|]; try done. cbn.
  induction n as [|n IH]; [done|]. exact IH.
Qed.

Lemma program_keeps ops : keeps None (program ops) = true.
Proof.
  induction ops as [|op ops IH]; [done|]. apply keeps_app; [apply accesses_keep|exact IH].
Qed.

Record lock_inv (c : machine) : Prop := {
  li_keeps : ∀ t l, todo c !! t = Some l → keeps (holds c !! t) l = true;
  li_excl : ∀ t u m, holds c !! t = Some Exclusive → holds c !! u = Some m → u = t;
  li_known : ∀ t m, holds c !! t = Some m → is_Some (todo c !! t)
}.

Lemma lock_inv_start gs : lock_inv (start gs).
Proof.
  split; cbn; try (intros; by rewrite lookup_empty in *). intros t l.
  rewrite lookup_fmap, lookup_empty. intros (ops & _ & ->)%fmap_Some. apply program_keeps.
Qed.

(** One goroutine moves and changes only how it holds the lock itself. *)
Lemma lock_inv_advance t a l f c :
  lock_inv c → todo c !! t = Some (a :: l) → (∀ u, u ≠ t → f (holds c) !! u = holds c !! u) →
  keeps (f (holds c) !! t) l = true →
  (f (holds c) !! t = Some Exclusive → ∀ u m, u ≠ t → holds c !! u ≠ Some m) →
  (∀ m, f (holds c) !! t = Some m → ∀ u, u ≠ t → holds c !! u ≠ Some Exclusive) →
  lock_inv (advance t l f c).
Proof.
  intros [Hk He Hn] Ht Hf Hl Hx Hs. split; cbn.
  - intros u l' [(<- & <-)|(Hu & Hl')]%lookup_insert_Some; [done|]. rewrite Hf by done. by apply Hk.
  - intros u v m. destruct (decide (u = t)) as [->|Hu], (decide (v = t)) as [->|Hv]; [done|..].
    + rewrite (Hf v) by done. intros E Ev. by destruct (Hx E v m Hv).
    + rewrite (Hf u) by done. intros Eu Ev. by destruct (Hs m Ev u Hu).
    + rewrite (Hf u), (Hf v) by done. apply He.
  - intros u m. destruct (decide (u = t)) as [->|Hu]; [intros _; rewrite lookup_insert_eq; eauto|].
    rewrite Hf, lookup_insert_ne by done. apply Hn.
Qed.

Lemma lock_inv_step c c' : run_step c c' → lock_inv c → lock_inv c'.
Proof.
  intros Hst Hi. destruct Hst as [t l c Ht Hh|t l c Ht Hh|t l c Ht Hh|t l c Ht Hh|t a l c Ht Ha];
    pose proof (li_keeps c Hi t _ Ht) as Hk.
  - rewrite Hh, lookup_empty in Hk. eapply lock_inv_advance; [done|exact Ht|..].
    + intros u Hu. by rewrite lookup_insert_ne.
    + by rewrite lookup_insert_eq.
    + intros _ u m _. by rewrite Hh, lookup_empty.
    + intros m _ u _. by rewrite Hh, lookup_empty.
  - eapply lock_inv_advance; [done|exact Ht|..].
    + intros u Hu. by rewrite lookup_insert_ne.
    + rewrite lookup_insert_eq. cbn in Hk. by destruct (holds c !! t) as [[]|].
    + by rewrite lookup_insert_eq.
    + intros m _ u _. apply Hh.
  - rewrite Hh in Hk. eapply lock_inv_advance; [done|exact Ht|..].
    + intros u Hu. by rewrite lookup_delete_ne.
    + by rewrite lookup_delete_eq.
    + by rewrite lookup_delete_eq.
    + intros m. by rewrite lookup_delete_eq.
  - rewrite Hh in Hk. eapply lock_inv_advance; [done|exact Ht|..].
    + intros u Hu. by rewrite lookup_delete_ne.
    + by rewrite lookup_delete_eq.
    + by rewrite lookup_delete_eq.
    + intros m. by rewrite lookup_delete_eq.
  - eapply lock_inv_advance; [done|exact Ht|done|..]; unfold id.
    + destruct Ha as (? & ? & ? & ?). destruct a, (holds c !! t) as [[]|]; cbn in Hk; try congruence;
        by apply andb_true_iff in Hk as [_ ?].
    + intros E u m Hu Hm. apply Hu. by eapply (li_excl c Hi).
    + intros m Em u Hu Eu. apply Hu. symmetry. by eapply (li_excl c Hi).
Qed.

Lemma lock_inv_rtc c c' : rtc run_step c c' → lock_inv c → lock_inv c'.
Proof. induction 1; eauto using lock_inv_step. Qed.

(** ** Progress *)

Lemma holder_moves c t m : lock_inv c → holds c !! t = Some m → ∃ c', run_step c c'.
Proof.
  intros Hi Hh. destruct (li_known c Hi t m Hh) as [l Ht]. pose proof (li_keeps c Hi t l Ht) as Hk.
  rewrite Hh in Hk. destruct l as [|a l]; [by destruct m|].
  destruct a, m; cbn in Hk; try done; try (eexists; apply (r_access t _ l c Ht); by repeat split);
    eexists; by (apply (r_runlock t l c Ht) || apply (r_unlock t l c Ht)).
Qed.

Lemma machine_moves c : lock_inv c → finished c ∨ ∃ c', run_step c c'.
Proof.
  intros Hi. destruct (decide (holds c = ∅)) as [He|He]; cycle 1.
  { right. apply map_choose in He as (t & m & Hh). by eapply holder_moves. }
  destruct (decide (map_Forall (λ _ l, l = []) (todo c))) as [Hf|Hf]; [left; exact Hf|right].
  apply map_not_Forall in Hf as (t & l & Ht & Hl); [|apply _]. destruct l as [|a l]; [done|].
  pose proof (li_keeps c Hi t _ Ht) as Hk. rewrite He, lookup_empty in Hk.
  destruct a; cbn in Hk; try done; try (eexists; apply (r_access t _ l c Ht); by repeat split).
  - eexists. by apply (r_lock t l c Ht).
  - eexists. apply (r_rlock t l c Ht). intros u. by rewrite He, lookup_empty.
Qed.

(** ** Races *)

Lemma race_held c o a t u l l' :
  lock_inv c → t ≠ u → todo c !! t = Some (AWrite o :: l) → todo c !! u = Some (a :: l') → touches a o →
  unguarded o = true ∨ (∃ slot, o = Attestations slot) ∧ a = ANext o.
Proof.
  intros Hi Hne Ht Hu Hto. pose proof (li_keeps c Hi t _ Ht) as Hkt. pose proof (li_keeps c Hi u _ Hu) as Hku.
  destruct (unguarded o) eqn:Hg; [by left|right].
  assert (Hht : holds c !! t = Some Exclusive).
  { destruct (holds c !! t) as [[]|]; cbn in Hkt; rewrite ?Hg in Hkt; done. }
  assert (Hhu : holds c !! u = None).
  { destruct (holds c !! u) as [m|] eqn:E; [|done]. by destruct Hne; rewrite (li_excl c Hi t u m Hht E). }
  rewrite Hhu in Hku. destruct Hto as [-> | [-> | ->]]; cbn in Hku; rewrite ?Hg in Hku; try done.
  split; [|done]. destruct o; try done. by eexists.
Qed.

(** A request that collects while another one stores an attestation. *)
Definition collecting (slot : Z) (entries : nat) (missing : bool) : machine :=
  start {[0%nat := [CollectAttestations slot (Some (S entries))]; 1%nat := [AddSignedAttestation slot missing]]}.

Lemma collect_races slot entries missing : ∃ c,
  rtc run_step (collecting slot entries missing) c ∧ race c (Attestations slot) (ANext (Attestations slot)).
Proof.
  eexists. split.
  - eapply rtc_l; [apply (r_rlock 0%nat); [reflexivity|intros u; apply lookup_empty_Some]|].
    eapply rtc_l; [eapply (r_access 0%nat (ARead AttestSet)); [reflexivity|by repeat split]|].
    eapply rtc_l; [eapply (r_runlock 0%nat); reflexivity|].
    eapply rtc_l; [eapply (r_lock 1%nat); reflexivity|].
    eapply rtc_l; [eapply (r_access 1%nat (ARead AttestSet)); [reflexivity|by repeat split]|].
    destruct missing.
    + eapply rtc_l; [eapply (r_access 1%nat (AWrite AttestSet)); [reflexivity|by repeat split]|].
      apply rtc_once. eapply (r_access 1%nat (ARead AttestSet)); [reflexivity|by repeat split].
    + apply rtc_once. eapply (r_access 1%nat (ARead AttestSet)); [reflexivity|by repeat split].
  - exists 1%nat, 0%nat. do 2 eexists. split; [done|]. split; [reflexivity|]. split; [reflexivity|]. by right; right.
Qed.

(** * Properties *)


