(* ===== verification/Reward.v ===== *)
(** * Package reward (src/reward/reward.go)

    The rewards of all epochs but the last two as a CSV file, written to a
    backup file that replaces the output only on success.  The file system is
    a finite map from paths to contents; only [os.Create] can fail here.  The
    CSV writer is encoding/csv with its default settings. *)

From S2P Require Import Prelude Strconv GoJson GoValue Beacon.

(** ** encoding/csv *)

(** The first rune is a space ([unicode.IsSpace]), in UTF-8. *)
Definition starts_with_space (s : string) : bool :=
  match s with
  | EmptyString => false
  | String c r =>
      let z := code c in
      ((9 <=? z) && (z <=? 13)) || (z =? 32) ||
      match r with
      | EmptyString => false
      | String c1 r1 =>
          let z1 := code c1 in
          ((z =? 194) && ((z1 =? 133) || (z1 =? 160))) ||
          match r1 with
          | EmptyString => false
          | String c2 _ =>
              let z2 := code c2 in
              ((z =? 225) && (z1 =? 154) && (z2 =? 128)) ||
              ((z =? 226) && (z1 =? 128) &&
                (((128 <=? z2) && (z2 <=? 138)) || (z2 =? 168) || (z2 =? 169) || (z2 =? 175))) ||
              ((z =? 226) && (z1 =? 129) && (z2 =? 159)) ||
              ((z =? 227) && (z1 =? 128) && (z2 =? 128))
          end
      end
  end.

Definition fieldNeedsQuotes (field : string) : bool :=
  if decide (field = "") then false
  else if decide (field = "\.") then true
  else string_mem "," field || string_mem dquote field || string_mem (chr 13) field
       || string_mem (chr 10) field || starts_with_space field.

Fixpoint double_quotes (s : string) : string :=
  match s with
  | EmptyString => ""
  | String c r =>
      if decide (c = dquote) then String dquote (String dquote (double_quotes r))
      else String c (double_quotes r)
  end.

Definition csv_field (field : string) : string :=
  if fieldNeedsQuotes field
  then String dquote (double_quotes field +:+ String dquote "")
  else field.

Definition csv_line (record : list string) : string :=
  String.concat "," (map csv_field record) +:+ String (chr 10) "".

(** ** State *)

Record RewardState := {
  files : gmap string string;
  beacon_world : World;
  written : string           (* the bytes given to the CSV writer *)
}.

Definition set_files (f : gmap string string) (s : RewardState) : RewardState :=
  {| files := f; beacon_world := beacon_world s; written := written s |}.

Section reward.
Context `{!Network} `{!RangeOrder}.

Definition ask {A} (m : GoM World A) : GoM RewardState A :=
  zoom beacon_world (λ w s, {| files := files s; beacon_world := w; written := written s |}) m.

Definition write (record : list string) : GoM RewardState unit :=
  modify (λ s, {| files := files s; beacon_world := beacon_world s;
                  written := written s +:+ csv_line record |}).

Definition header_record : list string :=
  ["Epoch"; "Validator Index"; "Head"; "Target"; "Source"; "Inclusion Delay"; "Inactivity"].

Definition reward_record (epochNumber : Z) (t : TotalReward) : list string :=
  [FormatInt epochNumber; tr_ValidatorIndex t; Head t; Target t; Source t; InclusionDelay t;
   Inactivity t].

(** [for epochNumber <= latestEpoch-2 { ... }], over the epochs to visit. *)
Fixpoint reward_epochs (epochs : list Z) : GoM RewardState (option beacon_error) :=
  match epochs with
  | [] => mret None
  | epochNumber :: epochs' =>
      totalRewards ← ask (GetAllValReward epochNumber);
      match totalRewards.2 with
      | Some err => mret (Some err)
      | None =>
          _ ← foldM (λ _ t, write (reward_record epochNumber t)) tt totalRewards.1;
          reward_epochs epochs'
      end
  end.

(** The epochs from 0 to [latestEpoch - 2]. *)
Definition epochs_upto (latestEpoch : Z) : list Z := seqZ 0 (to_int64 (latestEpoch - 2) + 1).

(** The body up to the deferred calls: the value of [succeed] and the error. *)
Definition collect_rewards : GoM RewardState (bool * option beacon_error) :=
  slots_per_epoch ← ask (GetIntConfig SLOTS_PER_EPOCH);
  match slots_per_epoch.2 with
  | Some err => mret (false, Some err)
  | None =>
      latestHeader ← ask GetLatestBeaconHeader;
      match latestHeader.2 with
      | Some err => mret (false, Some err)
      | None =>
          let latestSlot := (ParseInt (hm_Slot (Message (Beacon.Header latestHeader.1)))).1 in
          latestEpoch ← go_quot latestSlot slots_per_epoch.1;
          _ ← write header_record;
          err ← reward_epochs (epochs_upto latestEpoch);
          match err with
          | Some err => mret (false, Some err)
          | None => mret (true, None)
          end
      end
  end.

Inductive reward_error := ErrCreate | ErrBeacon (e : beacon_error).

(** The deferred calls, on return and on panic: flush, close, rename. *)
Definition finish (bakfile output : string) (succeed : bool) (s : RewardState) : RewardState :=
  let flushed := <[bakfile := written s]> (files s) in
  set_files (if succeed then <[output := written s]> (delete bakfile flushed) else flushed) s.

(** [created] tells whether [os.Create] succeeds on a path. *)
Definition GetRewards (created : string → bool) (gwEndpoint output : string)
    : GoM RewardState (option reward_error) := λ s,
  let bakfile := output +:+ ".bak" in
  if created bakfile then
    let s := {| files := <[bakfile := ""]> (files s);
                beacon_world := {| client := NewBeaconGwClient gwEndpoint;
                                   trace := trace (beacon_world s) |};
                written := "" |} in
    match collect_rewards s with
    | (Ret (succeed, err), s') => (Ret (ErrBeacon <$> err), finish bakfile output succeed s')
    | (Panic why, s') => (Panic why, finish bakfile output false s')
    end
  else (Ret (Some ErrCreate), s).

(** * Lemmas *)

(** A request leaves the files and the written bytes alone. *)
Definition kept (s s' : RewardState) : Prop := files s' = files s ∧ written s' = written s.

Lemma ask_kept {A} (m : GoM World A) s :
  wp (ask m) (λ _, kept s) (λ _, kept s) s.
Proof. unfold ask, zoom, wp. by destruct (m (beacon_world s)) as [[?|?] ?]. Qed.

(** The text of a table of rewards, by epoch. *)
Definition table_text (rows : list (Z * list TotalReward)) : string :=
  String.concat "" (map (λ r, String.concat "" (map (λ t, csv_line (reward_record r.1 t)) r.2)) rows).

Lemma concat_cons_string (a : string) l : String.concat "" (a :: l) = a +:+ String.concat "" l.
Proof. simpl. destruct l; [by rewrite string_app_nil_r|done]. Qed.

Lemma write_rows e rows s :
  ∃ s', foldM (λ _ t, write (reward_record e t)) tt rows s = (Ret tt, s') ∧
    files s' = files s ∧ beacon_world s' = beacon_world s ∧
    written s' = written s +:+ String.concat "" (map (λ t, csv_line (reward_record e t)) rows).
Proof.
  revert s. induction rows as [|t rows IH]; intros s.
  { exists s. simpl. by rewrite string_app_nil_r. }
  destruct (IH {| files := files s; beacon_world := beacon_world s;
                  written := written s +:+ csv_line (reward_record e t) |}) as (s' & E & Hf & Hw & Hb).
  exists s'. split; [exact E|]. split; [done|]. split; [done|].
  rewrite Hb. cbn [written map]. by rewrite concat_cons_string, string_app_assoc.
Qed.

(** The replies to the reward requests of some epochs, in order: the table
    when all of them decode. *)
Fixpoint served_table (w : World) (epochs : list Z) : option (list (Z * list TotalReward)) :=
  match epochs with
  | [] => Some []
  | e :: epochs' =>
      match GetAllValReward e w with
      | (Ret (rows, None), w') => cons (e, rows) <$> served_table w' epochs'
      | _ => None
      end
  end.

Lemma reward_epochs_spec epochs s :
  files (reward_epochs epochs s).2 = files s ∧
  ∀ s', reward_epochs epochs s = (Ret None, s') →
    ∃ rows, served_table (beacon_world s) epochs = Some rows ∧
      written s' = written s +:+ table_text rows.
Proof.
  revert s. induction epochs as [|e epochs IH]; intros s; cbn [reward_epochs served_table].
  { split; [done|]. intros s' [= <-]. exists []. split; [done|]. by rewrite string_app_nil_r. }
  unfold mbind, GoM_bind, ask, zoom.
  destruct (GetAllValReward e (beacon_world s)) as [[[rows [err|]]|why] w']; cbn; [done| |done].
  set (s1 := {| files := files s; beacon_world := w'; written := written s |}).
  destruct (write_rows e rows s1) as (s2 & E & Hf & Hw & Hb). rewrite E.
  destruct (IH s2) as [IHf IHs]. split; [by rewrite IHf, Hf|].
  intros s' Hs'. destruct (IHs s' Hs') as (table & Ht & Hwr).
  rewrite Hw in Ht. exists ((e, rows) :: table). cbn in Ht. rewrite Ht. split; [done|].
  rewrite Hwr, Hb. unfold table_text. cbn [map]. rewrite concat_cons_string. cbn.
  by rewrite string_app_assoc.
Qed.

(** What [collect_rewards] leaves: the files untouched, on success the whole
    table written, otherwise an error. *)
Definition collected (s : RewardState) (r : bool * option beacon_error) (s' : RewardState) : Prop :=
  files s' = files s ∧
  match r with
  | (true, err) => err = None ∧ ∃ w latestEpoch rows,
      served_table w (epochs_upto latestEpoch) = Some rows ∧
      written s' = written s +:+ csv_line header_record +:+ table_text rows
  | (false, err) => err ≠ None
  end.

Lemma collect_rewards_spec s :
  wp collect_rewards (collected s) (λ _ s', files s' = files s) s.
Proof.
  unfold collect_rewards. apply wp_bind.
  eapply wp_mono; [apply ask_kept| |by intros ?? [??]].
  intros [n [e|]] s1 [F1 W1]; [by split|]. cbn [fst snd]. apply wp_bind.
  eapply wp_mono; [apply ask_kept| |intros ?? [F ?]; by rewrite F].
  intros [h [e|]] s2 [F2 W2]; [split; [by rewrite F2|done]|]. cbn [fst snd]. apply wp_bind.
  unfold go_quot. case_decide; [unfold wp; simpl; by rewrite F2|]. apply wp_ret.
  set (q := to_int64 _). apply wp_bind. unfold wp at 1. cbn. apply wp_bind.
  set (s3 := {| files := files s2; beacon_world := beacon_world s2;
                written := written s2 +:+ csv_line header_record |}).
  destruct (reward_epochs_spec (epochs_upto q) s3) as [F3 Hrows]. unfold wp at 1.
  destruct (reward_epochs (epochs_upto q) s3) as [[[err|]|why] s4]; cbn in F3; [| |congruence].
  - split; [congruence|done].
  - split; [congruence|]. split; [done|].
    destruct (Hrows s4 eq_refl) as (rows & Ht & Hw). exists (beacon_world s3), q, rows.
    split; [done|]. rewrite Hw. cbn [written s3]. by rewrite W2, W1, string_app_assoc.
Qed.
End reward.

(** What a run leaves on the disk. *)
Lemma GetRewards_spec `{!Network} `{!RangeOrder} (created : string → bool)
    (gwEndpoint output : string) (s : RewardState) :
  let bakfile := output +:+ ".bak" in
  let r := GetRewards created gwEndpoint output s in
  (∀ f, f ≠ output → f ≠ bakfile → files r.2 !! f = files s !! f) ∧
  match r.1 with
  | Ret None =>
      files r.2 !! bakfile = None ∧
      ∃ w latestEpoch rows, served_table w (epochs_upto latestEpoch) = Some rows ∧
        files r.2 !! output = Some (csv_line header_record +:+ table_text rows)
  | _ => files r.2 !! output = files s !! output
  end.
Proof.
  intros bakfile r. subst r. unfold GetRewards. fold bakfile.
  assert (Hne : bakfile ≠ output).
  { intros E. apply (f_equal String.length) in E. subst bakfile.
    revert E. induction output as [|c o IH]; [done|]. intros E. apply IH. by injection E. }
  destruct (created bakfile); [|done].
  set (s0 := {| files := <[bakfile := ""]> (files s); beacon_world := _; written := "" |}).
  pose proof (collect_rewards_spec s0) as Hc. unfold wp in Hc.
  destruct (collect_rewards s0) as [[[succeed err]|why] s1]; simpl in Hc |- *; unfold finish.
  2: { rewrite Hc. split; [|by rewrite !lookup_insert_ne by done].
       intros f Hf1 Hf2. by rewrite !lookup_insert_ne by done. }
  destruct Hc as [Hf Hc]. rewrite Hf. destruct succeed.
  - destruct Hc as (-> & w & q & rows & Ht & Hw). simpl. split_and!.
    + intros f Hf1 Hf2. rewrite lookup_insert_ne by done. rewrite lookup_delete_ne by done.
      by rewrite !lookup_insert_ne by done.
    + rewrite lookup_insert_ne by done. by rewrite lookup_delete_eq.
    + exists w, q, rows. split; [done|]. by rewrite lookup_insert_eq, Hw.
  - simpl. split; [intros f Hf1 Hf2; by rewrite !lookup_insert_ne by done|].
    destruct err; [|done]. simpl. by rewrite !lookup_insert_ne by done.
Qed.

(** * Properties *)

