(* ===== verification/Process.v ===== *)
(** * The process (src/cmd/, src/config/, src/versions/)

    What the commands do around the service: the configuration, the start of
    the node, its background task that writes the reward table, and the small
    commands.  The process is the node, the files and the network. *)

From S2P Require Import Prelude Strconv GoJson GoValue Types Atts Strategy ValidatorSet Beacon.
From S2P Require Import AttestApi BlockApi.
From S2P Require Import Backend Server Node Reward.

(** ** Package config *)

Record Config := {
  HttpPort : Z;
  HttpHost : string;
  ExecuteRpc : string;
  BeaconRpc : string;
  MetricsPort : Z;
  StrategyFile : string;     (* the field Strategy *)
  RewardFile : string
}.

Definition MetricPort (conf : Config) : Z := MetricsPort conf.

(** [toml.Unmarshal] into a pointer to [_cfg], and the command-line and file
    discovery of viper: the path of the configuration file it finds. *)
Class ConfigLib := {
  toml_Unmarshal : string → option Config → option Config * option string;
  ReadInConfig : gmap string string → option string
}.

(** [ethclient.Dial]: an error or none. *)
Class ExecLib := ethclient_Dial : string → option string.

Section config.
Context `{!ConfigLib}.

(** The variable [_cfg] is the state; [files] is what [ioutil.ReadFile] reads. *)
Definition ParseConfig (files : gmap string string) (path : string) : GoM (option Config) (option Config) :=
  match files !! path with
  | None => panic (ExplicitPanic "get config failed")
  | Some data => λ _cfg,
      match toml_Unmarshal data _cfg with
      | (_cfg, None) => (Ret _cfg, _cfg)
      | (_cfg, Some err) => (Panic (ExplicitPanic err), _cfg)
      end
  end.

Definition GetConfig : GoM (option Config) (option Config) := gets id.

(** [log.Fatal] ends the process: it is a panic that nothing recovers. *)
Definition Fatal (msg : string) : panic_reason := ExplicitPanic ("exit: " +:+ msg).

(** [initConfig]; logging is set up by [InitLog]. *)
Definition initConfig (files : gmap string string) (configPath : string) : GoM (option Config) unit :=
  if decide (configPath ≠ "") then _ ← ParseConfig files configPath; mret tt
  else
    match ReadInConfig files with
    | None => panic (Fatal "Read config failed")
    | Some used => _ ← ParseConfig files used; mret tt
    end.
End config.

(** ** The small commands *)

Inductive log_level := ErrorLevel | InfoLevel | DebugLevel.

Definition getLogLevel (level : string) : log_level :=
  if decide (level = "info") then InfoLevel
  else if decide (level = "debug") then DebugLevel
  else if decide (level = "error") then ErrorLevel
  else InfoLevel.

(** The variables the linker sets. *)
Record Build := {
  TagVersion : string; AppName : string; BuildTime : string;
  GoVersion : string; GitBranch : string; CommitSha1 : string
}.

Definition newline : string := String (chr 10) "".
Definition tab : string := String (chr 9) "".

Definition Version (b : Build) : string :=
  AppName b +:+ "-" +:+ BuildTime b +:+ "-v" +:+ TagVersion b +:+ newline.

Definition DetailVersion (b : Build) : string :=
  String.concat ""
    [("AppName:" +:+ tab +:+ AppName b +:+ newline);
     ("Version:" +:+ tab +:+ TagVersion b +:+ newline);
     ("GitBranch:" +:+ tab +:+ GitBranch b +:+ newline);
     ("GitCommit:" +:+ tab +:+ CommitSha1 b +:+ newline);
     ("BuildTime:" +:+ tab +:+ BuildTime b +:+ newline)].

(** The command [version]: [versionDetail] was read when the flag was
    declared, with its default, before the command line is parsed. *)
Definition flag_default : bool := true.
Definition version_command (detail : bool) (b : Build) : string :=
  let versionDetail := flag_default in
  if versionDetail then DetailVersion b +:+ newline else Version b +:+ newline.

(** ** The command rewards *)

(** The flags as they were given, the network and the files; the result is the
    line it logs last. *)
Definition rewards_main `{!Network} `{!RangeOrder} (created : string → bool) (node output : option string)
    : GoM RewardState string :=
  err ← GetRewards created (default "127.0.0.1:8545" node) (default "reward.csv" output);
  mret (match err with Some _ => "get reward failed" | None => "finish get reward" end).

(** ** The process *)

Section process.
Context `{L : AttestationLib} `{!BlockApi.BlockTypes} `{!BlockApi.BlockProto}
  `{!AttestApi.AttestationProto Att}.
Context {Blk : Type} `{!Network} `{!RangeOrder} `{!SortSlice} `{!LruLib} `{!ConfigLib} `{!ExecLib}.

Record process := {
  _cfg : Config;
  node : Server Att Blk;
  disk : gmap string string;
  exited : bool
}.

(** [initConfig] and [runNode] up to the loops. *)
Definition boot (files : gmap string string) (configPath : string) : outcome process :=
  match initConfig files configPath None with
  | (Panic why, _) => Panic why
  | (Ret _, None) => Panic (NilDeref "s.config")
  | (Ret _, Some cfg) =>
      s ← NewServer (files !! StrategyFile cfg) (BeaconRpc cfg) (ethclient_Dial (ExecuteRpc cfg));
      Ret {| _cfg := cfg; node := s; disk := files; exited := false |}
  end.

Definition set_node (n : Server Att Blk) (p : process) : process :=
  {| _cfg := _cfg p; node := n; disk := disk p; exited := exited p |}.
Definition set_disk (f : gmap string string) (p : process) : process :=
  {| _cfg := _cfg p; node := node p; disk := f; exited := exited p |}.
Definition exit (p : process) : process :=
  {| _cfg := _cfg p; node := node p; disk := disk p; exited := true |}.

(** The tick of [getRewardBackgroud]; [w] is the network at that time, and
    [created] tells which files can be created. *)
Definition reward_tick (created : string → bool) (w : World) (p : process) :=
  GetRewards created (BeaconRpc (_cfg p)) (RewardFile (_cfg p))
    {| files := disk p; beacon_world := w; written := "" |}.

(** The three goroutines: remote calls and the duty monitor of the node, the
    reward task.  A panic of the monitor or the reward task ends the process;
    the deferred calls of [GetRewards] have run then. *)
Inductive pstep : process → process → Prop :=
| p_node p n :
    exited p = false → Node.step (node p) n → pstep p (set_node n p)
| p_reward created w p err r :
    exited p = false → reward_tick created w p = (Ret err, r) → pstep p (set_disk (files r) p)
| p_reward_panic created w p why r :
    exited p = false → reward_tick created w p = (Panic why, r) → pstep p (exit (set_disk (files r) p))
| p_monitor_panic p why n :
    exited p = false → run_call monitor_tick (node p) = (Panic why, n) → pstep p (exit (set_node n p)).

Definition running (files : gmap string string) (configPath : string) (p : process) : Prop :=
  ∃ p0, boot files configPath = Ret p0 ∧ rtc pstep p0 p.

(** * Lemmas *)

(** The reward file as the process finds it or as it writes it. *)
Definition reward_file_ok (files : gmap string string) (cfg : Config) (content : option string) : Prop :=
  content = files !! RewardFile cfg ∨
  ∃ w latestEpoch rows, served_table w (epochs_upto latestEpoch) = Some rows ∧
    content = Some (csv_line header_record +:+ table_text rows).

Record process_inv (files : gmap string string) (p : process) : Prop := {
  pi_node : exited p = false → Node.reachable (files !! StrategyFile (_cfg p)) (BeaconRpc (_cfg p)) (node p);
  pi_files : ∀ f, f ≠ RewardFile (_cfg p) → f ≠ RewardFile (_cfg p) +:+ ".bak" → disk p !! f = files !! f;
  pi_reward : reward_file_ok files (_cfg p) (disk p !! RewardFile (_cfg p))
}.

Lemma boot_inv files configPath p : boot files configPath = Ret p → process_inv files p ∧ exited p = false.
Proof.
  unfold boot. destruct (initConfig _ _ _) as [[[]|why] [cfg|]]; try done.
  destruct (NewServer _ _ _) as [s|why] eqn:Hs; [|done]. intros [= <-]. split; [|done].
  assert (Hd : ethclient_Dial (ExecuteRpc cfg) = None).
  { unfold NewServer in Hs. by destruct (ethclient_Dial _). }
  split; simpl; [|done|by left]. intros _. exists s. by rewrite Hd in Hs.
Qed.

Lemma reward_tick_disk files created w p o r :
  process_inv files p → reward_tick created w p = (o, r) → process_inv files (exit (set_disk (Reward.files r) p)) ∧
    (exited p = false → process_inv files (set_disk (Reward.files r) p)).
Proof.
  intros [Hn Hf Hr] E. unfold reward_tick in E.
  pose proof (GetRewards_spec created (BeaconRpc (_cfg p)) (RewardFile (_cfg p))
    {| Reward.files := disk p; beacon_world := w; written := "" |}) as [Hkeep Hout]. rewrite E in Hkeep, Hout.
  simpl in Hkeep, Hout.
  assert (Hd : ∀ f, f ≠ RewardFile (_cfg p) → f ≠ RewardFile (_cfg p) +:+ ".bak" → Reward.files r !! f = files !! f).
  { intros f Hf1 Hf2. by rewrite Hkeep, Hf. }
  assert (Ho : reward_file_ok files (_cfg p) (Reward.files r !! RewardFile (_cfg p))).
  { destruct o as [[e|]|why]; [by rewrite Hout| |by rewrite Hout].
    destruct Hout as (_ & w' & e & rows & Ht & Hc). right. by exists w', e, rows. }
  by split; [split|intros _; split].
Qed.

Lemma pstep_inv files p p' : process_inv files p → pstep p p' → process_inv files p'.
Proof.
  intros I S. destruct S as [p n He Hs|created w p err r He Hr|created w p why r He Hr|p why n He Hr].
  - destruct I as [Hn Hf Hr]. split; [|done|done]. intros _. destruct (Hn He) as (s0 & Hb & Hrun).
    exists s0. split; [done|]. by eapply rtc_r.
  - by eapply reward_tick_disk.
  - by eapply reward_tick_disk.
  - destruct I as [Hn Hf Hr']. by split.
Qed.
End process.

(** * Properties *)

(** The running process is the node next to its reward task, and they do
    not disturb each other: whatever calls, ticks and reward runs have
    happened, while the process lives the node is in a state the service
    reaches on its own from the strategy file and the beacon node of the
    configuration; no file but the reward file and its backup has changed; and
    the reward file holds what it did at the start or a complete table. *)
Theorem process_composes `{L : AttestationLib} `{!BlockApi.BlockTypes} `{!BlockApi.BlockProto}
    `{!AttestApi.AttestationProto Att} {Blk} `{!Network} `{!RangeOrder} `{!SortSlice} `{!LruLib}
    `{!ConfigLib} `{!ExecLib} (files : gmap string string) (configPath : string)
    (p : process (Blk := Blk)) :
  running files configPath p →
  (exited p = false → Node.reachable (files !! StrategyFile (_cfg p)) (BeaconRpc (_cfg p)) (node p)) ∧
  (∀ f, f ≠ RewardFile (_cfg p) → f ≠ RewardFile (_cfg p) +:+ ".bak" → disk p !! f = files !! f) ∧
  reward_file_ok files (_cfg p) (disk p !! RewardFile (_cfg p)).
Proof.
  intros (p0 & Hb & Hrun). destruct (boot_inv _ _ _ Hb) as [I0 _].
  assert (I : process_inv files p).
  { clear Hb. induction Hrun as [|p1 p2 p3 Hs _ IH]; [done|]. apply IH. by eapply pstep_inv. }
  by destruct I.
Qed.

Section sample.
Existing Instances sample_node default_range_order merge_sort_slice fifo_lru bools_lib
  BlockApi.unit_types BlockApi.bool_proto vote_proto.

Definition sample_config : Config :=
  {| HttpPort := 10000; HttpHost := "0.0.0.0"; ExecuteRpc := "http://exec:8545"; BeaconRpc := "node:3500";
     MetricsPort := 0; StrategyFile := "strategy.json"; RewardFile := "reward.csv" |}.

(** A parser that knows one file. *)
Definition sample_toml : ConfigLib :=
  {| toml_Unmarshal data c := if decide (data = "sample") then (Some sample_config, None) else (c, Some "toml");
     ReadInConfig files := if decide (is_Some (files !! "config.toml")) then Some "config.toml" else None |}.
Definition dial_ok : ExecLib := λ _, None.
Existing Instances sample_toml dial_ok.

Definition sample_disk : gmap string string :=
  <["config.toml" := "sample"]> (<["strategy.json" := default "" strategy_file]> {["reward.csv" := "old"]}).

Definition booted : process (L := bools_lib) (Blk := unit) :=
  {| _cfg := sample_config; node := start_server; disk := sample_disk; exited := false |}.

(** The reward task has run once. *)
Definition rewarded : process (L := bools_lib) (Blk := unit) :=
  set_disk (files (reward_tick (λ _, true) (beaconClient start_server) booted).2) booted.

Lemma rewarded_running : running (L := bools_lib) sample_disk "" rewarded.
Proof.
  exists booted. split; [vm_compute; reflexivity|]. apply rtc_once.
  apply (p_reward (λ _, true) (beaconClient start_server) booted None
    (reward_tick (λ _, true) (beaconClient start_server) booted).2); [reflexivity|].
  vm_compute. reflexivity.
Defined.

(** The chain is young: the table has no rows. *)
Example process_composes_witness :
  disk rewarded !! "strategy.json" = strategy_file ∧
    disk rewarded !! "reward.csv" = Some (csv_line header_record) ∧
    reward_file_ok sample_disk sample_config (disk rewarded !! "reward.csv").
Proof.
  destruct (process_composes (L := bools_lib) sample_disk "" rewarded rewarded_running) as (_ & Hf & Hr).
  split_and!; [rewrite Hf by done; reflexivity|vm_compute; reflexivity|exact Hr].
Defined.
End sample.
