(* ===== verification/RpcErrors.v ===== *)
(** * Package rpc, the built-in errors (src/rpc/errors.go)

    Texts, codes and the equivalence used by [errors.Is]. *)

From S2P Require Import Prelude Strconv GoJson GoValue.

Definition errcodeDefault : Z := -32000.
Definition errcodeTimeout : Z := -32002.
Definition errcodeResponseTooLarge : Z := -32003.
Definition errcodePanic : Z := -32603.
Definition errcodeMarshalError : Z := -32603.
Definition legacyErrcodeNotificationsUnsupported : Z := -32001.

Definition errMsgTimeout : string := "request timed out".
Definition errMsgResponseTooLarge : string := "response too large".
Definition errMsgBatchTooLarge : string := "batch too large".

(** [HTTPError]: the status code, its text and the body. *)
Record HTTPError := { StatusCode : Z; Status : string; hBody : string }.

Definition HTTPError_text (err : HTTPError) : string :=
  if decide (String.length (hBody err) = 0%nat) then Status err
  else Status err +:+ ": " +:+ hBody err.

Inductive rpc_error :=
| NoHistoricalFallbackError
| methodNotFoundError (method : string)
| notificationsUnsupportedError
| subscriptionNotFoundError (namespace subscription : string)
| parseError (message : string)
| invalidRequestError (message : string)
| invalidMessageError (message : string)
| invalidParamsError (message : string)
| internalServerError (code : Z) (message : string).

Definition ErrorCode (e : rpc_error) : Z :=
  match e with
  | NoHistoricalFallbackError => -32801
  | methodNotFoundError _ => -32601
  | notificationsUnsupportedError => -32601
  | subscriptionNotFoundError _ _ => -32601
  | parseError _ => -32700
  | invalidRequestError _ => -32600
  | invalidMessageError _ => -32700
  | invalidParamsError _ => -32602
  | internalServerError code _ => code
  end.

(** [%q] on a printable ASCII name without quotes and backslashes; other
    names would be escaped by Go. *)
Definition quoted_name (s : string) : string := String dquote (s +:+ String dquote "").

Definition Error_text (e : rpc_error) : string :=
  match e with
  | NoHistoricalFallbackError =>
      "no historical RPC is available for this historical (pre-bedrock) execution request"
  | methodNotFoundError m => "the method " +:+ m +:+ " does not exist/is not available"
  | notificationsUnsupportedError => "notifications not supported"
  | subscriptionNotFoundError ns sub =>
      "no " +:+ quoted_name sub +:+ " subscription in " +:+ ns +:+ " namespace"
  | parseError m | invalidRequestError m | invalidMessageError m | invalidParamsError m
  | internalServerError _ m => m
  end.

Definition rpc_err (e : rpc_error) : goerror := GoError (Error_text e) (Some (ErrorCode e)) None.

(** [(notificationsUnsupportedError).Is(other)]. *)
Definition Is_notifications_unsupported (other : goerror) : bool :=
  match err_code other with
  | Some code => (code =? -32601) || (code =? legacyErrcodeNotificationsUnsupported)
  | None => false
  end.
