(* ===== verification/RpcJson.v ===== *)
(** * Package rpc, messages (src/rpc/json.go)

    The JSON-RPC message, its classification, the responses, and the parsing
    of messages, batches and positional arguments.  A [json.RawMessage] is a
    syntax tree, nil is [None]; texts appear where the code looks at bytes. *)

From S2P Require Import Prelude Strconv GoJson GoValue RpcErrors.

Definition vsn : string := "2.0".
Definition serviceMethodSeparator : ascii := "_"%char.
Definition subscribeMethodSuffix : string := "_subscribe".
Definition unsubscribeMethodSuffix : string := "_unsubscribe".
Definition notificationMethodSuffix : string := "_subscription".

Record subscriptionResult := { sr_ID : string; sr_Result : option json }.

#[export] Instance subscriptionResult_data : GoData subscriptionResult := {|
  go_type := TStruct "rpc" "subscriptionResult"
    [("subscription", (false, TString)); ("result", (true, TRaw))];
  to_go r := VStruct [VStr (sr_ID r); VRaw (sr_Result r)];
  of_go v := {| sr_ID := field 0 v; sr_Result := field 1 v |}
|}.

Record jsonError := { Code : Z; Message : string; Data : option json }.

Record jsonrpcMessage := Msg {
  Version : string;
  ID : option json;
  Method : string;
  Params : option json;
  Error : option jsonError;
  Result : option json
}.

Definition zero_msg : jsonrpcMessage := Msg "" None "" None None None.

Definition jsonError_type : gty :=
  TStruct "rpc" "jsonError"
    [("code", (false, TInt)); ("message", (false, TString)); ("data", (true, TAny))].

Definition any_of (v : gval) : option json := match v with VAny j => j | _ => None end.

Definition jsonError_of (v : gval) : jsonError :=
  match v with
  | VStruct vs =>
      {| Code := field 0 v; Message := field 1 v; Data := any_of (default (VAny None) (vs !! 2%nat)) |}
  | _ => {| Code := 0; Message := ""; Data := None |}
  end.

#[export] Instance jsonrpcMessage_data : GoData jsonrpcMessage := {|
  go_type := TStruct "rpc" "jsonrpcMessage"
    [("jsonrpc", (true, TString)); ("id", (true, TRaw)); ("method", (true, TString));
     ("params", (true, TRaw)); ("error", (true, TPtr jsonError_type)); ("result", (true, TRaw))];
  to_go m := VStruct
    [VStr (Version m); VRaw (ID m); VStr (Method m); VRaw (Params m);
     VPtr ((λ e, VStruct [VInt (Code e); VStr (Message e); VAny (Data e)]) <$> Error m);
     VRaw (Result m)];
  of_go v := Msg (field 0 v) (field 1 v) (field 2 v) (field 3 v)
    (match v with
     | VStruct vs => match vs !! 4%nat with Some (VPtr (Some e)) => Some (jsonError_of e) | _ => None end
     | _ => None
     end) (field 5 v)
|}.

#[export] Instance jsonrpcMessage_laws : GoDataLaws jsonrpcMessage.
Proof. by intros [? ? ? ? [[]|] ?]. Qed.

(** ** Classification *)

Definition hasValidVersion (msg : jsonrpcMessage) : bool := bool_decide (Version msg = vsn).

(** Not empty, and its first byte opens neither an object nor an array. *)
Definition hasValidID (msg : jsonrpcMessage) : bool :=
  match ID msg with
  | None => false
  | Some (JObj _) | Some (JArr _) => false
  | Some _ => true
  end.

Definition isNotification (msg : jsonrpcMessage) : bool :=
  hasValidVersion msg && bool_decide (ID msg = None) && negb (bool_decide (Method msg = "")).

Definition isCall (msg : jsonrpcMessage) : bool :=
  hasValidVersion msg && hasValidID msg && negb (bool_decide (Method msg = "")).

Definition isResponse (msg : jsonrpcMessage) : bool :=
  hasValidVersion msg && hasValidID msg && bool_decide (Method msg = "")
  && bool_decide (Params msg = None)
  && (negb (bool_decide (Result msg = None))
      || match Error msg with Some _ => true | None => false end).

Definition isSubscribe (msg : jsonrpcMessage) : bool := HasSuffix (Method msg) subscribeMethodSuffix.
Definition isUnsubscribe (msg : jsonrpcMessage) : bool :=
  HasSuffix (Method msg) unsubscribeMethodSuffix.

Definition namespace (msg : jsonrpcMessage) : string :=
  match SplitN2 (Method msg) serviceMethodSeparator with
  | elem :: _ => elem
  | [] => ""
  end.

Definition String_msg (msg : jsonrpcMessage) : string :=
  match marshal msg with inl j => print j | inr _ => "" end.

(** ** Responses *)

Definition errorMessage (err : goerror) : jsonrpcMessage :=
  Msg vsn (Some JNull) "" None
    (Some {| Code := match err_code err with Some c => c | None => errcodeDefault end;
             Message := err_text err; Data := err_data err |}) None.

Definition set_ID (id : option json) (m : jsonrpcMessage) : jsonrpcMessage :=
  Msg (Version m) id (Method m) (Params m) (Error m) (Result m).

Definition errorResponse (msg : jsonrpcMessage) (err : goerror) : jsonrpcMessage :=
  set_ID (ID msg) (errorMessage err).

(** [result] is a value with its type; nil marshals to null. *)
Definition response (msg : jsonrpcMessage) (result : gty * gval) : jsonrpcMessage :=
  match encode result.1 result.2 with
  | inr err => errorResponse msg (rpc_err (internalServerError errcodeMarshalError err))
  | inl enc => Msg vsn (ID msg) "" None None (Some enc)
  end.

Definition jsonError_text (err : jsonError) : string :=
  if decide (Message err = "") then "json-rpc error " +:+ FormatInt (Code err) else Message err.

(** A [*jsonError] as a Go error. *)
Definition jsonError_err (err : jsonError) : goerror :=
  GoError (jsonError_text err) (Some (Code err)) (Data err).

(** ** Parsing messages *)

(** The first byte that is not white space is an opening bracket. *)
Fixpoint isBatch (raw : string) : bool :=
  match raw with
  | EmptyString => false
  | String c r => if is_ws c then isBatch r else bool_decide (c = "["%char)
  end.

(** [Unmarshal] into a [*jsonrpcMessage] that points to a fresh message: null
    makes it nil, a type error keeps what was decoded. *)
Definition decode_msg (j : json) : option jsonrpcMessage :=
  match j with
  | JNull => None
  | _ =>
      Some (of_go (GoValue.decode None (go_type jsonrpcMessage) j
                     (zero (go_type jsonrpcMessage))).1)
  end.

(** [raw] was checked to be one JSON value. *)
Definition parseMessage (raw : string) : list (option jsonrpcMessage) * bool :=
  if negb (isBatch raw) then
    ([match parse raw with Some j => decode_msg j | None => Some zero_msg end], false)
  else
    (match parse raw with Some (JArr l) => decode_msg <$> l | _ => [] end, true).

(** The text of the next value of the stream, and the rest. *)
Definition next_raw (stream : string) : option (string * string) :=
  match parse_next stream with
  | None => None
  | Some (_, rest) =>
      let n := (String.length stream - String.length rest)%nat in
      Some (skip_ws (String.substring 0 n stream), rest)
  end.

(** [readBatch]: the messages of the next value; null is the zero message. *)
Definition readBatch (stream : string) : option (list jsonrpcMessage * bool * string) :=
  match next_raw stream with
  | None => None
  | Some (rawmsg, rest) =>
      let '(messages, batch) := parseMessage rawmsg in
      Some (default zero_msg <$> messages, batch, rest)
  end.

(** ** Arguments *)

Definition decode_error_msg (e : decode_error) : string := decode_error_text e.

(** The loop of [parseArgumentArray], at argument [i]. The nil test of the
    source looks at the freshly allocated pointer, which is never nil. *)
Fixpoint parse_args (i : nat) (vals : list json) (types all : list gty) : list gval + string :=
  match vals with
  | [] => inl []
  | x :: vals' =>
      match types with
      | [] => inr ("too many arguments, want at most " +:+ FormatInt (Z.of_nat (length all)))
      | t :: types' =>
          match GoValue.decode None t x (zero t) with
          | (_, Some e) => inr ("invalid argument " +:+ FormatInt (Z.of_nat i) +:+ ": " +:+ decode_error_msg e)
          | (v, None) =>
              match parse_args (S i) vals' types' all with
              | inl vs => inl (v :: vs)
              | inr e => inr e
              end
          end
      end
  end.

Definition parseArgumentArray (vals : list json) (types : list gty) : list gval + string :=
  parse_args 0 vals types types.

Definition is_ptr (t : gty) : bool := match t with TPtr _ => true | _ => false end.

(** Missing arguments: nil for pointers, an error for the others. *)
Fixpoint missing_args (i : nat) (types : list gty) : list gval + string :=
  match types with
  | [] => inl []
  | t :: types' =>
      if negb (is_ptr t)
      then inr ("missing value for required argument " +:+ FormatInt (Z.of_nat i))
      else
        match missing_args (S i) types' with
        | inl vs => inl (zero t :: vs)
        | inr e => inr e
        end
  end.

Definition parsePositionalArguments (rawArgs : option json) (types : list gty) : list gval + string :=
  let args :=
    match rawArgs with
    | None | Some JNull => inl []
    | Some (JArr vals) => parseArgumentArray vals types
    | Some _ => inr "non-array args"
    end in
  match args with
  | inr e => inr e
  | inl args =>
      match missing_args (length args) (drop (length args) types) with
      | inl more => inl (args ++ more)
      | inr e => inr e
      end
  end.

Definition parseSubscriptionName (rawArgs : option json) : string + string :=
  match rawArgs with
  | Some (JArr l) =>
      match l with
      | JStr raw :: _ => inl (unquote raw)
      | _ => inr "expected subscription name as first argument"
      end
  | _ => inr "non-array args"
  end.

(** * Lemmas *)

Lemma isBatch_skip raw : isBatch raw = isBatch (skip_ws raw).
Proof.
  induction raw as [|c r IH]; [done|]. cbn [isBatch skip_ws].
  destruct (is_ws c) eqn:Hc; [done|]. cbn [isBatch]. by rewrite Hc.
Qed.

Lemma skip_ws_stops raw c r : skip_ws raw = String c r → is_ws c = false.
Proof.
  induction raw as [|d raw IH]; [done|]. cbn [skip_ws].
  destruct (is_ws d) eqn:Hd; [done|]. by intros [= <- _].
Qed.

(** What the first byte of a value says about it. *)
Lemma pval_head n s j t c r :
  pval n s = Some (j, t) → skip_ws s = String c r → (c = "["%char ↔ ∃ l, j = JArr l).
Proof.
  destruct n as [|n]; [done|]. cbn [pval]. intros Hp Hs. rewrite Hs in Hp. revert Hp.
  destruct (decide (c = "{"%char)) as [->|]; [|destruct (decide (c = "["%char)) as [->|];
    [|destruct (decide (c = dquote)) as [->|]; [|destruct (decide (c = "t"%char)) as [->|];
    [|destruct (decide (c = "f"%char)) as [->|]; [|destruct (decide (c = "n"%char)) as [->|]]]]]].
  - intros Hp. split; [done|]. intros [l ->]. destruct (skip_ws r) as [|d r']; [done|].
    case_decide; [done|]. by destruct (pmembers n r) as [[??]|].
  - intros Hp. split; [intros _|done]. destruct (skip_ws r) as [|d r']; [done|].
    case_decide; simplify_eq; [by eexists|].
    destruct (pelems n r) as [[??]|]; simplify_eq/=. by eexists.
  - intros Hp. split; [done|]. intros [l ->]. by destruct (lex_str r) as [[??]|].
  - intros Hp. split; [done|]. intros [l ->]. by destruct (strip "rue" r).
  - intros Hp. split; [done|]. intros [l ->]. by destruct (strip "alse" r).
  - intros Hp. split; [done|]. intros [l ->]. by destruct (strip "ull" r).
  - intros Hp. split; [done|]. intros [l ->]. by destruct (lex_num (String c r)) as [[??]|].
Qed.

Lemma isBatch_array_aux raw j :
  parse raw = Some j → isBatch raw = true ↔ ∃ l, j = JArr l.
Proof.
  unfold parse. destruct (parse_next raw) as [[j' t]|] eqn:Hp; [|done]. simpl.
  intros Hj. assert (j' = j) as -> by (destruct (skip_ws t); by simplify_eq).
  rewrite isBatch_skip. destruct (skip_ws raw) as [|c r] eqn:Hs.
  - unfold parse_next in Hp. cbn [pval] in Hp. rewrite Hs in Hp. done.
  - cbn [isBatch]. rewrite (skip_ws_stops _ _ _ Hs), bool_decide_eq_true.
    by eapply pval_head.
Qed.

(** Some prefix of the types is decoded from the values, one by one. *)
Inductive decodes : list json → list gty → list gval → Prop :=
| decodes_nil : decodes [] [] []
| decodes_cons x t v vals types args :
    GoValue.decode None t x (zero t) = (v, None) → decodes vals types args →
    decodes (x :: vals) (t :: types) (v :: args).

Lemma parse_args_spec i vals types all args :
  parse_args i vals types all = inl args ↔
  (length vals ≤ length types)%nat ∧ decodes vals (take (length vals) types) args.
Proof.
  revert i types args. induction vals as [|x vals IH]; intros i types args; cbn [parse_args].
  - simpl. split; [intros [= <-]; split; [lia|constructor]|]. intros [_ Hd]. by inversion Hd.
  - destruct types as [|t types]; [split; [done|]; simpl; intros [? _]; lia|].
    destruct (GoValue.decode None t x (zero t)) as [v [e|]] eqn:Hx.
    { split; [done|]. intros [_ Hd]. simpl in Hd. inversion Hd; subst. congruence. }
    specialize (IH (S i) types). destruct (parse_args (S i) vals types all) as [vs|e].
    + split.
      * intros [= <-]. destruct (IH vs) as [IH' _]. destruct IH' as [Hl Hd]; [done|].
        simpl. split; [lia|by constructor].
      * simpl. intros [Hl Hd]. inversion Hd as [|? ? v' ? ? args' Hv Hd']; subst.
        rewrite Hx in Hv. injection Hv as <-. destruct (IH args') as [_ IH'].
        f_equal. f_equal.
        assert (inl vs = inl (B := string) args') by (apply IH'; split; [lia|done]). congruence.
    + split; [done|]. simpl. intros [Hl Hd]. inversion Hd as [|? ? v' ? ? args' Hv Hd']; subst.
      destruct (IH args') as [_ IH']. discriminate IH'. split; [lia|done].
Qed.

Lemma missing_args_spec i types args :
  missing_args i types = inl args ↔ Forall (λ t, is_ptr t = true) types ∧ args = zero <$> types.
Proof.
  revert i args. induction types as [|t types IH]; intros i args; cbn [missing_args].
  - split; [by intros [= <-]|by intros [_ ->]].
  - destruct (is_ptr t) eqn:Ht; simpl.
    + specialize (IH (S i)). destruct (missing_args (S i) types) as [vs|e].
      * destruct (IH vs) as [IH' _]. destruct IH' as [Hall ->]; [done|].
        split; [intros [= <-]; split; [by constructor|done]|by intros [_ ->]].
      * split; [done|]. intros [Hall ->]. apply Forall_cons in Hall as [_ Hall].
        destruct (IH (zero <$> types)) as [_ IH']. discriminate IH'. done.
    + split; [done|]. intros [Hall _]. apply Forall_cons in Hall as [Hall _]. congruence.
Qed.

Lemma decodes_length vals types args : decodes vals types args → length args = length vals.
Proof. induction 1; simpl; congruence. Qed.

(** The values an argument text stands for, if it is an array or absent. *)
Definition arg_values (rawArgs : option json) : option (list json) :=
  match rawArgs with
  | None | Some JNull => Some []
  | Some (JArr vals) => Some vals
  | Some _ => None
  end.

Lemma parsePositionalArguments_spec rawArgs types args :
  parsePositionalArguments rawArgs types = inl args ↔
  ∃ vals given, arg_values rawArgs = Some vals ∧ (length vals ≤ length types)%nat ∧
    decodes vals (take (length vals) types) given ∧
    Forall (λ t, is_ptr t = true) (drop (length vals) types) ∧
    args = given ++ (zero <$> drop (length vals) types).
Proof.
  assert (Hgo : ∀ vals, (match parseArgumentArray vals types with
      | inr e => inr e
      | inl args =>
          match missing_args (length args) (drop (length args) types) with
          | inl more => inl (args ++ more)
          | inr e => inr e
          end
      end = inl args) ↔ ∃ given, (length vals ≤ length types)%nat ∧
        decodes vals (take (length vals) types) given ∧
        Forall (λ t, is_ptr t = true) (drop (length vals) types) ∧
        args = given ++ (zero <$> drop (length vals) types)).
  { intros vals. unfold parseArgumentArray.
    pose proof (parse_args_spec 0 vals types types) as Hp.
    destruct (parse_args 0 vals types types) as [given|e].
    - destruct (Hp given) as [Hp' _]. destruct Hp' as [Hl Hd]; [done|].
      rewrite (decodes_length _ _ _ Hd).
      pose proof (missing_args_spec (length vals) (drop (length vals) types)) as Hm.
      destruct (missing_args _ _) as [more|e].
      + destruct (Hm more) as [Hm' _]. destruct Hm' as [Hall ->]; [done|].
        split; [intros [= <-]; by exists given|]. intros (given' & _ & Hd' & _ & ->).
        destruct (Hp given') as [_ Hp'']. f_equal. f_equal.
        assert (inl given = inl (B := string) given') by (by apply Hp''). congruence.
      + split; [done|]. intros (given' & _ & _ & Hall & _).
        destruct (Hm (zero <$> drop (length vals) types)) as [_ Hm']. by discriminate Hm'.
    - split; [done|]. intros (given' & Hl & Hd & _). destruct (Hp given') as [_ Hp']. by discriminate Hp'. }
  unfold parsePositionalArguments.
  destruct rawArgs as [[| | | |vals|]|]; simpl arg_values; cbn match.
  2, 3, 4, 6: split; [done|naive_solver].
  - specialize (Hgo []). rewrite Hgo. naive_solver.
  - specialize (Hgo vals). rewrite Hgo. naive_solver.
  - specialize (Hgo []). rewrite Hgo. naive_solver.
Qed.

(** * Properties *)

(** On a text that is one JSON value, the byte scan of [isBatch] (skip
    white space, look for an opening bracket) answers true exactly when the
    value is an array. *)
Theorem isBatch_array (raw : string) (j : json) :
  parse raw = Some j → isBatch raw = true ↔ ∃ l, j = JArr l.
Proof. apply isBatch_array_aux. Qed.

(** [parsePositionalArguments] succeeds exactly when the parameters are
    absent, null or an array with no more values than parameter types, every
    value decodes into its type, and every type left over is a pointer; the
    arguments are then the decoded values followed by nils, one per type. *)
Theorem parsePositionalArguments_correct (rawArgs : option json) (types : list gty)
    (args : list gval) :
  parsePositionalArguments rawArgs types = inl args ↔
  ∃ vals given, arg_values rawArgs = Some vals ∧ (length vals ≤ length types)%nat ∧
    decodes vals (take (length vals) types) given ∧
    Forall (λ t, is_ptr t = true) (drop (length vals) types) ∧
    args = given ++ (zero <$> drop (length vals) types).
Proof. apply parsePositionalArguments_spec. Qed.

Lemma isBatch_array_witness :
  isBatch (jq " [ {'id':1} ]") = true ↔ ∃ l, JArr [JObj [("id", JNum "1")]] = JArr l.
Proof. apply isBatch_array. vm_compute. reflexivity. Defined.
