(* ===== verification/RpcWire.v ===== *)
(** * Package rpc, messages on the wire

    What the encoder of one side writes, the decoder of the other side reads:
    messages and batches of messages survive the connection. *)

From S2P Require Import Prelude Strconv GoJson GoValue JsonRound GoRound RpcErrors RpcJson.

(** The messages that JSON keeps: texts are valid UTF-8, raw parts are what
    [json.Marshal] wrote, the error code fits. *)
Record msg_ok (m : jsonrpcMessage) : Prop := {
  ok_version : valid_utf8 (Version m);
  ok_id : ∀ j, ID m = Some j → marshalled j;
  ok_method : valid_utf8 (Method m);
  ok_params : ∀ j, Params m = Some j → marshalled j;
  ok_error : ∀ e, Error m = Some e →
    is_int64 (Code e) ∧ valid_utf8 (Message e) ∧
    ∀ j, Data e = Some j → marshalled j ∧ j ≠ JNull;
  ok_result : ∀ j, Result m = Some j → marshalled j
}.

Lemma msg_ok_rt m : msg_ok m → rt (go_type jsonrpcMessage) (to_go m).
Proof.
  intros [Hv Hi Hm Hp He Hr]. destruct m as [v i m p e r]. simpl in *.
  split; [reflexivity|]. split_and!.
  - by case_bool_decide as E; [rewrite E|].
  - destruct i; [by apply Hi|done].
  - by case_bool_decide as E; [rewrite E|].
  - destruct p; [by apply Hp|done].
  - destruct e as [[code text data]|]; [|done]. destruct (He _ eq_refl) as (Hc & Ht & Hd).
    cbn. split_and!; try done. by destruct data; [apply Hd|].
  - by destruct r; [apply Hr|].
  - done.
Qed.

(** The tree of a message. *)
Lemma msg_wire m :
  msg_ok m → ∃ l, marshal m = inl (JObj l) ∧ marshalled (JObj l) ∧ decode_msg (JObj l) = Some m ∧
    GoValue.decode None (go_type jsonrpcMessage) (JObj l) (zero (go_type jsonrpcMessage)) = (to_go m, None).
Proof.
  intros Hm. destruct (rt_survives _ _ (msg_ok_rt m Hm)) as (j & He & Hj & Hd & _).
  assert (∃ l, j = JObj l) as [l ->].
  { unfold marshal in He. simpl go_type in He. simpl to_go in He. rewrite encode_struct in He.
    destruct (encode_members _ _) as [l|] in He; simplify_eq. by exists l. }
  exists l. split_and!; [done|done| |apply Hd]. unfold decode_msg. rewrite Hd. f_equal. apply of_to_go.
Qed.

(** [json.Marshal] of a list of messages. *)
Fixpoint marshal_batch (msgs : list jsonrpcMessage) : list json + string :=
  match msgs with
  | [] => inl []
  | m :: msgs' =>
      match marshal m, marshal_batch msgs' with
      | inl j, inl js => inl (j :: js)
      | inr e, _ => inr e
      | _, inr e => inr e
      end
  end.

Definition batch_text (msgs : list jsonrpcMessage) : string :=
  match marshal_batch msgs with inl js => print (JArr js) | inr _ => "" end.

Lemma batch_wire msgs :
  Forall msg_ok msgs → ∃ js, marshal_batch msgs = inl js ∧ Forall marshalled js ∧
    decode_msg <$> js = Some <$> msgs.
Proof.
  induction 1 as [|m msgs Hm _ (js & Hb & Hj & Hd)]; [by exists []|].
  destruct (msg_wire m Hm) as (l & He & Hl & Hdm & _). exists (JObj l :: js).
  cbn [marshal_batch]. rewrite He, Hb. split_and!; [done|by constructor|].
  rewrite !fmap_cons. by rewrite Hdm, Hd.
Qed.

(** A value that was written is the next one to be read. *)
Lemma next_raw_print j rest :
  wf_json j → delim rest → next_raw (print j +:+ rest) = Some (print j, rest).
Proof.
  intros Hj Hr. unfold next_raw. rewrite parse_next_print by done. do 2 f_equal.
  rewrite string_length_app, Nat.add_sub.
  assert (Hsub : ∀ s, String.substring 0 (String.length s) (s +:+ rest) = s).
  { intros s. induction s as [|c s IH]; [by destruct rest|]. simpl. f_equal. exact IH. }
  rewrite Hsub. pose proof (print_head j "" Hj) as Hh. rewrite string_app_nil_r in Hh.
  by apply skip_ws_head.
Qed.

Lemma isBatch_print j : wf_json j → isBatch (print j) = true ↔ ∃ l, j = JArr l.
Proof. intros Hj. apply isBatch_array_aux. by apply parse_print. Qed.

Lemma readBatch_msg l m rest :
  wf_json (JObj l) → decode_msg (JObj l) = Some m → delim rest →
  readBatch (print (JObj l) +:+ rest) = Some ([m], false, rest).
Proof.
  intros Hwf Hm Hr. unfold readBatch. rewrite next_raw_print by done. unfold parseMessage.
  destruct (isBatch (print (JObj l))) eqn:Hb.
  - apply (isBatch_print _ Hwf) in Hb as [? ?]. done.
  - cbn [negb]. rewrite (parse_print _ Hwf), Hm. done.
Qed.

Lemma readBatch_one m rest :
  msg_ok m → delim rest → readBatch (String_msg m +:+ rest) = Some ([m], false, rest).
Proof.
  intros Hm Hr. destruct (msg_wire m Hm) as (l & He & Hl & Hd & _).
  unfold String_msg. rewrite He. by apply readBatch_msg; [apply marshalled_wf|..].
Qed.

(** The message of a call, without or with arguments. *)
Definition call_msg (lit method : string) (params : option json) : jsonrpcMessage :=
  Msg vsn (Some (JNum lit)) method params None None.

Definition request_msg (lit method : string) (js : list json) : jsonrpcMessage :=
  call_msg lit method (Some (JArr js)).

Lemma request_ok lit method js :
  num_ok lit → valid_utf8 method → Forall marshalled js → msg_ok (request_msg lit method js).
Proof.
  intros Hl Hm Hj. split; [by apply is_ascii_valid| |done| |done|done];
    intros j [= <-]; by constructor.
Qed.

(** * Properties *)


