(* ===== verification/RpcService.v ===== *)
(** * Package rpc, services (src/rpc/service.go)

    The registry of services: which methods of a receiver become callbacks or
    subscriptions, under which name, and how a callback is run.  Reflection on
    a receiver is the record [method] of what the code asks it: name, package
    path, parameter and result types, and the function itself, which acts on
    the state [S] behind the receivers and may panic. *)

From S2P Require Import Prelude Strconv GoJson GoValue RpcErrors RpcJson.

Section service.
Context {S : Type}.

(** [In] lists the parameters, the receiver included. The function takes
    the remaining arguments (a context is not passed) and returns its
    results. *)
Record method := {
  Name : string;
  PkgPath : string;
  In : list gty;
  Out : list gty;
  Func : list gval → GoM S (list gval)
}.

Record callback := {
  fn : method;
  rcvr_valid : bool;
  argTypes : list gty;
  hasCtx : bool;
  errPos : Z;
  cb_isSubscribe : bool
}.

Record service := {
  name : string;
  callbacks : gmap string callback;
  subscriptions : gmap string callback
}.

Abbreviation serviceRegistry := (gmap string service).

(** ** Types *)

Definition is_context (t : gty) : bool := match t with TContext => true | _ => false end.

Definition isErrorType (t : gty) : bool :=
  match t with TError => true | TOpaque _ e => e | _ => false end.

Fixpoint isSubscriptionType (t : gty) : bool :=
  match t with
  | TPtr t' => isSubscriptionType t'
  | TSubscription => true
  | _ => false
  end.

Definition isPubSub (methodType : method) : bool :=
  match In methodType, Out methodType with
  | _ :: in1 :: _, [out0; out1] => is_context in1 && isSubscriptionType out0 && isErrorType out1
  | _, _ => false
  end.

(** ** Callbacks *)

(** [makeArgTypes]: skip the receiver and a context. *)
Definition makeArgTypes (fn : method) (rcvr_valid : bool) : list gty * bool :=
  let rest := drop (if rcvr_valid then 1 else 0) (In fn) in
  match rest with
  | TContext :: rest' => (rest', true)
  | _ => (rest, false)
  end.

Definition newCallback (rcvr_valid : bool) (fn : method) : option callback :=
  let '(args, ctx) := makeArgTypes fn rcvr_valid in
  let c errPos :=
    {| fn := fn; rcvr_valid := rcvr_valid; argTypes := args; hasCtx := ctx; errPos := errPos;
       cb_isSubscribe := isPubSub fn |} in
  match Out fn with
  | [] => Some (c (-1))
  | [out0] => Some (c (if isErrorType out0 then 0 else -1))
  | [out0; out1] =>
      if isErrorType out0 || negb (isErrorType out1) then None else Some (c 1)
  | _ => None
  end.

(** The first character in lower case (ASCII names). *)
Definition formatName (name : string) : string :=
  match name with
  | EmptyString => ""
  | String c r => String (lower_ascii c) r
  end.

Definition suitableCallbacks (methods : list method) : gmap string callback :=
  foldl (λ callbacks method,
    if decide (PkgPath method ≠ "") then callbacks
    else
      match newCallback true method with
      | None => callbacks
      | Some cb => <[formatName (Name method) := cb]> callbacks
      end) ∅ methods.

(** [call]: a panic of the method becomes an error, what it did before
    stays. *)
Definition is_nil (v : gval) : bool :=
  match v with VErr None | VPtr None | VSlice None | VMap None | VAny None => true | _ => false end.

Definition error_of (v : gval) : goerror :=
  match v with VErr (Some e) => e | _ => plain_error "" end.

Definition call_results (c : callback) (results : list gval) : (gty * gval) + goerror :=
  match results with
  | [] => inl (TAny, VAny None)
  | r0 :: _ =>
      match (if 0 <=? errPos c then results !! Z.to_nat (errPos c) else None) with
      | Some e =>
          if is_nil e then inl (default TAny (Out (fn c) !! 0%nat), r0) else inr (error_of e)
      | None => inl (default TAny (Out (fn c) !! 0%nat), r0)
      end
  end.

Definition call (c : callback) (args : list gval) : GoM S ((gty * gval) + goerror) := λ s,
  match Func (fn c) args s with
  | (Panic _, s') =>
      (Ret (inr (rpc_err (internalServerError errcodePanic "method handler crashed"))), s')
  | (Ret results, s') => (Ret (call_results c results), s')
  end.

(** ** The registry *)

(** [registerName]; [tname] is the type of the receiver, for the messages. *)
Definition registerName (svcName tname : string) (rcvr : list method) (r : serviceRegistry)
    : serviceRegistry + goerror :=
  if decide (svcName = "") then inr (plain_error ("no service name for type " +:+ tname))
  else
    let cbs := suitableCallbacks rcvr in
    if decide (cbs = ∅) then
      inr (plain_error ("service " +:+ tname
        +:+ " doesn't have any suitable methods/subscriptions to expose"))
    else
      let svc := default {| name := svcName; callbacks := ∅; subscriptions := ∅ |} (r !! svcName) in
      inl (<[svcName :=
        {| name := name svc;
           callbacks := filter (λ kv, cb_isSubscribe kv.2 = false) cbs ∪ callbacks svc;
           subscriptions := filter (λ kv, cb_isSubscribe kv.2 = true) cbs ∪ subscriptions svc |}]> r).

(** [(r *serviceRegistry) callback(method)]. *)
Definition lookup_callback (method : string) (r : serviceRegistry) : option callback :=
  match SplitN2 method serviceMethodSeparator with
  | [ns; m] => svc ← r !! ns; callbacks svc !! m
  | _ => None
  end.

Definition subscription (service name : string) (r : serviceRegistry) : option callback :=
  svc ← r !! service; subscriptions svc !! name.
End service.

Arguments method : clear implicits.
Arguments callback : clear implicits.
Arguments service : clear implicits.
Abbreviation serviceRegistry S := (gmap string (service S)).

(** * Lemmas *)

Section lemmas.
Context {S : Type}.
Implicit Types (ms : list (method S)) (r : serviceRegistry S).

(** The full name of a method of a namespace. *)
Definition full_name (ns m : string) : string := ns +:+ String serviceMethodSeparator m.

Lemma SplitN2_full ns m :
  string_mem serviceMethodSeparator ns = false →
  SplitN2 (full_name ns m) serviceMethodSeparator = [ns; m].
Proof. intros Hns. unfold SplitN2, full_name. by rewrite cut_at_app. Qed.

Lemma lookup_callback_full ns m r :
  string_mem serviceMethodSeparator ns = false →
  lookup_callback (full_name ns m) r = (svc ← r !! ns; callbacks svc !! m).
Proof. intros Hns. unfold lookup_callback. by rewrite SplitN2_full. Qed.

(** A name that finds something is a namespace without separator and a
    method. *)
Lemma lookup_callback_inv full r cb :
  lookup_callback full r = Some cb →
  ∃ ns m svc, full = full_name ns m ∧ string_mem serviceMethodSeparator ns = false ∧
    r !! ns = Some svc ∧ callbacks svc !! m = Some cb.
Proof.
  unfold lookup_callback, SplitN2. destruct (cut_at serviceMethodSeparator full) as [[ns m]|] eqn:E;
    [|done]. apply cut_at_Some in E as [-> Hns].
  destruct (r !! ns) as [svc|] eqn:Hr; [|done]. simpl. intros Hcb. by exists ns, m, svc.
Qed.
End lemmas.

(** * Properties *)

(** Registering a receiver under a name without separator makes each of
    its suitable methods callable as name_method, replaces a callback of the
    same name and keeps all the others; a name that contains the separator is
    accepted too, but then no call can reach the receiver: calls are split at
    the first separator. *)
Theorem registerName_lookup {S} (name tname : string) (ms : list (method S))
    (r r' : serviceRegistry S) :
  registerName name tname ms r = inl r' →
  if string_mem serviceMethodSeparator name
  then ∀ full, lookup_callback full r' = lookup_callback full r
  else
    (∀ m, lookup_callback (full_name name m) r' =
       match suitableCallbacks ms !! m with
       | Some cb => if cb_isSubscribe cb then lookup_callback (full_name name m) r else Some cb
       | None => lookup_callback (full_name name m) r
       end) ∧
    (∀ ns m, ns ≠ name → string_mem serviceMethodSeparator ns = false →
       lookup_callback (full_name ns m) r' = lookup_callback (full_name ns m) r).
Proof.
  unfold registerName. case_decide; [done|]. case_decide; [done|]. intros [= <-].
  set (svc := default _ (r !! name)).
  destruct (string_mem serviceMethodSeparator name) eqn:Hn.
  - intros full. unfold lookup_callback, SplitN2.
    destruct (cut_at serviceMethodSeparator full) as [[ns m]|] eqn:E; [|done].
    apply cut_at_Some in E as [_ Hns]. cbn beta iota.
    rewrite lookup_insert_ne; [done|]. intros <-. congruence.
  - split.
    + intros m. rewrite !lookup_callback_full by done. rewrite lookup_insert_eq. simpl.
      assert (Hold : callbacks svc !! m = (s ← r !! name; callbacks s !! m)).
      { subst svc. destruct (r !! name) as [s|]; [done|]. simpl. apply lookup_empty. }
      rewrite <-Hold, lookup_union, map_lookup_filter.
      destruct (suitableCallbacks ms !! m) as [cb|]; simpl; [|by rewrite left_id_L by apply _].
      destruct (cb_isSubscribe cb) eqn:Hs.
      * rewrite option_guard_False by (simpl; congruence). by rewrite left_id_L by apply _.
      * rewrite option_guard_True by done. by destruct (callbacks svc !! m).
    + intros ns m Hne Hns. rewrite !lookup_callback_full by done. by rewrite lookup_insert_ne by done.
Qed.

(** A method becomes a callback exactly when it returns at most one value
    and, after it, at most one error; its parameter types are what follows the
    receiver and an optional context, and the position of the error result is
    recorded. *)
Theorem newCallback_correct {S} (rcvr : bool) (fn : method S) :
  let rest := drop (if rcvr then 1 else 0) (In fn) in
  match newCallback rcvr fn with
  | Some cb =>
      (length (Out fn) ≤ 2)%nat ∧
      (rest = argTypes cb ∧ hasCtx cb = false ∧ head rest ≠ Some TContext ∨
       rest = TContext :: argTypes cb ∧ hasCtx cb = true) ∧
      (∀ i, 0 ≤ i → i = errPos cb ↔
         ∃ t, Out fn !! Z.to_nat i = Some t ∧ isErrorType t = true) ∧
      (length (Out fn) = 2%nat → errPos cb = 1)
  | None =>
      (2 < length (Out fn))%nat ∨
      ∃ t0 t1, Out fn = [t0; t1] ∧ (isErrorType t0 = true ∨ isErrorType t1 = false)
  end.
Proof.
  intros rest. unfold newCallback, makeArgTypes. fold rest.
  assert (Hrest : ∀ args ctx, (match rest with TContext :: rest' => (rest', true) | _ => (rest, false) end)
      = (args, ctx) →
    (rest = args ∧ ctx = false ∧ head rest ≠ Some TContext) ∨ (rest = TContext :: args ∧ ctx = true)).
  { intros args ctx E. destruct rest as [|[] l]; simplify_eq/=; auto. }
  destruct (match rest with TContext :: rest' => (rest', true) | _ => (rest, false) end)
    as [args ctx] eqn:Ha. specialize (Hrest args ctx eq_refl).
  destruct (Out fn) as [|o0 [|o1 [|o2 l]]]; simpl; [| | |left; lia].
  - split_and!; [lia|done| |lia]. intros i Hi. split; [lia|]. by intros (t & Ht & _).
  - split_and!; [lia|done| |lia]. intros i Hi. split.
    + intros ->. destruct (isErrorType o0) eqn:E; [by exists o0|lia].
    + intros (t & Ht & Hte). destruct (Z.to_nat i) as [|n] eqn:En; [|done]. simplify_eq/=.
      rewrite Hte. lia.
  - destruct (isErrorType o0) eqn:E0, (isErrorType o1) eqn:E1; simpl; [right; eauto 6..| |right; eauto 6].
    split_and!; [lia|done| |done]. intros i Hi. split.
    + intros ->. by exists o1.
    + intros (t & Ht & Hte). destruct (Z.to_nat i) as [|[|n]] eqn:En; simplify_eq/=; [congruence|lia].
Qed.

Definition sample_method : method unit :=
  {| Name := "Echo"; PkgPath := ""; In := [TOpaque "*Service" false; TString]; Out := [TString; TError];
     Func args := mret (args ++ [VErr None]) |}.

Lemma registerName_lookup_witness :
  ∃ r', registerName "a_b" "*Service" [sample_method] ∅ = inl r' ∧
    ∀ full, lookup_callback full r' = lookup_callback full ∅.
Proof.
  destruct (registerName "a_b" "*Service" [sample_method] ∅) as [r'|e] eqn:E.
  - exists r'. split; [done|]. exact (registerName_lookup "a_b" "*Service" [sample_method] ∅ r' E).
  - vm_compute in E. discriminate.
Defined.
