(* ===== verification/RpcHandler.v ===== *)
(** * Package rpc, the connection handler (src/rpc/handler.go)

    Calls: finding and running the callback of a message ([handleCallMsg],
    [handleCall], [handleSubscribe], [runMethod], [unsubscribe]), single
    messages and batches when no timeout fires, limits included.
    What the peer answers is in RpcPending.v, timeouts and their races are in
    RpcBatch.v. *)

From S2P Require Import Prelude Strconv GoJson GoValue RpcErrors RpcJson RpcService.

(** What is written to the connection: one message or a batch, and whether it
    is marked as an error response. *)
Inductive wire :=
| WMsg (m : jsonrpcMessage) (isError : bool)
| WBatch (l : list jsonrpcMessage) (isError : bool).

(** A notifier of a subscription call, and the subscription it created. *)
Record Notifier := { n_namespace : string; n_sub : option string }.

Section handler.
Context {A : Type}.

(** The state behind the receivers, the active server subscriptions, the
    notifiers of the running call, and what was written. *)
Record hstate := {
  app : A;
  serverSubs : gset string;
  notifiers : list Notifier;
  sent : list wire
}.

Definition set_subs (f : gset string → gset string) (h : hstate) : hstate :=
  {| app := app h; serverSubs := f (serverSubs h); notifiers := notifiers h; sent := sent h |}.
Definition set_notifiers (f : list Notifier → list Notifier) (h : hstate) : hstate :=
  {| app := app h; serverSubs := serverSubs h; notifiers := f (notifiers h); sent := sent h |}.
Definition writeJSON (w : wire) : GoM hstate unit :=
  modify (λ h, {| app := app h; serverSubs := serverSubs h; notifiers := notifiers h;
                  sent := sent h ++ [w] |}).

(** The configuration of a handler. *)
Record handler := {
  reg : serviceRegistry hstate;
  allowSubscribe : bool;
  batchRequestLimit : Z;
  batchResponseMaxSize : Z
}.

Context (h : handler).

(** ** Subscriptions *)

Definition unsubscribe (id : string) : GoM hstate (list gval) :=
  subs ← gets serverSubs;
  if decide (id ∈ subs) then
    _ ← modify (set_subs (λ s, s ∖ {[id]}));
    mret [VBool true; VErr None]
  else mret [VBool false; VErr (Some (plain_error "subscription not found"))].

Definition unsubscribe_method : method hstate := {|
  Name := "unsubscribe"; PkgPath := "";
  In := [TContext; TString]; Out := [TBool; TError];
  Func args := match args with VStr id :: _ => unsubscribe id | _ => unsubscribe "" end
|}.

Definition unsubscribeCb : option (callback hstate) := newCallback false unsubscribe_method.

Definition addSubscriptions : GoM hstate unit :=
  modify (λ s, set_subs (λ subs, foldl (λ subs n,
    match n_sub n with Some id => {[id]} ∪ subs | None => subs end) subs (notifiers s)) s).

(** ** One call *)

Definition runMethod (msg : jsonrpcMessage) (callb : callback hstate) (args : list gval)
    : GoM hstate jsonrpcMessage :=
  r ← call callb args;
  match r with
  | inr err => mret (errorResponse msg err)
  | inl result => mret (response msg result)
  end.

Definition handleSubscribe (msg : jsonrpcMessage) : GoM hstate jsonrpcMessage :=
  if negb (allowSubscribe h) then mret (errorResponse msg (rpc_err notificationsUnsupportedError))
  else
    match parseSubscriptionName (Params msg) with
    | inr e => mret (errorResponse msg (rpc_err (invalidParamsError e)))
    | inl name =>
        let ns := namespace msg in
        match subscription ns name (reg h) with
        | None => mret (errorResponse msg (rpc_err (subscriptionNotFoundError ns name)))
        | Some callb =>
            match parsePositionalArguments (Params msg) (TString :: argTypes callb) with
            | inr e => mret (errorResponse msg (rpc_err (invalidParamsError e)))
            | inl args =>
                _ ← modify (set_notifiers (λ l, l ++ [{| n_namespace := ns; n_sub := None |}]));
                runMethod msg callb (drop 1 args)
            end
        end
    end.

Definition handleCall (msg : jsonrpcMessage) : GoM hstate jsonrpcMessage :=
  if isSubscribe msg then handleSubscribe msg
  else
    let callb := if isUnsubscribe msg then unsubscribeCb else lookup_callback (Method msg) (reg h) in
    match callb with
    | None => mret (errorResponse msg (rpc_err (methodNotFoundError (Method msg))))
    | Some callb =>
        match parsePositionalArguments (Params msg) (argTypes callb) with
        | inr e => mret (errorResponse msg (rpc_err (invalidParamsError e)))
        | inl args => runMethod msg callb args
        end
    end.

Definition handleCallMsg (msg : jsonrpcMessage) : GoM hstate (option jsonrpcMessage) :=
  if isNotification msg then
    _ ← handleCall msg; mret None
  else if isCall msg then
    resp ← handleCall msg; mret (Some resp)
  else if hasValidID msg then
    mret (Some (errorResponse msg (rpc_err (invalidRequestError "invalid request"))))
  else mret (Some (errorMessage (rpc_err (invalidRequestError "invalid request")))).

(** ** Single messages and batches, no timeout *)

(** A new [callProc] has no notifiers. *)
Definition startCallProc (fn : GoM hstate unit) : GoM hstate unit :=
  _ ← modify (set_notifiers (λ _, [])); fn.

Definition handleNonBatchCall (msg : jsonrpcMessage) : GoM hstate unit :=
  answer ← handleCallMsg msg;
  _ ← addSubscriptions;
  match answer with
  | Some a => writeJSON (WMsg a false)
  | None => mret tt
  end.

Definition respondWithBatchTooLarge (batch : list jsonrpcMessage) : GoM hstate unit :=
  let resp := errorMessage (rpc_err (invalidRequestError errMsgBatchTooLarge)) in
  let resp := match List.find isCall batch with
              | Some msg => set_ID (ID msg) resp
              | None => resp
              end in
  writeJSON (WBatch [resp] true).

(** The length of [resp.Result] in bytes. *)
Definition result_size (resp : jsonrpcMessage) : Z :=
  match Result resp with Some j => Z.of_nat (String.length (print j)) | None => 0 end.

(** The errors of the calls that were not run; notifications get none. *)
Definition error_answers (err : goerror) (calls : list jsonrpcMessage) : list jsonrpcMessage :=
  (λ msg, errorResponse msg err) <$> filter (λ msg, isNotification msg = false) calls.

Definition too_large : goerror :=
  rpc_err (internalServerError errcodeResponseTooLarge errMsgResponseTooLarge).

(** The loop of [handleBatch]: the responses, and whether the size limit
    was met (an error response). *)
Fixpoint run_batch (calls : list jsonrpcMessage) (responseBytes : Z) (resp : list jsonrpcMessage)
    : GoM hstate (list jsonrpcMessage * bool) :=
  match calls with
  | [] => mret (resp, false)
  | msg :: calls' =>
      answer ← handleCallMsg msg;
      match answer with
      | None => run_batch calls' responseBytes resp
      | Some a =>
          let resp := resp ++ [a] in
          if decide (batchResponseMaxSize h ≠ 0) then
            let responseBytes := to_int64 (responseBytes + result_size a) in
            if batchResponseMaxSize h <? responseBytes
            then mret (resp ++ error_answers too_large calls', true)
            else run_batch calls' responseBytes resp
          else run_batch calls' responseBytes resp
      end
  end.

(** [doWrite]: nothing is written when there is no response. *)
Definition write_batch (resp : list jsonrpcMessage) (isError : bool) : GoM hstate unit :=
  match resp with
  | [] => mret tt
  | _ => writeJSON (WBatch resp isError)
  end.

(** The messages that are calls for [handleResponses]: neither responses nor
    subscription notifications. *)
Definition is_call_message (msg : jsonrpcMessage) : bool :=
  if isResponse msg then false
  else if isNotification msg then negb (HasSuffix (Method msg) notificationMethodSuffix)
  else true.

Definition handleBatch (msgs : list jsonrpcMessage) : GoM hstate unit :=
  match msgs with
  | [] =>
      startCallProc
        (writeJSON (WMsg (errorMessage (rpc_err (invalidRequestError "empty batch"))) true))
  | _ =>
      if negb (batchRequestLimit h =? 0) && (batchRequestLimit h <? Z.of_nat (length msgs))
      then startCallProc (respondWithBatchTooLarge msgs)
      else
        match filter (λ msg, is_call_message msg = true) msgs with
        | [] => mret tt
        | calls =>
            startCallProc (
              r ← run_batch calls 0 [];
              _ ← addSubscriptions;
              write_batch r.1 r.2)
        end
  end.

Definition handleMsg (msg : jsonrpcMessage) : GoM hstate unit :=
  if is_call_message msg then startCallProc (handleNonBatchCall msg) else mret tt.
End handler.

Arguments hstate : clear implicits.
Arguments handler : clear implicits.

(** * Lemmas *)

Section lemmas.
Context {A : Type} (h : handler A).
Implicit Types (msg resp : jsonrpcMessage) (s : hstate A).

(** What a response to a message must look like. *)
Record answers msg resp : Prop := {
  ans_version : Version resp = vsn;
  ans_id : hasValidID msg = true → ID resp = ID msg;
  ans_method : Method resp = "" ∧ Params resp = None;
  ans_one : (is_Some (Error resp) ∧ Result resp = None) ∨
            (Error resp = None ∧ is_Some (Result resp))
}.

Lemma answers_error msg err : answers msg (errorResponse msg err).
Proof. split; [done|done|done|]. left. split; [by eexists|done]. Qed.

Lemma answers_null msg err : hasValidID msg = false → answers msg (errorMessage err).
Proof. intros Hid. split; [done|congruence|done|]. left. split; [by eexists|done]. Qed.

Lemma answers_response msg r : answers msg (response msg r).
Proof.
  unfold response. destruct (encode r.1 r.2) as [enc|e]; [|apply answers_error].
  split; [done|done|done|]. right. split; [done|by eexists].
Qed.

(** A computation that always returns, with a value in [Q], and only writes
    what the methods write. *)
Definition returns {B} (m : GoM (hstate A) B) (Q : B → Prop) : Prop :=
  ∀ s, ∃ b s', m s = (Ret b, s') ∧ Q b.

Lemma returns_ret {B} (b : B) (Q : B → Prop) : Q b → returns (mret b) Q.
Proof. intros Hb s. by exists b, s. Qed.

Lemma returns_bind {B C} (m : GoM (hstate A) B) (f : B → GoM (hstate A) C) Q R :
  returns m Q → (∀ b, Q b → returns (f b) R) → returns (m ≫= f) R.
Proof.
  intros Hm Hf s. destruct (Hm s) as (b & s' & E & Hb). unfold mbind, GoM_bind. rewrite E.
  by apply Hf.
Qed.

Lemma returns_modify f : returns (modify f) (λ _, True).
Proof. intros s. by exists tt, (f s). Qed.

Lemma runMethod_returns msg cb args : returns (runMethod msg cb args) (answers msg).
Proof.
  unfold runMethod. apply (returns_bind _ _ (λ _, True)).
  - intros s. unfold call. destruct (Func (fn cb) args s) as [[?|?] s']; by eexists _, _.
  - intros [r|e] _; apply returns_ret; [apply answers_response|apply answers_error].
Qed.

Lemma handleCall_returns msg : returns (handleCall h msg) (answers msg).
Proof.
  unfold handleCall, handleSubscribe.
  repeat first
    [ apply runMethod_returns
    | apply returns_ret; apply answers_error
    | apply (returns_bind _ _ (λ _, True)); [apply returns_modify|intros ? _]
    | match goal with
      | |- returns (if ?b then _ else _) _ => destruct b
      | |- returns (match ?x with _ => _ end) _ => destruct x
      end ].
Qed.

Lemma isCall_validID msg : isCall msg = true → hasValidID msg = true.
Proof. unfold isCall. intros Hc. by destruct (hasValidID msg); [|rewrite andb_false_r in Hc]. Qed.

Lemma handleCallMsg_returns msg :
  returns (handleCallMsg h msg) (λ r,
    if isNotification msg then r = None else ∃ resp, r = Some resp ∧ answers msg resp).
Proof.
  unfold handleCallMsg. destruct (isNotification msg).
  - eapply returns_bind; [apply handleCall_returns|]. intros ? _. by apply returns_ret.
  - destruct (isCall msg).
    + eapply returns_bind; [apply handleCall_returns|]. intros resp Hr. apply returns_ret. eauto.
    + destruct (hasValidID msg) eqn:Hid; apply returns_ret; eexists; (split; [done|]).
      * apply answers_error.
      * by apply answers_null.
Qed.

Definition wants_answer (msgs : list jsonrpcMessage) : list jsonrpcMessage :=
  filter (λ msg, isNotification msg = false) msgs.

Lemma error_answers_spec err calls : Forall2 answers (wants_answer calls) (error_answers err calls).
Proof.
  unfold error_answers, wants_answer. induction (filter _ calls); simpl; constructor;
    [apply answers_error|done].
Qed.

Lemma run_batch_returns calls prev bytes resps :
  Forall2 answers (wants_answer prev) resps →
  returns (run_batch h calls bytes resps) (λ r, Forall2 answers (wants_answer (prev ++ calls)) r.1).
Proof.
  revert prev bytes resps. induction calls as [|msg calls IH]; intros prev bytes resps Hd; cbn [run_batch].
  { apply returns_ret. by rewrite app_nil_r. }
  eapply returns_bind; [apply handleCallMsg_returns|]. intros r Hr. simpl in Hr.
  assert (Hw : ∀ tl, wants_answer (prev ++ msg :: tl) =
    wants_answer (prev ++ [msg]) ++ wants_answer tl).
  { intros tl. unfold wants_answer. by rewrite <-filter_app, <-app_assoc. }
  assert (Hone : wants_answer (prev ++ [msg]) =
    wants_answer prev ++ if isNotification msg then [] else [msg]).
  { unfold wants_answer. rewrite filter_app, filter_cons, filter_nil. f_equal.
    by destruct (isNotification msg). }
  replace (prev ++ msg :: calls) with ((prev ++ [msg]) ++ calls) by (by rewrite <-app_assoc).
  destruct (isNotification msg).
  - subst r. apply IH. by rewrite Hone, app_nil_r.
  - destruct Hr as (a & -> & Ha).
    assert (Hd' : Forall2 answers (wants_answer (prev ++ [msg])) (resps ++ [a])).
    { rewrite Hone. apply Forall2_app; [done|]. by constructor. }
    destruct (decide (batchResponseMaxSize h ≠ 0)); [|by apply IH].
    destruct (batchResponseMaxSize h <? _); [|by apply IH].
    apply returns_ret. simpl. unfold wants_answer at 1. rewrite filter_app.
    apply Forall2_app; [exact Hd'|apply error_answers_spec].
Qed.

Lemma returns_write w : returns (writeJSON (A := A) w) (λ _, True).
Proof. apply returns_modify. Qed.

Lemma startCallProc_returns m :
  returns m (λ _, True) → returns (startCallProc (A := A) m) (λ _, True).
Proof. intros Hm. eapply returns_bind; [apply returns_modify|]. by intros ? _. Qed.

Lemma handleBatch_returns msgs : returns (handleBatch h msgs) (λ _, True).
Proof.
  unfold handleBatch. destruct msgs as [|m msgs]; [apply startCallProc_returns, returns_write|].
  destruct (_ && _); [apply startCallProc_returns, returns_write|].
  destruct (filter _ (m :: msgs)) as [|c cs]; [by apply returns_ret|].
  apply startCallProc_returns. eapply returns_bind.
  - apply (run_batch_returns (c :: cs) []). constructor.
  - intros r _. eapply returns_bind; [apply returns_modify|]. intros ? _.
    unfold write_batch. destruct r.1; [by apply returns_ret|apply returns_write].
Qed.

Lemma handleMsg_returns msg : returns (handleMsg h msg) (λ _, True).
Proof.
  unfold handleMsg. destruct (is_call_message msg); [|by apply returns_ret].
  apply startCallProc_returns. eapply returns_bind; [apply handleCallMsg_returns|]. intros r _.
  eapply returns_bind; [apply returns_modify|]. intros ? _.
  destruct r; [apply returns_write|by apply returns_ret].
Qed.
End lemmas.

(** * Properties *)

(** Every message handed to [handleCallMsg] is dealt with without a panic,
    whatever the registered methods do. A notification gets no answer; every
    other message gets one that is a JSON-RPC 2.0 response with exactly one of
    result and error, and with the id of the message when that id is valid. *)
Theorem handleCallMsg_correct {A} (h : handler A) (msg : jsonrpcMessage) (s : hstate A) :
  ∃ r s', handleCallMsg h msg s = (Ret r, s') ∧
    if isNotification msg then r = None
    else ∃ resp, r = Some resp ∧ Version resp = vsn ∧
      (hasValidID msg = true → ID resp = ID msg) ∧
      ((is_Some (Error resp) ∧ Result resp = None) ∨
       (Error resp = None ∧ is_Some (Result resp))).
Proof.
  destruct (handleCallMsg_returns h msg s) as (r & s' & E & Hr). exists r, s'. split; [done|].
  destruct (isNotification msg); [done|]. destruct Hr as (resp & -> & [Hv Hi _ Ho]). eauto.
Qed.

(** The loop over the calls of a batch answers every call that is not a
    notification, once and in order, with or without a limit on the size of
    the responses: past the limit the remaining ones get an error each. *)
Theorem run_batch_answers_all {A} (h : handler A) (calls : list jsonrpcMessage) (s : hstate A) :
  ∃ resp isError s', run_batch h calls 0 [] s = (Ret (resp, isError), s') ∧
    Forall2 answers (filter (λ msg, isNotification msg = false) calls) resp.
Proof.
  destruct (run_batch_returns h calls [] 0 [] (List.Forall2_nil _) s) as ([resp e] & s' & E & Hr).
  by exists resp, e, s'.
Qed.

(** A batch over the request limit runs no method: the state behind the
    receivers is untouched and one error is written, with the id of the first
    call in the batch. *)
Theorem handleBatch_too_large {A} (h : handler A) (msgs : list jsonrpcMessage) (s : hstate A) :
  0 < batchRequestLimit h < Z.of_nat (length msgs) →
  ∃ resp s', handleBatch h msgs s = (Ret tt, s') ∧ app s' = app s ∧
    serverSubs s' = serverSubs s ∧ sent s' = sent s ++ [WBatch [resp] true] ∧
    Error resp = Some {| Code := -32600; Message := "batch too large"; Data := None |} ∧
    ID resp = match List.find isCall msgs with Some msg => ID msg | None => Some JNull end.
Proof.
  intros Hl. unfold handleBatch. destruct msgs as [|m msgs]; [simpl in Hl; lia|].
  destruct (batchRequestLimit h =? 0) eqn:E0; [lia|]. simpl negb. rewrite andb_true_l.
  destruct (batchRequestLimit h <? Z.of_nat (length (m :: msgs))) eqn:El; [|lia].
  unfold startCallProc, respondWithBatchTooLarge, writeJSON, modify, mbind, GoM_bind.
  cbn -[List.find]. destruct (List.find isCall (m :: msgs)) as [msg|]; eexists _, _; by split_and!.
Qed.

Lemma handleBatch_too_large_witness :
  let h := {| reg := ∅; allowSubscribe := false; batchRequestLimit := 1;
              batchResponseMaxSize := 0 |} : handler unit in
  ∃ resp s', handleBatch h [zero_msg; zero_msg]
      {| app := tt; serverSubs := ∅; notifiers := []; sent := [] |} = (Ret tt, s') ∧
    sent s' = [WBatch [resp] true].
Proof.
  intros h.
  destruct (handleBatch_too_large h [zero_msg; zero_msg]
    {| app := tt; serverSubs := ∅; notifiers := []; sent := [] |}) as (resp & s' & E & _ & _ & Hs & _).
  - simpl. lia.
  - exists resp, s'. split; [exact E|exact Hs].
Defined.
