(* ===== verification/RpcMetrics.v ===== *)
(** * Package rpc, the statistics of calls (src/rpc/metrics.go, src/rpc/handler.go [handleCall])

    The gauges, the timer and the histograms that [handleCall] updates after a
    method has run.  The metrics library is third-party: a gauge is its value,
    a timer and a histogram are the values they were given, the registry is a
    map from names. *)

From S2P Require Import Prelude GoJson GoValue JsonRound RpcErrors RpcJson RpcService RpcHandler.

(** ** metrics.go *)

Record meters := {
  rpcRequestGauge : Z;
  successfulRequestGauge : Z;
  failedRequestGauge : Z;
  rpcServingTimer : list Z;              (* nanoseconds *)
  histograms : gmap string (list Z)      (* microseconds *)
}.

Definition no_calls : meters :=
  {| rpcRequestGauge := 0; successfulRequestGauge := 0; failedRequestGauge := 0; rpcServingTimer := [];
     histograms := ∅ |}.

Definition serveTimeHistName : string := "rpc/duration".

Definition histogram_name (method : string) (success : bool) : string :=
  serveTimeHistName +:+ "/" +:+ method +:+ "/" +:+ (if success then "success" else "failure").

(** The histogram of the name is registered when it is not there yet. *)
Definition updateServeTimeHistogram (method : string) (success : bool) (elapsed : Z) (m : meters) : meters :=
  {| rpcRequestGauge := rpcRequestGauge m; successfulRequestGauge := successfulRequestGauge m;
     failedRequestGauge := failedRequestGauge m; rpcServingTimer := rpcServingTimer m;
     histograms := group_append (histogram_name method success) (Z.quot elapsed 1000) (histograms m) |}.

(** ** The end of [handleCall] *)

Definition succeeded (answer : jsonrpcMessage) : bool :=
  match RpcJson.Error answer with None => true | Some _ => false end.

(** [since], [since']: the time since the start, read twice. *)
Definition collect (msg answer : jsonrpcMessage) (since since' : Z) (m : meters) : meters :=
  let ok := succeeded answer in
  updateServeTimeHistogram (Method msg) ok since'
    {| rpcRequestGauge := rpcRequestGauge m + 1;
       successfulRequestGauge := successfulRequestGauge m + (if ok then 1 else 0);
       failedRequestGauge := failedRequestGauge m + (if ok then 0 else 1);
       rpcServingTimer := rpcServingTimer m ++ [since]; histograms := histograms m |}.

Section metered.
Context {A : Type} (h : handler A).

(** Does the call get as far as a method of the registry?  Subscribing,
    unsubscribing and what fails before are not counted. *)
Definition counted (msg : jsonrpcMessage) : bool :=
  negb (isSubscribe msg) && negb (isUnsubscribe msg)
  && match lookup_callback (Method msg) (reg h) with
     | Some callb => match parsePositionalArguments (Params msg) (argTypes callb) with inl _ => true | _ => false end
     | None => false
     end.

(** [handleCall] with its statistics. *)
Definition metered_call (msg : jsonrpcMessage) (since since' : Z) (s : hstate A * meters)
    : outcome jsonrpcMessage * (hstate A * meters) :=
  match handleCall h msg s.1 with
  | (Ret answer, st) => (Ret answer, (st, if counted msg then collect msg answer since since' s.2 else s.2))
  | (Panic why, st) => (Panic why, (st, s.2))
  end.

(** A call with the times its clock will read. *)
Definition timed_call : Type := jsonrpcMessage * Z * Z.

(** Calls one after the other, with their answers. *)
Fixpoint metered_calls (calls : list timed_call) (s : hstate A * meters)
    : list (timed_call * jsonrpcMessage) * (hstate A * meters) :=
  match calls with
  | [] => ([], s)
  | c :: calls' =>
      match metered_call c.1.1 c.1.2 c.2 s with
      | (Ret answer, s) => let '(log, s) := metered_calls calls' s in ((c, answer) :: log, s)
      | (Panic _, s) => ([], s)
      end
  end.

(** The same calls without statistics. *)
Fixpoint plain_calls (calls : list timed_call) (st : hstate A) : list (timed_call * jsonrpcMessage) * hstate A :=
  match calls with
  | [] => ([], st)
  | c :: calls' =>
      match handleCall h c.1.1 st with
      | (Ret answer, st) => let '(log, st) := plain_calls calls' st in ((c, answer) :: log, st)
      | (Panic _, st) => ([], st)
      end
  end.

(** The full names of the methods of a registry. *)
Definition method_names (r : serviceRegistry (hstate A)) : gset string :=
  ⋃ ((λ p : string * service (hstate A), set_map (full_name p.1) (dom (callbacks p.2))) <$> map_to_list r).
End metered.

(** * Lemmas *)

(** ** Names *)

Lemma append_inj_length (a b t t' : string) :
  String.length t = String.length t' → a +:+ t = b +:+ t' → a = b ∧ t = t'.
Proof.
  intros Hl. revert b. induction a as [|c a IH]; intros [|d b] E; [done|..].
  - apply (f_equal String.length) in E. rewrite !string_length_app in E. cbn in E. lia.
  - apply (f_equal String.length) in E. rewrite !string_length_app in E. cbn in E. lia.
  - rewrite !string_app_cons in E. injection E as -> E. by destruct (IH b E) as [-> ->].
Qed.

(** The name determines the method and the outcome. *)
Lemma histogram_name_inj m ok m' ok' :
  histogram_name m ok = histogram_name m' ok' → m = m' ∧ ok = ok'.
Proof.
  unfold histogram_name. intros E. rewrite !string_app_assoc in E.
  apply append_inj_length in E as [E Ht]; [|by destruct ok, ok'].
  rewrite <-!string_app_assoc in E. apply (inj _), (inj _) in E.
  apply append_inj_length in E as [-> _]; [|done]. split; [done|]. by destruct ok, ok'.
Qed.

(** No histogram takes the name of another metric of the package. *)
Lemma histogram_name_fresh m ok :
  histogram_name m ok ∉ ["rpc/requests"; "rpc/success"; "rpc/failure"; "rpc/duration/all"].
Proof.
  unfold histogram_name. change serveTimeHistName with "rpc/duration".
  rewrite !elem_of_cons. intros [E|[E|[E|[E|E%elem_of_nil]]]]; try discriminate E; [|done].
  apply (f_equal String.length) in E. rewrite !string_length_app in E. destruct ok; cbn in E; lia.
Qed.

Section lemmas.
Context {A : Type} (h : handler A).

Lemma method_names_callback method callb :
  lookup_callback method (reg h) = Some callb → method ∈ method_names (reg h).
Proof.
  unfold lookup_callback, SplitN2. destruct (cut_at _ method) as [[ns m]|] eqn:E; [|done].
  apply cut_at_Some in E as [-> _]. destruct (reg h !! ns) as [svc|] eqn:Er; [|done]. cbn. intros Hm.
  apply elem_of_union_list. eexists. split.
  - apply list_elem_of_fmap. exists (ns, svc). split; [reflexivity|by apply elem_of_map_to_list].
  - cbn. apply elem_of_map. exists m. split; [done|by apply elem_of_dom_2 in Hm].
Qed.

Lemma counted_method msg : counted h msg = true → Method msg ∈ method_names (reg h).
Proof.
  unfold counted. intros [_ Hc]%andb_true_iff. destruct (lookup_callback _ _) as [cb|] eqn:E; [|done].
  by apply method_names_callback in E.
Qed.

(** ** What the meters are after a sequence of calls *)

(** The calls that were counted, and among them those with a given outcome. *)
Definition ran (log : list (timed_call * jsonrpcMessage)) := filter (λ e, counted h e.1.1.1 = true) log.
Definition with_outcome (method : string) (ok : bool) (log : list (timed_call * jsonrpcMessage)) :=
  filter (λ e, Method e.1.1.1 = method ∧ succeeded e.2 = ok) (ran log).

(** The meters [m'] are the meters [m] with the calls of the log added. *)
Record advanced (log : list (timed_call * jsonrpcMessage)) (m m' : meters) : Prop := {
  a_requests : rpcRequestGauge m' = rpcRequestGauge m + Z.of_nat (length (ran log));
  a_success : successfulRequestGauge m' =
    successfulRequestGauge m + Z.of_nat (length (filter (λ e, succeeded e.2 = true) (ran log)));
  a_failure : failedRequestGauge m' =
    failedRequestGauge m + Z.of_nat (length (filter (λ e, succeeded e.2 = false) (ran log)));
  a_timer : rpcServingTimer m' = rpcServingTimer m ++ ((λ e, e.1.1.2) <$> ran log);
  a_histograms method ok : default [] (histograms m' !! histogram_name method ok) =
    default [] (histograms m !! histogram_name method ok)
    ++ ((λ e, Z.quot e.1.2 1000) <$> with_outcome method ok log);
  a_names k : k ∈ dom (histograms m') →
    k ∈ dom (histograms m) ∨ ∃ method ok, k = histogram_name method ok ∧ method ∈ method_names (reg h)
}.

Lemma advanced_nil m : advanced [] m m.
Proof.
  split; cbn; try lia; [by rewrite app_nil_r|intros; by rewrite app_nil_r|by left].
Qed.

Lemma advanced_uncounted log m m' e :
  counted h e.1.1.1 = false → advanced log m m' → advanced (e :: log) m m'.
Proof.
  intros He [H1 H2 H3 H4 H5 H6].
  assert (Hr : ran (e :: log) = ran log) by (unfold ran; by rewrite filter_cons_False by congruence).
  split; unfold with_outcome; rewrite ?Hr; [done..|exact H6].
Qed.

Lemma advanced_counted log m m' (c : timed_call) answer :
  counted h c.1.1 = true → advanced log (collect c.1.1 answer c.1.2 c.2 m) m' →
  advanced ((c, answer) :: log) m m'.
Proof.
  intros Hc [H1 H2 H3 H4 H5 H6].
  assert (Hr : ran ((c, answer) :: log) = (c, answer) :: ran log) by (unfold ran; by rewrite filter_cons_True).
  split; unfold with_outcome; rewrite ?Hr.
  - rewrite H1. cbn. lia.
  - rewrite H2, filter_cons. cbn. destruct (succeeded answer); repeat case_decide; cbn; try congruence; lia.
  - rewrite H3, filter_cons. cbn. destruct (succeeded answer); repeat case_decide; cbn; try congruence; lia.
  - rewrite H4. cbn. by rewrite <-app_assoc.
  - intros method ok. rewrite H5. cbn [collect updateServeTimeHistogram histograms]. rewrite lookup_group_append.
    rewrite filter_cons, <-app_assoc. f_equal. cbn [fst snd]. unfold with_outcome.
    destruct (decide (Method c.1.1 = method ∧ succeeded answer = ok)) as [[<- <-]|Hn].
    + by rewrite decide_True.
    + rewrite decide_False; [done|]. intros [<- <-]%histogram_name_inj. by apply Hn.
  - intros k [Hk|Hk]%H6; [|by right]. cbn in Hk. unfold group_append in Hk.
    rewrite dom_insert, elem_of_union, elem_of_singleton in Hk. destruct Hk as [->|Hk]; [right|by left].
    do 2 eexists. split; [reflexivity|by apply counted_method].
Qed.

Lemma metered_advanced calls s :
  let '(log, (st', m')) := metered_calls h calls s in
  plain_calls h calls s.1 = (log, st') ∧ advanced log s.2 m'.
Proof.
  revert s. induction calls as [|c calls IH]; intros [st m]; cbn [metered_calls plain_calls fst snd].
  - split; [done|apply advanced_nil].
  - unfold metered_call. cbn [fst snd]. destruct (handleCall h c.1.1 st) as [[answer|why] st1]; [|split; [done|apply advanced_nil]].
    specialize (IH (st1, if counted h c.1.1 then collect c.1.1 answer c.1.2 c.2 m else m)).
    destruct (metered_calls h calls _) as [log [st' m']]. cbn [fst snd] in IH. destruct IH as [-> Ha]. split; [done|].
    destruct (counted h c.1.1) eqn:Hc; [by apply advanced_counted|by apply advanced_uncounted].
Qed.

Lemma names_bounded (m : meters) :
  (∀ k, k ∈ dom (histograms m) → ∃ method ok, k = histogram_name method ok ∧ method ∈ method_names (reg h)) →
  (size (histograms m) ≤ 2 * size (method_names (reg h)))%nat.
Proof.
  intros Hk. rewrite <-size_dom. set (names := elements (method_names (reg h))).
  assert (Hs : elements (dom (histograms m)) ⊆+
    ((λ x, histogram_name x true) <$> names) ++ ((λ x, histogram_name x false) <$> names)).
  { apply NoDup_submseteq; [apply NoDup_elements|]. intros k Hin%elem_of_elements.
    destruct (Hk k Hin) as (method & [] & -> & Hm%elem_of_elements); apply elem_of_app; [left|right];
      apply list_elem_of_fmap; by exists method. }
  apply submseteq_length in Hs. rewrite length_app, !length_fmap in Hs. unfold size, set_size. cbn. fold names. lia.
Qed.

Lemma outcome_split (log : list (timed_call * jsonrpcMessage)) :
  (length (filter (λ e, succeeded e.2 = true) log) + length (filter (λ e, succeeded e.2 = false) log))%nat = length log.
Proof. induction log as [|e log IH]; [done|]. rewrite !filter_cons. destruct (succeeded e.2); repeat case_decide; cbn; try congruence; lia. Qed.
End lemmas.

(** * Properties *)

