(* ===== verification/RpcBatch.v ===== *)
(** * Package rpc, timeouts of calls and batches (src/rpc/handler.go)

    [handleBatch] and [handleNonBatchCall] run next to a timer that cancels
    the request and answers it with an error.  The two goroutines share the
    [batchCallBuffer], whose mutex makes each of its operations one step; the
    step relations below interleave these steps freely. *)

From S2P Require Import Prelude Strconv GoJson GoValue RpcErrors RpcJson RpcService RpcHandler.

Definition timed_out : goerror := rpc_err (internalServerError errcodeTimeout errMsgTimeout).

(** ** The buffer *)

Record batchCallBuffer := {
  calls : list jsonrpcMessage;
  resp : list jsonrpcMessage;
  wrote : bool;
  out : list wire             (* what [doWrite] sent to the connection *)
}.

Definition newBuffer (calls : list jsonrpcMessage) : batchCallBuffer :=
  {| calls := calls; resp := []; wrote := false; out := [] |}.

Definition nextCall (b : batchCallBuffer) : option jsonrpcMessage := head (calls b).

Definition pushResponse (answer : option jsonrpcMessage) (b : batchCallBuffer) : batchCallBuffer :=
  {| calls := tail (calls b);
     resp := match answer with Some a => resp b ++ [a] | None => resp b end;
     wrote := wrote b; out := out b |}.

Definition doWrite (isErrorResponse : bool) (b : batchCallBuffer) : batchCallBuffer :=
  if wrote b then b
  else
    {| calls := calls b; resp := resp b; wrote := true;
       out := match resp b with [] => out b | r => out b ++ [WBatch r isErrorResponse] end |}.

Definition respondWithError (err : goerror) (b : batchCallBuffer) : batchCallBuffer :=
  doWrite true
    {| calls := calls b; resp := resp b ++ error_answers err (calls b);
       wrote := wrote b; out := out b |}.

(** ** The two goroutines of a batch *)

Inductive main_pc :=
| MLoop                                (* the test of cp.ctx.Err() *)
| MNext                                (* nextCall *)
| MRun (msg : jsonrpcMessage)          (* handleCallMsg *)
| MPush (answer : option jsonrpcMessage)
| MTooLarge                            (* the size limit was met *)
| MStop                                (* timer.Stop *)
| MSubs                                (* addSubscriptions *)
| MWrite                               (* callBuffer.write *)
| MDone.

Inductive timer_pc :=
| TOff                                 (* no timeout, or stopped in time *)
| TArmed
| TStarted                             (* fired, before cancel() *)
| TCancelled                           (* before respondWithError *)
| TDone.

Section batch.
Context {A : Type} (h : handler A).

Record bstate := {
  hs : hstate A;
  buf : batchCallBuffer;
  bytes : Z;
  cancelled : bool;
  main : main_pc;
  timer : timer_pc
}.

Definition upd (s : bstate) (hs' : hstate A) (b : batchCallBuffer) (n : Z) (m : main_pc) : bstate :=
  {| hs := hs'; buf := b; bytes := n; cancelled := cancelled s; main := m; timer := timer s |}.

(** One step of the goroutine that runs the calls. *)
Inductive main_step : bstate → bstate → Prop :=
| m_cancelled s : main s = MLoop → cancelled s = true →
    main_step s (upd s (hs s) (buf s) (bytes s) MStop)
| m_loop s : main s = MLoop → cancelled s = false →
    main_step s (upd s (hs s) (buf s) (bytes s) MNext)
| m_none s : main s = MNext → nextCall (buf s) = None →
    main_step s (upd s (hs s) (buf s) (bytes s) MStop)
| m_next s msg : main s = MNext → nextCall (buf s) = Some msg →
    main_step s (upd s (hs s) (buf s) (bytes s) (MRun msg))
| m_run s msg answer hs' : main s = MRun msg → handleCallMsg h msg (hs s) = (Ret answer, hs') →
    main_step s (upd s hs' (buf s) (bytes s) (MPush answer))
| m_push s answer : main s = MPush answer →
    let n := match answer with
             | Some a => if decide (batchResponseMaxSize h ≠ 0)
                         then to_int64 (bytes s + result_size a) else bytes s
             | None => bytes s
             end in
    let over := match answer with
                | Some _ => negb (batchResponseMaxSize h =? 0) && (batchResponseMaxSize h <? n)
                | None => false
                end in
    main_step s (upd s (hs s) (pushResponse answer (buf s)) n (if over then MTooLarge else MLoop))
| m_large s : main s = MTooLarge →
    main_step s (upd s (hs s) (respondWithError too_large (buf s)) (bytes s) MStop)
| m_stop s : main s = MStop →
    main_step s {| hs := hs s; buf := buf s; bytes := bytes s; cancelled := cancelled s;
                   main := MSubs;
                   timer := match timer s with TArmed => TOff | t => t end |}
| m_subs s : main s = MSubs →
    main_step s (upd s (addSubscriptions (hs s)).2 (buf s) (bytes s) MWrite)
| m_write s : main s = MWrite →
    main_step s (upd s (hs s) (doWrite false (buf s)) (bytes s) MDone).

(** One step of the timer. *)
Inductive timer_step : bstate → bstate → Prop :=
| t_fire s : timer s = TArmed →
    timer_step s {| hs := hs s; buf := buf s; bytes := bytes s; cancelled := cancelled s;
                    main := main s; timer := TStarted |}
| t_cancel s : timer s = TStarted →
    timer_step s {| hs := hs s; buf := buf s; bytes := bytes s; cancelled := true;
                    main := main s; timer := TCancelled |}
| t_respond s : timer s = TCancelled →
    timer_step s {| hs := hs s; buf := respondWithError timed_out (buf s); bytes := bytes s;
                    cancelled := cancelled s; main := main s; timer := TDone |}.

Definition batch_step (s s' : bstate) : Prop := main_step s s' ∨ timer_step s s'.

Definition batch_init (hs : hstate A) (calls : list jsonrpcMessage) (timeout : bool) : bstate :=
  {| hs := hs; buf := newBuffer calls; bytes := 0; cancelled := false; main := MLoop;
     timer := if timeout then TArmed else TOff |}.

(** ** The goroutines of a single call *)

Inductive single_pc := SRun | SStop (answer : option jsonrpcMessage)
  | SSubs (answer : option jsonrpcMessage) | SAnswer (answer : option jsonrpcMessage) | SDone.

Record sstate := {
  s_hs : hstate A;
  responded : bool;          (* sync.Once *)
  s_out : list wire;
  s_main : single_pc;
  s_timer : timer_pc
}.

Context (msg : jsonrpcMessage).

Inductive single_step : sstate → sstate → Prop :=
| s_run s answer hs' : s_main s = SRun → handleCallMsg h msg (s_hs s) = (Ret answer, hs') →
    single_step s {| s_hs := hs'; responded := responded s; s_out := s_out s;
                     s_main := SStop answer; s_timer := s_timer s |}
| s_stop s answer : s_main s = SStop answer →
    single_step s {| s_hs := s_hs s; responded := responded s; s_out := s_out s;
                     s_main := SSubs answer;
                     s_timer := match s_timer s with TArmed => TOff | t => t end |}
| s_subs s answer : s_main s = SSubs answer →
    single_step s {| s_hs := (addSubscriptions (s_hs s)).2; responded := responded s;
                     s_out := s_out s; s_main := SAnswer answer; s_timer := s_timer s |}
| s_none s : s_main s = SAnswer None →
    single_step s {| s_hs := s_hs s; responded := responded s; s_out := s_out s;
                     s_main := SDone; s_timer := s_timer s |}
| s_answer s a : s_main s = SAnswer (Some a) →
    single_step s {| s_hs := s_hs s; responded := true;
                     s_out := if responded s then s_out s else s_out s ++ [WMsg a false];
                     s_main := SDone; s_timer := s_timer s |}
| s_fire s : s_timer s = TArmed →
    single_step s {| s_hs := s_hs s; responded := responded s; s_out := s_out s;
                     s_main := s_main s; s_timer := TStarted |}
| s_cancel s : s_timer s = TStarted →
    single_step s {| s_hs := s_hs s; responded := responded s; s_out := s_out s;
                     s_main := s_main s; s_timer := TCancelled |}
| s_timeout s : s_timer s = TCancelled →
    single_step s {| s_hs := s_hs s; responded := true;
                     s_out := if responded s then s_out s
                              else s_out s ++ [WMsg (errorResponse msg timed_out) true];
                     s_main := s_main s; s_timer := TDone |}.

Definition single_init (hs : hstate A) (timeout : bool) : sstate :=
  {| s_hs := hs; responded := false; s_out := []; s_main := SRun;
     s_timer := if timeout then TArmed else TOff |}.
End batch.

Arguments bstate : clear implicits.
Arguments sstate : clear implicits.

(** * Lemmas *)

Section lemmas.
Context {A : Type} (h : handler A).

(** The answers to a prefix of the calls, in order; all of them when the
    response is marked as an error. *)
Definition answers_prefix (all : list jsonrpcMessage) (w : wire) : Prop :=
  ∃ r e k, w = WBatch r e ∧ r ≠ [] ∧ Forall2 answers (wants_answer (take k all)) r ∧
    (e = true → k = length all).

Definition out_ok (all : list jsonrpcMessage) (b : batchCallBuffer) : Prop :=
  out b = [] ∨ ∃ w, out b = [w] ∧ answers_prefix all w.

(** The running or finished call is the first of the buffer, and its answer
    is one. *)
Definition pc_ok (pc : main_pc) (b : batchCallBuffer) : Prop :=
  match pc with
  | MRun msg => head (calls b) = Some msg
  | MPush answer => ∃ msg, head (calls b) = Some msg ∧
      if isNotification msg then answer = None else ∃ a, answer = Some a ∧ answers msg a
  | _ => True
  end.

Definition buf_ok (all : list jsonrpcMessage) (b : batchCallBuffer) : Prop :=
  ∃ prev, all = prev ++ calls b ∧
    (wrote b = false → out b = [] ∧ Forall2 answers (wants_answer prev) (resp b)) ∧
    out_ok all b.

Lemma buf_ok_write all b e :
  buf_ok all b → e = false → buf_ok all (doWrite e b).
Proof.
  intros Hbuf ->. unfold doWrite. destruct (wrote b) eqn:Hwr; [done|].
  destruct Hbuf as (prev & Hall & Hw & Ho). destruct (Hw Hwr) as [Hout Hr]. exists prev. simpl. split; [done|]. split; [done|].
  unfold out_ok. simpl. rewrite Hout.
  destruct (resp b) as [|a l] eqn:Hresp; [by left|]. right. eexists. split; [done|].
  exists (a :: l), false, (length prev). split_and!; [done..| |done].
  by rewrite Hall, take_app_length.
Qed.

Lemma buf_ok_error all b err : buf_ok all b → buf_ok all (respondWithError err b).
Proof.
  intros Hbuf. unfold respondWithError, doWrite. simpl.
  destruct Hbuf as (prev & Hall & Hw & Ho). destruct (wrote b) eqn:Hwr.
  { exists prev. split; [done|]. by split. }
  destruct (Hw eq_refl) as [Hout Hr]. exists prev. simpl. split; [done|]. split; [done|].
  unfold out_ok. simpl. rewrite Hout.
  destruct (resp b ++ error_answers err (calls b)) as [|a l] eqn:Hresp; [by left|].
  right. eexists. split; [done|]. exists (a :: l), true, (length all). split_and!; [done..| |done].
  rewrite take_ge by done. rewrite <-Hresp, Hall. unfold wants_answer at 1. rewrite filter_app.
  apply Forall2_app; [exact Hr|apply error_answers_spec].
Qed.

Lemma buf_ok_push all b answer :
  buf_ok all b → pc_ok (MPush answer) b → buf_ok all (pushResponse answer b).
Proof.
  intros (prev & Hall & Hw & Ho) (msg & Hm & Ha).
  destruct (calls b) as [|m tl] eqn:Hc; [done|]. simpl in Hm. simplify_eq.
  exists (prev ++ [msg]). unfold pushResponse. rewrite Hc. simpl.
  split; [by rewrite <-app_assoc|]. split; [|exact Ho].
  intros Hwr. destruct (Hw Hwr) as [Hout Hr]. split; [done|].
  unfold wants_answer. rewrite filter_app, filter_cons, filter_nil.
  destruct (isNotification msg) eqn:Hn.
  - rewrite decide_False by done. by rewrite Ha, app_nil_r.
  - rewrite decide_True by done. destruct Ha as (a & -> & Ha).
    apply Forall2_app; [done|]. by constructor.
Qed.

Definition inv (all : list jsonrpcMessage) (s : bstate A) : Prop :=
  buf_ok all (buf s) ∧ pc_ok (main s) (buf s).

Lemma inv_step all s s' : inv all s → batch_step h s s' → inv all s'.
Proof.
  intros [Hb Hp] [Hst|Hst].
  - destruct Hst as [s Hm Hc|s Hm Hc|s Hm Hn|s msg Hm Hn|s msg a hs' Hm Hr|s a Hm n over|s Hm|s Hm|s Hm|s Hm];
      rewrite Hm in Hp; (split; [simpl|simpl; try done]); try done.
    + destruct (handleCallMsg_returns h msg (hs s)) as (r & s' & E & Hr').
      rewrite E in Hr. simplify_eq. exists msg. split; [exact Hp|done].
    + by apply buf_ok_push.
    + by destruct over.
    + by apply buf_ok_error.
    + by apply buf_ok_write.
  - destruct Hst as [s Ht|s Ht|s Ht]; (split; [simpl|simpl]); try done.
    + by apply buf_ok_error.
    + unfold respondWithError, doWrite. simpl.
      destruct (main s); simpl in *; try done; by destruct (wrote (buf s)).
Qed.

Lemma inv_steps all s s' : inv all s → rtc (batch_step h) s s' → inv all s'.
Proof. intros Hi. induction 1 as [|? ? ? Hs _ IH]; [done|]. by eapply IH, inv_step. Qed.

Lemma inv_init hs calls timeout : inv calls (batch_init hs calls timeout).
Proof.
  split; [|done]. exists []. split; [done|]. split; [|by left]. by split; [|constructor].
Qed.

(** ** The sequential run is an execution *)

Abbreviation run_steps := (rtc (batch_step h)).

Lemma main_once s s' : main_step h s s' → run_steps s s'.
Proof. intros Hs. apply rtc_once. by left. Qed.

(** One turn of the loop, for a call whose answer is known. *)
Lemma turn s msg tl answer hs' :
  main s = MLoop → cancelled s = false → calls (buf s) = msg :: tl →
  handleCallMsg h msg (hs s) = (Ret answer, hs') →
  run_steps s (upd s hs' (buf s) (bytes s) (MPush answer)).
Proof.
  intros Hm Hc Hcalls Hrun.
  eapply rtc_l; [left; by apply m_loop|].
  eapply rtc_l; [left; apply (m_next h _ msg); [done|unfold nextCall; simpl; by rewrite Hcalls]|].
  eapply rtc_l; [left; eapply (m_run h _ msg answer hs'); [done|exact Hrun]|]. apply rtc_refl.
Qed.

(** From the end of the loop to the end of the goroutine. *)
Lemma finish_steps s :
  main s = MStop → timer s = TOff →
  ∃ s', run_steps s s' ∧ main s' = MDone ∧ hs s' = (addSubscriptions (hs s)).2 ∧
    buf s' = doWrite false (buf s).
Proof.
  intros Hm Ht. eexists. split.
  { eapply rtc_l; [left; by apply m_stop|]. eapply rtc_l; [left; by apply m_subs|].
    eapply rtc_l; [left; by apply m_write|]. apply rtc_refl. }
  done.
Qed.

(** [doWrite] of some responses into an empty connection. *)
Definition written (r : list jsonrpcMessage) (isError : bool) : list wire :=
  match r with [] => [] | _ => [WBatch r isError] end.

Lemma loop_steps cs s r e hs' :
  main s = MLoop → cancelled s = false → timer s = TOff →
  calls (buf s) = cs → wrote (buf s) = false → out (buf s) = [] →
  run_batch h cs (bytes s) (resp (buf s)) (hs s) = (Ret (r, e), hs') →
  ∃ s', run_steps s s' ∧ main s' = MDone ∧ hs s' = (addSubscriptions hs').2 ∧
    out (buf s') = written r e.
Proof.
  revert s. induction cs as [|msg cs IH]; intros s Hm Hc Ht Hcalls Hw Ho Hrun.
  - simpl in Hrun. injection Hrun as <- <- <-.
    destruct (finish_steps (upd s (hs s) (buf s) (bytes s) MStop)) as (s' & Hs & Hm' & Hh & Hb); [done..|].
    exists s'. split_and!; [|done|done|].
    + eapply rtc_l; [left; by apply m_loop|].
      eapply rtc_l; [left; apply m_none; [done|unfold nextCall; simpl; by rewrite Hcalls]|exact Hs].
    + rewrite Hb. unfold doWrite. simpl. rewrite Hw. simpl. unfold written.
      by destruct (resp (buf s)); simpl; rewrite Ho.
  - cbn [run_batch] in Hrun. unfold mbind at 1, GoM_bind at 1 in Hrun.
    destruct (handleCallMsg_returns h msg (hs s)) as (answer & h1 & E & _). rewrite E in Hrun.
    pose proof (turn s msg cs answer h1 Hm Hc Hcalls E) as Hturn.
    set (s1 := upd s h1 (buf s) (bytes s) (MPush answer)) in *.
    destruct answer as [a|].
    2: { destruct (IH (upd s1 h1 (pushResponse None (buf s)) (bytes s) MLoop)) as (s' & Hs & Hrest);
           [done..|by simpl; rewrite Hcalls|done|done|done|].
         exists s'. split; [|exact Hrest]. etransitivity; [exact Hturn|].
         eapply rtc_l; [left; by apply (m_push h s1 None)|exact Hs]. }
    set (n := if decide (batchResponseMaxSize h ≠ 0)
              then to_int64 (bytes s + result_size a) else bytes s).
    set (over := negb (batchResponseMaxSize h =? 0) && (batchResponseMaxSize h <? n)).
    set (s2 := upd s1 h1 (pushResponse (Some a) (buf s)) n (if over then MTooLarge else MLoop)).
    assert (Hpush : run_steps s s2).
    { etransitivity; [exact Hturn|]. apply main_once. exact (m_push h s1 (Some a) eq_refl). }
    assert (Hcase : (over = true ∧ r = (resp (buf s) ++ [a]) ++ error_answers too_large cs ∧
        e = true ∧ hs' = h1) ∨
      (over = false ∧ run_batch h cs n (resp (buf s) ++ [a]) h1 = (Ret (r, e), hs'))).
    { subst over n. destruct (decide (batchResponseMaxSize h ≠ 0)) as [Hz|Hz].
      - destruct (batchResponseMaxSize h =? 0) eqn:Ez; [lia|]. simpl.
        destruct (batchResponseMaxSize h <? _); [left|by right].
        injection Hrun as <- <- <-. done.
      - destruct (batchResponseMaxSize h =? 0) eqn:Ez; [|lia]. by right. }
    destruct Hcase as [(Hover & -> & -> & ->)|[Hover Hrun']].
    + destruct (finish_steps (upd s2 h1 (respondWithError too_large (buf s2)) n MStop))
        as (s' & Hs & Hm' & Hh & Hb); [done..|].
      exists s'. split_and!; [|done|done|].
      * etransitivity; [exact Hpush|].
        eapply rtc_l; [left; apply m_large; simpl; by rewrite Hover|exact Hs].
      * rewrite Hb. unfold respondWithError, doWrite. simpl. rewrite Hw, Hcalls. simpl.
        rewrite Ho. unfold written. by destruct ((resp (buf s) ++ [a]) ++ _).
    + destruct (IH s2) as (s' & Hs & Hrest); try done.
      * simpl. by rewrite Hover.
      * simpl. by rewrite Hcalls.
      * exists s'. split; [|exact Hrest]. by etransitivity.
Qed.

(** ** A single call *)

Definition single_inv msg (s : sstate A) : Prop :=
  (if responded s then ∃ a e, s_out s = [WMsg a e] ∧ answers msg a else s_out s = []) ∧
  match s_main s with
  | SRun => True
  | SStop answer | SSubs answer | SAnswer answer =>
      if isNotification msg then answer = None else ∃ a, answer = Some a ∧ answers msg a
  | SDone => isNotification msg = false → responded s = true
  end.

Lemma single_inv_step msg s s' : single_inv msg s → single_step h msg s s' → single_inv msg s'.
Proof.
  unfold single_inv. intros [Ho Hp] Hst.
  destruct Hst as [s answer hs' Hm Hr|s answer Hm|s answer Hm|s Hm|s a Hm|s Ht|s Ht|s Ht];
    try rewrite Hm in Hp; simpl; split; try done.
  - destruct (handleCallMsg_returns h msg (s_hs s)) as (r & h' & E & Hr'). by rewrite E in Hr; simplify_eq.
  - intros Hn. rewrite Hn in Hp. by destruct Hp as (a & ? & _).
  - destruct (responded s); [done|]. rewrite Ho. exists a, false. split; [done|].
    destruct (isNotification msg); [done|]. by destruct Hp as (a' & [= <-] & ?).
  - destruct (responded s); [done|]. rewrite Ho. eexists _, true. split; [done|]. apply answers_error.
  - by destruct (s_main s).
Qed.
End lemmas.

(** * Properties *)

(** C25: whatever the timing of the timeout, a batch is answered at most once;
    what is written answers a prefix of the calls in order, each once and
    notifications excepted, and all of them when it is marked as an error
    (timeout or size limit). *)
Theorem batch_written_once {A} (h : handler A) (hs0 : hstate A) (msgs : list jsonrpcMessage)
    (timeout : bool) (s : bstate A) :
  rtc (batch_step h) (batch_init hs0 msgs timeout) s →
  out (buf s) = [] ∨ ∃ w, out (buf s) = [w] ∧ answers_prefix msgs w.
Proof.
  intros Hs. pose proof (inv_steps h msgs _ s (inv_init hs0 msgs timeout) Hs) as [(? & _ & _ & Ho) _].
  exact Ho.
Qed.

(** Without a timeout the batch ends, and it ends like the sequential loop:
    the goroutine reaches its last line with the state and the responses that
    [run_batch] computes, written as one message, or not at all when every
    call was a notification. *)
Theorem batch_without_timeout {A} (h : handler A) (hs0 : hstate A) (msgs : list jsonrpcMessage) :
  ∃ r e hs1 s, run_batch h msgs 0 [] hs0 = (Ret (r, e), hs1) ∧
    rtc (batch_step h) (batch_init hs0 msgs false) s ∧ main s = MDone ∧
    hs s = (addSubscriptions hs1).2 ∧ out (buf s) = written r e ∧
    Forall2 answers (wants_answer msgs) r.
Proof.
  destruct (run_batch_returns h msgs [] 0 [] (List.Forall2_nil _) hs0) as ([r e] & hs1 & E & Hr).
  destruct (loop_steps h msgs (batch_init hs0 msgs false) r e hs1) as (s & Hs & Hm & Hh & Ho); [done..|].
  by exists r, e, hs1, s.
Qed.

Definition race_state {A} (h : hstate A) (b : batchCallBuffer) (cancel : bool) (m : main_pc) (t : timer_pc)
    : bstate A :=
  {| hs := h; buf := b; bytes := 0; cancelled := cancel; main := m; timer := t |}.


(** A single message is answered at most once, by a proper response; when
    its goroutine is done and it was not a notification it has been answered. *)
Theorem single_answered_once {A} (h : handler A) (msg : jsonrpcMessage) (hs0 : hstate A)
    (timeout : bool) (s : sstate A) :
  rtc (single_step h msg) (single_init hs0 timeout) s →
  (s_out s = [] ∨ ∃ a e, s_out s = [WMsg a e] ∧ answers msg a) ∧
  (s_main s = SDone → isNotification msg = false → s_out s ≠ []).
Proof.
  intros Hs. assert (Hi : single_inv msg s).
  { assert (Hgo : ∀ s1 s2, rtc (single_step h msg) s1 s2 → single_inv msg s1 → single_inv msg s2).
    { induction 1 as [|? ? ? Hst _ IH]; [done|]. intros Hi. by eapply IH, single_inv_step. }
    eapply Hgo; [exact Hs|]. by split. }
  destruct Hi as [Ho Hp]. split.
  - destruct (responded s); [by right|by left].
  - intros Hm Hn. rewrite Hm in Hp. rewrite (Hp Hn) in Ho. by destruct Ho as (a & e & -> & _).
Qed.

(** A notification must not be answered, and yet it is when it times out:
    for every notification there is an execution that writes an error response
    to it (the batch code excludes notifications, this code does not). *)
Theorem single_notification_timeout {A} (h : handler A) (msg : jsonrpcMessage) (hs0 : hstate A) :
  isNotification msg = true →
  ∃ s, rtc (single_step h msg) (single_init hs0 true) s ∧
    s_main s = SDone ∧ s_out s = [WMsg (errorResponse msg timed_out) true].
Proof.
  intros Hn. destruct (handleCallMsg_returns h msg hs0) as (answer & h1 & E & Ha).
  rewrite Hn in Ha. subst answer. eexists. split; [|split].
  - eapply rtc_l; [by apply s_fire|]. eapply rtc_l; [by apply s_cancel|].
    eapply rtc_l; [by apply s_timeout|]. eapply rtc_l; [by eapply s_run|].
    eapply rtc_l; [by eapply s_stop|]. eapply rtc_l; [by eapply s_subs|].
    eapply rtc_l; [by eapply s_none|]. apply rtc_refl.
  - done.
  - done.
Qed.

(** * Witnesses: a connection without services *)

Definition no_services : handler unit :=
  {| reg := ∅; allowSubscribe := false; batchRequestLimit := 0; batchResponseMaxSize := 0 |}.
Definition idle : hstate unit := {| app := tt; serverSubs := ∅; notifiers := []; sent := [] |}.
Definition a_call (id : string) : jsonrpcMessage :=
  Msg "2.0" (Some (JNum id)) "time_now" None None None.
Definition a_notification : jsonrpcMessage := Msg "2.0" None "time_now" None None None.

Lemma batch_written_once_witness :
  ∃ s, rtc (batch_step no_services) (batch_init idle [a_call "1"; a_call "2"] false) s ∧
    main s = MDone ∧
    (out (buf s) = [] ∨ ∃ w, out (buf s) = [w] ∧ answers_prefix [a_call "1"; a_call "2"] w).
Proof.
  set (msgs := [a_call "1"; a_call "2"]).
  destruct (run_batch no_services msgs 0 [] idle) as [[[r e]|w] hs1] eqn:E.
  - destruct (loop_steps no_services msgs (batch_init idle msgs false) r e hs1)
      as (s & Hs & Hm & _); try reflexivity; [exact E|].
    exists s. split; [exact Hs|]. split; [exact Hm|].
    exact (batch_written_once no_services idle msgs false s Hs).
  - vm_compute in E. discriminate.
Defined.


Lemma single_answered_once_witness :
  (s_out (single_init idle true) = [] ∨
   ∃ a e, s_out (single_init idle true) = [WMsg a e] ∧ answers (a_call "1") a) ∧
  (s_main (single_init idle true) = SDone → isNotification (a_call "1") = false →
   s_out (single_init idle true) ≠ []).
Proof. exact (single_answered_once no_services (a_call "1") idle true _ (rtc_refl _ _)). Defined.

Lemma single_notification_timeout_witness :
  ∃ s, rtc (single_step no_services a_notification) (single_init idle true) s ∧
    s_main s = SDone ∧ s_out s = [WMsg (errorResponse a_notification timed_out) true].
Proof. apply (single_notification_timeout no_services a_notification idle). reflexivity. Defined.
