(* ===== verification/RpcServer.v ===== *)
(** * Package rpc, the server (src/rpc/server.go)

    Registration of services, batch limits, tracking of codecs, stopping, and
    the service of one request as the HTTP transport uses it. *)

From S2P Require Import Prelude Strconv GoJson GoValue RpcErrors RpcJson RpcService RpcHandler.

Section rpc_server.
Context {A : Type}.

(** A codec is identified by a number; a closed codec is no longer read. *)
Record rpcServer := {
  services : serviceRegistry (hstate A);
  codecs : gset nat;
  closed : gset nat;
  run : bool;
  batchItemLimit : Z;
  batchResponseLimit : Z
}.

Definition MetadataApi : string := "rpc".

(** [Modules]: the registered services, all with version 1.0. *)
Definition Modules (s : rpcServer) : gmap string string := (λ _, "1.0") <$> services s.

(** The [RPCService] of a server with the given modules. *)
Definition modules_method (modules : gmap string string) : method (hstate A) := {|
  Name := "Modules"; PkgPath := "";
  In := [TPtr (TOpaque "rpc.RPCService" false)]; Out := [TMap TString];
  Func _ := mret [VMap (Some (prod_map id VStr <$> map_to_list modules))]
|}.

Definition set_services (r : serviceRegistry (hstate A)) (s : rpcServer) : rpcServer :=
  {| services := r; codecs := codecs s; closed := closed s; run := run s;
     batchItemLimit := batchItemLimit s; batchResponseLimit := batchResponseLimit s |}.

Definition RegisterName (name tname : string) (receiver : list (method (hstate A))) (s : rpcServer)
    : rpcServer * option goerror :=
  match registerName name tname receiver (services s) with
  | inl r => (set_services r s, None)
  | inr e => (s, Some e)
  end.

(** [modules] is what [Modules] answers when it is called later. *)
Definition NewServer (modules : gmap string string) : rpcServer :=
  (RegisterName MetadataApi "*rpc.RPCService" [modules_method modules]
     {| services := ∅; codecs := ∅; closed := ∅; run := true;
        batchItemLimit := 0; batchResponseLimit := 0 |}).1.

Definition SetBatchLimits (itemLimit maxResponseSize : Z) (s : rpcServer) : rpcServer :=
  {| services := services s; codecs := codecs s; closed := closed s; run := run s;
     batchItemLimit := itemLimit; batchResponseLimit := maxResponseSize |}.

Definition with_codecs (c cl : gset nat) (s : rpcServer) : rpcServer :=
  {| services := services s; codecs := c; closed := cl; run := run s;
     batchItemLimit := batchItemLimit s; batchResponseLimit := batchResponseLimit s |}.

Definition trackCodec (codec : nat) (s : rpcServer) : rpcServer * bool :=
  if negb (run s) then (s, false) else (with_codecs ({[codec]} ∪ codecs s) (closed s) s, true).

Definition untrackCodec (codec : nat) (s : rpcServer) : rpcServer :=
  with_codecs (codecs s ∖ {[codec]}) (closed s) s.

Definition Stop (s : rpcServer) : rpcServer :=
  if run s then
    {| services := services s; codecs := codecs s; closed := closed s ∪ codecs s; run := false;
       batchItemLimit := batchItemLimit s; batchResponseLimit := batchResponseLimit s |}
  else s.

(** [newHandler] with the limits of the server; subscriptions are switched
    off for HTTP. *)
Definition newHandler (s : rpcServer) (allow : bool) : handler A :=
  {| reg := services s; allowSubscribe := allow; batchRequestLimit := batchItemLimit s;
     batchResponseMaxSize := batchResponseLimit s |}.

(** The end of the stream before a value begins: [io.EOF]. *)
Definition at_EOF (stream : string) : bool := bool_decide (skip_ws stream = "").

Definition serveSingleRequest (s : rpcServer) (stream : string) : GoM (hstate A) unit :=
  if negb (run s) then mret tt
  else
    let h := newHandler s false in
    match readBatch stream with
    | None =>
        if at_EOF stream then mret tt
        else writeJSON (WMsg (errorMessage (rpc_err (invalidMessageError "parse error"))) true)
    | Some (reqs, batch, _) =>
        if batch then handleBatch h reqs
        else match reqs with m :: _ => handleMsg h m | [] => panic (IndexOutOfRange "reqs[0]") end
    end.
End rpc_server.

Arguments rpcServer : clear implicits.

(** * Lemmas *)

(** Serving a request does not panic. *)
Lemma serveSingleRequest_returns {A} (s : rpcServer A) (stream : string) (st : hstate A) :
  ∃ st', serveSingleRequest s stream st = (Ret tt, st').
Proof.
  unfold serveSingleRequest. destruct (negb (run s)); [by eexists|].
  destruct (readBatch stream) as [[[reqs batch] rest]|] eqn:Hb;
    [|destruct (at_EOF stream); by eexists].
  destruct batch; [|destruct reqs as [|m reqs]].
  - destruct (handleBatch_returns (newHandler s false) reqs st) as ([] & st' & E & _). by exists st'.
  - unfold readBatch in Hb. destruct (next_raw stream) as [[raw t]|]; [|done].
    unfold parseMessage in Hb. destruct (negb (isBatch raw)); simplify_eq/=.
  - destruct (handleMsg_returns (newHandler s false) m st) as ([] & st' & E & _). by exists st'.
Qed.

(** * Properties *)

(** A request is served without a panic: a stopped server does nothing, an
    empty body is ignored, a body that does not begin with a JSON value gets
    one "parse error" response with code -32700 and a null id and runs no
    method, and every other body is handed to the batch or message code. *)
Theorem serveSingleRequest_correct {A} (s : rpcServer A) (stream : string) (st : hstate A) :
  ∃ st', serveSingleRequest s stream st = (Ret tt, st') ∧
    (run s = false → st' = st) ∧
    (skip_ws stream = "" → st' = st) ∧
    (run s = true → parse_next stream = None → skip_ws stream ≠ "" →
       app st' = app st ∧ sent st' = sent st ++
         [WMsg (Msg vsn (Some JNull) "" None
            (Some {| Code := -32700; Message := "parse error"; Data := None |}) None) true]).
Proof.
  destruct (serveSingleRequest_returns s stream st) as [st' E]. exists st'. split; [exact E|]. unfold serveSingleRequest in E.
  assert (Hnone : parse_next stream = None → readBatch stream = None).
  { intros Hp. unfold readBatch, next_raw. by rewrite Hp. }
  split_and!.
  - intros Hr. rewrite Hr in E. by injection E.
  - intros He. destruct (negb (run s)); [by injection E|].
    rewrite Hnone in E.
    + unfold at_EOF in E. rewrite bool_decide_true in E by done. by injection E.
    + unfold parse_next. cbn [pval]. by rewrite He.
  - intros Hr Hp Hne. rewrite Hr, (Hnone Hp) in E. unfold at_EOF in E.
    rewrite bool_decide_false in E by done. by injection E as <-.
Qed.

(** [Stop] closes every codec that is being served; afterwards no codec is
    accepted, no request is served, and stopping again changes nothing. *)
Theorem Stop_correct {A} (s : rpcServer A) (codec : nat) (stream : string) (st : hstate A) :
  (run s = true → codecs s ⊆ closed (Stop s)) ∧
  trackCodec codec (Stop s) = (Stop s, false) ∧
  serveSingleRequest (Stop s) stream st = (Ret tt, st) ∧
  Stop (Stop s) = Stop s.
Proof.
  unfold Stop, trackCodec, serveSingleRequest. destruct (run s) eqn:Hr; simpl.
  - split_and!; [set_solver|done..].
  - rewrite Hr. simpl. done.
Qed.
