(* ===== verification/HttpConn.v ===== *)
(** * Package rpc, the HTTP transport of the server (src/rpc/http.go)

    Which requests are handed to the RPC server and what the others are
    answered; timeouts.  [mime.ParseMediaType] is the standard library's. *)

From S2P Require Import Prelude Strconv GoJson GoValue RpcErrors RpcJson RpcService RpcHandler.
From S2P Require Import RpcServer.

(** ** Timeouts, in nanoseconds *)

Record HTTPTimeouts := {
  ReadTimeout : Z; ReadHeaderTimeout : Z; WriteTimeout : Z; IdleTimeout : Z
}.

Definition second : Z := 1000000000.

Definition DefaultHTTPTimeouts : HTTPTimeouts :=
  {| ReadTimeout := 600 * second; ReadHeaderTimeout := 600 * second;
     WriteTimeout := 600 * second; IdleTimeout := 600 * second |}.

(** [remaining] is the time until the deadline of the context, [writeTimeout]
    the one of the HTTP server, when the context comes from one. *)
Definition ContextRequestTimeout (remaining writeTimeout : option Z) : Z * bool :=
  let setTimeout d '(timeout, hasTimeout) :=
    if d <? timeout then (d, true) else (timeout, hasTimeout) in
  let t := (max_int64, false) in
  let t := match remaining with Some d => setTimeout d t | None => t end in
  match writeTimeout with
  | Some wt => if 0 <? wt then setTimeout (wt - 100 * 1000000) t else t
  | None => t
  end.

(** ** Requests *)

Record request := {
  r_Method : string;
  r_Path : string;            (* r.URL.Path *)
  r_RawQuery : string;        (* r.URL.RawQuery *)
  r_Host : string;
  r_ContentLength : Z;        (* -1: unknown *)
  h_ContentType : string;     (* headers, "" when absent *)
  h_Upgrade : string;
  h_Connection : string;
  h_AcceptEncoding : string;
  r_Body : string
}.

(** ** [mime.ParseMediaType] *)

Definition is_space (c : ascii) : bool := in_range 9 13 c || bool_decide (c = " "%char).

Fixpoint TrimLeft (s : string) : string :=
  match s with
  | String c r => if is_space c then TrimLeft r else s
  | EmptyString => ""
  end.

(** The text without trailing white space. *)
Fixpoint TrimRight (s : string) : string :=
  match s with
  | String c r =>
      match TrimRight r with
      | EmptyString => if is_space c then "" else String c ""
      | r' => String c r'
      end
  | EmptyString => ""
  end.

Definition TrimSpace (s : string) : string := TrimRight (TrimLeft s).

Definition isTSpecial (c : ascii) : bool :=
  string_mem c "()<>@,;:\/[]?=" || bool_decide (c = dquote).
Definition isTokenChar (c : ascii) : bool := in_range 33 126 c && negb (isTSpecial c).

Fixpoint consumeToken (s : string) : string * string :=
  match s with
  | String c r => if isTokenChar c then let '(t, rest) := consumeToken r in (String c t, rest) else ("", s)
  | EmptyString => ("", "")
  end.

(** The inside of a quoted string: its value and the rest, [None] when it is
    not closed or broken by a new line. *)
Fixpoint consume_quoted (s : string) : option (string * string) :=
  match s with
  | EmptyString => None
  | String c r =>
      if decide (c = dquote) then Some ("", r)
      else
        match r with
        | String d r' =>
            if bool_decide (c = "\"%char) && isTSpecial d then
              '(v, rest) ← consume_quoted r'; Some (String d v, rest)
            else if is_newline c then None
            else '(v, rest) ← consume_quoted r; Some (String c v, rest)
        | EmptyString => None
        end
  end.

(** A value and the rest; [None] when nothing was consumed. *)
Definition consumeValue (s : string) : option (string * string) :=
  match s with
  | EmptyString => None
  | String c r =>
      if decide (c = dquote) then consume_quoted r
      else match consumeToken s with (EmptyString, _) => None | p => Some p end
  end.

(** [;key=value] with white space in between. *)
Definition consumeMediaParam (v : string) : option (string * string * string) :=
  match TrimLeft v with
  | String ";" rest =>
      let '(param, rest) := consumeToken (TrimLeft rest) in
      if decide (param = "") then None
      else
        match TrimLeft rest with
        | String "=" rest =>
            '(value, rest) ← consumeValue (TrimLeft rest); Some (ToLower param, value, rest)
        | _ => None
        end
  | _ => None
  end.

(** Are the parameters well formed?  A key may come twice with one value.
    Each round consumes text, so the length is enough fuel. *)
Fixpoint media_params (fuel : nat) (seen : gmap string string) (v : string) : bool :=
  match fuel with
  | O => false
  | S fuel =>
      let v := TrimLeft v in
      if decide (v = "") then true
      else
        match consumeMediaParam v with
        | None => bool_decide (TrimSpace v = ";")
        | Some (key, value, rest) =>
            match seen !! key with
            | Some value' =>
                if decide (value' = value) then media_params fuel seen rest else false
            | None => media_params fuel (<[key := value]> seen) rest
            end
        end
  end.

Definition checkMediaTypeDisposition (s : string) : bool :=
  let '(typ, rest) := consumeToken s in
  if decide (typ = "") then false
  else
    match rest with
    | EmptyString => true
    | String "/" rest =>
        let '(subtype, rest) := consumeToken rest in
        negb (bool_decide (subtype = "")) && bool_decide (rest = "")
    | _ => false
    end.

(** The media type, [None] for an error. *)
Definition ParseMediaType (v : string) : option string :=
  let '(base, params) := match cut_at ";" v with Some (b, r) => (b, String ";" r) | None => (v, "") end in
  let mediatype := TrimSpace (ToLower base) in
  if checkMediaTypeDisposition mediatype && media_params (S (String.length params)) ∅ params
  then Some mediatype else None.

(** ** Validation *)

Definition maxRequestContentLength : Z := 1024 * 1024 * 32.
Definition contentType : string := "application/json".
Definition acceptedContentTypes : list string :=
  [contentType; "application/json-rpc"; "application/jsonrequest"].

(** The status code and the message of a rejected request. *)
Definition validateRequest (r : request) : option (Z * string) :=
  if bool_decide (r_Method r = "PUT") || bool_decide (r_Method r = "DELETE")
  then Some (405, "method not allowed")
  else if maxRequestContentLength <? r_ContentLength r then
    Some (413, "content length too large (" +:+ FormatInt (r_ContentLength r) +:+ ">"
                 +:+ FormatInt maxRequestContentLength +:+ ")")
  else if decide (r_Method r = "OPTIONS") then None
  else
    match ParseMediaType (h_ContentType r) with
    | Some mt =>
        if decide (mt ∈ acceptedContentTypes) then None
        else Some (415, "invalid content type, only " +:+ contentType +:+ " is supported")
    | None => Some (415, "invalid content type, only " +:+ contentType +:+ " is supported")
    end.

(** [io.LimitReader]: the first [n] bytes. *)
Fixpoint limit_bytes (n : Z) (s : string) : string :=
  match s with
  | String c r => if n <=? 0 then "" else String c (limit_bytes (n - 1) r)
  | EmptyString => ""
  end.

(** What the client gets: a status line with a text, or status 200 with the
    messages the RPC server wrote. *)
Inductive http_reply :=
| Status (code : Z) (body : string)
| Served.

Section serve.
Context {A : Type}.

Definition ServeHTTP (s : rpcServer A) (r : request) : GoM (hstate A) http_reply :=
  if bool_decide (r_Method r = "GET") && (r_ContentLength r =? 0) && bool_decide (r_RawQuery r = "")
  then mret (Status 200 "")
  else
    match validateRequest r with
    | Some (code, err) => mret (Status code (err +:+ String "010" ""))
    | None =>
        _ ← serveSingleRequest s (limit_bytes maxRequestContentLength (r_Body r));
        mret Served
    end.
End serve.

(** * Lemmas *)

(** The requests [validateRequest] lets through. *)
Definition valid_request (r : request) : Prop :=
  r_Method r ≠ "PUT" ∧ r_Method r ≠ "DELETE" ∧ r_ContentLength r ≤ 32 * 1024 * 1024 ∧
  (r_Method r = "OPTIONS" ∨
   ∃ mt, ParseMediaType (h_ContentType r) = Some mt ∧ mt ∈ acceptedContentTypes).

Lemma validateRequest_spec r :
  match validateRequest r with
  | Some (code, _) => code ∈ [200; 405; 413; 415] ∧ ¬ valid_request r
  | None => valid_request r
  end.
Proof.
  unfold validateRequest, valid_request.
  destruct (bool_decide (r_Method r = "PUT") || bool_decide (r_Method r = "DELETE")) eqn:Em.
  { apply orb_true_iff in Em as [E%bool_decide_eq_true|E%bool_decide_eq_true];
      (split; [set_solver|naive_solver]). }
  apply orb_false_iff in Em as [E1%bool_decide_eq_false E2%bool_decide_eq_false].
  destruct (Z.ltb_spec maxRequestContentLength (r_ContentLength r)) as [El|El];
    unfold maxRequestContentLength in El; [split; [set_solver|lia]|].
  case_decide; [split_and!; [done..|lia|by left]|].
  destruct (ParseMediaType (h_ContentType r)) as [mt|]; [case_decide|].
  - split_and!; [done..|lia|]. right. by exists mt.
  - split; [set_solver|naive_solver].
  - split; [set_solver|naive_solver].
Qed.

(** The server changes state for valid requests only. *)
Lemma ServeHTTP_changes {A} (s : rpcServer A) (r : request) (st : hstate A) o st' :
  ServeHTTP s r st = (o, st') → (∃ a, o = Ret a) ∧ (st' = st ∨ valid_request r).
Proof.
  unfold ServeHTTP. destruct (bool_decide _ && _ && _); [intros [= <- <-]; by eauto|].
  pose proof (validateRequest_spec r) as Hv. destruct (validateRequest r) as [[code err]|].
  - intros [= <- <-]. by eauto.
  - destruct (serveSingleRequest_returns s (limit_bytes maxRequestContentLength (r_Body r)) st)
      as [st1 E]. unfold mbind, GoM_bind. rewrite E. intros [= <- <-]. by eauto.
Qed.

(** * Properties *)

(** An HTTP request never makes the server panic.  It is handed to the RPC
    server exactly when it is no empty health check, uses no PUT or DELETE,
    announces at most 32 MiB and has one of the three JSON content types (which
    OPTIONS need not have); every other request is answered with 200, 405, 413
    or 415 and changes nothing. *)
Theorem ServeHTTP_correct {A} (s : rpcServer A) (r : request) (st : hstate A) :
  ∃ reply st', ServeHTTP s r st = (Ret reply, st') ∧
    (reply = Served ↔
       ¬ (r_Method r = "GET" ∧ r_ContentLength r = 0 ∧ r_RawQuery r = "") ∧
       r_Method r ≠ "PUT" ∧ r_Method r ≠ "DELETE" ∧ r_ContentLength r ≤ 32 * 1024 * 1024 ∧
       (r_Method r = "OPTIONS" ∨
        ∃ mt, ParseMediaType (h_ContentType r) = Some mt ∧ mt ∈ acceptedContentTypes)) ∧
    (reply ≠ Served → st' = st ∧ ∃ code body, reply = Status code body ∧ code ∈ [200; 405; 413; 415]).
Proof.
  unfold ServeHTTP.
  destruct (bool_decide (r_Method r = "GET") && (r_ContentLength r =? 0)
    && bool_decide (r_RawQuery r = "")) eqn:Eg.
  { apply andb_true_iff in Eg as [[Em%bool_decide_eq_true El%Z.eqb_eq]%andb_true_iff Eq%bool_decide_eq_true].
    exists (Status 200 ""), st. split_and!; [done|naive_solver|]. intros _. split; [done|].
    exists 200, "". split; [done|]. set_solver. }
  assert (Hg : ¬ (r_Method r = "GET" ∧ r_ContentLength r = 0 ∧ r_RawQuery r = "")).
  { intros (Em & El & Eq). rewrite Em, El, Eq in Eg. done. }
  clear Eg. pose proof (validateRequest_spec r) as Hv. unfold valid_request in Hv.
  destruct (validateRequest r) as [[code err]|].
  - destruct Hv as [Hc Hn]. exists (Status code (err +:+ String "010" "")), st.
    split_and!; [done|naive_solver|]. intros _. split; [done|]. by eexists _, _.
  - destruct (serveSingleRequest_returns s (limit_bytes maxRequestContentLength (r_Body r)) st) as [st' E].
    exists Served, st'. unfold mbind, GoM_bind. rewrite E. split_and!; [done|naive_solver|done].
Qed.

Section sample.
Definition post (ct body : string) : request := {|
  r_Method := "POST"; r_Path := "/"; r_RawQuery := ""; r_Host := "127.0.0.1:10000";
  r_ContentLength := Z.of_nat (String.length body); h_ContentType := ct; h_Upgrade := "";
  h_Connection := ""; h_AcceptEncoding := ""; r_Body := body
|}.

Example content_types :
  ParseMediaType "application/json" = Some contentType ∧
  ParseMediaType " Application/JSON ; charset=utf-8;" = Some contentType ∧
  ParseMediaType "application/json; charset" = None ∧
  validateRequest (post "text/plain" "{}")
    = Some (415, "invalid content type, only application/json is supported").
Proof. vm_compute. done. Qed.
End sample.
