(* ===== verification/HttpStack.v ===== *)
(** * The HTTP server (src/server/rpcstack.go)

    Registration of APIs under the module filter, the life cycle of
    [httpServer], the routing of a request, virtual hosts, response
    compression and timeout checks.  Opening a port is third-party: whether
    [net.Listen] succeeds is an argument of [start].  Log lines are left out. *)

From S2P Require Import Prelude Strconv GoJson GoValue RpcErrors RpcJson RpcService RpcHandler.
From S2P Require Import RpcServer HttpConn.

(** ** Timeouts *)

Definition sane (given default : Z) : Z := if given <? second then default else given.

Definition CheckTimeouts (t : HTTPTimeouts) : HTTPTimeouts :=
  {| ReadTimeout := sane (ReadTimeout t) (ReadTimeout DefaultHTTPTimeouts);
     ReadHeaderTimeout := sane (ReadHeaderTimeout t) (ReadHeaderTimeout DefaultHTTPTimeouts);
     WriteTimeout := sane (WriteTimeout t) (WriteTimeout DefaultHTTPTimeouts);
     IdleTimeout := sane (IdleTimeout t) (IdleTimeout DefaultHTTPTimeouts) |}.

(** ** Requests *)

(** [strings.EqualFold] against an ASCII word. *)
Definition EqualFold (s t : string) : bool := bool_decide (fold_key s = fold_key t).

Definition isWebsocket (r : request) : bool :=
  EqualFold (h_Upgrade r) "websocket" && strings_Contains (ToLower (h_Connection r)) "upgrade".

Definition checkPath (r : request) (path : string) : bool :=
  if decide (path = "") then bool_decide (r_Path r = "/") else HasPrefix (r_Path r) path.

Inductive prefix_error := NoLeadingSlash | MetaCharacters.

Definition validatePrefix (path : string) : option prefix_error :=
  match path with
  | EmptyString => None
  | String c _ =>
      if decide (c ≠ "/"%char) then Some NoLeadingSlash
      else if string_mem "?" path || string_mem "#" path then Some MetaCharacters
      else None
  end.

(** ** Host names ([net.SplitHostPort], [net.ParseIP]) *)

(** The text before and after the last occurrence of a byte. *)
Definition cut_last (c : ascii) (s : string) : option (string * string) :=
  match rev (split_on c s) with
  | w :: (v :: vs) as l => Some (String.concat (String c "") (rev (v :: vs)), w)
  | _ => None
  end.

(** The host part; [None] for an error. *)
Definition SplitHostPort (hostport : string) : option string :=
  match cut_last ":" hostport with
  | None => None
  | Some (before, port) =>
      match hostport with
      | String c r =>
          if decide (c = "["%char) then
            match cut_at "]" r with
            | None => None
            | Some (host, tail) =>
                if decide (tail = String ":" port) then
                  if string_mem "[" r || string_mem "]" tail then None else Some host
                else None
            end
          else if string_mem ":" before || string_mem "[" hostport || string_mem "]" hostport
               then None else Some before
      | EmptyString => None
      end
  end.

Definition ipv4_field (s : string) : bool :=
  match s with
  | EmptyString => false
  | String c r =>
      match ParseUint s with
      | (z, None) => (z <=? 255) && (bool_decide (r = "") || negb (bool_decide (c = "0"%char)))
      | _ => false
      end
  end.

Definition parseIPv4 (s : string) : bool :=
  let fields := split_on "." s in
  bool_decide (length fields = 4%nat) && forallb ipv4_field fields.

(** Hexadecimal digits at the front: how many, and the rest. *)
Fixpoint span_hex (s : string) : nat * string :=
  match s with
  | String c r => if is_hex c then let '(n, t) := span_hex r in (S n, t) else (0%nat, s)
  | EmptyString => (0%nat, s)
  end.

(** The groups of an IPv6 address; [i] bytes are read, [ell] tells whether
    [::] was met. Leading zeros are allowed, more than four digits are not. *)
Fixpoint ipv6_groups (fuel : nat) (i : Z) (ell : bool) (s : string) : bool :=
  match fuel with
  | O => false
  | S fuel' =>
      if 16 <=? i then bool_decide (s = "") && negb ell
      else
        let '(n, t) := span_hex s in
        if (bool_decide (n = 0%nat)) || (4 <? n)%nat then false
        else
          match t with
          | EmptyString => let i := i + 2 in if i <? 16 then ell else negb ell
          | String c t' =>
              if decide (c = "."%char) then
                (ell || (i =? 12)) && (i + 4 <=? 16) && parseIPv4 s
                && (if i + 4 <? 16 then ell else negb ell)
              else if decide (c = ":"%char) then
                match t' with
                | EmptyString => false
                | String d t'' =>
                    if decide (d = ":"%char) then
                      if ell then false
                      else if decide (t'' = "") then i + 2 <? 16
                      else ipv6_groups fuel' (i + 2) true t''
                    else ipv6_groups fuel' (i + 2) ell t'
                end
              else false
          end
  end.

Definition parseIPv6 (s : string) : bool :=
  if HasPrefix s "::" then
    let r := String.substring 2 (String.length s) s in
    if decide (r = "") then true else ipv6_groups (S (String.length s)) 0 true r
  else ipv6_groups (S (String.length s)) 0 false s.

(** The first dot or colon decides which form is tried. *)
Fixpoint ip_form (s : string) : option ascii :=
  match s with
  | EmptyString => None
  | String c r => if bool_decide (c = "."%char) || bool_decide (c = ":"%char) then Some c else ip_form r
  end.

Definition ParseIP (s : string) : bool :=
  match ip_form s with
  | Some c => if decide (c = "."%char) then parseIPv4 s else parseIPv6 s
  | None => false
  end.

(** ** Virtual hosts *)

Definition newVHostHandler (vhosts : list string) : gset string :=
  list_to_set (ToLower <$> vhosts).

(** Whether the request is passed on; otherwise it is answered with 403. *)
Definition vhost_allows (vhosts : gset string) (r : request) : bool :=
  if decide (r_Host r = "") then true
  else
    let host := match SplitHostPort (r_Host r) with Some host => host | None => r_Host r end in
    if ParseIP host then true
    else if decide ("*" ∈ vhosts) then true
    else if decide (host ∈ vhosts) then true
    else false.

(** ** CORS

    The package rs/cors is third-party: it adds headers to every response and
    answers preflight requests itself. *)

Record cors_options := {
  AllowedOrigins : list string;
  AllowedMethods : list string;
  AllowedHeaders : list string;
  MaxAge : Z
}.

Class CorsLib := cors_answers : cors_options → request → bool.

(** The options [newCorsHandler] gives to rs/cors. *)
Definition service_cors (allowedOrigins : list string) : cors_options :=
  {| AllowedOrigins := allowedOrigins; AllowedMethods := ["POST"; "GET"]; AllowedHeaders := ["*"];
     MaxAge := 600 |}.

Inductive stack_reply :=
| Answered (code : Z) (body : string)
| Preflight
| Upgraded                    (* the connection goes to the websocket code *)
| ByRpc (reply : http_reply).

(** ** Compression *)

(** [newGzipHandler]: is the writer wrapped for this request? *)
Definition gzip_wraps (r : request) : bool := strings_Contains (h_AcceptEncoding r) "gzip".

(** ** The server *)

Section http_server.
Context {A : Type}.

Abbreviation API := (string * (string * list (method (hstate A))))%type.

(** [checkModuleAvailability]: the unknown modules and the available ones. *)
Definition checkModuleAvailability (modules : list string) (apis : list API)
    : list string * list string :=
  let available := foldl (λ av api, if decide (api.1 ∈ av) then av else av ++ [api.1]) [] apis in
  (filter (λ name, name ∉ available ∧ name ≠ "rpc" ∧ name ≠ "engine") modules, available).

(** [RegisterApis]: the allowed services, until one cannot be registered. *)
Fixpoint register_apis (allowList : gset string) (apis : list API) (srv : rpcServer A)
    : rpcServer A * option goerror :=
  match apis with
  | [] => (srv, None)
  | api :: apis' =>
      if bool_decide (api.1 ∈ allowList) || bool_decide (size allowList = 0%nat) then
        match RegisterName api.1 api.2.1 api.2.2 srv with
        | (srv, Some err) => (srv, Some err)
        | (srv, None) => register_apis allowList apis' srv
        end
      else register_apis allowList apis' srv
  end.

Definition RegisterApis (apis : list API) (modules : list string) (srv : rpcServer A)
    : rpcServer A * option goerror :=
  register_apis (list_to_set modules) apis srv.

Record httpConfig := {
  Modules : list string;
  CorsAllowedOrigins : list string;
  Vhosts : list string;
  prefix : string;
  batchItemLimit : Z;
  batchResponseSizeLimit : Z
}.

Record wsConfig := {
  ws_Modules : list string;
  Origins : list string;
  ws_prefix : string;
  ws_batchItemLimit : Z;
  ws_batchResponseSizeLimit : Z
}.

Record httpServer := {
  timeouts : HTTPTimeouts;
  server : bool;                    (* h.server is not nil *)
  listener : bool;                  (* running *)
  http_config : option httpConfig;
  httpHandler : option (rpcServer A);
  ws_config : option wsConfig;
  wsHandler : option (rpcServer A);
  endpoint : string;
  host : string;
  port : Z
}.

Definition newHTTPServer (timeouts : HTTPTimeouts) : httpServer :=
  {| timeouts := timeouts; server := false; listener := false; http_config := None;
     httpHandler := None; ws_config := None; wsHandler := None; endpoint := ""; host := "";
     port := 0 |}.

Definition set_handlers (http ws : option (rpcServer A)) (h : httpServer) : httpServer :=
  {| timeouts := timeouts h; server := server h; listener := listener h;
     http_config := http_config h; httpHandler := http; ws_config := ws_config h;
     wsHandler := ws; endpoint := endpoint h; host := host h; port := port h |}.

Definition set_running (server listener : bool) (h : httpServer) : httpServer :=
  {| timeouts := timeouts h; server := server; listener := listener;
     http_config := http_config h; httpHandler := httpHandler h; ws_config := ws_config h;
     wsHandler := wsHandler h; endpoint := endpoint h; host := host h; port := port h |}.

Definition set_addr (endpoint host : string) (port : Z) (h : httpServer) : httpServer :=
  {| timeouts := timeouts h; server := server h; listener := listener h;
     http_config := http_config h; httpHandler := httpHandler h; ws_config := ws_config h;
     wsHandler := wsHandler h; endpoint := endpoint; host := host; port := port |}.

Definition set_http_config (c : httpConfig) (h : httpServer) : httpServer :=
  {| timeouts := timeouts h; server := server h; listener := listener h;
     http_config := Some c; httpHandler := httpHandler h; ws_config := ws_config h;
     wsHandler := wsHandler h; endpoint := endpoint h; host := host h; port := port h |}.

Definition set_ws_config (c : wsConfig) (h : httpServer) : httpServer :=
  {| timeouts := timeouts h; server := server h; listener := listener h;
     http_config := http_config h; httpHandler := httpHandler h; ws_config := Some c;
     wsHandler := wsHandler h; endpoint := endpoint h; host := host h; port := port h |}.

(** [net.JoinHostPort]. *)
Definition JoinHostPort (host port : string) : string :=
  if string_mem ":" host then "[" +:+ host +:+ "]:" +:+ port else host +:+ ":" +:+ port.

Inductive http_error :=
| AlreadyRunning (endpoint : string)
| HttpAlreadyEnabled
| WsAlreadyEnabled
| ListenFailed
| RegisterFailed (e : goerror).

Definition setListenAddr (host' : string) (port' : Z) (h : httpServer)
    : httpServer * option http_error :=
  if listener h && (negb (bool_decide (host' = host h)) || negb (port' =? port h))
  then (h, Some (AlreadyRunning (endpoint h)))
  else (set_addr (JoinHostPort host' (FormatInt port')) host' port' h, None).

Definition rpcAllowed (h : httpServer) : bool :=
  match httpHandler h with Some _ => true | None => false end.
Definition wsAllowed (h : httpServer) : bool :=
  match wsHandler h with Some _ => true | None => false end.

(** A handler that is dropped has its RPC server stopped, see
    [RpcServer.Stop]; no request reaches that server afterwards.  The result
    tells whether there was a handler. *)
Definition disableRPC (h : httpServer) : httpServer * bool :=
  (set_handlers None (wsHandler h) h, rpcAllowed h).
Definition disableWS (h : httpServer) : httpServer * bool :=
  (set_handlers (httpHandler h) None h, wsAllowed h).

Definition start (listens : bool) (h : httpServer) : httpServer * option http_error :=
  if bool_decide (endpoint h = "") || listener h then (h, None)
  else
    let h := set_running true (listener h) h in
    if negb listens then ((disableWS (disableRPC h).1).1, Some ListenFailed)
    else (set_running true true h, None).

(** [doStop]: the handlers go, then the address. *)
Definition doStop (h : httpServer) : httpServer :=
  if negb (listener h) then h
  else set_running false false (set_addr "" "" 0 (set_handlers None None h)).

Definition stop (h : httpServer) : httpServer := doStop h.

(** [modules]: what rpc_modules will answer. *)
Definition enableRPC (modules : gmap string string) (apis : list API) (c : httpConfig)
    (h : httpServer) : httpServer * option http_error :=
  if rpcAllowed h then (h, Some HttpAlreadyEnabled)
  else
    let srv := SetBatchLimits (batchItemLimit c) (batchResponseSizeLimit c) (NewServer modules) in
    match RegisterApis apis (Modules c) srv with
    | (_, Some err) => (h, Some (RegisterFailed err))
    | (srv, None) => (set_handlers (Some srv) (wsHandler h) (set_http_config c h), None)
    end.

Definition enableWS (modules : gmap string string) (apis : list API) (c : wsConfig)
    (h : httpServer) : httpServer * option http_error :=
  if wsAllowed h then (h, Some WsAlreadyEnabled)
  else
    let srv := SetBatchLimits (ws_batchItemLimit c) (ws_batchResponseSizeLimit c)
      (NewServer modules) in
    match RegisterApis apis (ws_Modules c) srv with
    | (_, Some err) => (h, Some (RegisterFailed err))
    | (srv, None) => (set_handlers (httpHandler h) (Some srv) (set_ws_config c h), None)
    end.

Definition stopWS (h : httpServer) : httpServer :=
  let '(h, was) := disableWS h in
  if was then if negb (rpcAllowed h) then doStop h else h else h.

(** ** Routing *)

Inductive route :=
| ToWebsocket (srv : rpcServer A)
| Unanswered                       (* nothing is written: an empty 200 *)
| ToMux
| ToRpc (srv : rpcServer A)
| NotFound.

(** [in_mux]: the mux has a pattern for the request. *)
Definition ServeHTTP (in_mux : request → bool) (r : request) (h : httpServer) : route :=
  match wsHandler h, isWebsocket r with
  | Some ws, true =>
      if checkPath r (match ws_config h with Some c => ws_prefix c | None => "" end)
      then ToWebsocket ws else Unanswered
  | _, _ =>
      match httpHandler h with
      | Some srv =>
          if in_mux r then ToMux
          else if checkPath r (match http_config h with Some c => prefix c | None => "" end)
          then ToRpc srv else NotFound
      | None => NotFound
      end
  end.

Abbreviation handler := (request → GoM (hstate A) stack_reply).

(** No handler without configured origins. *)
Definition newCorsHandler `{!CorsLib} (srv : handler) (allowedOrigins : list string) : handler :=
  if decide (allowedOrigins = []) then srv
  else λ r, if cors_answers (service_cors allowedOrigins) r then mret Preflight else srv r.

(** [virtualHostHandler.ServeHTTP]. *)
Definition vhost_serve (vhosts : gset string) (next : handler) : handler := λ r,
  if vhost_allows vhosts r then next r
  else mret (Answered 403 ("invalid host specified" +:+ String "010" "")).

(** The virtual hosts, then CORS around the RPC server; what the writer of
    [newGzipHandler] does to the reply is in HttpGzip.v. *)
Definition NewHTTPHandlerStack `{!CorsLib} (srv : rpcServer A) (cors vhosts : list string) : handler :=
  let handler := newCorsHandler (λ r, reply ← HttpConn.ServeHTTP srv r; mret (ByRpc reply)) cors in
  vhost_serve (newVHostHandler vhosts) handler.

(** A websocket handler is left as it is. *)
Definition NewWSHandlerStack (srv : handler) (jwtSecret : string) : handler := srv.

(** The server of [StartHTTPEndpoint], which serves from then on, and its
    address; [listen] is the answer of [net.Listen]. *)
Record http_Server := { hs_Handler : handler; hs_timeouts : HTTPTimeouts }.

Definition StartHTTPEndpoint (listen : string → string + string) (endpoint : string)
    (timeouts : HTTPTimeouts) (h : handler) : (http_Server * string) + string :=
  match listen endpoint with
  | inl addr => inl ({| hs_Handler := h; hs_timeouts := CheckTimeouts timeouts |}, addr)
  | inr err => inr err
  end.

(** A plain HTTP request on a server without handlers in the mux. *)
Definition serve_http `{!CorsLib} (h : httpServer) (r : request) : GoM (hstate A) stack_reply :=
  match ServeHTTP (λ _, false) r h with
  | ToRpc srv =>
      match http_config h with
      | Some c => NewHTTPHandlerStack srv (CorsAllowedOrigins c) (Vhosts c) r
      | None => mret (Answered 404 "")
      end
  | ToWebsocket _ => mret Upgraded
  | Unanswered | ToMux => mret (Answered 200 "")
  | NotFound => mret (Answered 404 "")
  end.

(** ** Sequences of operations

    Each operation holds the mutex of the server, so a run of the server is
    a sequence of them. *)

Inductive http_op :=
| SetListenAddr (host : string) (port : Z)
| EnableRPC (modules : gmap string string) (apis : list API) (c : httpConfig)
| EnableWS (modules : gmap string string) (apis : list API) (c : wsConfig)
| Start (listens : bool)
| StopWS
| StopServer.

Definition http_step (op : http_op) (h : httpServer) : httpServer * option http_error :=
  match op with
  | SetListenAddr host port => setListenAddr host port h
  | EnableRPC modules apis c => enableRPC modules apis c h
  | EnableWS modules apis c => enableWS modules apis c h
  | Start listens => start listens h
  | StopWS => (stopWS h, None)
  | StopServer => (stop h, None)
  end.

Definition http_run (ops : list http_op) (h : httpServer) : httpServer :=
  foldl (λ h op, (http_step op h).1) h ops.

Definition stops (op : http_op) : bool :=
  match op with StopWS | StopServer => true | _ => false end.
End http_server.

Arguments httpServer : clear implicits.
Arguments http_op : clear implicits.

(** * Lemmas *)

Lemma sane_spec given default :
  second ≤ default →
  second ≤ sane given default ∧ (second ≤ given → sane given default = given) ∧
  (given < second → sane given default = default).
Proof. unfold sane. destruct (Z.ltb_spec given second); lia. Qed.

Lemma sane_idemp given default :
  second ≤ default → sane (sane given default) default = sane given default.
Proof. unfold sane. destruct (Z.ltb_spec given second); [intros; case_match; lia|]. by destruct (Z.ltb_spec given second); [lia|]. Qed.

Section lemmas.
Context {A : Type}.
Implicit Types (h : httpServer A) (srv : rpcServer A).

(** The address of a server that runs is the one it was started with. *)
Definition http_wf (t : HTTPTimeouts) (h : httpServer A) : Prop :=
  timeouts h = t ∧
  (endpoint h = "" ∧ host h = "" ∧ port h = 0 ∨
   endpoint h = JoinHostPort (host h) (FormatInt (port h))) ∧
  (listener h = true → server h = true ∧ endpoint h ≠ "").

Lemma JoinHostPort_nonempty host port : JoinHostPort host port ≠ "".
Proof. unfold JoinHostPort. destruct (string_mem _ _); [done|]. by destruct host. Qed.

Lemma doStop_wf t h : http_wf t h → http_wf t (doStop h).
Proof.
  intros (Ht & He & Hr). unfold doStop. destruct (listener h) eqn:El; simpl; [|by split_and!; rewrite ?El].
  split_and!; [done|by left|done].
Qed.

Lemma http_step_wf t op h : http_wf t h → http_wf t (http_step op h).1.
Proof.
  intros (Ht & He & Hr). destruct op; simpl.
  - unfold setListenAddr. destruct (listener h && _); simpl; [by split_and!|].
    split_and!; [done|by right|]. intros Hl. split; [by apply Hr|apply JoinHostPort_nonempty].
  - unfold enableRPC. destruct (rpcAllowed h); [by split_and!|].
    destruct (RegisterApis _ _ _) as [? [?|]]; by split_and!.
  - unfold enableWS. destruct (wsAllowed h); [by split_and!|].
    destruct (RegisterApis _ _ _) as [? [?|]]; by split_and!.
  - unfold start. case_bool_decide as E; simpl; [by split_and!|].
    destruct (listener h) eqn:El; simpl; [by split_and!; rewrite ?El|].
    destruct listens; simpl; by split_and!.
  - unfold stopWS, disableWS. simpl. destruct (wsAllowed h); [|by split_and!].
    destruct (negb _); [|by split_and!].
    apply doStop_wf. by split_and!.
  - apply doStop_wf. by split_and!.
Qed.

Lemma http_run_wf t ops h : http_wf t h → http_wf t (http_run ops h).
Proof.
  revert h. induction ops as [|op ops IH]; intros h Hh; [done|]. simpl. by apply IH, http_step_wf.
Qed.

(** A step of a running server that is not a stop keeps its address. *)
Lemma http_step_running t op h :
  http_wf t h → listener h = true → stops op = false →
  let h' := (http_step op h).1 in
  listener h' = true ∧ endpoint h' = endpoint h ∧ host h' = host h ∧ port h' = port h.
Proof.
  intros (_ & He & Hr) Hl Hop. specialize (Hr Hl) as [_ Hne].
  destruct He as [(? & _)|He]; [done|]. destruct op; simplify_eq/=.
  - unfold setListenAddr. rewrite Hl. simpl. case_bool_decide as Eh; [|done]. simpl.
    destruct (Z.eqb_spec port0 (port h)); simpl; [|done]. subst. by rewrite Hl.
  - unfold enableRPC. destruct (rpcAllowed h); [done|].
    by destruct (RegisterApis _ _ _) as [? [?|]].
  - unfold enableWS. destruct (wsAllowed h); [done|].
    by destruct (RegisterApis _ _ _) as [? [?|]].
  - unfold start. rewrite Hl, orb_true_r. done.
Qed.

(** What a successful registration adds. *)
Lemma RegisterName_services name tname ms srv srv' :
  RegisterName name tname ms srv = (srv', None) →
  (∀ ns, is_Some (services srv' !! ns) ↔ ns = name ∨ is_Some (services srv !! ns)) ∧
  run srv' = run srv ∧ RpcServer.batchItemLimit srv' = RpcServer.batchItemLimit srv ∧
  RpcServer.batchResponseLimit srv' = RpcServer.batchResponseLimit srv.
Proof.
  unfold RegisterName, registerName. case_decide; [done|]. case_decide; [done|].
  intros [= <-]. split; [|done]. intros ns. simpl.
  destruct (decide (ns = name)) as [->|Hne].
  - rewrite lookup_insert_eq. split; [by left|done].
  - rewrite lookup_insert_ne by done. naive_solver.
Qed.

Lemma NewServer_services i r modules ns :
  is_Some (services (SetBatchLimits i r (NewServer (A := A) modules)) !! ns) ↔ ns = "rpc".
Proof.
  assert (E : RegisterName (A := A) MetadataApi "*rpc.RPCService" [modules_method modules]
    {| services := ∅; codecs := ∅; closed := ∅; run := true;
       RpcServer.batchItemLimit := 0; RpcServer.batchResponseLimit := 0 |}
    = (NewServer modules, None)) by reflexivity.
  apply RegisterName_services in E as (E & _). cbn [services SetBatchLimits]. rewrite E. cbn [services].
  rewrite lookup_empty. split; [intros [->|[? ?]]; done|by left].
Qed.

Lemma list_to_set_empty_iff (l : list string) : (list_to_set l : gset string) = ∅ ↔ l = [].
Proof.
  split; [|by intros ->]. destruct l as [|x l]; [done|]. intros E.
  assert (x ∈ (∅ : gset string)) by (rewrite <-E; set_solver). set_solver.
Qed.

Lemma register_apis_services allow apis srv srv' :
  register_apis allow apis srv = (srv', None) →
  (∀ ns, is_Some (services srv' !! ns) ↔
     is_Some (services srv !! ns) ∨ (ns ∈ apis.*1 ∧ (ns ∈ allow ∨ allow = ∅))) ∧
  run srv' = run srv ∧ RpcServer.batchItemLimit srv' = RpcServer.batchItemLimit srv ∧
  RpcServer.batchResponseLimit srv' = RpcServer.batchResponseLimit srv.
Proof.
  revert srv. induction apis as [|[n [tn ms]] apis IH]; intros srv; simpl.
  { intros [= <-]. split; [|done]. intros ns. rewrite elem_of_nil. naive_solver. }
  destruct (bool_decide (n ∈ allow) || bool_decide (size allow = 0%nat)) eqn:Ha.
  - destruct (RegisterName n tn ms srv) as [srv1 [e|]] eqn:Hr; [done|].
    apply RegisterName_services in Hr as (Hr & E1 & E2 & E3).
    intros Hs. destruct (IH _ Hs) as (IHs & -> & -> & ->). split; [|done]. intros ns.
    rewrite IHs, Hr, elem_of_cons. apply orb_true_iff in Ha as [Ha%bool_decide_eq_true|Ha%bool_decide_eq_true].
    + naive_solver.
    + apply size_empty_inv, leibniz_equiv in Ha. naive_solver.
  - apply orb_false_iff in Ha as [Hn%bool_decide_eq_false Hz%bool_decide_eq_false].
    intros Hs. destruct (IH _ Hs) as (IHs & -> & -> & ->). split; [|done]. intros ns.
    rewrite IHs, elem_of_cons. assert (allow ≠ ∅) by (intros ->; by rewrite size_empty in Hz).
    naive_solver.
Qed.
End lemmas.

(** ** Hosts and compression *)

Lemma lower_ascii_idemp c : lower_ascii (lower_ascii c) = lower_ascii c.
Proof. destruct c as [[] [] [] [] [] [] [] []]; reflexivity. Qed.

Lemma ToLower_idemp s : ToLower (ToLower s) = ToLower s.
Proof.
  unfold ToLower. induction s as [|c s IH]; [done|]. simpl. by rewrite lower_ascii_idemp, IH.
Qed.

Lemma lower_ascii_star c : lower_ascii c = "*"%char → c = "*"%char.
Proof. destruct c as [[] [] [] [] [] [] [] []]; vm_compute; congruence. Qed.

Lemma ToLower_star s : ToLower s = "*" → s = "*".
Proof.
  unfold ToLower. destruct s as [|c [|d s]]; [done| |done]. simpl. intros [= Hc].
  by rewrite (lower_ascii_star c Hc).
Qed.

Lemma newVHostHandler_elem vhosts name :
  name ∈ newVHostHandler vhosts ↔ ∃ v, v ∈ vhosts ∧ ToLower v = name.
Proof. unfold newVHostHandler. rewrite elem_of_list_to_set, list_elem_of_fmap. naive_solver. Qed.

Lemma newVHostHandler_star vhosts : "*" ∈ newVHostHandler vhosts ↔ "*" ∈ vhosts.
Proof.
  rewrite newVHostHandler_elem. split; [|by exists "*"]. by intros (v & Hv & ->%ToLower_star).
Qed.

Lemma vhost_allows_iff (vhosts : list string) (r : request) :
  let name := match SplitHostPort (r_Host r) with Some name => name | None => r_Host r end in
  vhost_allows (newVHostHandler vhosts) r = true ↔
    r_Host r = "" ∨ ParseIP name = true ∨ "*" ∈ vhosts ∨ ∃ v, v ∈ vhosts ∧ ToLower v = name.
Proof.
  intros name. unfold vhost_allows. fold name. case_decide; [naive_solver|].
  destruct (ParseIP name); [naive_solver|].
  rewrite <-(newVHostHandler_star vhosts), <-(newVHostHandler_elem vhosts name).
  repeat case_decide; naive_solver.
Qed.

(** * Properties *)

(** [CheckTimeouts] leaves a timeout of a second or more as it is and
    replaces every other one by ten minutes; what it returns it accepts. *)
Theorem CheckTimeouts_correct (t : HTTPTimeouts) :
  (∀ f, f ∈ [ReadTimeout; ReadHeaderTimeout; WriteTimeout; IdleTimeout] →
     second ≤ f (CheckTimeouts t) ∧
     (second ≤ f t → f (CheckTimeouts t) = f t) ∧
     (f t < second → f (CheckTimeouts t) = 600 * second)) ∧
  CheckTimeouts (CheckTimeouts t) = CheckTimeouts t.
Proof.
  split.
  - intros f Hf. repeat (apply elem_of_cons in Hf as [->|Hf]); [..|by apply not_elem_of_nil in Hf];
      apply sane_spec; done.
  - unfold CheckTimeouts. f_equal; by apply sane_idemp.
Qed.

(** Whatever sequence of operations was run on a new server, it has an
    address when it is listening, [stop] of a listening server leaves no
    handler and no address, [stop] otherwise changes nothing, and after a
    failed start both handlers are gone, so that they can be enabled again. *)
Theorem httpServer_lifecycle {A} (t : HTTPTimeouts) (ops : list (http_op A)) :
  let h := http_run ops (newHTTPServer t) in
  timeouts h = t ∧
  (listener h = true → server h = true ∧ endpoint h = JoinHostPort (host h) (FormatInt (port h))) ∧
  listener (stop h) = false ∧
  (listener h = true → httpHandler (stop h) = None ∧ wsHandler (stop h) = None ∧ endpoint (stop h) = "") ∧
  (listener h = false → stop h = h) ∧
  (∀ h' listens, start listens h = (h', Some ListenFailed) →
     listens = false ∧ listener h' = false ∧ httpHandler h' = None ∧ wsHandler h' = None ∧
     endpoint h' = endpoint h).
Proof.
  intros h. assert (Hw : http_wf t h) by (apply http_run_wf; by split_and!; [|left|]).
  destruct Hw as (Ht & He & Hr). split_and!; [done|..].
  - intros Hl. destruct (Hr Hl) as [Hs Hne]. split; [done|]. destruct He as [(? & _)|He]; done.
  - unfold stop, doStop. by destruct (listener h) eqn:El.
  - intros Hl. unfold stop, doStop. by rewrite Hl.
  - intros Hl. unfold stop, doStop. by rewrite Hl.
  - intros h' listens. unfold start. case_bool_decide; simpl; [done|].
    destruct (listener h) eqn:El; simpl; [done|]. destruct listens; simpl; [done|].
    intros [= <-]. by rewrite ?El.
Qed.

(** While the server listens, no operation but a stop changes the
    address it was started on. *)
Theorem running_address_fixed {A} (t : HTTPTimeouts) (before ops : list (http_op A)) :
  let h := http_run before (newHTTPServer t) in
  let h' := http_run ops h in
  listener h = true → Forall (λ op, stops op = false) ops →
  listener h' = true ∧ endpoint h' = endpoint h ∧ host h' = host h ∧ port h' = port h.
Proof.
  intros h. assert (Hw : http_wf t h) by (apply http_run_wf; by split_and!; [|left|]).
  clearbody h. intros h' Hl Hops. subst h'. revert h Hw Hl. induction Hops as [|op ops Hop Hops IH];
    intros h Hw Hl; [done|].
  destruct (http_step_running t op h Hw Hl Hop) as (Hl' & He & Hh & Hp).
  destruct (IH _ (http_step_wf t op h Hw) Hl') as (E & E1 & E2 & E3).
  rewrite <-He, <-Hh, <-Hp. by split_and!.
Qed.

(** Enabling HTTP fails without a change when it is already enabled or a
    service cannot be registered; otherwise the new handler serves "rpc" and
    exactly the namespaces of the given APIs that the module list names, or
    all of them for an empty list, with the configured batch limits. *)
Theorem enableRPC_correct {A} (modules : gmap string string)
    (apis : list (string * (string * list (method (hstate A))))) (c : httpConfig) (h : httpServer A) :
  match enableRPC modules apis c h with
  | (h', Some _) => h' = h
  | (h', None) =>
      httpHandler h = None ∧ wsHandler h' = wsHandler h ∧ http_config h' = Some c ∧
      ∃ srv, httpHandler h' = Some srv ∧ run srv = true ∧
        RpcServer.batchItemLimit srv = HttpStack.batchItemLimit c ∧
        RpcServer.batchResponseLimit srv = HttpStack.batchResponseSizeLimit c ∧
        ∀ ns, is_Some (services srv !! ns) ↔
          ns = "rpc" ∨ ns ∈ apis.*1 ∧ (ns ∈ Modules c ∨ Modules c = [])
  end.
Proof.
  unfold enableRPC, rpcAllowed. destruct (httpHandler h) eqn:Eh; [done|].
  destruct (RegisterApis _ _ _) as [srv [e|]] eqn:Er; [done|].
  apply register_apis_services in Er as (Hs & Hrun & H1 & H2).
  split; [reflexivity|]. split; [reflexivity|]. split; [reflexivity|].
  exists srv. split; [reflexivity|]. split; [exact Hrun|]. split; [exact H1|].
  split; [exact H2|]. intros ns. rewrite Hs.
  rewrite NewServer_services.
  by rewrite elem_of_list_to_set, list_to_set_empty_iff.
Qed.

(** A request passes the virtual host check exactly when it names no
    host, an IP address, or a host that is the lower-case form of a configured
    one, or a star is configured; the name in the request is not lower-cased,
    so one with an upper-case letter never matches a configured host. *)
Theorem vhost_correct (vhosts : list string) (r : request) :
  let name := match SplitHostPort (r_Host r) with Some name => name | None => r_Host r end in
  (vhost_allows (newVHostHandler vhosts) r = true ↔
     r_Host r = "" ∨ ParseIP name = true ∨ "*" ∈ vhosts ∨ ∃ v, v ∈ vhosts ∧ ToLower v = name) ∧
  (r_Host r ≠ "" → ParseIP name = false → "*" ∉ vhosts → ToLower name ≠ name →
     vhost_allows (newVHostHandler vhosts) r = false).
Proof.
  intros name. pose proof (vhost_allows_iff vhosts r) as Hiff. fold name in Hiff.
  split; [done|]. intros H1 H2 H3 H4. apply not_true_is_false. rewrite Hiff.
  intros [?|[?|[?|(v & _ & Hv)]]]; [done|congruence|done|]. apply H4. rewrite <-Hv. apply ToLower_idemp.
Qed.

Lemma running_address_fixed_witness :
  let before : list (http_op unit) := [SetListenAddr "localhost" 8080; Start true] in
  endpoint (http_run [SetListenAddr "localhost" 9090; Start false]
    (http_run before (newHTTPServer DefaultHTTPTimeouts))) = "localhost:8080".
Proof.
  intros before.
  exact (proj1 (proj2 (running_address_fixed DefaultHTTPTimeouts before
    [SetListenAddr "localhost" 9090; Start false] eq_refl
    ltac:(repeat (apply Forall_cons; split; [reflexivity|]); apply Forall_nil; exact I)))).
Defined.
