(* ===== verification/RpcTyping.v ===== *)
(** * Typed calls (src/rpc/service.go [call], src/rpc/json.go)

    [reflect.Value.Call] panics when a method is called with a wrong number of
    arguments or an argument of a wrong type, and package rpc recovers such a
    panic as a crash of the handler.  [checked] is a method behind that test;
    here it is shown that the test never fails for what the server decodes,
    whatever the request. *)

From S2P Require Import Prelude Strconv GoJson GoValue GoTyping RpcErrors RpcJson RpcService RpcHandler.
From S2P Require Import RpcServer HttpConn HttpStack.

Fixpoint args_typed (types : list gty) (args : list gval) : bool :=
  match types, args with
  | [], [] => true
  | t :: types', v :: args' => has_type t v && args_typed types' args'
  | _, _ => false
  end.

Section checked.
Context {S : Type}.
Implicit Types (c : callback S) (r : serviceRegistry S).

(** The parameters that are left for the decoded arguments, after the
    receiver and the context [call] puts in front. *)
Definition call_types c : option (list gty) :=
  let rest := drop (if rcvr_valid c then 1 else 0) (In (fn c)) in
  if hasCtx c then
    match rest with
    | TContext :: rest' => Some rest'
    | _ => None
    end
  else Some rest.

Definition reflect_panic : panic_reason := ExplicitPanic "reflect: Call with mismatched arguments".

Definition checked_method c : method S := {|
  Name := Name (fn c); PkgPath := PkgPath (fn c); In := In (fn c); Out := Out (fn c);
  Func args :=
    if match call_types c with Some types => args_typed types args | None => false end
    then Func (fn c) args
    else panic reflect_panic
|}.

(** The callback whose function is called through reflection. *)
Definition checked c : callback S := {|
  fn := checked_method c; rcvr_valid := rcvr_valid c; argTypes := argTypes c; hasCtx := hasCtx c;
  errPos := errPos c; cb_isSubscribe := cb_isSubscribe c
|}.

Definition checked_registry r : serviceRegistry S :=
  (λ svc, {| name := name svc; callbacks := checked <$> callbacks svc;
             subscriptions := checked <$> subscriptions svc |}) <$> r.

(** Every callback of a registry was made by [newCallback]. *)
Definition registry_ok r : Prop :=
  ∀ ns svc m c, r !! ns = Some svc →
    callbacks svc !! m = Some c ∨ subscriptions svc !! m = Some c →
    newCallback (rcvr_valid c) (fn c) = Some c.

(** ** Lemmas *)

Lemma args_typed_spec types args : args_typed types args = true ↔ Forall2 (λ t v, typed t v) types args.
Proof.
  revert args. induction types as [|t types IH]; intros [|v args]; cbn [args_typed].
  - split; [constructor|done].
  - split; [done|]. intros H. inversion H.
  - split; [done|]. intros H. inversion H.
  - by rewrite andb_true_iff, IH, Forall2_cons.
Qed.

Lemma newCallback_types c : newCallback (rcvr_valid c) (fn c) = Some c → call_types c = Some (argTypes c).
Proof.
  unfold newCallback, makeArgTypes, call_types. intros H.
  assert (Hc : ∀ (rest : list gty) args ctx,
    match rest with TContext :: rest' => (rest', true) | _ => (rest, false) end = (args, ctx) →
    (if ctx then match rest with TContext :: rest' => Some rest' | _ => None end else Some rest) = Some args).
  { intros [|[] rest] args ctx [= <- <-]; done. }
  specialize (Hc (drop (if rcvr_valid c then 1 else 0) (In (fn c)))).
  destruct (match drop (if rcvr_valid c then 1 else 0) (In (fn c)) with
            | TContext :: rest' => (rest', true) | _ => _ end) as [args ctx].
  specialize (Hc args ctx eq_refl).
  assert (Hargs : argTypes c = args ∧ hasCtx c = ctx).
  { repeat case_match; simplify_eq; rewrite <-H; done. }
  destruct Hargs as [-> ->]. exact Hc.
Qed.

Lemma newCallback_self b (m : method S) c :
  newCallback b m = Some c → newCallback (rcvr_valid c) (fn c) = Some c.
Proof.
  intros H. assert (rcvr_valid c = b ∧ fn c = m) as [-> ->]; [|done].
  revert H. unfold newCallback. destruct (makeArgTypes m b).
  repeat case_match; intros; simplify_eq; done.
Qed.

(** Calling through reflection with arguments of the right types. *)
Lemma call_checked c args :
  newCallback (rcvr_valid c) (fn c) = Some c → args_typed (argTypes c) args = true →
  call (checked c) args = call c args.
Proof.
  intros Hc Ha. unfold call. cbn [checked fn checked_method Func].
  rewrite (newCallback_types c Hc), Ha. reflexivity.
Qed.

Lemma decodes_typed vals types args :
  decodes vals types args → Forall2 (λ t v, typed t v) types args.
Proof. induction 1; constructor; eauto using decode_typed, zero_typed. Qed.

Lemma zeros_typed types : Forall2 (λ t v, typed t v) types (zero <$> types).
Proof. induction types; constructor; [apply zero_typed|done]. Qed.

Lemma arguments_typed rawArgs types args :
  parsePositionalArguments rawArgs types = inl args → args_typed types args = true.
Proof.
  intros (vals & given & _ & _ & Hd & _ & ->)%parsePositionalArguments_spec.
  apply args_typed_spec. rewrite <-(take_drop (length vals) types) at 1.
  apply Forall2_app; [by eapply decodes_typed|apply zeros_typed].
Qed.

(** ** Registries *)

Lemma lookup_checked full r : lookup_callback full (checked_registry r) = checked <$> lookup_callback full r.
Proof.
  unfold lookup_callback, checked_registry.
  destruct (SplitN2 full serviceMethodSeparator) as [|ns [|m [|]]]; try done.
  rewrite lookup_fmap. destruct (r !! ns); [|done]. cbn. by rewrite lookup_fmap.
Qed.

Lemma subscription_checked ns m r : subscription ns m (checked_registry r) = checked <$> subscription ns m r.
Proof.
  unfold subscription, checked_registry. rewrite lookup_fmap.
  destruct (r !! ns); [|done]. cbn. by rewrite lookup_fmap.
Qed.

Lemma registry_ok_lookup full r c :
  registry_ok r → lookup_callback full r = Some c → newCallback (rcvr_valid c) (fn c) = Some c.
Proof.
  intros Hr. unfold lookup_callback.
  destruct (SplitN2 full serviceMethodSeparator) as [|ns [|m [|]]]; try done.
  intros (svc & Hs & Hc)%bind_Some. eapply Hr; eauto.
Qed.

Lemma registry_ok_subscription ns m r c :
  registry_ok r → subscription ns m r = Some c → newCallback (rcvr_valid c) (fn c) = Some c.
Proof. intros Hr (svc & Hs & Hc)%bind_Some. eapply Hr; eauto. Qed.

Lemma suitable_ok (ms : list (method S)) m c :
  suitableCallbacks ms !! m = Some c → newCallback (S := S) (rcvr_valid c) (fn c) = Some c.
Proof.
  unfold suitableCallbacks.
  assert (H : ∀ acc : gmap string (callback S), (∀ m c, acc !! m = Some c → newCallback (S := S) (rcvr_valid c) (fn c) = Some c) →
    ∀ m c, foldl (λ callbacks method,
      if decide (PkgPath method ≠ "") then callbacks
      else match newCallback true method with
           | None => callbacks
           | Some cb => <[formatName (Name method) := cb]> callbacks
           end) acc ms !! m = Some c → newCallback (rcvr_valid c) (fn c) = Some c).
  { induction ms as [|x ms IH]; intros acc Hacc; [exact Hacc|]. cbn [foldl]. apply IH.
    case_decide; [done|]. destruct (newCallback true x) eqn:Hx; [|done].
    intros m' c' [[_ <-]|[_ ?]]%lookup_insert_Some; eauto using newCallback_self. }
  apply H. intros ?? Hl. by rewrite lookup_empty in Hl.
Qed.

Lemma registry_ok_empty : registry_ok ∅.
Proof. intros ns svc m c H. by rewrite lookup_empty in H. Qed.

(** Registration keeps the invariant. *)
Lemma registerName_ok svcName tname ms r r' :
  registry_ok r → registerName svcName tname ms r = inl r' → registry_ok r'.
Proof.
  intros Hr. unfold registerName. case_decide; [done|]. case_decide; [done|].
  intros [= <-] ns svc m c Hns Hm. apply lookup_insert_Some in Hns as [[<- <-]|[_ Hns]]; [|by eauto].
  cbn [callbacks subscriptions] in Hm.
  assert (Hold : ∀ x, callbacks (default {| name := svcName; callbacks := ∅; subscriptions := ∅ |}
      (r !! svcName)) !! m = Some x ∨
    subscriptions (default {| name := svcName; callbacks := ∅; subscriptions := ∅ |}
      (r !! svcName)) !! m = Some x → newCallback (rcvr_valid x) (fn x) = Some x).
  { destruct (r !! svcName) eqn:E; cbn; [intros x; by eapply Hr|].
    intros x [Hx|Hx]; by rewrite lookup_empty in Hx. }
  destruct Hm as [Hm|Hm]; apply lookup_union_Some_raw in Hm as [Hm|[_ Hm]];
    [apply map_lookup_filter_Some in Hm as [Hm _]; by eapply suitable_ok|by eauto..|
     apply map_lookup_filter_Some in Hm as [Hm _]; by eapply suitable_ok|by eauto].
Qed.
End checked.

(** ** Messages, requests and servers *)

Section handling.
Context {A : Type}.
Implicit Types (h : handler A) (srv : rpcServer A) (st : hstate A).

Definition checked_handler h : handler A := {|
  reg := checked_registry (reg h); allowSubscribe := allowSubscribe h;
  batchRequestLimit := batchRequestLimit h; batchResponseMaxSize := batchResponseMaxSize h
|}.

Definition checked_server srv : rpcServer A := set_services (checked_registry (services srv)) srv.

Lemma bind_ext {B C} (m m' : GoM (hstate A) B) (f f' : B → GoM (hstate A) C) st :
  m st = m' st → (∀ a st', f a st' = f' a st') → (m ≫= f) st = (m' ≫= f') st.
Proof. intros Hm Hf. unfold mbind, GoM_bind. rewrite Hm. destruct (m' st) as [[]]; auto. Qed.

Lemma runMethod_checked msg c args st :
  newCallback (rcvr_valid c) (fn c) = Some c → args_typed (argTypes c) args = true →
  runMethod msg (checked c) args st = runMethod msg c args st.
Proof. intros Hc Ha. unfold runMethod. apply bind_ext; [by rewrite call_checked|done]. Qed.

Lemma handleSubscribe_checked h msg st :
  registry_ok (reg h) → handleSubscribe (checked_handler h) msg st = handleSubscribe h msg st.
Proof.
  intros Hr. unfold handleSubscribe. cbn [checked_handler allowSubscribe reg].
  destruct (negb (allowSubscribe h)); [done|].
  destruct (parseSubscriptionName (Params msg)) as [name|]; [|done].
  rewrite subscription_checked.
  destruct (subscription (namespace msg) name (reg h)) as [c|] eqn:Hs; [|done]. cbn [fmap option_fmap option_map].
  change (argTypes (checked c)) with (argTypes c).
  destruct (parsePositionalArguments (Params msg) (TString :: argTypes c)) as [args|] eqn:Ha; [|done].
  apply bind_ext; [done|]. intros _ st'. apply runMethod_checked.
  - by eapply registry_ok_subscription.
  - apply arguments_typed in Ha. destruct args as [|v args]; [done|].
    cbn [args_typed] in Ha. by apply andb_true_iff in Ha as [_ Ha].
Qed.

Lemma handleCall_checked h msg st :
  registry_ok (reg h) → handleCall (checked_handler h) msg st = handleCall h msg st.
Proof.
  intros Hr. unfold handleCall. destruct (isSubscribe msg); [by apply handleSubscribe_checked|].
  destruct (isUnsubscribe msg); [done|]. cbn [checked_handler reg]. rewrite lookup_checked.
  destruct (lookup_callback (Method msg) (reg h)) as [c|] eqn:Hs; [|done]. cbn [fmap option_fmap option_map].
  change (argTypes (checked c)) with (argTypes c).
  destruct (parsePositionalArguments (Params msg) (argTypes c)) as [args|] eqn:Ha; [|done].
  apply runMethod_checked; [by eapply registry_ok_lookup|by eapply arguments_typed].
Qed.

Lemma handleCallMsg_checked h msg st :
  registry_ok (reg h) → handleCallMsg (checked_handler h) msg st = handleCallMsg h msg st.
Proof.
  intros Hr. unfold handleCallMsg.
  destruct (isNotification msg); [by apply bind_ext; [apply handleCall_checked|]|].
  destruct (isCall msg); [by apply bind_ext; [apply handleCall_checked|]|done].
Qed.

Lemma handleMsg_checked h msg st :
  registry_ok (reg h) → handleMsg (checked_handler h) msg st = handleMsg h msg st.
Proof.
  intros Hr. unfold handleMsg, startCallProc, handleNonBatchCall. destruct (is_call_message msg); [|done].
  apply bind_ext; [done|]. intros _ st'. by apply bind_ext; [apply handleCallMsg_checked|].
Qed.

Lemma run_batch_checked h calls n resp st :
  registry_ok (reg h) → run_batch (checked_handler h) calls n resp st = run_batch h calls n resp st.
Proof.
  intros Hr. revert n resp st. induction calls as [|msg calls IH]; intros n resp st; [done|].
  cbn [run_batch]. apply bind_ext; [by apply handleCallMsg_checked|]. intros [a|] st'; [|apply IH].
  cbn [checked_handler batchResponseMaxSize]. case_decide; [|apply IH].
  destruct (batchResponseMaxSize h <? _); [done|apply IH].
Qed.

Lemma handleBatch_checked h msgs st :
  registry_ok (reg h) → handleBatch (checked_handler h) msgs st = handleBatch h msgs st.
Proof.
  intros Hr. unfold handleBatch. destruct msgs as [|msg msgs]; [done|].
  cbn [checked_handler batchRequestLimit].
  destruct (negb (batchRequestLimit h =? 0) && _); [done|].
  destruct (filter _ _) as [|call calls]; [done|].
  apply bind_ext; [done|]. intros _ st'. by apply bind_ext; [apply run_batch_checked|].
Qed.

Lemma serveSingleRequest_checked srv stream st :
  registry_ok (services srv) →
  serveSingleRequest (checked_server srv) stream st = serveSingleRequest srv stream st.
Proof.
  intros Hr. unfold serveSingleRequest.
  change (run (checked_server srv)) with (run srv).
  change (newHandler (checked_server srv) false) with (checked_handler (newHandler srv false)).
  destruct (negb (run srv)); [done|].
  destruct (readBatch stream) as [[[reqs batch] rest]|]; [|done].
  destruct batch; [by apply handleBatch_checked|].
  destruct reqs; [done|by apply handleMsg_checked].
Qed.

Lemma RegisterName_ok ns tname ms srv :
  registry_ok (services srv) → registry_ok (services (RegisterName ns tname ms srv).1).
Proof.
  intros Hr. unfold RegisterName. destruct (registerName ns tname ms (services srv)) eqn:E; [|done].
  by eapply registerName_ok.
Qed.

Lemma NewServer_ok modules : registry_ok (services (RpcServer.NewServer (A := A) modules)).
Proof. apply RegisterName_ok, registry_ok_empty. Qed.

Lemma RegisterApis_ok apis modules srv :
  registry_ok (services srv) → registry_ok (services (RegisterApis apis modules srv).1).
Proof.
  unfold RegisterApis. revert srv. induction apis as [|api apis IH]; intros srv Hr; [done|].
  cbn [register_apis]. destruct (_ || _); [|by apply IH].
  pose proof (RegisterName_ok api.1 api.2.1 api.2.2 srv Hr) as H.
  destruct (RegisterName _ _ _ srv) as [srv' [err|]]; [done|by apply IH].
Qed.
End handling.

(** * Properties *)

(** C14: Type safety of remote calls.  Whatever services are registered and
    whatever an HTTP request says, a method is only run on as many arguments as
    it has parameters, each of the type of its parameter: putting the test of
    [reflect.Value.Call] in front of every method changes neither the reply
    nor the state, so no call panics for the types of its arguments. *)
Theorem calls_are_typed {A} (apis : list (string * (string * list (method (hstate A))))) (modules : list string)
    (mods : gmap string string) (items size : Z) (r : request) (st : hstate A) :
  let srv := (RegisterApis apis modules (SetBatchLimits items size (RpcServer.NewServer mods))).1 in
  HttpConn.ServeHTTP (checked_server srv) r st = HttpConn.ServeHTTP srv r st.
Proof.
  intros srv. assert (Hr : registry_ok (services srv)).
  { apply RegisterApis_ok. exact (NewServer_ok mods). }
  clearbody srv. unfold HttpConn.ServeHTTP.
  repeat case_match; try done; apply bind_ext; try done;
    first [by apply serveSingleRequest_checked | intros; by apply bind_ext; [apply serveSingleRequest_checked|]].
Qed.
