(* ===== verification/RpcCodec.v ===== *)
(** * Package rpc, the codec of a connection (src/rpc/json.go, websocket.go)

    Writing and closing: [jsonCodec.writeJSON] under the lock [encMu] with a
    deadline per write, [close] once, and for a websocket the goroutine
    [pingLoop] with its timer, the pong handler and [close], which waits for
    the loop.  Writers, closers, the loop, the peer's pongs and time are
    interleaved as the steps of one transition system.  The timer follows
    package time before Go 1.23 (the module says go 1.18): a timer that fires
    puts a value in its channel, and [Stop] does not take it out. *)

From S2P Require Import Prelude HttpConn.

(** Durations, in nanoseconds. *)
Definition defaultWriteTimeout : Z := 10 * second.
Definition wsPingInterval : Z := 30 * second.
Definition wsPingWriteTimeout : Z := 5 * second.
Definition wsPongTimeout : Z := 30 * second.

Inductive owner := Writer (i : nat) | Pinger.

(** A frame written to the connection: by whom, with the deadline it was meant
    to have and the one the connection had; for a ping when, and until when
    the pong of an earlier ping was awaited. *)
Record frame := {
  f_by : owner; f_own : Z; f_used : Z; f_time : Z; f_due : option Z
}.

(** Where a call of [writeJSON] is. *)
Inductive writer_pc :=
| WLock (deadline : option Z)           (* the deadline of its context *)
| WDeadline (deadline : option Z)       (* holds the lock *)
| WEncode (d : Z)                       (* the deadline is set *)
| WUnlock (ok : bool)
| WNotify (ok : bool)
| WReturn (ok : bool).

(** Where [pingLoop] is. *)
Inductive loop_pc :=
| LSelect
| LStop                                 (* woken by [pingReset] *)
| LDrain                                (* [Stop] answered false *)
| LReset
| LLock                                 (* woken by the timer *)
| LDeadline
| LPing (d : Z)
| LReadDeadline
| LUnlock
| LReset2
| LDone.

Inductive once := ONew | ORunning | ODone.

Record conn := { wdeadline : Z; rdeadline : option Z; frames : list frame; closes : nat }.

(** The timer is active with the time it fires at, or its value waits in the
    channel, or neither; [pingReset] is the channel of capacity one. *)
Record pinger := { pc : loop_pc; timer : option Z; timerC : bool; pingReset : bool }.

Record codec := {
  now : Z;
  websocket : bool;
  closer : once;
  closeCh : bool;                       (* closed *)
  encMu : option owner;
  writers : gmap nat writer_pc;
  cn : conn;
  pg : pinger
}.

Definition NewFuncCodec (t : Z) : codec := {|
  now := t; websocket := false; closer := ONew; closeCh := false; encMu := None; writers := ∅;
  cn := {| wdeadline := 0; rdeadline := None; frames := []; closes := 0 |};
  pg := {| pc := LDone; timer := None; timerC := false; pingReset := false |}
|}.

Definition newWebsocketCodec (t : Z) : codec := {|
  now := t; websocket := true; closer := ONew; closeCh := false; encMu := None; writers := ∅;
  cn := {| wdeadline := 0; rdeadline := None; frames := []; closes := 0 |};
  pg := {| pc := LSelect; timer := Some (t + wsPingInterval); timerC := false; pingReset := false |}
|}.

(** ** Updates *)

Definition upd (f : conn → conn) (g : pinger → pinger) (mu : option owner → option owner)
    (w : gmap nat writer_pc → gmap nat writer_pc) (c : codec) : codec := {|
  now := now c; websocket := websocket c; closer := closer c; closeCh := closeCh c;
  encMu := mu (encMu c); writers := w (writers c); cn := f (cn c); pg := g (pg c)
|}.

Definition set_now (t : Z) (c : codec) : codec := {|
  now := t; websocket := websocket c; closer := closer c; closeCh := closeCh c;
  encMu := encMu c; writers := writers c; cn := cn c; pg := pg c
|}.

Definition set_closer (o : once) (c : codec) : codec := {|
  now := now c; websocket := websocket c; closer := o; closeCh := true;
  encMu := encMu c; writers := writers c; cn := cn c; pg := pg c
|}.

Definition SetWriteDeadline (d : Z) (k : conn) : conn :=
  {| wdeadline := d; rdeadline := rdeadline k; frames := frames k; closes := closes k |}.
Definition SetReadDeadline (d : option Z) (k : conn) : conn :=
  {| wdeadline := wdeadline k; rdeadline := d; frames := frames k; closes := closes k |}.
Definition write_frame (by_ : owner) (own t : Z) (k : conn) : conn :=
  {| wdeadline := wdeadline k; rdeadline := rdeadline k;
     frames := {| f_by := by_; f_own := own; f_used := wdeadline k; f_time := t; f_due := rdeadline k |}
               :: frames k;
     closes := closes k |}.
Definition conn_Close (k : conn) : conn :=
  {| wdeadline := wdeadline k; rdeadline := rdeadline k; frames := frames k; closes := S (closes k) |}.

Definition goto (l : loop_pc) (p : pinger) : pinger :=
  {| pc := l; timer := timer p; timerC := timerC p; pingReset := pingReset p |}.
Definition set_timer (t : option Z) (full : bool) (p : pinger) : pinger :=
  {| pc := pc p; timer := t; timerC := full; pingReset := pingReset p |}.
Definition set_reset (b : bool) (p : pinger) : pinger :=
  {| pc := pc p; timer := timer p; timerC := timerC p; pingReset := b |}.

Definition on_loop (g : pinger → pinger) : codec → codec := upd id g id id.
Definition on_writer (i : nat) (w : writer_pc) : codec → codec := upd id id id (insert i w).

(** ** Steps of [writeJSON] *)

Inductive writes : codec → codec → Prop :=
| w_start i deadline c :
    writers c !! i = None → writes c (on_writer i (WLock deadline) c)
| w_lock i deadline c :
    writers c !! i = Some (WLock deadline) → encMu c = None →
    writes c (upd id id (λ _, Some (Writer i)) (insert i (WDeadline deadline)) c)
| w_deadline i deadline c :
    writers c !! i = Some (WDeadline deadline) →
    let d := match deadline with Some d => d | None => now c + defaultWriteTimeout end in
    writes c (upd (SetWriteDeadline d) id id (insert i (WEncode d)) c)
| w_encode i d ok c :
    writers c !! i = Some (WEncode d) →
    writes c (upd (write_frame (Writer i) d (now c)) id id (insert i (WUnlock ok)) c)
| w_unlock i ok c :
    writers c !! i = Some (WUnlock ok) →
    writes c (upd id id (λ _, None) (insert i (WNotify ok)) c)
| w_notify i ok c :                     (* a full channel is left as it is *)
    writers c !! i = Some (WNotify ok) →
    writes c (upd id (if ok && websocket c then set_reset true else id) id (insert i (WReturn ok)) c).

(** ** Steps of [pingLoop] and of the pong handler *)

Inductive loops : codec → codec → Prop :=
| l_closed c : pc (pg c) = LSelect → closeCh c = true →
    loops c (on_loop (goto LDone ∘ set_timer None (timerC (pg c))) c)
| l_reset c : pc (pg c) = LSelect → pingReset (pg c) = true →
    loops c (on_loop (goto LStop ∘ set_reset false) c)
| l_timer c : pc (pg c) = LSelect → timerC (pg c) = true →
    loops c (on_loop (goto LLock ∘ set_timer (timer (pg c)) false) c)
| l_pong c : pc (pg c) = LSelect →      (* the handler offers a pong *)
    loops c (upd (SetReadDeadline None) id id id c)
| l_stop c t : pc (pg c) = LStop → timer (pg c) = Some t →
    loops c (on_loop (goto LReset ∘ set_timer None (timerC (pg c))) c)
| l_expired c : pc (pg c) = LStop → timer (pg c) = None →
    loops c (on_loop (goto LDrain) c)
| l_drain c : pc (pg c) = LDrain → timerC (pg c) = true →
    loops c (on_loop (goto LReset ∘ set_timer (timer (pg c)) false) c)
| l_again c : pc (pg c) = LReset →
    loops c (on_loop (goto LSelect ∘ set_timer (Some (now c + wsPingInterval)) (timerC (pg c))) c)
| l_lock c : pc (pg c) = LLock → encMu c = None →
    loops c (upd id (goto LDeadline) (λ _, Some Pinger) id c)
| l_deadline c : pc (pg c) = LDeadline →
    let d := now c + wsPingWriteTimeout in
    loops c (upd (SetWriteDeadline d) (goto (LPing d)) id id c)
| l_ping c d : pc (pg c) = LPing d →
    loops c (upd (write_frame Pinger d (now c)) (goto LReadDeadline) id id c)
| l_read c : pc (pg c) = LReadDeadline →
    loops c (upd (SetReadDeadline (Some (now c + wsPongTimeout))) (goto LUnlock) id id c)
| l_unlock c : pc (pg c) = LUnlock →
    loops c (upd id (goto LReset2) (λ _, None) id c)
| l_again2 c : pc (pg c) = LReset2 →
    loops c (on_loop (goto LSelect ∘ set_timer (Some (now c + wsPingInterval)) (timerC (pg c))) c).

(** ** Closing, and time *)

Inductive step : codec → codec → Prop :=
| s_writes c c' : writes c c' → step c c'
| s_loops c c' : loops c c' → step c c'
| s_close c : closer c = ONew → step c (set_closer ORunning c)
| s_conn_close c : closer c = ORunning → step c (upd conn_Close id id id (set_closer ODone c))
| s_tick t c : now c ≤ t → step c (set_now t c)
| s_fire t c : timer (pg c) = Some t → t ≤ now c → step c (on_loop (set_timer None true) c).

(** A call of [close] returns when the once is done and the loop has ended. *)
Definition close_returns (c : codec) : Prop := closer c = ODone ∧ pc (pg c) = LDone.

Definition reachable (c : codec) : Prop :=
  ∃ t, rtc step (NewFuncCodec t) c ∨ rtc step (newWebsocketCodec t) c.

(** * The invariant *)

Definition loop_holds (l : loop_pc) : bool :=
  match l with LDeadline | LPing _ | LReadDeadline | LUnlock => true | _ => false end.

Definition writer_holds (w : writer_pc) : bool :=
  match w with WDeadline _ | WEncode _ | WUnlock _ => true | _ => false end.

(** The timer and its channel at each point of the loop: at the select one of
    them is set, at the drain it is the channel. *)
Definition timer_ok (p : pinger) : Prop :=
  match pc p with
  | LSelect | LStop => (is_Some (timer p) ∧ timerC p = false) ∨ (timer p = None ∧ timerC p = true)
  | LDrain => timer p = None ∧ timerC p = true
  | LDone => timer p = None
  | _ => timer p = None ∧ timerC p = false
  end.

(** On the way to a ping. *)
Definition pinging (l : loop_pc) : bool :=
  match l with LLock | LDeadline | LPing _ => true | _ => false end.

(** No ping is sent before the time [x]. *)
Record not_before (x : Z) (c : codec) : Prop := {
  nb_now : x ≤ now c + wsPingInterval;
  nb_timer : ∀ t, timer (pg c) = Some t → x ≤ t;
  nb_fired : timerC (pg c) = true → x ≤ now c;
  nb_pinging : pinging (pc (pg c)) = true → x ≤ now c
}.

Definition is_ping (f : frame) : bool := match f_by f with Pinger => true | _ => false end.

(** The times of the pings, the last one first. *)
Fixpoint ping_times (l : list frame) : list Z :=
  match l with
  | [] => []
  | f :: l' => if is_ping f then f_time f :: ping_times l' else ping_times l'
  end.

(** A frame went out with its own deadline, and a ping not while a pong was
    awaited. *)
Definition frame_ok (f : frame) : Prop :=
  f_own f = f_used f ∧ (is_ping f = true → ∀ d, f_due f = Some d → d ≤ f_time f).

Record inv (c : codec) : Prop := {
  inv_loop : encMu c = Some Pinger ↔ loop_holds (pc (pg c)) = true;
  inv_writer : ∀ i, encMu c = Some (Writer i) ↔
    ∃ w, writers c !! i = Some w ∧ writer_holds w = true;
  inv_wdeadline : ∀ i d, writers c !! i = Some (WEncode d) → wdeadline (cn c) = d;
  inv_pdeadline : ∀ d, pc (pg c) = LPing d → wdeadline (cn c) = d;
  inv_frames : Forall frame_ok (frames (cn c));
  inv_timer : timer_ok (pg c);
  inv_pong : ∀ d, rdeadline (cn c) = Some d → not_before d c;
  inv_ping : ∀ d, hd_error (ping_times (frames (cn c))) = Some d → not_before (d + wsPingInterval) c;
  inv_spaced : Sorted (λ later earlier, earlier + wsPingInterval ≤ later) (ping_times (frames (cn c)));
  inv_once : closeCh c = true ↔ closer c ≠ ONew;
  inv_closes : closes (cn c) = match closer c with ODone => 1%nat | _ => 0%nat end
}.

(** ** Initial states *)

Lemma inv_NewFuncCodec t : inv (NewFuncCodec t).
Proof.
  split; cbn; try done; try (by constructor).
  intros i. split; [done|]. intros (w & H & _). by rewrite lookup_empty in H.
Qed.

Lemma inv_newWebsocketCodec t : inv (newWebsocketCodec t).
Proof.
  split; cbn; try done; try (by constructor).
  intros i. split; [done|]. intros (w & H & _). by rewrite lookup_empty in H.
Qed.

(** ** What a step leaves alone *)

(** A bound on pings stays when time and timer are not touched. *)
Lemma not_before_mono x c c' :
  not_before x c → now c ≤ now c' → timer (pg c') = timer (pg c) → timerC (pg c') = timerC (pg c) →
  pinging (pc (pg c')) = pinging (pc (pg c)) → not_before x c'.
Proof.
  intros [] Hn Ht Hc Hp. split; rewrite ?Ht, ?Hc, ?Hp; [lia|done| |].
  - intros H%nb_fired0. lia.
  - intros H%nb_pinging0. lia.
Qed.

Ltac nb_keep := eapply not_before_mono; [eassumption|cbn; lia|try done..].

(** The loop resets its timer. *)
Lemma not_before_reset x c c' :
  not_before x c → now c ≤ now c' → timer (pg c') = Some (now c' + wsPingInterval) →
  timerC (pg c') = false → pinging (pc (pg c')) = false → not_before x c'.
Proof.
  intros [] Hn Ht Hc Hp. split; rewrite ?Ht, ?Hc, ?Hp; try done; [lia|]. intros t [= <-]. lia.
Qed.

(** The loop moves on with the timer taken down. *)
Lemma not_before_stopped x c c' :
  not_before x c → now c ≤ now c' → timer (pg c') = None →
  (timerC (pg c') = true → timerC (pg c) = true) → pinging (pc (pg c')) = false → not_before x c'.
Proof.
  intros [] Hn Ht Hc Hp. split; rewrite ?Ht, ?Hp; try done; [lia|]. intros H%Hc%nb_fired0. lia.
Qed.

(** ** Writers *)

Lemma holder_insert (W : gmap nat writer_pc) i w' (mu mu' : option owner) :
  (∀ j, mu = Some (Writer j) ↔ ∃ w, W !! j = Some w ∧ writer_holds w = true) →
  (∀ j, j ≠ i → (mu' = Some (Writer j) ↔ mu = Some (Writer j))) →
  (mu' = Some (Writer i) ↔ writer_holds w' = true) →
  ∀ j, mu' = Some (Writer j) ↔ ∃ w, <[i:=w']> W !! j = Some w ∧ writer_holds w = true.
Proof.
  intros Hmu Hother Hi j. destruct (decide (j = i)) as [->|Hj].
  - rewrite Hi, lookup_insert_eq. naive_solver.
  - rewrite (Hother j Hj), Hmu, lookup_insert_ne by done. done.
Qed.

(** A writer that is in its critical section is the one that has the lock. *)
Lemma writer_lock c i w : inv c → writers c !! i = Some w → writer_holds w = true → encMu c = Some (Writer i).
Proof. intros Hi Hw Hh. apply (inv_writer c Hi). eauto. Qed.

Lemma writer_unique c i w j w' :
  inv c → writers c !! i = Some w → writer_holds w = true →
  writers c !! j = Some w' → writer_holds w' = true → i = j.
Proof.
  intros Hi Hw Hh Hw' Hh'. pose proof (writer_lock c i w Hi Hw Hh).
  pose proof (writer_lock c j w' Hi Hw' Hh'). congruence.
Qed.

(** Changes of a writer's place that leave connection, loop and time alone. *)
Lemma inv_upd_writer c i w mu :
  inv c →
  (mu = Some Pinger ↔ encMu c = Some Pinger) →
  (∀ j, mu = Some (Writer j) ↔ ∃ w', <[i:=w]> (writers c) !! j = Some w' ∧ writer_holds w' = true) →
  (∀ d, w = WEncode d → wdeadline (cn c) = d) →
  ∀ g : pinger → pinger, (g = id ∨ g = set_reset true) →
  inv (upd id g (λ _, mu) (insert i w) c).
Proof.
  intros [] Hp Hw Hd g Hg.
  assert (Hpc : pc (g (pg c)) = pc (pg c)) by (by destruct Hg as [-> | ->]).
  assert (Ht : timer (g (pg c)) = timer (pg c)) by (by destruct Hg as [-> | ->]).
  assert (Hc : timerC (g (pg c)) = timerC (pg c)) by (by destruct Hg as [-> | ->]).
  assert (Hnb : ∀ x, not_before x c → not_before x (upd id g (λ _, mu) (insert i w) c))
    by (intros x Hx; nb_keep; cbn; by rewrite Hpc).
  split; cbn [upd cn pg encMu writers closer closeCh id]; try done; rewrite ?Hpc; auto.
  - by rewrite Hp.
  - intros j d [[_ ->]|[_ ?]]%lookup_insert_Some; eauto.
  - revert inv_timer0. unfold timer_ok. by rewrite Hpc, Ht, Hc.
Qed.

Lemma inv_writes c c' : writes c c' → inv c → inv c'.
Proof.
  intros Hs Hi. pose proof Hi as Hi'. destruct Hi'. destruct Hs as [i deadline c Hn|i deadline c Hw Hmu|i deadline c Hw d|
    i d ok c Hw|i ok c Hw|i ok c Hw].
  - apply (inv_upd_writer c i (WLock deadline) (encMu c)); auto; [|done].
    apply (holder_insert _ _ _ (encMu c)); [exact inv_writer0|done|]. cbn. rewrite inv_writer0. split; [intros (w & ? & ?); by simplify_eq/=|done].
  - apply (inv_upd_writer c i (WDeadline deadline)); auto; [by rewrite Hmu| |done].
    apply (holder_insert _ _ _ (encMu c)); [exact inv_writer0| |done]. intros j Hj. rewrite Hmu. naive_solver.
  - pose proof (writer_lock c i _ Hi Hw eq_refl) as Hl.
    assert (Hnb : ∀ x, not_before x c → not_before x (upd (SetWriteDeadline d) id id (insert i (WEncode d)) c))
      by (intros x Hx; nb_keep).
    split; cbn [upd cn pg encMu writers closer closeCh id SetWriteDeadline wdeadline rdeadline frames closes];
      auto.
    + apply (holder_insert _ _ _ (encMu c)); [exact inv_writer0|done|]. by rewrite Hl.
    + intros j d' [[_ [= ->]]|[Hj Hw']]%lookup_insert_Some; [done|].
      destruct Hj. by eapply (writer_unique c).
    + intros d' Hd'. assert (encMu c = Some Pinger) by (apply inv_loop0; by rewrite Hd'). congruence.
  - pose proof (writer_lock c i _ Hi Hw eq_refl) as Hl.
    assert (Hnb : ∀ x, not_before x c → not_before x
      (upd (write_frame (Writer i) d (now c)) id id (insert i (WUnlock ok)) c))
      by (intros x Hx; nb_keep).
    split; cbn [upd cn pg encMu writers closer closeCh id write_frame wdeadline rdeadline frames closes];
      cbn [ping_times is_ping f_by]; auto.
    + apply (holder_insert _ _ _ (encMu c)); [exact inv_writer0|done|]. by rewrite Hl.
    + intros j d' [[_ [=]]|[Hj Hw']]%lookup_insert_Some; eauto.
    + constructor; [|done]. split; [|done]. cbn. symmetry. by eapply inv_wdeadline0.
  - pose proof (writer_lock c i _ Hi Hw eq_refl) as Hl.
    apply (inv_upd_writer c i (WNotify ok) None); auto; [by rewrite Hl| |done].
    apply (holder_insert _ _ _ (encMu c)); [exact inv_writer0| |done]. intros j Hj. rewrite Hl. naive_solver.
  - apply (inv_upd_writer c i (WReturn ok) (encMu c)); auto; [|done|destruct (ok && websocket c); auto].
    apply (holder_insert _ _ _ (encMu c)); [exact inv_writer0|done|]. cbn. rewrite inv_writer0. split; [intros (w & ? & ?); by simplify_eq/=|done].
Qed.

(** ** The loop *)

(** Steps of the loop that only touch its own state and hold no lock. *)
Lemma inv_on_loop c (g : pinger → pinger) :
  inv c → loop_holds (pc (g (pg c))) = loop_holds (pc (pg c)) →
  (∀ d, pc (g (pg c)) ≠ LPing d) → timer_ok (g (pg c)) →
  (∀ x, not_before x c → not_before x (on_loop g c)) → inv (on_loop g c).
Proof.
  intros [] Hh Hp Ht Hnb. split; cbn [on_loop upd cn pg encMu writers closer closeCh id]; auto.
  - by rewrite Hh.
  - intros d Hd. by destruct (Hp d).
Qed.

(** A timer whose value was taken has fired. *)
Lemma not_before_taken x c l :
  not_before x c → timerC (pg c) = true → timer (pg c) = None →
  not_before x (on_loop (goto l ∘ set_timer (timer (pg c)) false) c).
Proof.
  intros [] Hf Ht. split; cbn; rewrite ?Ht; try done. intros _. by apply nb_fired0.
Qed.

Lemma inv_loops_quiet c c' : loops c c' → inv c →
  (∀ d, pc (pg c) ≠ LPing d) → pc (pg c) ≠ LLock → loop_holds (pc (pg c)) = false → inv c'.
Proof.
  intros Hs Hi Hnp Hnl Hnh. pose proof (inv_timer c Hi) as Ht0. unfold timer_ok in Ht0.
  destruct Hs as [c Hpc Hcl|c Hpc Hr|c Hpc Hf|c Hpc|c t Hpc Ht|c Hpc Ht|c Hpc Hf|c Hpc|c Hpc Hmu|c Hpc d|
    c d Hpc|c Hpc|c Hpc|c Hpc]; rewrite Hpc in *; try done; try (by destruct (Hnp d)).
  - apply inv_on_loop; cbn; rewrite ?Hpc; try done. intros x Hx.
    eapply not_before_stopped; [exact Hx|cbn; lia|done..].
  - apply inv_on_loop; cbn; rewrite ?Hpc; try done. intros x Hx. nb_keep. cbn. by rewrite Hpc.
  - destruct Ht0 as [[_ ?]|[Ht _]]; [congruence|]. apply inv_on_loop; cbn; rewrite ?Hpc; try done.
    intros x Hx. by apply not_before_taken.
  - destruct Hi. assert (Hnb : ∀ x, not_before x c → not_before x (upd (SetReadDeadline None) id id id c))
      by (intros x Hx; nb_keep).
    split; cbn [upd cn pg encMu writers closer closeCh id SetReadDeadline wdeadline rdeadline frames closes];
      auto; done.
  - destruct Ht0 as [[_ Hc]|[? _]]; [|congruence]. apply inv_on_loop; cbn; rewrite ?Hpc; try done.
    intros x Hx. eapply not_before_stopped; [exact Hx|cbn; lia|done..].
  - destruct Ht0 as [[[? ?] _]|[_ Hc]]; [congruence|]. apply inv_on_loop; cbn; rewrite ?Hpc; try done.
    intros x Hx. nb_keep. cbn. by rewrite Hpc.
  - destruct Ht0 as [Ht _]. apply inv_on_loop; cbn; rewrite ?Hpc; try done.
    intros x Hx. by apply not_before_taken.
  - destruct Ht0 as [Ht Hc]. apply inv_on_loop; cbn; rewrite ?Hpc; try done.
    + left. rewrite Hc. split; [by eexists|done].
    + intros x Hx. eapply not_before_reset; [exact Hx|cbn; lia|done..].
  - destruct Ht0 as [Ht Hc]. apply inv_on_loop; cbn; rewrite ?Hpc; try done.
    + left. rewrite Hc. split; [by eexists|done].
    + intros x Hx. eapply not_before_reset; [exact Hx|cbn; lia|done..].
Qed.

(** The critical section of a ping. *)
Lemma inv_loops c c' : loops c c' → inv c → inv c'.
Proof.
  intros Hs Hi. destruct (loop_holds (pc (pg c))) eqn:Hh.
  2: destruct (pc (pg c)) eqn:Hpc; try (by eapply inv_loops_quiet; rewrite ?Hpc); try done.
  all: pose proof Hi as Hi'; destruct Hi'; unfold timer_ok in inv_timer0.
  all: destruct Hs as [c Hpc' Hcl|c Hpc' Hr|c Hpc' Hf|c Hpc'|c t Hpc' Ht|c Hpc' Ht|c Hpc' Hf|c Hpc'|c Hpc' Hmu|
    c Hpc' d|c d Hpc'|c Hpc'|c Hpc'|c Hpc']; rewrite Hpc' in *; try done.
  - assert (Hmu : encMu c = Some Pinger) by (by apply inv_loop0).
    assert (Hnb : ∀ x, not_before x c → not_before x (upd (SetWriteDeadline d) (goto (LPing d)) id id c))
      by (intros x Hx; nb_keep; cbn; by rewrite Hpc').
    split; cbn [upd cn pg encMu writers closer closeCh id SetWriteDeadline goto pc wdeadline rdeadline frames closes];
      auto.
    + intros i d' Hw. assert (encMu c = Some (Writer i)) by (by eapply writer_lock). congruence.
    + by intros d' [= ->].
  - assert (Hmu : encMu c = Some Pinger) by (by apply inv_loop0).
    destruct inv_timer0 as [Ht Hc].
    assert (Hnb : ∀ x, not_before x c → not_before x (upd (write_frame Pinger d (now c)) (goto LReadDeadline) id id c))
      by (intros x Hx; eapply not_before_stopped; [exact Hx|cbn; lia|by cbn..]).
    split; cbn [upd cn pg encMu writers closer closeCh id write_frame goto pc wdeadline rdeadline frames closes
      ping_times is_ping f_by f_time hd_error]; auto; try done.
    + constructor; [|done]. split; [symmetry; by apply inv_pdeadline0|]. cbn. intros _ x Hx.
      apply (nb_pinging x c); [by apply inv_pong0|by rewrite Hpc'].
    + intros x [= <-]. split; cbn; rewrite ?Ht, ?Hc; try done; lia.
    + constructor; [done|]. destruct (ping_times (frames (cn c))) as [|y l] eqn:E; constructor.
      apply (nb_pinging (y + wsPingInterval) c); [by apply inv_ping0|by rewrite Hpc'].
  - assert (Hmu : encMu c = Some Pinger) by (by apply inv_loop0). destruct inv_timer0 as [Ht Hc].
    assert (Hnb : ∀ x, not_before x c →
      not_before x (upd (SetReadDeadline (Some (now c + wsPongTimeout))) (goto LUnlock) id id c))
      by (intros x Hx; nb_keep; cbn; by rewrite Hpc').
    split; cbn [upd cn pg encMu writers closer closeCh id SetReadDeadline goto pc wdeadline rdeadline frames closes];
      auto; try done.
    intros x [= <-]. split; cbn; rewrite ?Ht, ?Hc; done || lia.
  - assert (Hmu : encMu c = Some Pinger) by (by apply inv_loop0). destruct inv_timer0 as [Ht Hc].
    assert (Hnb : ∀ x, not_before x c → not_before x (upd id (goto LReset2) (λ _, None) id c))
      by (intros x Hx; nb_keep; cbn; by rewrite Hpc').
    split; cbn [upd cn pg encMu writers closer closeCh id goto pc]; auto; try done.
    intros i. rewrite <-inv_writer0. split; [done|]. congruence.
  - assert (Hnb : ∀ x, not_before x c → not_before x (upd id (goto LDeadline) (λ _, Some Pinger) id c))
      by (intros x Hx; nb_keep; cbn; by rewrite Hpc').
    split; cbn [upd cn pg encMu writers closer closeCh id goto pc]; auto; try done.
    intros i. rewrite <-inv_writer0, Hmu. done.
Qed.

Lemma codec_inv_step c c' : step c c' → inv c → inv c'.
Proof.
  intros [c1 c2 Hs|c1 c2 Hs|c1 Ho|c1 Ho|t c1 Ht|t c1 Ht Hle] Hi;
    [by eapply inv_writes|by eapply inv_loops|..]; pose proof Hi as Hi'; destruct Hi'.
  - assert (Hnb : ∀ x, not_before x c1 → not_before x (set_closer ORunning c1)) by (intros x Hx; nb_keep).
    split; auto; cbn; [done|]. by rewrite inv_closes0, Ho.
  - assert (Hnb : ∀ x, not_before x c1 → not_before x (upd conn_Close id id id (set_closer ODone c1)))
      by (intros x Hx; nb_keep).
    split; auto; cbn; [done|]. by rewrite inv_closes0, Ho.
  - assert (Hnb : ∀ x, not_before x c1 → not_before x (set_now t c1)).
    { intros x Hx. eapply not_before_mono; [exact Hx|exact Ht|done..]. }
    split; auto.
  - assert (Hsel : (pc (pg c1) = LSelect ∨ pc (pg c1) = LStop) ∧ timerC (pg c1) = false).
    { unfold timer_ok in inv_timer0. destruct (pc (pg c1)); try (destruct inv_timer0; congruence); try congruence;
        destruct inv_timer0 as [[_ ?]|[? _]]; try congruence; auto. }
    destruct Hsel as [Hpc Hc]. apply inv_on_loop; [done|done| | |].
    + intros d. cbn. by destruct Hpc as [-> | ->].
    + unfold timer_ok. cbn. destruct Hpc as [-> | ->]; by right.
    + intros x []. split; cbn; try done. intros _. specialize (nb_timer0 _ Ht). lia.
Qed.

Lemma codec_reachable_inv c : reachable c → inv c.
Proof.
  intros [t H]. assert (Hgen : ∀ c0, rtc step c0 c → inv c0 → inv c).
  { clear. induction 1; eauto using codec_inv_step. }
  destruct H as [H|H]; eapply Hgen; eauto using inv_NewFuncCodec, inv_newWebsocketCodec.
Qed.

(** ** Closing ends *)

Lemma rtc_more {c1 c2 c3} : rtc step c1 c2 → step c2 c3 → rtc step c1 c3.
Proof. intros H Hs. eapply rtc_r; eauto. Qed.

(** A writer in its critical section can leave it by itself. *)
Lemma writer_leaves c i :
  inv c → encMu c = Some (Writer i) →
  ∃ c', rtc step c c' ∧ encMu c' = None ∧ pg c' = pg c ∧ closer c' = closer c ∧ closeCh c' = closeCh c.
Proof.
  intros Hi Hl. pose proof Hi as Hi'. destruct Hi'. apply inv_writer0 in Hl as (w & Hw & Hh).
  assert (Hu : ∀ c1 ok, rtc step c c1 → writers c1 !! i = Some (WUnlock ok) →
    pg c1 = pg c → closer c1 = closer c → closeCh c1 = closeCh c →
    ∃ c', rtc step c c' ∧ encMu c' = None ∧ pg c' = pg c ∧ closer c' = closer c ∧ closeCh c' = closeCh c).
  { intros c1 ok Hr H1 H2 H3 H4. exists (upd id id (λ _, None) (insert i (WNotify ok)) c1).
    split; [|done]. eapply rtc_more; [exact Hr|]. apply s_writes. by apply w_unlock. }
  assert (He : ∀ c1 d, rtc step c c1 → writers c1 !! i = Some (WEncode d) →
    pg c1 = pg c → closer c1 = closer c → closeCh c1 = closeCh c →
    ∃ c', rtc step c c' ∧ encMu c' = None ∧ pg c' = pg c ∧ closer c' = closer c ∧ closeCh c' = closeCh c).
  { intros c1 d Hr H1 H2 H3 H4. eapply (Hu (upd (write_frame (Writer i) d (now c1)) id id (insert i (WUnlock true)) c1) true).
    - eapply rtc_more; [exact Hr|]. apply s_writes. by apply w_encode.
    - cbn. by rewrite lookup_insert_eq.
    - exact H2.
    - exact H3.
    - exact H4. }
  destruct w; try done.
  - eapply He; [apply rtc_once, s_writes; by eapply w_deadline|cbn; by rewrite lookup_insert_eq|done..].
  - eapply He; [apply rtc_refl|exact Hw|done..].
  - eapply Hu; [apply rtc_refl|exact Hw|done..].
Qed.

Definition rank (l : loop_pc) : nat :=
  match l with
  | LDone => 0 | LSelect => 1 | LReset => 2 | LDrain => 3 | LStop => 4
  | LReset2 => 2 | LUnlock => 3 | LReadDeadline => 4 | LPing _ => 5 | LDeadline => 6 | LLock => 7
  end%nat.

(** One step of the loop towards its end, after the writer that has the lock. *)
Lemma loop_step c :
  inv c → closeCh c = true → pc (pg c) ≠ LDone →
  ∃ c', rtc step c c' ∧ closer c' = closer c ∧ closeCh c' = true ∧ (rank (pc (pg c')) < rank (pc (pg c)))%nat.
Proof.
  intros Hi Hcl Hd. pose proof (inv_timer c Hi) as Ht. unfold timer_ok in Ht.
  assert (Hone : ∀ c', loops c c' → closer c' = closer c → closeCh c' = closeCh c →
    (rank (pc (pg c')) < rank (pc (pg c)))%nat →
    ∃ c', rtc step c c' ∧ closer c' = closer c ∧ closeCh c' = true ∧ (rank (pc (pg c')) < rank (pc (pg c)))%nat).
  { intros c' Hl H1 H2 H3. exists c'. split; [by apply rtc_once, s_loops|]. rewrite H2. done. }
  destruct (pc (pg c)) eqn:Hpc; try done.
  - eapply Hone; [by apply l_closed|done..|cbn; lia].
  - destruct (timer (pg c)) eqn:E.
    + eapply Hone; [by eapply l_stop|done..|cbn; lia].
    + eapply Hone; [by apply l_expired|done..|cbn; lia].
  - destruct Ht as [_ Hf]. eapply Hone; [by apply l_drain|done..|cbn; lia].
  - eapply Hone; [by apply l_again|done..|cbn; lia].
  - assert (Hfree : ∃ c1, rtc step c c1 ∧ encMu c1 = None ∧ pg c1 = pg c ∧ closer c1 = closer c ∧
      closeCh c1 = closeCh c).
    { destruct (encMu c) as [[i|]|] eqn:Hmu.
      - by eapply writer_leaves.
      - apply (inv_loop c Hi) in Hmu. by rewrite Hpc in Hmu.
      - exists c. split; [apply rtc_refl|done]. }
    destruct Hfree as (c1 & Hr & Hmu & Hpg & Ho & Hc1).
    eexists. split; [eapply rtc_more; [exact Hr|]; apply s_loops, l_lock; [by rewrite Hpg|done]|].
    cbn. split; [done|]. split; [by rewrite Hc1|lia].
  - eapply Hone; [by apply l_deadline|done..|cbn; lia].
  - eapply Hone; [by eapply l_ping|done..|cbn; lia].
  - eapply Hone; [by apply l_read|done..|cbn; lia].
  - eapply Hone; [by apply l_unlock|done..|cbn; lia].
  - eapply Hone; [by apply l_again2|done..|cbn; lia].
Qed.

Lemma inv_rtc c c' : rtc step c c' → inv c → inv c'.
Proof. induction 1; eauto using codec_inv_step. Qed.

Lemma loop_ends n c :
  (rank (pc (pg c)) ≤ n)%nat → inv c → closeCh c = true →
  ∃ c', rtc step c c' ∧ closer c' = closer c ∧ pc (pg c') = LDone.
Proof.
  revert c. induction n as [|n IH]; intros c Hn Hi Hcl;
    destruct (decide (rank (pc (pg c)) = 0%nat)) as [E|E]; try lia;
    try (exists c; split; [apply rtc_refl|]; split; [done|]; by destruct (pc (pg c))).
  assert (Hd : pc (pg c) ≠ LDone) by (intros Hd; by rewrite Hd in E).
  destruct (loop_step c Hi Hcl Hd) as (c1 & Hr & Ho & Hc1 & Hlt).
  destruct (IH c1) as (c2 & Hr2 & Ho2 & Hd2); [lia|by eapply inv_rtc|done|].
  exists c2. split; [by etransitivity|]. by rewrite Ho2.
Qed.

Lemma close_can_return c : inv c → closer c ≠ ONew → ∃ c', rtc step c c' ∧ close_returns c'.
Proof.
  intros Hi Ho. assert (Hcl : closeCh c = true) by (by apply (inv_once c Hi)).
  destruct (loop_ends _ c (le_n _) Hi Hcl) as (c1 & Hr & Ho1 & Hd).
  destruct (closer c) eqn:E; [done| |].
  - eexists. split; [eapply rtc_more; [exact Hr|]; by apply s_conn_close|]. split; [done|exact Hd].
  - exists c1. split; [exact Hr|]. split; [by rewrite Ho1|done].
Qed.

(** * Properties *)


(** The pings of a websocket are at least thirty seconds apart and none is
    sent while the pong of an earlier one is awaited, so that the read deadline
    of a silent peer passes; and the loop never waits for a timer that was
    already drained. *)
Theorem ping_discipline (c : codec) :
  reachable c →
  Sorted (λ later earlier, earlier + wsPingInterval ≤ later) (ping_times (frames (cn c))) ∧
  Forall (λ f, f_by f = Pinger → ∀ d, f_due f = Some d → d ≤ f_time f) (frames (cn c)) ∧
  (pc (pg c) = LDrain → timerC (pg c) = true).
Proof.
  intros Hi%codec_reachable_inv. split_and!.
  - apply (inv_spaced c Hi).
  - eapply Forall_impl; [apply (inv_frames c Hi)|]. intros f [_ Hf] Hp. apply Hf. unfold is_ping. by rewrite Hp.
  - intros Hpc. pose proof (inv_timer c Hi) as Ht. unfold timer_ok in Ht. rewrite Hpc in Ht. by destruct Ht.
Qed.

(** C33: Closing a codec ends.  Once [close] was called, in whatever state the
    writers, the timer and the loop are, the loop can still reach its end and
    [close] returns; the connection is then closed once and only once however
    often [close] is called. *)
Theorem close_terminates (c : codec) :
  reachable c → closer c ≠ ONew →
  (∃ c', rtc step c c' ∧ close_returns c') ∧
  (∀ c', rtc step c c' → close_returns c' → closes (cn c') = 1%nat ∧ closeCh c' = true).
Proof.
  intros Hi%codec_reachable_inv Ho. split; [by apply close_can_return|].
  intros c' Hr [Ho' _]. pose proof (inv_rtc c c' Hr Hi) as Hi'. split.
  - by rewrite (inv_closes c' Hi'), Ho'.
  - apply (inv_once c' Hi'). by rewrite Ho'.
Qed.

(** A websocket with one message written, about to ping, and then closed. *)
Definition sample_started : codec := on_writer 1 (WLock None) (newWebsocketCodec 0).


(** The state after thirty seconds, with the value of the timer taken. *)
Definition sample_fired : codec :=
  on_loop (set_timer None true) (set_now wsPingInterval (newWebsocketCodec 0)).

Lemma sample_fired_reachable : reachable sample_fired.
Proof.
  exists 0. right. eapply rtc_l; [apply (s_tick wsPingInterval); vm_compute; discriminate|].
  eapply rtc_l; [apply (s_fire wsPingInterval); [reflexivity|cbn; lia]|]. apply rtc_refl.
Qed.

Example ping_discipline_witness :
  reachable sample_fired ∧ timerC (pg sample_fired) = true ∧
  Sorted (λ later earlier, earlier + wsPingInterval ≤ later) (ping_times (frames (cn sample_fired))).
Proof.
  split; [apply sample_fired_reachable|]. split; [reflexivity|].
  apply (ping_discipline sample_fired sample_fired_reachable).
Defined.

Lemma sample_closing_reachable : reachable (set_closer ORunning sample_fired).
Proof.
  destruct sample_fired_reachable as [t [H|H]]; exists t; [left|right]; eapply rtc_r; eauto; by apply s_close.
Qed.

Example close_terminates_witness :
  closer (set_closer ORunning sample_fired) = ORunning ∧
  ∃ c', rtc step (set_closer ORunning sample_fired) c' ∧ close_returns c'.
Proof.
  split; [reflexivity|].
  apply (close_terminates (set_closer ORunning sample_fired) sample_closing_reachable).
  discriminate.
Defined.
