(* ===== verification/RpcServe.v ===== *)
(** * Package rpc, serving connections (src/rpc/server.go [ServeCodec],
    ipc.go [ServeListener], endpoints.go, src/server/rpcstack.go [ipcServer])

    Each connection is served by a goroutine of its own that tracks the codec
    in the server's set, waits until it is closed, and takes it out again;
    [Stop] runs next to them.  The sessions and [Stop] are the steps of one
    transition system on the server's record. *)

From S2P Require Import Prelude Strconv GoJson GoValue RpcErrors RpcJson RpcService RpcHandler.
From S2P Require Import RpcServer HttpConn HttpStack.

(** Where a call of [ServeCodec] is. *)
Inductive session :=
| Accepted                  (* before [trackCodec] *)
| Serving                   (* waits for [codec.closed] *)
| Quitting                  (* in [c.Close] *)
| Untracking                (* the deferred [untrackCodec] *)
| Closing                   (* the deferred [codec.close] *)
| Finished.

Section serve.
Context {A : Type}.

(** The server and the sessions by the number of their codec. *)
Record serving := { srv : rpcServer A; sessions : gmap nat session }.

Definition move (k : nat) (ph : session) (f : rpcServer A → rpcServer A) (s : serving) : serving :=
  {| srv := f (srv s); sessions := <[k := ph]> (sessions s) |}.

(** [close] of a codec: its channel is closed. *)
Definition close_codec (k : nat) (r : rpcServer A) : rpcServer A :=
  with_codecs (codecs r) ({[k]} ∪ closed r) r.

(** What [ServeCodec] does after [trackCodec]. *)
Definition tracked (ok : bool) : session := if ok then Serving else Closing.

Inductive serve_step : serving → serving → Prop :=
| sv_accept k s : sessions s !! k = None → k ∉ codecs (srv s) → k ∉ closed (srv s) →
    serve_step s (move k Accepted id s)
| sv_track k s : sessions s !! k = Some Accepted →
    serve_step s (move k (tracked (trackCodec k (srv s)).2) (λ r, (trackCodec k r).1) s)
| sv_lost k s : sessions s !! k = Some Serving →  (* the peer goes away *)
    serve_step s (move k Serving (close_codec k) s)
| sv_closed k s : sessions s !! k = Some Serving → k ∈ closed (srv s) →
    serve_step s (move k Quitting id s)
| sv_quit k s : sessions s !! k = Some Quitting → serve_step s (move k Untracking id s)
| sv_untrack k s : sessions s !! k = Some Untracking →
    serve_step s (move k Closing (untrackCodec k) s)
| sv_close k s : sessions s !! k = Some Closing →
    serve_step s (move k Finished (close_codec k) s)
| sv_stop s : serve_step s {| srv := Stop (srv s); sessions := sessions s |}.

(** ** Listening *)

(** What [Accept] brings: a connection, a temporary error or another one. *)
Inductive accepted := Conn (k : nat) | Temporary | Fatal (e : string).

(** [ServeListener]: the connections that get a session, in order, and the
    error it returns with; [None] when it still waits. *)
Fixpoint ServeListener (l : list accepted) : list nat * option string :=
  match l with
  | [] => ([], None)
  | Conn k :: l' => let '(ks, e) := ServeListener l' in (k :: ks, e)
  | Temporary :: l' => ServeListener l'
  | Fatal e :: _ => ([], Some e)
  end.

(** ** The IPC endpoint *)

Inductive ipc_error := IpcRegister (e : goerror) | IpcListen (e : string).

(** The loop of [StartIPCEndpoint] over the APIs: all are registered, none is
    filtered. *)
Fixpoint register_all (apis : list (string * (string * list (method (hstate A))))) (r : rpcServer A)
    : rpcServer A + goerror :=
  match apis with
  | [] => inl r
  | api :: apis' =>
      match RegisterName api.1 api.2.1 api.2.2 r with
      | (_, Some err) => inr err
      | (r, None) => register_all apis' r
      end
  end.

(** The size of a socket's path the system takes. *)
Definition maxPathSize : Z := 108.
Definition ipc_path_warning (endpoint : string) : bool :=
  maxPathSize <? Z.of_nat (String.length endpoint) + 1.

(** [ipcListen]: [mkdir] is the error of making the directory, [net_listen]
    that of opening the socket once an old one was removed.  A path that is
    too long is only logged. *)
Definition ipcListen (mkdir net_listen : option string) : option string :=
  match mkdir with Some e => Some e | None => net_listen end.

(** [listen] is the result of [ipcListen]. *)
Definition StartIPCEndpoint (modules : gmap string string) (listen : option string)
    (apis : list (string * (string * list (method (hstate A))))) : rpcServer A + ipc_error :=
  match register_all apis (RpcServer.NewServer modules) with
  | inr e => inr (IpcRegister e)
  | inl r => match listen with Some e => inr (IpcListen e) | None => inl r end
  end.

(** [ipcServer]: the endpoint and, when it runs, the server. *)
Record ipcServer := { ipc_endpoint : string; ipc_srv : option (rpcServer A) }.

Definition newIPCServer (endpoint : string) : ipcServer :=
  {| ipc_endpoint := endpoint; ipc_srv := None |}.

Definition ipc_start (modules : gmap string string) (listen : option string)
    (apis : list (string * (string * list (method (hstate A))))) (i : ipcServer)
    : ipcServer * option ipc_error :=
  match ipc_srv i with
  | Some _ => (i, None)
  | None =>
      match StartIPCEndpoint modules listen apis with
      | inr e => (i, Some e)
      | inl r => ({| ipc_endpoint := ipc_endpoint i; ipc_srv := Some r |}, None)
      end
  end.

(** [closing] is the error of closing the listener; the stopped server is
    returned for the sessions it still has. *)
Definition ipc_stop (closing : option string) (i : ipcServer)
    : ipcServer * option (rpcServer A) * option string :=
  match ipc_srv i with
  | None => (i, None, None)
  | Some r => ({| ipc_endpoint := ipc_endpoint i; ipc_srv := None |}, Some (Stop r), closing)
  end.
End serve.

Arguments serving : clear implicits.
Arguments ipcServer : clear implicits.

(** * Lemmas *)

Definition is_tracked (ph : session) : bool :=
  match ph with Serving | Quitting | Untracking => true | _ => false end.
Definition is_closed (ph : session) : bool :=
  match ph with Quitting | Untracking | Finished => true | _ => false end.

Section sessions.
Context {A : Type}.
Implicit Types (s : serving A).

(** The codecs of the server are those of the sessions that serve; a codec
    that is no longer waited for is closed; a stopped server has closed all. *)
Record serve_inv s : Prop := {
  sv_codecs : ∀ k, k ∈ codecs (srv s) ↔ ∃ ph, sessions s !! k = Some ph ∧ is_tracked ph = true;
  sv_isclosed : ∀ k ph, sessions s !! k = Some ph → is_closed ph = true → k ∈ closed (srv s);
  sv_stopped : run (srv s) = false → codecs (srv s) ⊆ closed (srv s)
}.

Lemma serve_inv_start (r : rpcServer A) : codecs r = ∅ → serve_inv {| srv := r; sessions := ∅ |}.
Proof.
  intros Hc. split; cbn.
  - intros k. rewrite Hc. split; [set_solver|]. intros (ph & H & _). by rewrite lookup_empty in H.
  - intros k ph H. by rewrite lookup_empty in H.
  - rewrite Hc. set_solver.
Qed.

(** Moving one session, with the effect on the sets spelled out. *)
Lemma serve_inv_move k ph f s :
  serve_inv s →
  (∀ j, j ∈ codecs (f (srv s)) ↔ if decide (j = k) then is_tracked ph = true else j ∈ codecs (srv s)) →
  closed (srv s) ⊆ closed (f (srv s)) →
  (is_closed ph = true → k ∈ closed (f (srv s))) →
  (run (f (srv s)) = false → codecs (f (srv s)) ⊆ closed (f (srv s))) →
  serve_inv (move k ph f s).
Proof.
  intros [Hc Hcl Hst] Hcodecs Hsub Hk Hrun. split; cbn; [| |exact Hrun].
  - intros j. rewrite Hcodecs. destruct (decide (j = k)) as [->|Hj].
    + rewrite lookup_insert_eq. naive_solver.
    + rewrite lookup_insert_ne by done. apply Hc.
  - intros j ph' [[<- <-]|[Hj H]]%lookup_insert_Some Hph; [by apply Hk|]. apply Hsub. by eapply Hcl.
Qed.

(** A session keeps its place in the set when it moves between phases that
    are tracked alike. *)
Lemma tracked_same s k ph ph' j :
  serve_inv s → sessions s !! k = Some ph → is_tracked ph = is_tracked ph' →
  j ∈ codecs (srv s) ↔ if decide (j = k) then is_tracked ph' = true else j ∈ codecs (srv s).
Proof.
  intros [Hc _ _] Hk He. destruct (decide (j = k)) as [->|]; [|done].
  rewrite Hc, <-He. split; [intros (ph0 & H0 & ?); congruence|]. intros. by exists ph.
Qed.

Lemma serve_inv_step s s' : serve_step s s' → serve_inv s → serve_inv s'.
Proof.
  intros Hs Hi. pose proof Hi as [Hc Hcl Hst].
  destruct Hs as [k s Hn Hk1 Hk2|k s Hk|k s Hk|k s Hk Hin|k s Hk|k s Hk|k s Hk|s].
  - apply serve_inv_move; try done. intros j. cbn. case_decide; [subst; done|done].
  - unfold trackCodec. apply serve_inv_move; try done; destruct (run (srv s)) eqn:Hr; cbn; try done.
    + intros j. case_decide; set_solver.
    + intros j. by apply (tracked_same s k Accepted Closing).
    + congruence.
    + auto.
  - apply serve_inv_move; cbn; try done; [|set_solver|].
    + intros j. by apply (tracked_same s k Serving Serving).
    + intros Hr. specialize (Hst Hr). set_solver.
  - apply serve_inv_move; cbn; try done. intros j. by apply (tracked_same s k Serving Quitting).
  - apply serve_inv_move; cbn; try done; [|by intros _; eapply Hcl].
    intros j. by apply (tracked_same s k Quitting Untracking).
  - apply serve_inv_move; cbn; try done.
    + intros j. case_decide; set_solver.
    + intros Hr. specialize (Hst Hr). set_solver.
  - apply serve_inv_move; cbn; try done; [|set_solver|set_solver|].
    + intros j. by apply (tracked_same s k Closing Finished).
    + intros Hr. specialize (Hst Hr). set_solver.
  - unfold Stop. destruct (run (srv s)) eqn:Hr; split; cbn; auto; [|set_solver].
    intros k ph Hk Hph. apply elem_of_union_l. by eapply Hcl.
Qed.

Lemma serve_inv_rtc s s' : rtc serve_step s s' → serve_inv s → serve_inv s'.
Proof. induction 1; eauto using serve_inv_step. Qed.
End sessions.

Section draining.
Context {A : Type}.
Implicit Types (s : serving A).

(** One session of a stopped server runs to its end without touching the
    others. *)
Lemma finish_one s k ph :
  serve_inv s → run (srv s) = false → sessions s !! k = Some ph →
  ∃ s', rtc serve_step s s' ∧ run (srv s') = false ∧ sessions s' = <[k := Finished]> (sessions s).
Proof.
  intros Hi Hr Hk.
  assert (H5 : ∀ s0, rtc serve_step s s0 → run (srv s0) = false → sessions s0 !! k = Some Closing →
    (∀ ph0, <[k := ph0]> (sessions s0) = <[k := ph0]> (sessions s)) →
    ∃ s', rtc serve_step s s' ∧ run (srv s') = false ∧ sessions s' = <[k := Finished]> (sessions s)).
  { intros s0 H0 H1 H2 H3. exists (move k Finished (close_codec k) s0).
    split; [by eapply rtc_r; [exact H0|apply sv_close]|]. split; [done|]. cbn. apply H3. }
  assert (H4 : ∀ s0, rtc serve_step s s0 → run (srv s0) = false → sessions s0 !! k = Some Untracking →
    (∀ ph0, <[k := ph0]> (sessions s0) = <[k := ph0]> (sessions s)) →
    ∃ s', rtc serve_step s s' ∧ run (srv s') = false ∧ sessions s' = <[k := Finished]> (sessions s)).
  { intros s0 H0 H1 H2 H3. apply (H5 (move k Closing (untrackCodec k) s0)); cbn; [|done|by rewrite lookup_insert_eq|].
    - by eapply rtc_r; [exact H0|apply sv_untrack].
    - intros ph0. by rewrite insert_insert_eq. }
  assert (H3 : ∀ s0, rtc serve_step s s0 → run (srv s0) = false → sessions s0 !! k = Some Quitting →
    (∀ ph0, <[k := ph0]> (sessions s0) = <[k := ph0]> (sessions s)) →
    ∃ s', rtc serve_step s s' ∧ run (srv s') = false ∧ sessions s' = <[k := Finished]> (sessions s)).
  { intros s0 H0 H1 H2 H3'. apply (H4 (move k Untracking id s0)); cbn; [|done|by rewrite lookup_insert_eq|].
    - by eapply rtc_r; [exact H0|apply sv_quit].
    - intros ph0. by rewrite insert_insert_eq. }
  destruct ph.
  - apply (H5 (move k (tracked (trackCodec k (srv s)).2) (λ r, (trackCodec k r).1) s)).
    + apply rtc_once. by apply sv_track.
    + cbn. unfold trackCodec. by rewrite Hr.
    + cbn. rewrite lookup_insert_eq. unfold trackCodec. by rewrite Hr.
    + intros ph0. cbn. by rewrite insert_insert_eq.
  - apply (H3 (move k Quitting id s)); [|done|cbn; by rewrite lookup_insert_eq|].
    + apply rtc_once. apply sv_closed; [done|]. apply (sv_stopped s Hi Hr), (sv_codecs s Hi). by exists Serving.
    + intros ph0. cbn. by rewrite insert_insert_eq.
  - by apply (H3 s (rtc_refl _ _)).
  - by apply (H4 s (rtc_refl _ _)).
  - by apply (H5 s (rtc_refl _ _)).
  - exists s. split; [apply rtc_refl|]. split; [done|]. by rewrite insert_id.
Qed.

(** All sessions of a list. *)
Lemma finish_all s (ks : list nat) :
  serve_inv s → run (srv s) = false → (∀ k, k ∈ ks → is_Some (sessions s !! k)) →
  ∃ s', rtc serve_step s s' ∧ run (srv s') = false ∧ dom (sessions s') = dom (sessions s) ∧
    (∀ k, k ∈ ks ∨ sessions s !! k = Some Finished → sessions s' !! k = Some Finished).
Proof.
  intros Hi Hr. revert s Hi Hr. induction ks as [|k ks IH]; intros s Hi Hr Hks.
  - exists s. split; [apply rtc_refl|]. split_and!; [done..|]. intros k [Hk|]; [by apply elem_of_nil in Hk|done].
  - destruct (Hks k) as [ph Hph]; [by left|]. destruct (finish_one s k ph Hi Hr Hph) as (s1 & Hs1 & Hr1 & E1).
    destruct (IH s1) as (s2 & Hs2 & Hr2 & Hd2 & Hf2); [by eapply serve_inv_rtc|done| |].
    { intros j Hj. rewrite E1. destruct (decide (j = k)) as [->|]; [rewrite lookup_insert_eq; by eexists|].
      rewrite lookup_insert_ne by done. apply Hks. by right. }
    exists s2. split; [by etransitivity|]. split; [done|]. split.
    + rewrite Hd2, E1, dom_insert_L. apply elem_of_dom_2 in Hph. set_solver.
    + intros j Hj. apply Hf2. rewrite E1. destruct (decide (j = k)) as [->|Hne]; [right; by rewrite lookup_insert_eq|].
      rewrite lookup_insert_ne by done. destruct Hj as [Hj|Hj]; [|by right]. left. set_solver.
Qed.
End draining.

(** A server without services, serving one connection. *)
Definition bare_server : rpcServer unit := {|
  services := ∅; codecs := ∅; closed := ∅; run := true;
  RpcServer.batchItemLimit := 0; batchResponseLimit := 0 |}.

Definition sample_idle : serving unit := {| srv := bare_server; sessions := ∅ |}.
Definition sample_accepted : serving unit := move 7 Accepted id sample_idle.
Definition sample_serving : serving unit :=
  move 7 (tracked (trackCodec 7 (srv sample_accepted)).2) (λ r, (trackCodec 7 r).1) sample_accepted.
Definition sample_stopped : serving unit :=
  {| srv := Stop (srv sample_serving); sessions := sessions sample_serving |}.

Lemma sample_stopped_run : rtc serve_step sample_idle sample_stopped.
Proof.
  eapply (rtc_l _ _ sample_accepted); [by apply sv_accept; cbn|].
  eapply (rtc_l _ _ sample_serving); [by apply sv_track|]. apply rtc_once, sv_stop.
Qed.

(** * Properties *)



(** The listener serves every connection it accepts before its first error
    that is not temporary, in order. *)
Lemma ServeListener_spec l1 l2 e :
  (∀ x, x ∈ l1 → ∀ e, x ≠ Fatal e) →
  ServeListener (l1 ++ Fatal e :: l2) =
  (omap (λ x, match x with Conn k => Some k | _ => None end) l1, Some e).
Proof.
  intros H. induction l1 as [|x l1 IH]; [done|]. specialize (IH (λ y Hy, H y (list_elem_of_further _ _ _ Hy))).
  destruct x; cbn; [by rewrite IH|by rewrite IH|]. exfalso. by apply (H (Fatal e0) (list_elem_of_here _ _) e0).
Qed.

(** The IPC endpoint runs one server at most: starting it again keeps the one
    that runs, a failed start leaves it off, and stopping gives back the
    stopped server and may be repeated. *)
Lemma ipc_life_cycle {A} modules listen apis (i : ipcServer A) closing :
  let '(i1, e1) := ipc_start modules listen apis i in
  let '(i2, old, e2) := ipc_stop closing i1 in
  (ipc_srv i ≠ None → i1 = i ∧ e1 = None) ∧
  (e1 ≠ None → i1 = i) ∧
  (e1 = None → ipc_start modules listen apis i1 = (i1, None) ∧ ∃ r, ipc_srv i1 = Some r ∧ old = Some (Stop r)) ∧
  ipc_stop closing i2 = (i2, None, None).
Proof.
  unfold ipc_start, ipc_stop. destruct i as [ep [r|]]; cbn.
  - split_and!; try done. intros _. split; [done|]. by exists r.
  - destruct (StartIPCEndpoint modules listen apis) as [r|e]; cbn; split_and!; try done.
    intros _. split; [done|]. by exists r.
Qed.
