(* ===== verification/RpcClose.v ===== *)
(** * Package rpc, the end of a served connection (src/rpc/client.go
    [dispatch], [drainRead], [read], [Close], [send], [wait]; handler.go
    [startCallProc], [close]; server.go [ServeCodec])

    The client that [ServeCodec] makes for a connection, with the goroutines
    that run the calls it receives.  A method may use that client to call back
    ([ClientFromContext]); when the connection ends the loop waits for all
    methods.  The loop, the read loop, the calls and [ServeCodec] are the
    threads of one transition system.  There is no function to reconnect with. *)

From S2P Require Import Prelude.

(** Where the goroutine of a call is: in the code of its method, or in a call
    back: in the select of [send], writing, in the outer select of [wait], or
    in its inner one after the context ended. *)
Inductive proc_pc := PRun | PSend | PWrite | PWait | PReport.

(** [expires]: the context of the call back has a deadline of its own;
    [registered]: its operation is in [respWait]; [settled]: its channel has an
    answer or is closed. *)
Record callProc := { pc : proc_pc; expires : bool; registered : bool; settled : bool }.

(** The goroutine of [read]: reading, offering a message or an error, gone. *)
Inductive reader := RRead | RMsg | RErr | RGone.

Inductive why := ByRead | ByClose.

(** The loop: at its select, in the steps of [conn.close], in [drainRead],
    returned. *)
Inductive loop_pc :=
| LSelect
| LWaitCalls (w : why)
| LCancelRoot (w : why)
| LCancelSubs (w : why)
| LCloseCodec (w : why)
| LDrain
| LDone.

(** [ServeCodec]: waits for the codec, in the select of [c.Close], waits for
    [didClose], returned. *)
Inductive main_pc := MWait | MClose | MDid | MReturned.

Record served := {
  loop : loop_pc;
  main : main_pc;
  rd : reader;
  reading : bool;
  closing : bool;                    (* c.closing is closed *)
  didClose : bool;                   (* c.didClose is closed *)
  codec_closed : bool;
  rootDone : bool;                   (* rootCtx is cancelled *)
  locked : bool;                     (* reqInitLock is nil *)
  lastOp : option nat;
  reqSent : option bool;             (* the buffer: whether writing failed *)
  procs : gmap nat callProc;         (* callWG counts them *)
  next : nat;
  serverSubs : gset nat;
  ended : gset nat                   (* subscriptions whose channel is closed *)
}.

(** ** Updates *)

Definition set_loop (l : loop_pc) (s : served) : served :=
  {| loop := l; main := main s; rd := rd s; reading := reading s; closing := closing s;
     didClose := didClose s; codec_closed := codec_closed s; rootDone := rootDone s;
     locked := locked s; lastOp := lastOp s; reqSent := reqSent s; procs := procs s; next := next s;
     serverSubs := serverSubs s; ended := ended s |}.

Definition set_main (m : main_pc) (s : served) : served :=
  {| loop := loop s; main := m; rd := rd s; reading := reading s; closing := closing s;
     didClose := didClose s; codec_closed := codec_closed s; rootDone := rootDone s;
     locked := locked s; lastOp := lastOp s; reqSent := reqSent s; procs := procs s; next := next s;
     serverSubs := serverSubs s; ended := ended s |}.

Definition set_rd (r : reader) (s : served) : served :=
  {| loop := loop s; main := main s; rd := r; reading := reading s; closing := closing s;
     didClose := didClose s; codec_closed := codec_closed s; rootDone := rootDone s;
     locked := locked s; lastOp := lastOp s; reqSent := reqSent s; procs := procs s; next := next s;
     serverSubs := serverSubs s; ended := ended s |}.

Definition set_procs (f : gmap nat callProc → gmap nat callProc) (s : served) : served :=
  {| loop := loop s; main := main s; rd := rd s; reading := reading s; closing := closing s;
     didClose := didClose s; codec_closed := codec_closed s; rootDone := rootDone s;
     locked := locked s; lastOp := lastOp s; reqSent := reqSent s; procs := f (procs s);
     next := next s; serverSubs := serverSubs s; ended := ended s |}.

Definition set_lock (l : bool) (op : option nat) (sent : option bool) (s : served) : served :=
  {| loop := loop s; main := main s; rd := rd s; reading := reading s; closing := closing s;
     didClose := didClose s; codec_closed := codec_closed s; rootDone := rootDone s;
     locked := l; lastOp := op; reqSent := sent; procs := procs s; next := next s;
     serverSubs := serverSubs s; ended := ended s |}.

Definition set_subs (subs e : gset nat) (n : nat) (s : served) : served :=
  {| loop := loop s; main := main s; rd := rd s; reading := reading s; closing := closing s;
     didClose := didClose s; codec_closed := codec_closed s; rootDone := rootDone s;
     locked := locked s; lastOp := lastOp s; reqSent := reqSent s; procs := procs s; next := n;
     serverSubs := subs; ended := e |}.

(** The flags of the connection: reading, closing, didClose, the codec, the
    root context. *)
Definition set_flags (r c d k x : bool) (s : served) : served :=
  {| loop := loop s; main := main s; rd := rd s; reading := r; closing := c;
     didClose := d; codec_closed := k; rootDone := x;
     locked := locked s; lastOp := lastOp s; reqSent := reqSent s; procs := procs s; next := next s;
     serverSubs := serverSubs s; ended := ended s |}.

Definition at_pc (p : callProc) (l : proc_pc) : callProc :=
  {| pc := l; expires := expires p; registered := registered p; settled := settled p |}.
Definition set_op (reg set : bool) (p : callProc) : callProc :=
  {| pc := pc p; expires := expires p; registered := reg; settled := set |}.

(** [cancelAllRequests]: every registered operation is taken out, and its
    channel closed unless it is the one in flight. *)
Definition cancelAllRequests (inflight : option nat) : gmap nat callProc → gmap nat callProc :=
  map_imap (λ i p, Some (if registered p
                         then set_op false (settled p || negb (bool_decide (inflight = Some i))) p
                         else p)).

(** [handleResponses] for the operations of [X]. *)
Definition answer (X : gset nat) : gmap nat callProc → gmap nat callProc :=
  map_imap (λ i p, Some (if registered p && bool_decide (i ∈ X) then set_op false true p else p)).

(** [removeRequestOp]; the caller may be gone. *)
Definition deregister (op : option nat) (m : gmap nat callProc) : gmap nat callProc :=
  match op with
  | Some i => alter (λ p, set_op false (settled p) p) i m
  | None => m
  end.

(** A call of a method in its own goroutine. *)
Definition started : callProc := {| pc := PRun; expires := false; registered := false; settled := false |}.

Definition startCallProc (s : served) : served :=
  set_procs <[next s := started]> (set_subs (serverSubs s) (ended s) (S (next s)) s).

Definition calls_back (exp : bool) : callProc :=
  {| pc := PSend; expires := exp; registered := false; settled := false |}.

Definition ctx_done (s : served) (p : callProc) : bool := rootDone s || expires p.

(** ** Steps of a call's goroutine *)

Inductive proc_step (i : nat) (p : callProc) : served → served → Prop :=
| p_return s : pc p = PRun → proc_step i p s (set_procs (delete i) s)
| p_subscribe s :                       (* addSubscriptions *)
    pc p = PRun →
    proc_step i p s (set_subs ({[next s]} ∪ serverSubs s) (ended s) (S (next s)) s)
| p_unsubscribe k s :
    pc p = PRun → k ∈ serverSubs s →
    proc_step i p s (set_subs (serverSubs s ∖ {[k]}) ({[k]} ∪ ended s) (next s) s)
| p_call exp s : pc p = PRun → proc_step i p s (set_procs <[i := calls_back exp]> s)
| p_init s :                            (* c.reqInit <- op *)
    pc p = PSend → loop s = LSelect → locked s = false →
    proc_step i p s (set_lock true (Some i) (reqSent s)
                       (set_procs <[i := at_pc (set_op true false p) PWrite]> s))
| p_send_done s :
    pc p = PSend → ctx_done s p = true → proc_step i p s (set_procs <[i := at_pc p PRun]> s)
| p_send_closing s :
    pc p = PSend → closing s = true → proc_step i p s (set_procs <[i := at_pc p PRun]> s)
| p_written s :
    pc p = PWrite → reqSent s = None →
    proc_step i p s (set_lock (locked s) (lastOp s) (Some false) (set_procs <[i := at_pc p PWait]> s))
| p_write_fails s :
    pc p = PWrite → reqSent s = None →
    proc_step i p s (set_lock (locked s) (lastOp s) (Some true) (set_procs <[i := at_pc p PRun]> s))
| p_answer s : pc p = PWait → settled p = true → proc_step i p s (set_procs <[i := at_pc p PRun]> s)
| p_wait_done s :
    pc p = PWait → ctx_done s p = true → proc_step i p s (set_procs <[i := at_pc p PReport]> s)
| p_report s :                          (* c.reqTimeout <- op *)
    pc p = PReport → loop s = LSelect →
    proc_step i p s (set_procs <[i := at_pc (set_op false (settled p) p) PRun]> s)
| p_report_closing s :
    pc p = PReport → closing s = true → proc_step i p s (set_procs <[i := at_pc p PRun]> s).

(** ** Steps of the loop *)

(** The deferred function of [dispatch]. *)
Definition on_close (s : served) : served :=
  let s := set_flags (reading s) true (didClose s) (codec_closed s) (rootDone s) s in
  if reading s then set_loop (LWaitCalls ByClose) (set_procs (cancelAllRequests None) s)
  else set_loop LDone (set_flags (reading s) true true (codec_closed s) (rootDone s) s).

Definition on_readErr (s : served) : served :=
  set_loop (LWaitCalls ByRead) (set_rd RGone (set_procs (cancelAllRequests (lastOp s)) s)).

Definition on_reqSent (failed : bool) (s : served) : served :=
  set_lock false None None (if failed then set_procs (deregister (lastOp s)) s else s).

Inductive loop_step : served → served → Prop :=
| l_readOp X (start : bool) s :
    loop s = LSelect → rd s = RMsg →
    let s1 := set_rd RRead (set_procs (answer X) s) in
    loop_step s (if start then startCallProc s1 else s1)
| l_readErr s : loop s = LSelect → rd s = RErr → loop_step s (on_readErr s)
| l_reqSent failed s : loop s = LSelect → reqSent s = Some failed → loop_step s (on_reqSent failed s)
| l_close s : loop s = LSelect → main s = MClose → loop_step s (set_main MDid (on_close s))
| l_waited w s : loop s = LWaitCalls w → procs s = ∅ → loop_step s (set_loop (LCancelRoot w) s)
| l_root w s :
    loop s = LCancelRoot w →
    loop_step s (set_loop (LCancelSubs w)
      (set_flags (reading s) (closing s) (didClose s) (codec_closed s) true s))
| l_subs w s :
    loop s = LCancelSubs w →
    loop_step s (set_loop (LCloseCodec w) (set_subs ∅ (serverSubs s ∪ ended s) (next s) s))
| l_codec_read s :
    loop s = LCloseCodec ByRead →
    loop_step s (set_loop LSelect (set_flags false (closing s) (didClose s) true (rootDone s) s))
| l_codec_close s :
    loop s = LCloseCodec ByClose →
    loop_step s (set_loop LDrain (set_flags (reading s) (closing s) (didClose s) true (rootDone s) s))
| l_drop s : loop s = LDrain → rd s = RMsg → loop_step s (set_rd RRead s)
| l_drained s :
    loop s = LDrain → rd s = RErr →
    loop_step s (set_loop LDone (set_rd RGone
      (set_flags (reading s) (closing s) true (codec_closed s) (rootDone s) s))).

(** ** The read loop, [ServeCodec] and the others that close the codec *)

Inductive step : served → served → Prop :=
| s_proc i p s s' : procs s !! i = Some p → proc_step i p s s' → step s s'
| s_loop s s' : loop_step s s' → step s s'
| s_message s : rd s = RRead → step s (set_rd RMsg s)
| s_read_fails s : rd s = RRead → step s (set_rd RErr s)
| s_stop s :                            (* Stop, a failed write or the peer *)
    step s (set_flags (reading s) (closing s) (didClose s) true (rootDone s) s)
| s_main_closed s : main s = MWait → codec_closed s = true → step s (set_main MClose s)
| s_main_did s : main s ∈ [MClose; MDid] → didClose s = true → step s (set_main MReturned s).

(** [initClient] has started the loop and [dispatch] the read loop. *)
Definition serving : served := {|
  loop := LSelect; main := MWait; rd := RRead; reading := true; closing := false; didClose := false;
  codec_closed := false; rootDone := false; locked := false; lastOp := None; reqSent := None;
  procs := ∅; next := 0; serverSubs := ∅; ended := ∅ |}.

Definition reachable (s : served) : Prop := rtc step serving s.

(** A call that no step takes any further while the loop waits for it. *)
Definition stuck (p : callProc) : bool :=
  match pc p with
  | PRun | PWrite => false
  | PSend => negb (expires p)
  | PWait => negb (settled p)
  | PReport => true
  end.

Definition hung (s : served) : Prop :=
  loop s = LWaitCalls ByRead ∧ ∃ i p, procs s !! i = Some p ∧ stuck p = true.

(** * Lemmas *)

(** ** The invariant *)

Definition is_close (w : why) : bool := match w with ByRead => false | ByClose => true end.

(** Nothing is left of the connection. *)
Definition quiet (s : served) : Prop :=
  procs s = ∅ ∧ rootDone s = true ∧ serverSubs s = ∅ ∧ codec_closed s = true.

(** The connection is being closed: [conn.close] runs. *)
Definition in_close (w : why) (s : served) : Prop :=
  closing s = is_close w ∧ didClose s = false ∧ reading s = true ∧ (rd s = RGone ↔ w = ByRead).

Definition loop_ok (s : served) : Prop :=
  match loop s with
  | LSelect =>
      closing s = false ∧ didClose s = false ∧
      if reading s then rd s ≠ RGone ∧ rootDone s = false else rd s = RGone ∧ quiet s
  | LWaitCalls w => in_close w s ∧ rootDone s = false
  | LCancelRoot w => in_close w s ∧ rootDone s = false ∧ procs s = ∅
  | LCancelSubs w => in_close w s ∧ rootDone s = true ∧ procs s = ∅
  | LCloseCodec w => in_close w s ∧ rootDone s = true ∧ procs s = ∅ ∧ serverSubs s = ∅
  | LDrain => in_close ByClose s ∧ quiet s
  | LDone => closing s = true ∧ didClose s = true ∧ quiet s
  end.

(** An operation that is waited for is known to the handler, unless the
    connection ends: then it was closed, except the one in flight after a read
    error. *)
Definition op_ok (s : served) (p : callProc) : Prop :=
  match pc p with
  | PWrite | PWait =>
      settled p = true ∨
      match loop s with
      | LWaitCalls ByRead => True
      | LWaitCalls ByClose => False
      | _ => registered p = true
      end
  | _ => True
  end.

Definition writer_ok (s : served) (i : nat) (p : callProc) : Prop :=
  (pc p = PWrite → lastOp s = Some i ∧ reqSent s = None) ∧
  (reqSent s = Some true → lastOp s = Some i → pc p = PRun ∨ pc p = PSend).

Definition main_ok (s : served) : Prop :=
  match main s with
  | MWait => closing s = false
  | MClose => closing s = false ∧ codec_closed s = true
  | MDid => closing s = true
  | MReturned => didClose s = true
  end.

Record inv (s : served) : Prop := {
  inv_loop : loop_ok s;
  inv_ops : ∀ i p, procs s !! i = Some p → op_ok s p ∧ writer_ok s i p;
  inv_lock : lastOp s ≠ None → locked s = true;
  inv_sent : reqSent s ≠ None → lastOp s ≠ None;
  inv_main : main_ok s
}.

Lemma inv_serving : inv serving.
Proof. split; [repeat split; done|intros i p H; by cbn in H; rewrite lookup_empty in H|done..|reflexivity]. Qed.

(** A loop that has calls is at its select or waits for them. *)
Lemma has_procs s i p : inv s → procs s !! i = Some p →
  (loop s = LSelect ∧ reading s = true) ∨ ∃ w, loop s = LWaitCalls w.
Proof.
  intros [Hl _ _ _ _] Hp. unfold loop_ok, quiet in Hl.
  assert (Hne : procs s ≠ ∅) by (intros E; by rewrite E, lookup_empty in Hp).
  destruct (loop s); [destruct (reading s); [by left|]|right; by eexists|..]; naive_solver.
Qed.

(** What the fields besides the calls must keep for the invariant. *)
Lemma inv_procs s (f : gmap nat callProc → gmap nat callProc) lk op sent :
  inv s → (procs s = ∅ → f (procs s) = ∅) →
  (∀ i p, f (procs s) !! i = Some p →
     op_ok s p ∧ writer_ok (set_lock lk op sent s) i p) →
  (op ≠ None → lk = true) → (sent ≠ None → op ≠ None) →
  inv (set_lock lk op sent (set_procs f s)).
Proof.
  intros [Hl Ho Hk Hs Hm] He Hf Hlk Hse. split.
  - unfold loop_ok, quiet, in_close in *. cbn. destruct (loop s); [destruct (reading s)|..]; naive_solver.
  - exact Hf.
  - exact Hlk.
  - exact Hse.
  - exact Hm.
Qed.

Lemma set_lock_id s : set_lock (locked s) (lastOp s) (reqSent s) s = s.
Proof. by destruct s. Qed.

Lemma inv_procs_same s (f : gmap nat callProc → gmap nat callProc) :
  inv s → (procs s = ∅ → f (procs s) = ∅) →
  (∀ i p, f (procs s) !! i = Some p → op_ok s p ∧ writer_ok s i p) → inv (set_procs f s).
Proof.
  intros Hi He Hf. pose proof (inv_procs s f (locked s) (lastOp s) (reqSent s) Hi He) as H.
  rewrite set_lock_id in H. change (set_lock _ _ _ (set_procs f s)) with
    (set_lock (locked (set_procs f s)) (lastOp (set_procs f s)) (reqSent (set_procs f s)) (set_procs f s)) in H.
  rewrite set_lock_id in H. apply H; [exact Hf|apply Hi..].
Qed.

(** One call moves, and holds no more than before. *)
Lemma inv_move s i p p' : inv s → procs s !! i = Some p →
  op_ok s p' ∧ writer_ok s i p' → inv (set_procs <[i := p']> s).
Proof.
  intros Hi Hp Hp'. apply inv_procs_same; [done| |].
  - intros E. by rewrite E, lookup_empty in Hp.
  - intros j q [(<- & <-)|(_ & Hq)]%lookup_insert_Some; [done|]. by apply (inv_ops s Hi).
Qed.

Lemma inv_subs s subs e n : inv s → (procs s = ∅ → subs = serverSubs s ∨ subs = ∅) →
  inv (set_subs subs e n s).
Proof.
  intros [Hl Ho Hk Hse Hm] Hs. split; try done.
  unfold loop_ok, quiet, in_close in *. cbn. destruct (loop s); [destruct (reading s)|..]; naive_solver.
Qed.

Lemma inv_proc_step i p s s' : procs s !! i = Some p → proc_step i p s s' → inv s → inv s'.
Proof.
  intros Hp Hst Hi. destruct (inv_ops s Hi i p Hp) as [Ho [Hw Hf]].
  assert (Hne : procs s ≠ ∅) by (intros E; by rewrite E, lookup_empty in Hp).
  destruct Hst as [s Hc|s Hc|k s Hc Hk|exp s Hc|s Hc Hl Hlk|s Hc Hd|s Hc Hcl|s Hc Hs|s Hc Hs|s Hc Hd|s Hc Hd
    |s Hc Hl|s Hc Hcl]; try (eapply inv_move; [done|done|]; unfold op_ok, writer_ok; cbn; naive_solver).
  - apply inv_procs_same; [done|naive_solver|].
    intros j q [_ Hq]%lookup_delete_Some. by apply (inv_ops s Hi).
  - apply inv_subs; naive_solver.
  - apply inv_subs; naive_solver.
  - assert (Hlo : lastOp s = None).
    { destruct (lastOp s) eqn:E; [|done]. assert (locked s = true) by (apply Hi; by rewrite E). congruence. }
    assert (Hse : reqSent s = None).
    { destruct (reqSent s) eqn:E; [|done]. by destruct (inv_sent s Hi); [rewrite E|]. }
    apply (inv_procs s <[i := _]> true (Some i) (reqSent s)); [done|naive_solver| |done..].
    intros j q [(<- & <-)|(Hj & Hq)]%lookup_insert_Some.
    + unfold op_ok, writer_ok. cbn. rewrite Hl, Hse. naive_solver.
    + destruct (inv_ops s Hi j q Hq) as [Hoq [Hwq Hfq]]. split; [done|]. unfold writer_ok. cbn.
      split; [intros E; destruct (Hwq E); congruence|intros _ [= <-]; done].
  - destruct (Hw Hc) as [Hlo _]. apply (inv_procs s <[i := _]>); [done|naive_solver| |by apply Hi|congruence].
    intros j q [(<- & <-)|(Hj & Hq)]%lookup_insert_Some; [unfold op_ok, writer_ok in *; cbn; rewrite Hc in Ho; naive_solver|].
    destruct (inv_ops s Hi j q Hq) as [Hoq [Hwq _]]. split; [done|]. split; [|done].
    intros E. destruct (Hwq E). congruence.
  - destruct (Hw Hc) as [Hlo _]. apply (inv_procs s <[i := _]>); [done|naive_solver| |by apply Hi|congruence].
    intros j q [(<- & <-)|(Hj & Hq)]%lookup_insert_Some; [unfold op_ok, writer_ok in *; cbn; naive_solver|].
    destruct (inv_ops s Hi j q Hq) as [Hoq [Hwq _]]. split; [done|]. split; [|cbn; congruence].
    intros E. destruct (Hwq E). congruence.
  - apply (inv_move s i p); [done|done|]. unfold op_ok, writer_ok. cbn. split; [done|]. split; [done|].
    intros Hs Hlo. destruct (Hf Hs Hlo); congruence.
Qed.

Lemma inv_rd r s : inv s → rd s ≠ RGone → r ≠ RGone → inv (set_rd r s).
Proof.
  intros [Hl Ho Hk Hse Hm] Hs Hr. split; try done.
  unfold loop_ok, quiet, in_close in *. cbn. destruct (loop s); [destruct (reading s)|..]; naive_solver.
Qed.

Lemma inv_answer X s : inv s → inv (set_procs (answer X) s).
Proof.
  intros Hi. apply inv_procs_same; [done|intros ->; apply map_imap_empty|].
  intros i p. unfold answer. rewrite map_lookup_imap. destruct (procs s !! i) as [q|] eqn:Hq; [|done].
  cbn. intros [= <-]. destruct (inv_ops s Hi i q Hq) as [Ho Hw].
  destruct (registered q && bool_decide (i ∈ X)); [|done]. split; [|exact Hw].
  unfold op_ok, set_op in *. cbn. destruct (pc q); try done; by left.
Qed.

Lemma inv_started s : inv s → procs s ≠ ∅ ∨ (loop s = LSelect ∧ reading s = true) → inv (startCallProc s).
Proof.
  intros Hi Hs. unfold startCallProc.
  assert (Hi' := inv_subs s (serverSubs s) (ended s) (S (next s)) Hi (λ _, or_introl eq_refl)).
  destruct Hi' as [Hl Ho Hk Hse Hm]. split; try done.
  - unfold loop_ok, quiet, in_close in *. cbn in *. destruct (loop s); [destruct (reading s)|..]; naive_solver.
  - cbn. intros j q [(<- & <-)|(Hj & Hq)]%lookup_insert_Some; [|by apply (Ho j q)].
    unfold op_ok, writer_ok. cbn. naive_solver.
Qed.

(** After [cancelAllRequests] only the operation in flight can be open. *)
Lemma cancelled_lookup inflight (m : gmap nat callProc) i p :
  cancelAllRequests inflight m !! i = Some p →
  ∃ q, m !! i = Some q ∧ pc p = pc q ∧ (settled q = true → settled p = true) ∧
    (registered q = true → inflight ≠ Some i → settled p = true).
Proof.
  unfold cancelAllRequests. rewrite map_lookup_imap. destruct (m !! i) as [q|]; [|done].
  cbn. intros [= <-]. exists q. split; [done|]. destruct (registered q); cbn; [|done].
  split; [done|]. split; [by intros ->|]. intros _ Hne. by rewrite bool_decide_false, orb_true_r.
Qed.

Lemma cancel_inv s s' op :
  inv s → loop s = LSelect → loop_ok s' → main_ok s' →
  procs s' = cancelAllRequests op (procs s) →
  lastOp s' = lastOp s → reqSent s' = reqSent s → locked s' = locked s →
  (loop s' = LWaitCalls ByRead ∨ (op = None ∧ loop s' = LWaitCalls ByClose)) → inv s'.
Proof.
  intros Hi Hc Hl Hm Hp Hlo Hse Hlk Hs'. split; [done| |by rewrite Hlo, Hlk; apply Hi|by rewrite Hlo, Hse; apply Hi|done].
  rewrite Hp. intros i p (q & Hq & Hpc & Hst & Hr)%cancelled_lookup.
  destruct (inv_ops s Hi i q Hq) as [Ho [Hw Hf]]. unfold op_ok, writer_ok in *. rewrite Hlo, Hse, Hpc.
  split; [|done]. rewrite Hc in Ho.
  destruct Hs' as [->|[-> ->]]; destruct (pc q); naive_solver.
Qed.

Lemma inv_empty s s' :
  inv s → procs s' = ∅ → loop_ok s' → main_ok s' →
  lastOp s' = lastOp s → reqSent s' = reqSent s → locked s' = locked s → inv s'.
Proof.
  intros Hi Hp Hl Hm Hlo Hse Hlk. split; [done| |by rewrite Hlo, Hlk; apply Hi|by rewrite Hlo, Hse; apply Hi|done].
  intros i p. by rewrite Hp, lookup_empty.
Qed.

Lemma inv_reqSent failed s : inv s → loop s = LSelect → reqSent s = Some failed → inv (on_reqSent failed s).
Proof.
  intros Hi Hc Hs. assert (Hw : ∀ i p, procs s !! i = Some p → pc p ≠ PWrite).
  { intros i p Hp E. destruct (inv_ops s Hi i p Hp) as [_ [Hw _]]. destruct (Hw E). congruence. }
  unfold on_reqSent. destruct failed.
  - apply (inv_procs s); [done|intros ->; by destruct (lastOp s); cbn; [apply fmap_empty || apply alter_empty|]| |done..].
    intros i p Hp. assert (∃ q, procs s !! i = Some q ∧ pc p = pc q ∧ (p = q ∨ lastOp s = Some i)) as (q & Hq & Hpc & Hor).
    { unfold deregister in Hp. destruct (lastOp s) as [j|]; [|by eauto].
      destruct (decide (i = j)) as [->|Hn].
      - rewrite lookup_alter_eq in Hp. destruct (procs s !! j) as [q|]; [|done]. cbn in Hp.
        injection Hp as <-. eauto 6.
      - rewrite lookup_alter_ne in Hp by done. eauto. }
    destruct (inv_ops s Hi i q Hq) as [Ho [_ Hf]]. split.
    + destruct Hor as [->|Hlo]; [done|]. unfold op_ok. rewrite Hpc. by destruct (Hf Hs Hlo) as [-> | ->].
    + unfold writer_ok. cbn. rewrite Hpc. split; [intros E; by destruct (Hw i q Hq)|done].
  - apply (inv_procs s id); [done..| |done|done].
    intros i p Hp. destruct (inv_ops s Hi i p Hp) as [Ho _]. split; [done|]. unfold writer_ok. cbn.
    split; [intros E; by destruct (Hw i p Hp)|done].
Qed.

(** The flags of a phase follow from those of the phase before. *)
Ltac flags := unfold loop_ok, quiet, in_close, main_ok in *; cbn in *;
  try match goal with E : main ?s = _ |- _ => rewrite E in * end; destruct_and?;
  split_and?; try done; try congruence; try (intuition congruence).

Lemma inv_loop_step s s' : loop_step s s' → inv s → inv s'.
Proof.
  intros Hst Hi. pose proof Hi as [Hl Ho Hk Hse Hm].
  destruct Hst as [X start s Hc Hr s1|s Hc Hr|failed s Hc Hs|s Hc Hmc|w s Hc Hp|w s Hc|w s Hc|s Hc|s Hc|s Hc Hr|s Hc Hr];
    unfold loop_ok in Hl; rewrite Hc in Hl.
  - assert (Hi1 : inv s1) by (apply inv_rd; [by apply inv_answer|by cbn; rewrite Hr|done]).
    destruct start; [|done]. apply inv_started; [done|]. right. split; [exact Hc|].
    change (reading s = true). destruct (reading s); [done|]. destruct Hl as (_ & _ & Hg & _). congruence.
  - apply (cancel_inv s _ (lastOp s)); try done; [|by left].
    destruct (reading s) eqn:E; flags.
  - by apply inv_reqSent.
  - unfold on_close. cbn. destruct (reading s) eqn:E.
    + apply (cancel_inv s _ None); try done; [flags|by right].
    + split; try done; cbn; [flags|].
      destruct Hl as (_ & _ & _ & -> & _). intros i p. by rewrite lookup_empty.
  - eapply inv_empty; try done; flags.
  - eapply inv_empty; try done; flags.
  - eapply inv_empty; try done; flags.
  - eapply inv_empty; try done; destruct (main s) eqn:E; flags.
  - eapply inv_empty; try done; destruct (main s) eqn:E; flags.
  - apply inv_rd; [done|by rewrite Hr|done].
  - eapply inv_empty; try done; destruct (main s) eqn:E; flags.
Qed.

Lemma closing_step s s' : step s s' → inv s → inv s'.
Proof.
  intros Hst Hi. destruct Hst as [i p s s' Hp Hst|s s' Hst|s Hr|s Hr|s|s Hm Hk|s Hm Hd].
  - by eapply inv_proc_step.
  - by eapply inv_loop_step.
  - apply inv_rd; [done|by rewrite Hr|done].
  - apply inv_rd; [done|by rewrite Hr|done].
  - destruct Hi as [Hl Ho Hlk Hse Hm]. split; try done.
    + unfold loop_ok, quiet, in_close in *. cbn. destruct (loop s); [destruct (reading s)|..]; naive_solver.
    + unfold main_ok in *. cbn. destruct (main s); naive_solver.
  - destruct Hi as [Hl Ho Hlk Hse Hi]. split; try done. unfold main_ok in *. rewrite Hm in Hi. by cbn.
  - destruct Hi as [Hl Ho Hlk Hse Hi]. by split.
Qed.

Lemma closing_inv s s' : rtc step s s' → inv s → inv s'.
Proof. induction 1; eauto using closing_step. Qed.

Lemma served_inv s : reachable s → inv s.
Proof. intros H. eapply closing_inv; [exact H|apply inv_serving]. Qed.

(** ** A connection that hangs *)

Lemma hung_step s s' : inv s → hung s → step s s' → hung s'.
Proof.
  intros Hi (Hl & i & p & Hp & Hst) Hs. pose proof (inv_loop s Hi) as Hok.
  unfold loop_ok, in_close in Hok. rewrite Hl in Hok. destruct Hok as ((Hcl & Hd & Hr & Hg) & Hx).
  destruct Hs as [j q s s' Hq Hs|s s' Hs|s Hrd|s Hrd|s|s Hm Hk|s Hm Hdc];
    try (split; [exact Hl|by exists i, p]).
  - destruct (decide (i = j)) as [<-|Hne].
    + simplify_eq. unfold stuck in Hst. cbn in Hcl.
      destruct Hs as [s Hc|s Hc|k s Hc Hk|exp s Hc|s Hc Hl' Hlk|s Hc Hd'|s Hc Hcl'|s Hc Hs|s Hc Hs|s Hc Hd'|s Hc Hd'
        |s Hc Hl'|s Hc Hcl']; rewrite Hc in Hst; try done; try congruence; try (split; [exact Hl|]).
      * unfold ctx_done in Hd'. rewrite Hx in Hd'. cbn in Hd'. by rewrite Hd' in Hst.
      * by rewrite Hd' in Hst.
      * exists i, (at_pc p PReport). cbn. by rewrite lookup_insert_eq.
    + destruct Hs; (split; [exact Hl|]); exists i, p; cbn; split; try done;
        by rewrite ?lookup_delete_ne, ?lookup_insert_ne by done.
  - destruct Hs; try congruence. assert (w = ByRead) as -> by congruence.
    rewrite H0, lookup_empty in Hp. done.
Qed.

Lemma hung_rtc s s' : inv s → hung s → rtc step s s' → hung s'.
Proof.
  intros Hi Hh Hr. induction Hr as [|s s1 s2 Hs Hr IH]; [done|].
  apply IH; [by eapply closing_step|by eapply hung_step].
Qed.

(** ** A connection that ends *)

(** The steps in which only the calls and the send path move. *)
Definition same_phase (s s' : served) : Prop :=
  loop s' = loop s ∧ main s' = main s ∧ closing s' = closing s ∧ rootDone s' = rootDone s ∧
  reading s' = reading s ∧ rd s' = rd s.

Definition can_end (s : served) (p : callProc) : Prop :=
  match pc p with
  | PRun | PWrite => True
  | PSend => ctx_done s p = true ∨ closing s = true
  | PWait => settled p = true
  | PReport => closing s = true
  end.

Lemma return_step s i p : procs s !! i = Some p → pc p = PRun → step s (set_procs (delete i) s).
Proof. intros Hp Hc. eapply s_proc; [exact Hp|]. by apply p_return. Qed.

(** A call that moves into its method's code returns from there. *)
Lemma run_return s i p s1 :
  step s s1 → same_phase s s1 → procs s1 = <[i := at_pc p PRun]> (procs s) ∨
    procs s1 = <[i := at_pc (set_op false (settled p) p) PRun]> (procs s) →
  ∃ s', rtc step s s' ∧ same_phase s s' ∧ procs s' = delete i (procs s).
Proof.
  intros Hs Hp Hm. exists (set_procs (delete i) s1). split; [|split].
  - eapply rtc_l; [exact Hs|]. apply rtc_once.
    destruct Hm as [Hm|Hm]; (eapply return_step; [rewrite Hm; by apply lookup_insert_eq|done]).
  - destruct Hp as (?&?&?&?&?&?). by repeat split.
  - cbn. by destruct Hm as [-> | ->]; rewrite delete_insert_eq.
Qed.

Lemma call_ends s i p : inv s → procs s !! i = Some p → can_end s p →
  ∃ s', rtc step s s' ∧ same_phase s s' ∧ procs s' = delete i (procs s).
Proof.
  intros Hi Hp Hc. destruct (inv_ops s Hi i p Hp) as [_ [Hw _]]. unfold can_end in Hc.
  destruct (pc p) eqn:E.
  - exists (set_procs (delete i) s). split; [by apply rtc_once; eapply return_step|by repeat split].
  - destruct Hc as [Hd|Hcl]; (eapply run_return; [by eapply s_proc; [exact Hp|]; constructor|by repeat split|by left]).
  - destruct (Hw eq_refl) as [_ Hse].
    eapply run_return; [by eapply s_proc; [exact Hp|]; apply p_write_fails|by repeat split|by left].
  - eapply run_return; [by eapply s_proc; [exact Hp|]; apply p_answer|by repeat split|by left].
  - eapply run_return; [by eapply s_proc; [exact Hp|]; apply p_report_closing|by repeat split|by left].
Qed.

Lemma calls_end s : inv s → (∀ i p, procs s !! i = Some p → can_end s p) →
  ∃ s', rtc step s s' ∧ same_phase s s' ∧ procs s' = ∅.
Proof.
  remember (procs s) as m eqn:Em. revert s Em.
  induction m as [|i p m Hi' IH] using map_ind; intros s Em Hi Hc.
  - exists s. split; [apply rtc_refl|]. by repeat split.
  - destruct (call_ends s i p Hi) as (s1 & Hr & Hs & Hp); [by rewrite <-Em, lookup_insert_eq|by apply (Hc i); rewrite lookup_insert_eq|].
    rewrite <-Em, delete_insert_id in Hp by done.
    pose proof Hs as (Hl & Hm & Hcl & Hx & Hrd & Hg).
    destruct (IH s1) as (s2 & Hr2 & Hs2 & Hp2); [done|by eapply closing_inv| |].
    { intros j q Hq. unfold can_end, ctx_done. rewrite Hcl, Hx. apply (Hc j).
      rewrite lookup_insert_ne; [done|]. intros <-. congruence. }
    exists s2. split; [by etransitivity|]. split; [|done].
    destruct Hs2 as (?&?&?&?&?&?). repeat split; congruence.
Qed.

Definition returns (s : served) : Prop := ∃ s', rtc step s s' ∧ main s' = MReturned.

Lemma returns_rtc s s' : rtc step s s' → returns s' → returns s.
Proof. intros Hr (s2 & Hr2 & Hm). exists s2. split; [by etransitivity|done]. Qed.

Lemma returns_done s : inv s → loop s = LDone → returns s.
Proof.
  intros [Hl _ _ _ Hm] E. unfold loop_ok in Hl. rewrite E in Hl. destruct Hl as (Hc & Hd & _).
  unfold main_ok in Hm. destruct (main s) eqn:Em; [congruence|destruct Hm; congruence| |].
  - exists (set_main MReturned s). split; [|done]. apply rtc_once, s_main_did; [|done]. rewrite Em. set_solver.
  - by exists s.
Qed.

Lemma returns_drain s : inv s → loop s = LDrain → returns s.
Proof.
  intros Hi E. assert (Hg : rd s ≠ RGone).
  { pose proof (inv_loop s Hi) as Hl. unfold loop_ok in Hl. rewrite E in Hl.
    destruct Hl as ((_ & _ & _ & Hg) & _). intros H. by destruct Hg as [Hg _]; specialize (Hg H). }
  assert (Herr : ∀ s, inv s → loop s = LDrain → rd s = RErr → returns s).
  { clear. intros s Hi E Hr. eapply returns_rtc; [apply rtc_once, s_loop, l_drained; done|].
    apply returns_done; [|done]. eapply closing_step; [|exact Hi]. by apply s_loop, l_drained. }
  assert (Hread : ∀ s, inv s → loop s = LDrain → rd s = RRead → returns s).
  { clear -Herr. intros s Hi E Hr. eapply returns_rtc; [by apply rtc_once, s_read_fails|].
    apply Herr; [|done..]. eapply closing_step; [|exact Hi]. by apply s_read_fails. }
  destruct (rd s) eqn:Er; [by apply Hread| |by apply Herr|done].
  eapply returns_rtc; [by apply rtc_once, s_loop, l_drop|].
  apply Hread; [|done..]. eapply closing_step; [|exact Hi]. by apply s_loop, l_drop.
Qed.

(** [conn.close] after the last call. *)
Definition after_close (w : why) : loop_pc := match w with ByRead => LSelect | ByClose => LDrain end.

Lemma close_runs w s :
  (loop s = LWaitCalls w ∧ procs s = ∅) ∨ loop s ∈ [LCancelRoot w; LCancelSubs w; LCloseCodec w] →
  ∃ s', rtc step s s' ∧ loop s' = after_close w.
Proof.
  assert (H1 : ∀ s, loop s = LCloseCodec w → ∃ s', rtc step s s' ∧ loop s' = after_close w).
  { clear. intros s E. destruct w; eexists; (split; [apply rtc_once, s_loop; by constructor|done]). }
  assert (H2 : ∀ s, loop s = LCancelSubs w → ∃ s', rtc step s s' ∧ loop s' = after_close w).
  { clear -H1. intros s E. edestruct H1 as (s' & Hr & Hl); [|exists s'; split; [|exact Hl];
      eapply rtc_l; [by apply s_loop, l_subs|exact Hr]]. done. }
  assert (H3 : ∀ s, loop s = LCancelRoot w → ∃ s', rtc step s s' ∧ loop s' = after_close w).
  { clear -H2. intros s E. edestruct H2 as (s' & Hr & Hl); [|exists s'; split; [|exact Hl];
      eapply rtc_l; [by apply s_loop, l_root|exact Hr]]. done. }
  intros [[E Hp]|[E|[E|[E|[]%elem_of_nil]%elem_of_cons]%elem_of_cons]%elem_of_cons]; auto.
  edestruct (H3 (set_loop (LCancelRoot w) s)) as (s' & Hr & Hl); [done|]. exists s'. split; [|exact Hl].
  eapply rtc_l; [by apply s_loop, l_waited|exact Hr].
Qed.

Lemma returns_waiting s : inv s → loop s = LWaitCalls ByClose → returns s.
Proof.
  intros Hi E. assert (Hcl : closing s = true).
  { pose proof (inv_loop s Hi) as Hl. unfold loop_ok in Hl. rewrite E in Hl. apply Hl. }
  destruct (calls_end s Hi) as (s1 & Hr1 & (Hl1 & _) & Hp1).
  { intros i p Hp. destruct (inv_ops s Hi i p Hp) as [Ho _]. unfold op_ok in Ho. rewrite E in Ho.
    unfold can_end. destruct (pc p); naive_solver. }
  destruct (close_runs ByClose s1) as (s2 & Hr2 & Hl2); [left; by rewrite Hl1|].
  eapply returns_rtc; [by etransitivity|]. apply returns_drain; [|done].
  eapply closing_inv; [|exact Hi]. by etransitivity.
Qed.

Lemma returns_select s : inv s → loop s = LSelect → returns s.
Proof.
  intros Hi E. assert (Hcl : closing s = false ∧ didClose s = false).
  { pose proof (inv_loop s Hi) as Hl. unfold loop_ok in Hl. rewrite E in Hl. split; apply Hl. }
  assert (Hm : ∀ s, inv s → loop s = LSelect → main s = MClose → returns s).
  { clear. intros s Hi E Hm. assert (Hst : step s (set_main MDid (on_close s))) by (by apply s_loop, l_close).
    eapply returns_rtc; [by apply rtc_once|]. pose proof (closing_step _ _ Hst Hi) as Hi'.
    unfold on_close in *. destruct (reading _); [by apply returns_waiting|by apply returns_done]. }
  pose proof (inv_main s Hi) as Hmm. unfold main_ok in Hmm.
  destruct (main s) eqn:Em; [|by apply Hm|destruct Hcl; congruence..].
  pose (s1 := set_flags (reading s) (closing s) (didClose s) true (rootDone s) s).
  assert (Hs : rtc step s (set_main MClose s1)).
  { eapply rtc_l; [apply s_stop|]. by apply rtc_once, (s_main_closed s1). }
  eapply returns_rtc; [exact Hs|]. apply Hm; [by eapply closing_inv|done..].
Qed.

Lemma returns_unless_hung s : inv s → ¬ hung s → returns s.
Proof.
  intros Hi Hh. pose proof (inv_loop s Hi) as Hok.
  assert (Hafter : ∀ w, (∃ s', rtc step s s' ∧ loop s' = after_close w) → returns s).
  { intros w (s' & Hr & Hl). eapply returns_rtc; [exact Hr|]. pose proof (closing_inv _ _ Hr Hi) as Hi'.
    destruct w; [by apply returns_select|by apply returns_drain]. }
  destruct (loop s) as [|[|]|w|w|w| |] eqn:E;
    try (apply (Hafter w), close_runs; right; rewrite E; set_solver).
  - by apply returns_select.
  - destruct (calls_end s Hi) as (s1 & Hr1 & (Hl1 & _) & Hp1).
    { intros i p Hp. assert (Hns : stuck p = false).
      { apply not_true_iff_false. intros Hst. apply Hh. split; [done|by exists i, p]. }
      unfold stuck in Hns. unfold can_end, ctx_done. destruct (pc p); try done.
      - left. rewrite (negb_false_iff _) in Hns. by rewrite Hns, orb_true_r.
      - by apply negb_false_iff. }
    apply (Hafter ByRead). destruct (close_runs ByRead s1) as (s2 & Hr2 & Hl2); [left; by rewrite Hl1|].
    exists s2. split; [by etransitivity|done].
  - by apply returns_waiting.
  - by apply returns_drain.
  - by apply returns_done.
Qed.

(** Subscriptions are not forgotten: each is in the table or was ended. *)
Lemma subs_kept s s' : rtc step s s' → serverSubs s ∪ ended s ⊆ serverSubs s' ∪ ended s'.
Proof.
  induction 1 as [|s s1 s2 Hs _ IH]; [done|]. etransitivity; [|exact IH]. clear IH s2.
  destruct Hs as [i p s s' Hp Hs|s s' Hs|s Hr|s Hr|s|s Hm Hk|s Hm Hd]; try done.
  - destruct Hs; cbn; try done; [set_solver|]. intros x Hx. destruct (decide (x = k)); set_solver.
  - destruct Hs; cbn; try done; [destruct start; done|destruct failed; done| |set_solver].
    unfold on_close. by destruct (reading _).
Qed.

(** A connection over which a call arrived whose method calls back without a
    deadline, when reading fails. *)
Definition calling_back : served :=
  set_rd RErr (set_procs <[0%nat := calls_back false]>
    (startCallProc (set_rd RRead (set_procs (answer ∅) (set_rd RMsg serving))))).

Lemma calling_back_reachable : reachable calling_back.
Proof.
  eapply rtc_l; [by apply s_message|].
  eapply rtc_l; [apply s_loop, (l_readOp ∅ true); done|].
  eapply rtc_l; [apply (s_proc 0%nat started); [reflexivity|]; by apply (p_call 0%nat started false)|].
  apply rtc_once. by apply s_read_fails.
Qed.

Lemma hanging_reachable : reachable (on_readErr calling_back).
Proof. eapply rtc_r; [apply calling_back_reachable|]. by apply s_loop, l_readErr. Qed.

Lemma hanging_hung : hung (on_readErr calling_back).
Proof. split; [done|]. exists 0%nat, (calls_back false). split; reflexivity. Qed.

(** The same connection closed by [ServeCodec] instead. *)
Definition stopped_before : served := set_main MClose (set_flags true false false true false serving).

Lemma stopped_before_reachable : reachable stopped_before.
Proof. eapply rtc_l; [apply s_stop|]. by apply rtc_once, s_main_closed. Qed.

(** * Properties *)

(** C16: A served connection can always come to its end, with [ServeCodec]
    returning, except in one situation, which lasts for ever: the loop heard of
    a read error and waits for a method that calls back over the connection,
    and that waits to send without a deadline, for an answer to the request
    that was in flight, or to report that its context ended.  So a service
    whose methods do not call back never hangs; closing the client, which
    signals [closing] first, does not either. *)
Theorem connection_ends_iff (s : served) : reachable s → (returns s ↔ ¬ hung s).
Proof.
  intros Hi%served_inv. split; [|by apply returns_unless_hung].
  intros (s' & Hr & Hm) Hh. pose proof (hung_rtc s s' Hi Hh Hr) as [Hl _].
  pose proof (closing_inv s s' Hr Hi) as [Hok _ _ _ Hmain].
  unfold main_ok in Hmain. rewrite Hm in Hmain. unfold loop_ok in Hok. rewrite Hl in Hok.
  destruct Hok as ((_ & Hd & _) & _). congruence.
Qed.

Example connection_ends_iff_witness :
  (reachable (on_readErr calling_back) ∧ ¬ returns (on_readErr calling_back)) ∧
  (reachable calling_back ∧ returns calling_back).
Proof.
  split; split.
  - exact hanging_reachable.
  - intros H. apply (connection_ends_iff _ hanging_reachable) in H. exact (H hanging_hung).
  - exact calling_back_reachable.
  - apply (connection_ends_iff _ calling_back_reachable). intros [H _]. discriminate H.
Defined.

(** C17: The context of a call is not cancelled by the end of its connection
    while its method runs: the root context is cancelled only when no call is
    left.  When [ServeCodec] returns no call runs, the codec is closed, and
    every subscription there ever was has its error channel closed. *)
Theorem calls_outlive_connection (s : served) :
  reachable s →
  (rootDone s = true → procs s = ∅) ∧
  (main s = MReturned →
     procs s = ∅ ∧ rootDone s = true ∧ codec_closed s = true ∧ serverSubs s = ∅ ∧
     ∀ s0, rtc step s0 s → serverSubs s0 ⊆ ended s).
Proof.
  intros Hi%served_inv. pose proof Hi as [Hok _ _ _ Hm]. unfold loop_ok, quiet in Hok. split.
  - intros Hx. destruct (loop s); [destruct (reading s)|..]; destruct_and?; congruence.
  - intros E. unfold main_ok in Hm. rewrite E in Hm.
    assert (Hq : quiet s) by (unfold in_close, quiet in *; destruct (loop s); destruct_and?; try congruence; auto).
    destruct Hq as (? & ? & Hs & ?). split_and!; try done.
    intros s0 Hr%subs_kept. set_solver.
Qed.

Example calls_outlive_connection_witness :
  reachable stopped_before ∧ (rootDone stopped_before = true → procs stopped_before = ∅) ∧
  ∃ s, reachable s ∧ main s = MReturned ∧ codec_closed s = true.
Proof.
  split; [exact stopped_before_reachable|].
  split; [apply (calls_outlive_connection _ stopped_before_reachable)|].
  assert (Hr : returns stopped_before).
  { apply returns_select; [apply served_inv, stopped_before_reachable|done]. }
  destruct Hr as (s & Hs & Hm). assert (H : reachable s) by (unfold reachable; etransitivity; [exact stopped_before_reachable|exact Hs]).
  exists s. split; [exact H|]. split; [exact Hm|]. apply (calls_outlive_connection s H). exact Hm.
Defined.
