(* ===== verification/Apis.v ===== *)
(** * The services of the node behind the RPC server
    (src/server/apis/backend.go, src/server/server.go)

    [GetAPIs] as the receivers that are registered under the names admin,
    block and attest: for each handler the method reflection sees, with the
    types of its Go signature.  A request text thus runs through the whole
    stack: parsing, dispatch, argument decoding, handler, encoding. *)

From S2P Require Import AttestApi BlockApi.
From S2P Require Import Prelude Strconv GoJson GoValue Types Atts Strategy ValidatorSet Beacon.
From S2P Require Import Backend Server.
From S2P Require Import RpcErrors RpcJson RpcService RpcHandler RpcServer HttpConn.
From S2P Require Import HttpStack.

Section apis.
Context `{L : AttestationLib} `{!BlockApi.BlockTypes} `{!BlockApi.BlockProto}
  `{!AttestApi.AttestationProto Att}.
Context {Blk : Type} `{!Network} `{!RangeOrder} `{!SortSlice} `{!LruLib}.
(** The text of the error of [json.Unmarshal] for a text, standard library. *)
Context (unmarshal_text : string → unmarshal_error → string).

Abbreviation node := (Server.Server Att Blk).
Abbreviation hs := (hstate node).

(** A handler acts on the node behind the receivers. *)
Definition on_node {B} (m : GoM node B) : GoM hs B :=
  zoom app (λ a h, {| app := a; serverSubs := serverSubs h; notifiers := notifiers h;
                      sent := sent h |}) m.

Definition TResponse : gty := go_type AttackerResponse.

Definition int_arg (args : list gval) (i : nat) : Z :=
  match args !! i with Some (VInt z) => z | _ => 0 end.
Definition str_arg (args : list gval) (i : nat) : string :=
  match args !! i with Some (VStr s) => s | _ => "" end.
Definition bytes_arg (args : list gval) (i : nat) : string :=
  match args !! i with Some (VBytes (Some s)) => s | _ => "" end.

(** [func(slot uint64, ...) types.AttackerResponse] *)
Definition respond_with (m : GoM node AttackerResponse) : GoM hs (list gval) :=
  r ← on_node m; mret [to_go r].

Definition block_type : gty := TPtr (TOpaque "apis.BlockAPI" false).
Definition attest_type : gty := TPtr (TOpaque "apis.AttestAPI" false).
Definition admin_type : gty := TPtr (TOpaque "apis.AdminAPI" false).

Definition meth (rcvr : gty) (name : string) (ins outs : list gty)
    (f : list gval → GoM hs (list gval)) : method hs :=
  {| Name := name; PkgPath := ""; In := rcvr :: ins; Out := outs; Func := f |}.

Definition update_result (data : string) (e : option unmarshal_error) : list gval :=
  [VErr (plain_error ∘ unmarshal_text data <$> e)].

Definition slot_args : list gty := [TUint64; TString; TString].

Definition BlockAPI_methods : list (method hs) := [
  meth block_type "AfterBroadCast" [TUint64] [TResponse]
    (λ a, respond_with (BlockApi.AfterBroadCast (int_arg a 0)));
  meth block_type "AfterPropose" slot_args [TResponse]
    (λ a, respond_with (BlockApi.AfterPropose (int_arg a 0) (str_arg a 1) (str_arg a 2)));
  meth block_type "AfterSign" slot_args [TResponse]
    (λ a, respond_with (BlockApi.AfterSign (int_arg a 0) (str_arg a 1) (str_arg a 2)));
  meth block_type "BeforeBroadCast" [TUint64] [TResponse]
    (λ a, respond_with (BlockApi.BeforeBroadCast (int_arg a 0)));
  meth block_type "BeforeMakeBlock" [TUint64; TString] [TResponse]
    (λ a, respond_with (BlockApi.BeforeMakeBlock (int_arg a 0) (str_arg a 1)));
  meth block_type "BeforePropose" slot_args [TResponse]
    (λ a, respond_with (BlockApi.BeforePropose (int_arg a 0) (str_arg a 1) (str_arg a 2)));
  meth block_type "BeforeSign" slot_args [TResponse]
    (λ a, respond_with (BlockApi.BeforeSign (int_arg a 0) (str_arg a 1) (str_arg a 2)));
  meth block_type "BroadCastDelay" [] [TResponse] (λ _, respond_with BlockApi.BroadCastDelay);
  meth block_type "DelayForReceiveBlock" [TUint64] [TResponse]
    (λ a, respond_with (BlockApi.DelayForReceiveBlock (int_arg a 0)));
  meth block_type "GetStrategy" [TString] [TBytes]
    (λ a, d ← on_node (BlockApi.GetStrategy (str_arg a 0)); mret [VBytes (Some d)]);
  meth block_type "UpdateStrategy" [TBytes] [TError]
    (λ a, e ← on_node (BlockApi.UpdateStrategy (bytes_arg a 0));
          mret (update_result (bytes_arg a 0) e))
].

Definition AttestAPI_methods : list (method hs) := [
  meth attest_type "AfterBroadCast" [TUint64] [TResponse]
    (λ a, respond_with (AttestApi.AfterBroadCast (int_arg a 0)));
  meth attest_type "AfterPropose" slot_args [TResponse]
    (λ a, respond_with (AttestApi.AfterPropose (int_arg a 0) (str_arg a 1) (str_arg a 2)));
  meth attest_type "AfterSign" slot_args [TResponse]
    (λ a, respond_with (AttestApi.AfterSign (int_arg a 0) (str_arg a 1) (str_arg a 2)));
  meth attest_type "BeforeBroadCast" [TUint64] [TResponse]
    (λ a, respond_with (AttestApi.BeforeBroadCast (int_arg a 0)));
  meth attest_type "BeforePropose" slot_args [TResponse]
    (λ a, respond_with (AttestApi.BeforePropose (int_arg a 0) (str_arg a 1) (str_arg a 2)));
  meth attest_type "BeforeSign" slot_args [TResponse]
    (λ a, respond_with (AttestApi.BeforeSign (int_arg a 0) (str_arg a 1) (str_arg a 2)));
  meth attest_type "GetStrategy" [] [TBytes]
    (λ _, d ← on_node AttestApi.GetStrategy; mret [VBytes (Some d)]);
  meth attest_type "UpdateStrategy" [TBytes] [TError]
    (λ a, e ← on_node (AttestApi.UpdateStrategy (bytes_arg a 0));
          mret (update_result (bytes_arg a 0) e))
].

Definition AdminAPI_methods : list (method hs) := [
  meth admin_type "SetRoleAttacker" [TInt] []
    (λ a, _ ← on_node (AttestApi.SetRoleAttacker (int_arg a 0)); mret []);
  meth admin_type "SetRoleNormal" [TInt] []
    (λ a, _ ← on_node (AttestApi.SetRoleNormal (int_arg a 0)); mret [])
].

Definition GetAPIs : list (string * (string * list (method hs))) := [
  ("admin", ("*apis.AdminAPI", AdminAPI_methods));
  ("block", ("*apis.BlockAPI", BlockAPI_methods));
  ("attest", ("*apis.AttestAPI", AttestAPI_methods))
].

(** The constants of package config. *)
Definition APIBatchItemLimit : Z := 2000.
Definition APIBatchResponseSizeLimit : Z := 250 * 1000 * 1000.
Definition DefaultCors : list string := ["localhost"].
Definition DefaultVhosts : list string := ["localhost"].
Definition DefaultPrefix : string := "".
Definition DefaultModules : list string := [].

Definition rpc_config : httpConfig := {|
  HttpStack.Modules := DefaultModules; CorsAllowedOrigins := DefaultCors;
  Vhosts := DefaultVhosts; prefix := DefaultPrefix;
  HttpStack.batchItemLimit := APIBatchItemLimit;
  batchResponseSizeLimit := APIBatchResponseSizeLimit
|}.

(** The RPC server [enableRPC] creates for the node; [modules] is what
    rpc_modules answers. *)
Definition node_rpc_with (modules : gmap string string) : rpcServer node :=
  (RegisterApis GetAPIs DefaultModules
     (SetBatchLimits APIBatchItemLimit APIBatchResponseSizeLimit (RpcServer.NewServer modules))).1.

(** rpc_modules lists the services registered when it is called; their names
    do not depend on the answer. *)
Definition node_modules : gmap string string := RpcServer.Modules (node_rpc_with ∅).
Definition node_rpc : rpcServer node := node_rpc_with node_modules.

(** [initHttp] of the only server, then its start; [listens] tells whether
    the port can be opened. *)
Definition startRPC (HttpHost : string) (HttpPort : Z) (listens : bool) (h : httpServer node)
    : httpServer node * option http_error :=
  match setListenAddr HttpHost HttpPort h with
  | (h, Some err) => (h, Some err)
  | (h, None) =>
      match enableRPC node_modules GetAPIs rpc_config h with
      | (h, Some err) => (h, Some err)
      | (h, None) => start listens h
      end
  end.

Definition stopRPC (h : httpServer node) : httpServer node := stop h.

(** [Start], but for the loop of [monitorDuties] it spawns. *)
Definition Start (HttpHost : string) (HttpPort : Z) (listens : bool) (h : httpServer node)
    : httpServer node :=
  match startRPC HttpHost HttpPort listens h with
  | (h, Some _) => stopRPC h
  | (h, None) => h
  end.

(** The method names of the API, as a client writes them. *)
Definition api_names : list string := [
  "rpc_modules"; "admin_setRoleAttacker"; "admin_setRoleNormal";
  "block_afterBroadCast"; "block_afterPropose"; "block_afterSign"; "block_beforeBroadCast";
  "block_beforeMakeBlock"; "block_beforePropose"; "block_beforeSign"; "block_broadCastDelay";
  "block_delayForReceiveBlock"; "block_getStrategy"; "block_updateStrategy";
  "attest_afterBroadCast"; "attest_afterPropose"; "attest_afterSign"; "attest_beforeBroadCast";
  "attest_beforePropose"; "attest_beforeSign"; "attest_getStrategy"; "attest_updateStrategy"
].

(** Every method name a server answers, by namespace. *)
Definition all_names (r : serviceRegistry hs) : list string :=
  svc ← map_to_list r; (λ kv, full_name svc.1 kv.1) <$> map_to_list (callbacks svc.2).
End apis.

(** * Lemmas *)

Section names.
Context {H : Type}.

Lemma lookup_callback_all_names (r : serviceRegistry H) full cb :
  lookup_callback full r = Some cb →
  full ∈ (svc ← map_to_list r; (λ kv, full_name svc.1 kv.1) <$> map_to_list (callbacks svc.2)).
Proof.
  intros (ns & m & svc & -> & _ & Hsvc & Hcb)%lookup_callback_inv.
  apply list_elem_of_bind. exists (ns, svc). split; [|by apply elem_of_map_to_list].
  apply list_elem_of_fmap. exists (m, cb). split; [done|]. by apply elem_of_map_to_list.
Qed.

Definition answered (r : serviceRegistry H) (full : string) : bool :=
  match lookup_callback full r with Some _ => true | None => false end.
End names.

Section startup.
Context `{L : AttestationLib} `{!BlockApi.BlockTypes} `{!BlockApi.BlockProto}
  `{!AttestApi.AttestationProto Att}.
Context {Blk : Type} `{!Network} `{!RangeOrder} `{!SortSlice} `{!LruLib}.
Context (unmarshal_text : string → unmarshal_error → string).

(** All services can be registered. *)
Lemma node_enableRPC (h : httpServer (Server.Server Att Blk)) :
  httpHandler h = None →
  enableRPC (node_modules (Blk := Blk) unmarshal_text) (GetAPIs unmarshal_text) rpc_config h =
  (set_handlers (Some (node_rpc (Blk := Blk) unmarshal_text)) (wsHandler h)
     (set_http_config rpc_config h), None).
Proof.
  intros Hn. unfold enableRPC, rpcAllowed. rewrite Hn. unfold node_rpc, node_rpc_with.
  cbn [rpc_config HttpStack.batchItemLimit batchResponseSizeLimit HttpStack.Modules].
  destruct (RegisterApis _ _ _) as [srv e] eqn:E.
  assert (Hok : (RegisterApis (GetAPIs (Blk := Blk) unmarshal_text) DefaultModules
    (SetBatchLimits APIBatchItemLimit APIBatchResponseSizeLimit
       (RpcServer.NewServer (node_modules (Blk := Blk) unmarshal_text)))).2 = None) by reflexivity.
  rewrite E in Hok. simpl in Hok. subst e. reflexivity.
Qed.

(** The server after the start of a node. *)
Lemma Start_state (host : string) (port : Z) (listens : bool) :
  let h := Start (Blk := Blk) unmarshal_text host port listens (newHTTPServer DefaultHTTPTimeouts) in
  endpoint h = JoinHostPort host (FormatInt port) ∧ listener h = listens ∧
  http_config h = Some rpc_config ∧ wsHandler h = None ∧
  httpHandler h = if listens then Some (node_rpc (Blk := Blk) unmarshal_text) else None.
Proof.
  assert (Hne : bool_decide (JoinHostPort host (FormatInt port) = "") = false)
    by (apply bool_decide_eq_false, JoinHostPort_nonempty).
  unfold Start, startRPC, setListenAddr. cbn [listener newHTTPServer andb].
  rewrite node_enableRPC by reflexivity. unfold start.
  cbn [endpoint listener set_handlers set_http_config set_addr]. rewrite Hne.
  generalize (node_rpc (Blk := Blk) unmarshal_text). intros rpc. by destruct listens.
Qed.
End startup.

(** * Properties *)

(** C13: the server answers exactly the methods of the three services and
    rpc_modules, under the namespace of the service and the name of the Go
    method with a lower-case first letter; no exported handler is lost and
    there is no other name. *)
Theorem node_rpc_methods `{L : AttestationLib} `{!BlockApi.BlockTypes} `{!BlockApi.BlockProto}
    `{!AttestApi.AttestationProto Att} {Blk} `{!Network} `{!RangeOrder} `{!SortSlice} `{!LruLib}
    (unmarshal_text : string → unmarshal_error → string) (full : string) :
  is_Some (lookup_callback full (services (node_rpc (Blk := Blk) unmarshal_text))) ↔ full ∈ api_names.
Proof.
  split.
  - intros [cb Hcb]. apply lookup_callback_all_names in Hcb. revert Hcb.
    match goal with |- _ ∈ ?l → _ => let l' := eval vm_compute in l in change l with l' end.
    intros Hin.
    repeat (apply elem_of_cons in Hin as [->|Hin]; [eapply bool_decide_unpack; vm_compute; exact I|]).
    by apply not_elem_of_nil in Hin.
  - intros Hin. set (r := services _). assert (Hall : forallb (answered r) api_names = true)
      by (vm_compute; reflexivity).
    rewrite forallb_forall in Hall. apply list_elem_of_In, Hall in Hin.
    unfold answered in Hin. by destruct (lookup_callback full r).
Qed.

(** Starting a new node makes a plain request to the root path reach the
    RPC server with all three services and the configured batch limits, and
    rpc_modules answers the services that are registered; a request to another
    path is not found.  When the port cannot be opened [Start] hides the error:
    the node goes on without any handler, with the address still set. *)
Theorem Start_correct `{L : AttestationLib} `{!BlockApi.BlockTypes} `{!BlockApi.BlockProto}
    `{!AttestApi.AttestationProto Att} {Blk} `{!Network} `{!RangeOrder} `{!SortSlice} `{!LruLib}
    (unmarshal_text : string → unmarshal_error → string) (host : string) (port : Z) (listens : bool)
    (r : request) :
  let h := Start (Blk := Blk) unmarshal_text host port listens (newHTTPServer DefaultHTTPTimeouts) in
  let rpc := node_rpc (Blk := Blk) unmarshal_text in
  endpoint h = JoinHostPort host (FormatInt port) ∧ listener h = listens ∧
  RpcServer.Modules rpc = node_modules (Blk := Blk) unmarshal_text ∧
  ServeHTTP (λ _, false) r h =
    (if listens then if bool_decide (r_Path r = "/") then ToRpc rpc else NotFound else NotFound).
Proof.
  intros h rpc. assert (Hmod : RpcServer.Modules rpc = node_modules (Blk := Blk) unmarshal_text).
  { vm_compute. reflexivity. }
  destruct (Start_state (Blk := Blk) unmarshal_text host port listens) as (He & Hl & Hc & Hw & Hh).
  fold h rpc in He, Hl, Hc, Hw, Hh. clearbody h rpc.
  split; [exact He|]. split; [exact Hl|]. split; [exact Hmod|].
  unfold ServeHTTP. rewrite Hw, Hh, Hc. clear. destruct listens; [|reflexivity].
  unfold checkPath. cbn [prefix rpc_config DefaultPrefix].
  destruct (decide ("" = "")); [|contradiction]. reflexivity.
Qed.

(** C12: a plain HTTP request can change the state of the node only when the
    node is listening and the request asks for the root path, names no host, an
    IP address or localhost, is not a PUT or DELETE, announces at most 32 MiB
    and has a JSON content type or the method OPTIONS; this holds whatever the
    CORS library does. *)
Theorem request_gate `{L : AttestationLib} `{!BlockApi.BlockTypes} `{!BlockApi.BlockProto}
    `{!AttestApi.AttestationProto Att} {Blk} `{!Network} `{!RangeOrder} `{!SortSlice} `{!LruLib}
    `{!CorsLib} (unmarshal_text : string → unmarshal_error → string) (host : string) (port : Z)
    (listens : bool) (r : request) (st : hstate (Server.Server Att Blk)) :
  let h := Start (Blk := Blk) unmarshal_text host port listens (newHTTPServer DefaultHTTPTimeouts) in
  let name := match SplitHostPort (r_Host r) with Some name => name | None => r_Host r end in
  let '(reply, st') := serve_http h r st in
  (∃ a, reply = Ret a) ∧
  (st' = st ∨
   listens = true ∧ r_Path r = "/" ∧ (r_Host r = "" ∨ ParseIP name = true ∨ name = "localhost") ∧
   r_Method r ≠ "PUT" ∧ r_Method r ≠ "DELETE" ∧ r_ContentLength r ≤ 32 * 1024 * 1024 ∧
   (r_Method r = "OPTIONS" ∨
    ∃ mt, ParseMediaType (h_ContentType r) = Some mt ∧ mt ∈ acceptedContentTypes)).
Proof.
  intros h name. destruct (Start_state (Blk := Blk) unmarshal_text host port listens)
    as (_ & _ & Hc & Hw & Hh). fold h in Hc, Hw, Hh. clearbody h.
  unfold serve_http, ServeHTTP. rewrite Hw, Hh, Hc. destruct listens; [|by split; [eexists|left]].
  unfold checkPath. cbn [prefix rpc_config DefaultPrefix]. destruct (decide ("" = "")); [|done].
  case_bool_decide as Hp; [|by split; [eexists|left]]. unfold NewHTTPHandlerStack.
  pose proof (vhost_allows_iff (Vhosts rpc_config) r) as Hv. fold name in Hv.
  unfold vhost_serve, newCorsHandler. cbn [Vhosts CorsAllowedOrigins rpc_config].
  destruct (vhost_allows _ r); simpl; [|by split; [eexists|left]].
  destruct (cors_answers _ r); [by split; [eexists|left]|].
  pose proof (ServeHTTP_changes (node_rpc (Blk := Blk) unmarshal_text) r st) as Hs.
  generalize dependent (node_rpc (Blk := Blk) unmarshal_text). intros rpc Hh Hs.
  unfold mbind, GoM_bind. destruct (HttpConn.ServeHTTP rpc r st) as [[a|w] st'] eqn:E.
  - split; [by eexists|]. destruct (Hs _ _ eq_refl) as [_ [->|Hr]]; [by left|]. right.
    split; [done|]. split; [done|]. split; [|exact Hr].
    destruct Hv as [Hv _]. destruct (Hv eq_refl) as [?|[?|[Hm|(v & Hm & Hl)]]]; [by left|by right; left|..];
      apply list_elem_of_singleton in Hm; [done|]. subst v. right; right. by rewrite <-Hl.
  - destruct (Hs _ _ eq_refl) as [[a Ha] _]. done.
Qed.

(** * The whole stack on a request text *)

Section sample.
Existing Instances sample_node default_range_order merge_sort_slice fifo_lru bools_lib
  BlockApi.unit_types BlockApi.bool_proto.

Definition vote_proto : AttestApi.AttestationProto (@Att bools_lib) :=
  {| AttestApi.proto_UnmarshalAttestation s := Some (40, [true; false]) |}.
Existing Instance vote_proto.

Definition sample_rpc : rpcServer (Server.Server (@Att bools_lib) unit) :=
  node_rpc (L := bools_lib) (Blk := unit) (λ _ _, "").

Definition respond_to (text : string) : list string :=
  (λ w, match w with
        | WMsg m _ => String_msg m
        | WBatch l _ => String.concat " " (String_msg <$> l)
        end) <$>
  sent (serveSingleRequest sample_rpc text
    {| app := BlockApi.voted_server; serverSubs := ∅; notifiers := []; sent := [] |}).2.

(** An attacker's attestation is held back. *)
Example attest_beforePropose_attacker :
  respond_to (jq "{'jsonrpc':'2.0','id':7,'method':'attest_beforePropose','params':[40,'a3','']}")
    = [jq "{'jsonrpc':'2.0','id':7,'result':{'cmd':2,'result':''}}"].
Proof. vm_compute. reflexivity. Qed.

(** rs/cors ends preflight requests only. *)
Definition preflight_cors : CorsLib := λ _ r, bool_decide (r_Method r = "OPTIONS").
Existing Instance preflight_cors.

(** An HTTP request to the started node: the status, and what is written. *)
Definition http_answer (r : request) : Z * list string :=
  match serve_http
    (Start (L := bools_lib) (Blk := unit) (λ _ _, "") "localhost" 10000 true
       (newHTTPServer DefaultHTTPTimeouts)) r
    {| app := BlockApi.voted_server; serverSubs := ∅; notifiers := []; sent := [] |} with
  | (Ret (ByRpc Served), st) =>
      (200, (λ w, match w with WMsg m _ => String_msg m | WBatch _ _ => "" end) <$> sent st)
  | (Ret (ByRpc (Status code _)), _) | (Ret (Answered code _), _) => (code, [])
  | _ => (0, [])
  end.

Definition with_host (host : string) (r : request) : request := {|
  r_Method := r_Method r; r_Path := r_Path r; r_RawQuery := r_RawQuery r; r_Host := host;
  r_ContentLength := r_ContentLength r; h_ContentType := h_ContentType r; h_Upgrade := h_Upgrade r;
  h_Connection := h_Connection r; h_AcceptEncoding := h_AcceptEncoding r; r_Body := r_Body r
|}.

Example http_hosts :
  let call := post "application/json" (jq "{'jsonrpc':'2.0','id':1,'method':'block_broadCastDelay'}") in
  http_answer call = (200, [jq "{'jsonrpc':'2.0','id':1,'result':{'cmd':0,'result':''}}"]) ∧
  (http_answer (with_host "localhost:10000" call)).1 = 200 ∧
  (http_answer (with_host "attacker:10000" call)).1 = 403 ∧
  (http_answer (with_host "LocalHost:10000" call)).1 = 403 ∧
  (http_answer (post "text/plain" "{}")).1 = 415.
Proof. vm_compute. split_and!; reflexivity. Qed.

Example rpc_modules :
  respond_to (jq "{'jsonrpc':'2.0','id':7,'method':'rpc_modules'}")
    = [jq "{'jsonrpc':'2.0','id':7,'result':{'admin':'1.0','attest':'1.0','block':'1.0','rpc':'1.0'}}"].
Proof. vm_compute. reflexivity. Qed.

(** A batch: an unknown method, a bad argument, a notification. *)
Example batch_errors :
  respond_to (jq "[{'jsonrpc':'2.0','id':1,'method':'block_none'},
    {'jsonrpc':'2.0','id':2,'method':'block_afterBroadCast','params':['x']},
    {'jsonrpc':'2.0','method':'block_afterBroadCast','params':[3]}]")
    = [jq "{'jsonrpc':'2.0','id':1,'error':{'code':-32601,'message':'the method block_none does not exist/is not available'}} {'jsonrpc':'2.0','id':2,'error':{'code':-32602,'message':'invalid argument 0: json: cannot unmarshal string into Go value of type uint64'}}"].
Proof. vm_compute. reflexivity. Qed.
End sample.
