(* ===== verification/RpcPending.v ===== *)
(** * Package rpc, pending requests (src/rpc/handler.go)

    The client half of a connection handler: the requests that wait for a
    response, the subscriptions of the client, and what an incoming message
    does to them ([handleResponses], [handleSubscriptionResult]) or the end of
    the connection ([cancelAllRequests]).  Requests and subscriptions are
    pointers shared with the goroutines that wait for them: numbers into a
    store. *)

From S2P Require Import Prelude Strconv GoJson GoValue RpcErrors RpcJson.

(** Why a connection or a request ends. *)
Inductive op_error :=
| ErrClientQuit
| errClientReconnected
| ErrRead (e : string)
| ErrRemoteSub (e : jsonError)          (* the server refuses a subscription *)
| ErrSubID (e : unmarshal_error).

(** [requestOp].  [resp] is what its channel, of capacity 1, holds. *)
Record requestOp := Op {
  ids : list string;
  op_err : option op_error;
  resp : list (list jsonrpcMessage);
  resp_closed : bool;
  op_sub : option nat;
  hadResponse : bool
}.

(** [ClientSubscription], as the handler sees it: its id, and how often its
    forwarding goroutine was started. *)
Record clientSub := { subid : string; runs : nat }.

(** What the handler hands to the goroutine of a subscription: it waits until
    the value is taken or the goroutine has stopped. *)
Inductive sub_event :=
| Deliver (sub : nat) (result : option json)
| CloseSub (sub : nat) (err : op_error).

(** [respWait] and [clientSubs] belong to the handler of a connection, the
    stores do not. *)
Record pending := {
  ops : gmap nat requestOp;
  subs : gmap nat clientSub;
  events : list sub_event;
  respWait : gmap string nat;
  clientSubs : gmap string nat
}.

Definition set_ops (f : gmap nat requestOp → gmap nat requestOp) (p : pending) : pending :=
  {| ops := f (ops p); subs := subs p; events := events p; respWait := respWait p;
     clientSubs := clientSubs p |}.
Definition set_wait (f : gmap string nat → gmap string nat) (p : pending) : pending :=
  {| ops := ops p; subs := subs p; events := events p; respWait := f (respWait p);
     clientSubs := clientSubs p |}.
Definition add_event (e : sub_event) (p : pending) : pending :=
  {| ops := ops p; subs := subs p; events := events p ++ [e]; respWait := respWait p;
     clientSubs := clientSubs p |}.
Definition set_clientSubs (f : gmap string nat → gmap string nat) (p : pending) : pending :=
  {| ops := ops p; subs := subs p; events := events p; respWait := respWait p;
     clientSubs := f (clientSubs p) |}.

(** The map key of an id: its text. *)
Definition id_key (id : option json) : string := match id with Some j => print j | None => "" end.

(** ** Requests *)

Definition addRequestOp (i : nat) (op : requestOp) (p : pending) : pending :=
  set_wait (λ w, foldl (λ w id, <[id := i]> w) w (ids op)) p.

Definition removeRequestOp (op : requestOp) (p : pending) : pending :=
  set_wait (λ w, foldl (λ w id, delete id w) w (ids op)) p.

Definition the_op (i : nat) : GoM pending requestOp :=
  p ← gets id;
  match ops p !! i with Some op => mret op | None => panic (NilDeref "op") end.

Definition put_op (i : nat) (op : requestOp) : GoM pending unit := modify (set_ops <[i := op]>).

#[global] Arguments addRequestOp : simpl never.
#[global] Arguments removeRequestOp : simpl never.

(** Channel operations on [op.resp]. A send to a full channel would block the
    dispatch loop for good; that is an outcome of its own here. *)
Definition send_resp (i : nat) (batch : list jsonrpcMessage) : GoM pending unit :=
  op ← the_op i;
  if resp_closed op then panic (ExplicitPanic "send on closed channel")
  else
    match resp op with
    | [] => put_op i (Op (ids op) (op_err op) [batch] false (op_sub op) (hadResponse op))
    | _ => panic (ExplicitPanic "blocked: the channel is full")
    end.

Definition close_resp (i : nat) (err : op_error) : GoM pending unit :=
  op ← the_op i;
  if resp_closed op then panic (ExplicitPanic "close of closed channel")
  else put_op i (Op (ids op) (Some err) (resp op) true (op_sub op) (hadResponse op)).

(** ** Responses *)

(** The answer to a subscription request: [go op.sub.run()] and the entry in
    [clientSubs] when it holds an id. *)
Definition start_sub (i s : nat) (msg : jsonrpcMessage) : GoM pending unit :=
  op ← the_op i;
  let set_err e := put_op i (Op (ids op) e (resp op) (resp_closed op) (op_sub op) (hadResponse op)) in
  match Error msg with
  | Some e => set_err (Some (ErrRemoteSub e))
  | None =>
      p ← gets id;
      let sub := default {| subid := ""; runs := 0 |} (subs p !! s) in
      let '(v, e) := UnmarshalRaw TString (Result msg) (VStr (subid sub)) in
      let name := match v with VStr t => t | _ => subid sub end in
      _ ← set_err (ErrSubID <$> e);
      modify (λ p,
        {| ops := ops p;
           subs := <[s := {| subid := name; runs := runs sub + match e with None => 1 | Some _ => 0 end |}]> (subs p);
           events := events p; respWait := respWait p;
           clientSubs := match e with
                         | None => <[name := s]> (clientSubs p)
                         | Some _ => clientSubs p
                         end |})
  end.

Definition mark_responded (i : nat) : GoM pending unit :=
  op ← the_op i;
  put_op i (Op (ids op) (op_err op) (resp op) (resp_closed op) (op_sub op) true).

(** [handleResp]: the request that was answered, if any. *)
Definition handleResp (batch : list jsonrpcMessage) (msg : jsonrpcMessage) : GoM pending (option nat) :=
  p ← gets id;
  match respWait p !! id_key (ID msg) with
  | None => mret None
  | Some i =>
      _ ← modify (set_wait (delete (id_key (ID msg))));
      op ← the_op i;
      _ ← match op_sub op with Some s => start_sub i s msg | None => mret tt end;
      _ ← (if hadResponse op then mret tt else (_ ← mark_responded i; send_resp i batch));
      mret (Some i)
  end.

Definition handleSubscriptionResult (msg : jsonrpcMessage) : GoM pending unit :=
  let '(result, err) := unmarshal_raw_into (A := subscriptionResult) (Params msg) in
  match err with
  | Some _ => mret tt
  | None =>
      p ← gets id;
      match clientSubs p !! sr_ID result with
      | Some s => modify (add_event (Deliver s (sr_Result result)))
      | None => mret tt
      end
  end.

(** The loop over the batch: the requests that were answered and the messages
    for [handleCall], in order. *)
Definition response_step (batch : list jsonrpcMessage) (acc : list nat * list jsonrpcMessage)
    (msg : jsonrpcMessage) : GoM pending (list nat * list jsonrpcMessage) :=
  if isResponse msg then
    r ← handleResp batch msg;
    mret (match r with Some i => acc.1 ++ [i] | None => acc.1 end, acc.2)
  else if isNotification msg && HasSuffix (Method msg) notificationMethodSuffix then
    _ ← handleSubscriptionResult msg; mret acc
  else mret (acc.1, acc.2 ++ [msg]).

Definition remove_op (u : unit) (i : nat) : GoM pending unit :=
  op ← the_op i; modify (removeRequestOp op).

(** The result are the messages given to [handleCall]. *)
Definition handleResponses (batch : list jsonrpcMessage) : GoM pending (list jsonrpcMessage) :=
  r ← foldM (response_step batch) ([], []) batch;
  _ ← foldM remove_op tt r.1;
  mret r.2.

(** What [handleMsg] and [handleBatch] do with the pending requests. *)
Definition incoming (batchRequestLimit : Z) (batch : bool) (msgs : list jsonrpcMessage)
    : GoM pending (list jsonrpcMessage) :=
  if batch then
    if bool_decide (msgs = []) then mret []
    else if negb (batchRequestLimit =? 0) && (batchRequestLimit <? Z.of_nat (length msgs))
    then mret []
    else handleResponses msgs
  else
    match msgs with
    | [] => panic (IndexOutOfRange "op.msgs[0]")
    | msg :: _ => handleResponses [msg]
    end.

(** ** The end of a connection *)

Section cancel.
Context `{!RangeOrder}.

(** One pending request; the requests that were closed already. *)
Definition cancel_step (err : op_error) (didClose : list nat) (entry : string * nat)
    : GoM pending (list nat) :=
  _ ← modify (set_wait (delete entry.1));
  if decide (entry.2 ∈ didClose) then mret didClose
  else _ ← close_resp entry.2 err; mret (entry.2 :: didClose).

Definition cancelAllRequests (err : op_error) (inflightReq : option nat) : GoM pending unit :=
  p ← gets id;
  _ ← foldM (cancel_step err) (option_list inflightReq) (range_order 10 (respWait p));
  foldM (λ _ entry, _ ← modify (set_clientSubs (delete entry.1));
                    modify (add_event (CloseSub entry.2 err))) tt (range_order 11 (clientSubs p)).
End cancel.

(** * Lemmas *)

(** ** What the handler keeps *)

(** A registered id belongs to its operation, whose channel is open, the
    channel of an operation without response is empty, and no id has two
    operations. *)
Record pending_ok (p : pending) : Prop := {
  po_wait : ∀ k i, respWait p !! k = Some i →
    ∃ op, ops p !! i = Some op ∧ k ∈ ids op ∧ resp_closed op = false;
  po_resp : ∀ i op, ops p !! i = Some op → hadResponse op = false → resp op = [];
  po_ids : ∀ i j op op', ops p !! i = Some op → ops p !! j = Some op' → i ≠ j → ids op ## ids op'
}.

Definition settled (op : requestOp) : Prop := resp op ≠ [] ∨ resp_closed op = true.

Definition registered (p : pending) (i : nat) (op : requestOp) : Prop :=
  ∀ id, id ∈ ids op → respWait p !! id = Some i.

(** An operation that the handler does not know and that nothing ended: its
    channel is open and empty. *)
Definition orphan (p : pending) (i : nat) : Prop :=
  (∃ op, ops p !! i = Some op ∧ resp op = [] ∧ resp_closed op = false) ∧
  ∀ k, respWait p !! k ≠ Some i.

(** How an operation changes while messages are handled: a channel is never
    closed, at most one value is sent, and an operation that loses an id has
    got its response. *)
Record op_after (p p' : pending) (i : nat) (op op' : requestOp) : Prop := {
  oa_ids : ids op' = ids op;
  oa_closed : resp_closed op' = resp_closed op;
  oa_sub : op_sub op' = op_sub op;
  oa_had : hadResponse op = true → hadResponse op' = true ∧ resp op' = resp op;
  oa_new : hadResponse op = false → hadResponse op' = true → resp op' ≠ [];
  oa_reg : hadResponse op' = true ∨
    ∀ id, respWait p !! id = Some i → respWait p' !! id = Some i
}.

Record pending_after (p p' : pending) : Prop := {
  pa_ops : ∀ i op, ops p !! i = Some op → ∃ op', ops p' !! i = Some op' ∧ op_after p p' i op op';
  pa_new : ∀ i op', ops p' !! i = Some op' → is_Some (ops p !! i);
  pa_ok : pending_ok p → pending_ok p';
  pa_orphan : ∀ i, orphan p i → orphan p' i
}.

#[export] Instance pending_after_refl : Reflexive pending_after.
Proof.
  intros p. split; [|eauto|done|done]. intros i op Hop. exists op. split; [done|]. split; try done.
  - intros H1 H2. congruence.
  - by right.
Qed.

#[export] Instance pending_after_trans : Transitive pending_after.
Proof.
  intros p q r Hpq Hqr. split.
  - intros i op Hop. destruct (pa_ops _ _ Hpq i op Hop) as (op1 & Hop1 & A1).
    destruct (pa_ops _ _ Hqr i op1 Hop1) as (op2 & Hop2 & A2). exists op2. split; [done|].
    destruct A1 as [I1 C1 S1 H1 N1 R1], A2 as [I2 C2 S2 H2 N2 R2]. split; try congruence.
    + intros Hh. destruct (H1 Hh) as [Hh1 E1]. destruct (H2 Hh1). split; congruence.
    + intros Hf Ht. destruct (hadResponse op1) eqn:E; [|by apply N2].
      destruct (H2 eq_refl) as [_ ->]. by apply N1.
    + destruct (hadResponse op2) eqn:E; [by left|]. right.
      destruct (hadResponse op1) eqn:E1; [destruct (H2 eq_refl); congruence|].
      destruct R1 as [|R1]; [congruence|]. destruct R2 as [|R2]; [congruence|].
      intros id Hid. by apply R2, R1.
  - intros i op2 Hop2. destruct (pa_new _ _ Hqr i op2 Hop2) as [op1 Hop1]. by eapply pa_new.
  - intros Hok. by eapply pa_ok, pa_ok.
  - intros i Hi. by eapply pa_orphan, pa_orphan.
Qed.

(** A computation that, from a good state, returns a value in [Q] and leaves
    the state better. *)
Definition advances {A} (m : GoM pending A) (Q : A → pending → Prop) (p : pending) : Prop :=
  pending_ok p → ∃ a p', m p = (Ret a, p') ∧ pending_after p p' ∧ Q a p'.

Lemma advances_bind {A B} (m : GoM pending A) (f : A → GoM pending B) Q R p :
  advances m Q p → (∀ a p', pending_after p p' → Q a p' → advances (f a) R p') →
  advances (m ≫= f) R p.
Proof.
  intros Hm Hf Hok. destruct (Hm Hok) as (a & p1 & E1 & A1 & Q1).
  destruct (Hf a p1 A1 Q1 (pa_ok _ _ A1 Hok)) as (b & p2 & E2 & A2 & Q2).
  exists b, p2. unfold mbind, GoM_bind. rewrite E1. split_and!; [done|by etransitivity|done].
Qed.

Lemma advances_ret {A} (a : A) (Q : A → pending → Prop) p : Q a p → advances (mret a) Q p.
Proof. intros Hq _. exists a, p. by split_and!. Qed.

Lemma ids_insert (m : gmap nat requestOp) i op op' :
  m !! i = Some op → ids op' = ids op →
  (∀ i j op op', m !! i = Some op → m !! j = Some op' → i ≠ j → ids op ## ids op') →
  ∀ j k opj opk, <[i := op']> m !! j = Some opj → <[i := op']> m !! k = Some opk → j ≠ k →
    ids opj ## ids opk.
Proof.
  intros Hop Hi Hd j k opj opk. rewrite !lookup_insert_Some.
  intros [[-> ->]|[Hj Hmj]] [[-> ->]|[Hk Hmk]] Hne; [done| | |by eapply Hd].
  - rewrite Hi. by eapply Hd.
  - rewrite Hi. eapply Hd; [done|exact Hop|done].
Qed.

(** The steps of the store, one by one. *)
Lemma the_op_eq p i op : ops p !! i = Some op → the_op i p = (Ret op, p).
Proof. intros Hop. unfold the_op, mbind, GoM_bind, gets, id. by rewrite Hop. Qed.

Definition with_err (e : option op_error) (op : requestOp) : requestOp :=
  Op (ids op) e (resp op) (resp_closed op) (op_sub op) (hadResponse op).

Lemma start_sub_spec p i s msg op :
  ops p !! i = Some op →
  ∃ e p', start_sub i s msg p = (Ret tt, p') ∧ ops p' = <[i := with_err e op]> (ops p) ∧
    respWait p' = respWait p ∧ events p' = events p.
Proof.
  intros Hop. unfold start_sub. rewrite (bind_eq _ _ _ _ _ (the_op_eq p i op Hop)).
  destruct (Error msg) as [e|]; [by eexists _, _|].
  rewrite (bind_eq (gets id) _ p p p) by reflexivity.
  destruct (UnmarshalRaw TString (Result msg) _) as [v e]. by eexists (ErrSubID <$> e), _.
Qed.

(** The operation after its answer. *)
Definition answered (batch : list jsonrpcMessage) (e : option op_error) (op : requestOp) : requestOp :=
  Op (ids op) e (if hadResponse op then resp op else [batch]) (resp_closed op) (op_sub op) true.

Lemma respond_spec p i op batch :
  ops p !! i = Some op → resp_closed op = false → (hadResponse op = false → resp op = []) →
  ∃ p', (if hadResponse op then mret tt else (_ ← mark_responded i; send_resp i batch)) p = (Ret tt, p') ∧
    ops p' = <[i := answered batch (op_err op) op]> (ops p) ∧ respWait p' = respWait p ∧
    events p' = events p.
Proof.
  intros Hop Hcl Hr. unfold answered. destruct op as [ks e r cl sb had]. simpl in *. destruct had.
  - exists p. split_and!; try done. by rewrite insert_id.
  - specialize (Hr eq_refl). subst r cl. eexists.
    assert (Em : mark_responded i p = (Ret tt, set_ops <[i := Op ks e [] false sb true]> p)).
    { unfold mark_responded. by rewrite (bind_eq _ _ _ _ _ (the_op_eq p i _ Hop)). }
    rewrite (bind_eq _ _ _ _ _ Em). unfold send_resp.
    erewrite bind_eq by (apply the_op_eq; simpl; apply lookup_insert_eq).
    simpl. split_and!; [reflexivity|simpl; by rewrite insert_insert_eq|done|done].
Qed.

Lemma handleResp_spec p batch msg :
  pending_ok p →
  (respWait p !! id_key (ID msg) = None ∧ handleResp batch msg p = (Ret None, p)) ∨
  ∃ i op e p', respWait p !! id_key (ID msg) = Some i ∧ ops p !! i = Some op ∧
    handleResp batch msg p = (Ret (Some i), p') ∧ (op_sub op = None → e = op_err op) ∧
    ops p' = <[i := answered batch e op]> (ops p) ∧
    respWait p' = delete (id_key (ID msg)) (respWait p) ∧ events p' = events p.
Proof.
  intros Hok. unfold handleResp. rewrite !(bind_eq (gets id) _ p p p) by reflexivity.
  destruct (respWait p !! id_key (ID msg)) as [i|] eqn:Hk; [right|by left].
  destruct (po_wait _ Hok _ _ Hk) as (op & Hop & _ & Hcl).
  set (p1 := set_wait (delete (id_key (ID msg))) p).
  rewrite (bind_eq (modify _) _ p tt p1) by reflexivity. assert (Hop1 : ops p1 !! i = Some op) by done.
  rewrite (bind_eq _ _ _ _ _ (the_op_eq p1 i op Hop1)).
  assert (Hsub : ∃ e p2, (match op_sub op with Some s => start_sub i s msg | None => mret tt end) p1
      = (Ret tt, p2) ∧ (op_sub op = None → e = op_err op) ∧ ops p2 = <[i := with_err e op]> (ops p) ∧ respWait p2 = respWait p1 ∧
        events p2 = events p).
  { destruct (op_sub op) as [s|].
    - destruct (start_sub_spec p1 i s msg op Hop1) as (e & p2 & E & Ho & Hw & He). by exists e, p2.
    - exists (op_err op), p1. split_and!; try done. rewrite insert_id; [done|].
      rewrite Hop. by destruct op. }
  destruct Hsub as (e & p2 & E2 & He0 & Ho2 & Hw2 & He2). rewrite (bind_eq _ _ _ _ _ E2).
  destruct (respond_spec p2 i (with_err e op) batch) as (p3 & E3 & Ho3 & Hw3 & He3).
  { by rewrite Ho2, lookup_insert_eq. }
  { done. }
  { exact (po_resp _ Hok i op Hop). }
  change (hadResponse op) with (hadResponse (with_err e op)). rewrite (bind_eq _ _ _ _ _ E3).
  exists i, op, e, p3. split_and!; [done|done|done|done| |by rewrite Hw3, Hw2|congruence].
  rewrite Ho3, Ho2, insert_insert_eq. done.
Qed.

(** Answering an operation and dropping one of its ids. *)
Lemma after_answered p p' k i op batch e :
  pending_ok p → respWait p !! k = Some i → ops p !! i = Some op →
  ops p' = <[i := answered batch e op]> (ops p) → respWait p' = delete k (respWait p) →
  pending_after p p'.
Proof.
  intros Hok Hk Hop Ho Hw. split.
  - intros j opj Hj. rewrite Ho. destruct (decide (j = i)) as [->|Hne].
    + simplify_eq. eexists. rewrite lookup_insert_eq. split; [done|]. split; try done.
      * simpl. by intros ->.
      * simpl. by intros -> _.
      * by left.
    + exists opj. rewrite lookup_insert_ne by done. split; [done|]. split; try done; [congruence|].
      right. intros id Hid. rewrite Hw, lookup_delete_ne; [done|]. intros <-. congruence.
  - intros j opj. rewrite Ho. destruct (decide (j = i)) as [->|Hne]; [by rewrite Hop|].
    rewrite lookup_insert_ne by done. by eexists.
  - intros _. destruct (Hok) as [Hwt Hp Hd]. split.
    + intros k' j. rewrite Hw, lookup_delete_Some. intros [_ Hk'].
      destruct (Hwt k' j Hk') as (opj & Hj & Hin & Hcl). rewrite Ho.
      destruct (decide (j = i)) as [->|Hne].
      * assert (opj = op) as -> by congruence. exists (answered batch e op).
        rewrite lookup_insert_eq. split_and!; [done|exact Hin|exact Hcl].
      * rewrite lookup_insert_ne by done. by exists opj.
    + intros j opj. rewrite Ho. destruct (decide (j = i)) as [->|Hne].
      * rewrite lookup_insert_eq. by intros [= <-].
      * rewrite lookup_insert_ne by done. apply Hp.
    + rewrite Ho. by apply (ids_insert (ops p) i op (answered batch e op) Hop).
  - intros j [(opj & Hj & Hr & Hcl) Hq]. assert (j ≠ i) by (intros ->; by apply (Hq k)). split.
    + exists opj. by rewrite Ho, lookup_insert_ne.
    + intros k'. rewrite Hw, lookup_delete_Some. intros [_ Hk']. by apply (Hq k').
Qed.

Lemma advances_foldM {A B} (f : B → A → GoM pending B) (I : B → pending → Prop) b l p :
  I b p → (∀ b x p, I b p → x ∈ l → advances (f b x) I p) → advances (foldM f b l) I p.
Proof.
  revert b p. induction l as [|x l IH]; intros b p Hi Hf; [by apply advances_ret|]. simpl.
  eapply advances_bind; [apply Hf; [done|by left]|]. intros b' p' _ Hi'. apply IH; [done|].
  intros ? ? ? ? ?. apply Hf; [done|by right].
Qed.

(** The operations in a list have got their response. *)
Definition all_had (l : list nat) (p : pending) : Prop :=
  ∀ i, i ∈ l → ∃ op, ops p !! i = Some op ∧ hadResponse op = true.

Lemma all_had_after l p p' : all_had l p → pending_after p p' → all_had l p'.
Proof.
  intros Hl Ha i Hi. destruct (Hl i Hi) as (op & Hop & Hh).
  destruct (pa_ops _ _ Ha i op Hop) as (op' & Hop' & A). exists op'. split; [done|].
  by destruct (oa_had _ _ _ _ _ A Hh).
Qed.

Lemma handleResp_advances batch msg l p :
  all_had l p →
  advances (handleResp batch msg)
    (λ r p', all_had (match r with Some i => l ++ [i] | None => l end) p') p.
Proof.
  intros Hl Hok. destruct (handleResp_spec p batch msg Hok)
    as [[_ E]|(i & op & e & p' & Hk & Hop & E & _ & Ho & Hw & _)].
  - exists None, p. by split_and!.
  - assert (Ha : pending_after p p') by (by eapply after_answered).
    exists (Some i), p'. split_and!; [done|done|]. intros j [Hj|Hj]%elem_of_app.
    + by eapply all_had_after.
    + apply list_elem_of_singleton in Hj as ->. eexists. rewrite Ho, lookup_insert_eq. done.
Qed.

Lemma after_event e p : pending_after p (add_event e p).
Proof.
  split; [|eauto|by intros []; split|done]. intros i op Hop. exists op. split; [done|].
  split; try done; [congruence|by right].
Qed.

Lemma handleSubscriptionResult_advances msg p :
  advances (handleSubscriptionResult msg) (λ _ _, True) p.
Proof.
  intros _. unfold handleSubscriptionResult. destruct (unmarshal_raw_into (Params msg)) as [r [e|]].
  - by exists tt, p.
  - rewrite (bind_eq (gets id) _ p p p) by reflexivity. destruct (clientSubs p !! sr_ID r) as [s|].
    + eexists tt, _. split_and!; [reflexivity|apply after_event|done].
    + by exists tt, p.
Qed.

Lemma response_step_advances batch acc msg p :
  all_had acc.1 p → advances (response_step batch acc msg) (λ acc' p', all_had acc'.1 p') p.
Proof.
  intros Hl. unfold response_step. destruct (isResponse msg); [|destruct (_ && _)].
  - eapply advances_bind; [by apply handleResp_advances|]. intros [i|] p' _ Hr; by apply advances_ret.
  - eapply advances_bind; [apply handleSubscriptionResult_advances|]. intros ? p' Ha _.
    apply advances_ret. by eapply all_had_after.
  - by apply advances_ret.
Qed.

(** Dropping the ids of an operation. *)
Lemma remove_lookup op p k :
  respWait (removeRequestOp op p) !! k = if decide (k ∈ ids op) then None else respWait p !! k.
Proof.
  unfold removeRequestOp. simpl. generalize (respWait p). induction (ids op) as [|a l IH]; intros w; [done|].
  simpl. rewrite IH. destruct (decide (k = a)) as [->|Hne].
  - rewrite lookup_delete_eq, (decide_True (P := a ∈ a :: l)) by by left. by case_decide.
  - rewrite lookup_delete_ne by done. apply decide_ext. rewrite elem_of_cons. naive_solver.
Qed.

Lemma add_lookup i op p k :
  respWait (addRequestOp i op p) !! k = if decide (k ∈ ids op) then Some i else respWait p !! k.
Proof.
  unfold addRequestOp. simpl. generalize (respWait p). induction (ids op) as [|a l IH]; intros w; [done|].
  simpl. rewrite IH. destruct (decide (k = a)) as [->|Hne].
  - rewrite lookup_insert_eq, (decide_True (P := a ∈ a :: l)) by by left. by case_decide.
  - rewrite lookup_insert_ne by done. apply decide_ext. rewrite elem_of_cons. naive_solver.
Qed.

Lemma remove_ok op p : pending_ok p → pending_ok (removeRequestOp op p).
Proof.
  intros [Hw Hr Hd]. split; [|exact Hr|exact Hd]. intros k i.
  rewrite remove_lookup. case_decide; [done|]. apply Hw.
Qed.

Lemma remove_orphan op p i : orphan p i → orphan (removeRequestOp op p) i.
Proof. intros [Ho Hq]. split; [exact Ho|]. intros k. rewrite remove_lookup. by case_decide. Qed.

(** The other operations keep their ids. *)
Lemma remove_other op i p k j :
  pending_ok p → ops p !! i = Some op → respWait p !! k = Some j → j ≠ i →
  respWait (removeRequestOp op p) !! k = Some j.
Proof.
  intros Hok Hop Hk Hne. rewrite remove_lookup. case_decide as Hin; [|done].
  destruct (po_wait _ Hok k j Hk) as (opj & Hj & Hkj & _).
  destruct (po_ids _ Hok j i opj op Hj Hop Hne k Hkj Hin).
Qed.

Lemma remove_op_advances i p l :
  i ∈ l → all_had l p → advances (remove_op tt i) (λ _ p', all_had l p') p.
Proof.
  intros Hi Hl Hok. destruct (Hl i Hi) as (op & Hop & Hh). exists tt, (removeRequestOp op p).
  unfold remove_op. rewrite (bind_eq _ _ _ _ _ (the_op_eq p i op Hop)). split_and!; [done| |done].
  split; [|by eauto|by intros; apply remove_ok|by intros; apply remove_orphan]. intros j opj Hj. exists opj. split; [done|].
  split; try done; [congruence|]. destruct (decide (j = i)) as [->|Hne]; [left; congruence|].
  right. intros k Hk. by eapply remove_other.
Qed.

Lemma handleResponses_advances batch p :
  advances (handleResponses batch) (λ _ _, True) p.
Proof.
  unfold handleResponses. eapply advances_bind.
  - apply (advances_foldM _ (λ acc p, all_had acc.1 p)).
    + intros i Hi. by apply not_elem_of_nil in Hi.
    + intros acc msg p' Hl _. by apply response_step_advances.
  - intros r p' _ Hr. eapply advances_bind; [|by intros; apply advances_ret].
    apply (advances_foldM _ (λ _ p, all_had r.1 p)); [done|].
    intros [] i p1 Hl Hi. by apply remove_op_advances.
Qed.

Lemma incoming_advances limit batch msgs p :
  (batch = false → msgs ≠ []) → advances (incoming limit batch msgs) (λ _ _, True) p.
Proof.
  intros Hm. unfold incoming. destruct batch.
  - destruct (bool_decide (msgs = [])); [by apply advances_ret|].
    destruct (_ && _); [by apply advances_ret|apply handleResponses_advances].
  - destruct msgs as [|m ms]; [by destruct Hm|apply handleResponses_advances].
Qed.

(** ** Cancelling *)

Definition closed_by (err : op_error) (op : requestOp) : requestOp :=
  Op (ids op) (Some err) (resp op) true (op_sub op) (hadResponse op).

Lemma close_resp_eq p i op err :
  ops p !! i = Some op → resp_closed op = false →
  close_resp i err p = (Ret tt, set_ops <[i := closed_by err op]> p).
Proof.
  intros Hop Hcl. unfold close_resp. rewrite (bind_eq _ _ _ _ _ (the_op_eq p i op Hop)).
  by rewrite Hcl.
Qed.

(** The operations in [l] are closed, but for those in [d]. *)
Definition cancelled (err : op_error) (l : list nat) (d : list nat) (j : nat) (op : requestOp) : requestOp :=
  if decide (j ∈ l ∧ j ∉ d) then closed_by err op else op.
#[global] Arguments cancelled : simpl never.

Lemma cancelled_yes err l d j op : j ∈ l → j ∉ d → cancelled err l d j op = closed_by err op.
Proof. intros. unfold cancelled. by rewrite decide_True. Qed.
Lemma cancelled_no err l d j op : j ∉ l ∨ j ∈ d → cancelled err l d j op = op.
Proof. intros. unfold cancelled. rewrite decide_False; [done|naive_solver]. Qed.
Lemma cancelled_ext err l d l' d' j op :
  (j ∈ l ∧ j ∉ d ↔ j ∈ l' ∧ j ∉ d') → cancelled err l d j op = cancelled err l' d' j op.
Proof. apply decide_ext. Qed.

Lemma cancel_fold err l d p :
  (∀ e, e ∈ l → ∃ op, ops p !! e.2 = Some op ∧ (e.2 ∉ d → resp_closed op = false)) →
  ∃ d' p', foldM (cancel_step err) d l p = (Ret d', p') ∧
    (∀ j, ops p' !! j = cancelled err l.*2 d j <$> ops p !! j) ∧
    respWait p' = foldl (λ w e, delete e.1 w) (respWait p) l ∧
    subs p' = subs p ∧ events p' = events p ∧ clientSubs p' = clientSubs p.
Proof.
  revert d p. induction l as [|[k i] l IH]; intros d p Hl.
  { exists d, p. split_and!; try done. intros j. by destruct (ops p !! j). }
  cbn [foldM]. destruct (Hl (k, i)) as (op & Hop & Hcl); [by left|]. simpl in Hop, Hcl.
  set (p1 := set_wait (delete k) p).
  assert (Hstep : cancel_step err d (k, i) p =
    if decide (i ∈ d) then (Ret d, p1) else (Ret (i :: d), set_ops <[i := closed_by err op]> p1)).
  { unfold cancel_step. rewrite (bind_eq (modify _) _ p tt p1) by done. simpl.
    case_decide; [done|]. by rewrite (bind_eq _ _ _ _ _ (close_resp_eq p1 i op err Hop (Hcl H))). }
  destruct (decide (i ∈ d)) as [Hd|Hd].
  - destruct (IH d p1) as (d' & p' & E & Ho & Hw & Hs & He & Hc).
    { intros e He. apply Hl. by right. }
    exists d', p'. rewrite (bind_eq _ _ _ _ _ Hstep). split_and!; try done.
    intros j. rewrite Ho. simpl. destruct (ops p !! j) as [opj|]; [|done]. simpl. f_equal.
    apply cancelled_ext. set_solver.
  - destruct (IH (i :: d) (set_ops <[i := closed_by err op]> p1)) as (d' & p' & E & Ho & Hw & Hs & He & Hc).
    { intros e He. destruct (Hl e) as (ope & Hope & Hcle); [by right|]. simpl.
      destruct (decide (e.2 = i)) as [->|Hne].
      - eexists. rewrite lookup_insert_eq. split; [done|]. set_solver.
      - exists ope. rewrite lookup_insert_ne by done. split; [done|]. set_solver. }
    exists d', p'. rewrite (bind_eq _ _ _ _ _ Hstep). split_and!; try done.
    intros j. rewrite Ho. simpl. destruct (decide (j = i)) as [->|Hne].
    + rewrite lookup_insert_eq, Hop. simpl. f_equal.
      rewrite cancelled_no by (right; by left). by rewrite cancelled_yes by (done || by left).
    + rewrite lookup_insert_ne by done. destruct (ops p !! j) as [opj|]; [|done]. simpl. f_equal.
      apply cancelled_ext. set_solver.
Qed.

Lemma foldl_delete_lookup {A} (l : list (string * nat)) (w : gmap string A) k :
  foldl (λ w e, delete e.1 w) w l !! k = if decide (k ∈ l.*1) then None else w !! k.
Proof.
  revert w. induction l as [|[a x] l IH]; intros w; [by rewrite decide_False by set_solver|].
  cbn [foldl]. rewrite IH. cbn [fst]. destruct (decide (k = a)) as [->|Hne].
  - rewrite lookup_delete_eq, (decide_True (P := a ∈ ((a, x) :: l).*1)) by by left. by case_decide.
  - rewrite lookup_delete_ne by done. apply decide_ext. cbn. rewrite elem_of_cons. naive_solver.
Qed.

Section cancel_lemmas.
Context `{!RangeOrder}.

Lemma foldl_delete_all site (m : gmap string nat) :
  foldl (λ w e, delete e.1 w) m (range_order site m) = ∅.
Proof.
  apply map_eq. intros k. rewrite foldl_delete_lookup, lookup_empty. case_decide as Hk; [done|].
  destruct (m !! k) as [v|] eqn:Hm; [|done]. destruct Hk. apply list_elem_of_fmap.
  exists (k, v). split; [done|]. by apply range_order_elem.
Qed.

(** The subscriptions of the handler are told in some order. *)
Lemma cancel_subs err l p :
  foldM (λ (_ : unit) entry, _ ← modify (set_clientSubs (delete entry.1));
     modify (add_event (CloseSub entry.2 err))) tt l p =
  (Ret tt, {| ops := ops p; subs := subs p;
              events := events p ++ ((λ e, CloseSub e.2 err) <$> l); respWait := respWait p;
              clientSubs := foldl (λ w e, delete e.1 w) (clientSubs p) l |}).
Proof.
  revert p. induction l as [|[k s] l IH]; intros p; cbn [foldM].
  - destruct p. simpl. by rewrite app_nil_r.
  - rewrite (bind_eq _ _ p tt (add_event (CloseSub s err) (set_clientSubs (delete k) p))) by reflexivity.
    rewrite IH. simpl. by rewrite <-app_assoc.
Qed.

(** Every pending request but the one in flight is closed, once, and nothing
    stays registered. *)
Lemma cancelAllRequests_spec err inflight p :
  pending_ok p →
  ∃ p', cancelAllRequests err inflight p = (Ret tt, p') ∧ respWait p' = ∅ ∧ clientSubs p' = ∅ ∧
    subs p' = subs p ∧
    events p' = events p ++ ((λ e, CloseSub e.2 err) <$> range_order 11 (clientSubs p)) ∧
    (∀ j, ops p' !! j =
      cancelled err (range_order 10 (respWait p)).*2 (option_list inflight) j <$> ops p !! j).
Proof.
  intros Hok. unfold cancelAllRequests. rewrite (bind_eq (gets id) _ p p p) by reflexivity.
  destruct (cancel_fold err (range_order 10 (respWait p)) (option_list inflight) p)
    as (d & p1 & E & Ho & Hw & Hs & He & Hc).
  { intros [k i] Hki%range_order_elem. destruct (po_wait _ Hok k i Hki) as (op & Hop & _ & Hcl).
    by exists op. }
  rewrite (bind_eq _ _ _ _ _ E), cancel_subs. eexists. split; [done|]. simpl.
  rewrite Hw, Hc, He, Hs, !foldl_delete_all. by split_and!.
Qed.

Lemma cancel_ok p p' f :
  pending_ok p → (∀ j, ops p' !! j = f j <$> ops p !! j) → respWait p' = ∅ →
  (∀ j op, ids (f j op) = ids op ∧ resp (f j op) = resp op ∧ hadResponse (f j op) = hadResponse op) →
  pending_ok p'.
Proof.
  intros [Hw Hr Hd] Ho Hw' Hf. split.
  - intros k i. by rewrite Hw', lookup_empty.
  - intros i op. rewrite Ho, fmap_Some. intros (op0 & Hop0 & ->).
    destruct (Hf i op0) as (_ & -> & ->). by eapply Hr.
  - intros i j op op'. rewrite !Ho, !fmap_Some. intros (o1 & H1 & ->) (o2 & H2 & ->) Hne.
    destruct (Hf i o1) as (-> & _), (Hf j o2) as (-> & _). by eapply Hd.
Qed.
End cancel_lemmas.

(** ** The delivery of responses *)

(** A message of [msgs] answers the operation [i]. *)
Definition hit (p : pending) (msgs : list jsonrpcMessage) (i : nat) : Prop :=
  ∃ m, m ∈ msgs ∧ respWait p !! id_key (ID m) = Some i.

#[export] Instance hit_dec p msgs i : Decision (hit p msgs i).
Proof.
  refine (cast_if (decide (Exists (λ m, respWait p !! id_key (ID m) = Some i) msgs)));
    unfold hit; by rewrite <-Exists_exists.
Defined.

(** What the handler knows after it has gone through the responses [d] of a
    batch, which answered the operations [l]. *)
Record delivered (p : pending) (batch d : list jsonrpcMessage) (l : list nat) (p' : pending) : Prop := {
  dl_ok : pending_ok p';
  dl_wait : ∀ k, respWait p' !! k = if decide (k ∈ (λ m, id_key (ID m)) <$> d) then None else respWait p !! k;
  dl_ops : ∀ i, ops p' !! i =
    (λ op, if decide (hit p d i) then answered batch (op_err op) op else op) <$> ops p !! i;
  dl_list : ∀ i, i ∈ l ↔ hit p d i;
  dl_events : events p' = events p
}.

Lemma delivered_step p batch d l p' m :
  delivered p batch d l p' → isResponse m = true →
  (∀ i op, hit p (d ++ [m]) i → ops p !! i = Some op → op_sub op = None) →
  ∃ l' p2, response_step batch (l, []) m p' = (Ret (l', []), p2) ∧ delivered p batch (d ++ [m]) l' p2.
Proof.
  intros [Hok Hw Ho Hl He] Hm Hsub. unfold response_step. rewrite Hm. cbn [fst snd].
  assert (Hadd : ∀ i, hit p (d ++ [m]) i ↔ hit p d i ∨ respWait p !! id_key (ID m) = Some i).
  { intros i. unfold hit. setoid_rewrite elem_of_app. setoid_rewrite list_elem_of_singleton. naive_solver. }
  assert (Hkey : ∀ k, k ∈ (λ m, id_key (ID m)) <$> d ++ [m] ↔ k ∈ (λ m, id_key (ID m)) <$> d ∨ k = id_key (ID m)).
  { intros k. rewrite fmap_app, elem_of_app. simpl. by rewrite list_elem_of_singleton. }
  destruct (handleResp_spec p' batch m Hok) as [[Hn E]|(i & op & e & p2 & Hk & Hop & E & Hee & Ho2 & Hw2 & He2)];
    rewrite (bind_eq _ _ _ _ _ E).
  - assert (Hold : ∀ i, respWait p !! id_key (ID m) = Some i → hit p d i).
    { intros i Hi. rewrite Hw in Hn. case_decide as Hin; [|congruence].
      apply list_elem_of_fmap in Hin as (m' & Hmm & Hin). exists m'. split; [done|]. by rewrite <-Hi, Hmm. }
    exists l, p'. split; [done|]. split; [done|..|done].
    + intros k. rewrite Hw. destruct (decide (k = id_key (ID m))) as [->|Hne].
      * rewrite (decide_True (P := _ ∈ _ <$> d ++ [m])) by (rewrite Hkey; by right). by rewrite <-Hw.
      * apply decide_ext. rewrite Hkey. naive_solver.
    + intros i. rewrite Ho. destruct (ops p !! i) as [op|]; [|done]. simpl. f_equal.
      apply decide_ext. rewrite Hadd. naive_solver.
    + intros i. rewrite Hl, Hadd. naive_solver.
  - assert (Hnew : id_key (ID m) ∉ (λ m, id_key (ID m)) <$> d ∧ respWait p !! id_key (ID m) = Some i).
    { rewrite Hw in Hk. by case_decide. }
    destruct Hnew as [Hnin Hki].
    exists (l ++ [i]), p2. split; [done|]. split; [|..|congruence].
    + apply (pa_ok p' p2); [|done]. by eapply after_answered.
    + intros k. rewrite Hw2. destruct (decide (k = id_key (ID m))) as [->|Hne].
      * rewrite (decide_True (P := _ ∈ _ <$> d ++ [m])) by (rewrite Hkey; by right). apply lookup_delete_eq.
      * rewrite lookup_delete_ne by done. rewrite Hw. apply decide_ext. rewrite Hkey. naive_solver.
    + intros j. rewrite Ho2. destruct (decide (j = i)) as [->|Hne].
      * rewrite lookup_insert_eq. specialize (Ho i). rewrite Hop in Ho.
        destruct (ops p !! i) as [op0|] eqn:Hop0; [|done]. simpl in *. f_equal.
        rewrite (decide_True (P := hit p (d ++ [m]) i)) by (rewrite Hadd; by right).
        assert (op_sub op0 = None) as Hs by (eapply Hsub; [rewrite Hadd; by right|done]).
        injection Ho as ->. case_decide; rewrite Hee by (by destruct op0); [|done].
        by destruct op0 as [? ? ? ? ? []].
      * rewrite lookup_insert_ne by done. rewrite Ho. destruct (ops p !! j) as [opj|]; [|done].
        simpl. f_equal. apply decide_ext. rewrite Hadd. naive_solver.
    + intros j. rewrite elem_of_app, list_elem_of_singleton, Hl, Hadd. naive_solver.
Qed.

Lemma delivered_fold p batch d l p' ms :
  delivered p batch d l p' → (∀ m, m ∈ ms → isResponse m = true) →
  (∀ i op, hit p (d ++ ms) i → ops p !! i = Some op → op_sub op = None) →
  ∃ l' p2, foldM (response_step batch) (l, []) ms p' = (Ret (l', []), p2) ∧
    delivered p batch (d ++ ms) l' p2.
Proof.
  revert d l p'. induction ms as [|m ms IH]; intros d l p' D Hms Hsub.
  { exists l, p'. by rewrite app_nil_r. }
  destruct (delivered_step p batch d l p' m D) as (l1 & p1 & E1 & D1); [apply Hms; by left| |].
  { intros i op (m' & Hin & Hk). apply Hsub. exists m'. split; [set_solver|done]. }
  cbn [foldM]. rewrite (bind_eq _ _ _ _ _ E1).
  destruct (IH (d ++ [m]) l1 p1 D1) as (l2 & p2 & E2 & D2).
  { intros m' Hm'. apply Hms. by right. }
  { by rewrite <-app_assoc. }
  exists l2, p2. split; [exact E2|]. by rewrite <-app_assoc in D2.
Qed.

(** Dropping the ids of the operations in [l]. *)
Lemma remove_fold l p :
  (∀ i, i ∈ l → is_Some (ops p !! i)) →
  ∃ p', foldM remove_op tt l p = (Ret tt, p') ∧ ops p' = ops p ∧ (pending_ok p → pending_ok p') ∧
    (∀ i op k, i ∈ l → ops p !! i = Some op → k ∈ ids op → respWait p' !! k = None) ∧
    (∀ k, (∀ i op, i ∈ l → ops p !! i = Some op → k ∉ ids op) → respWait p' !! k = respWait p !! k) ∧
    (∀ k, respWait p !! k = None → respWait p' !! k = None).
Proof.
  revert p. induction l as [|i l IH]; intros p Hl.
  { exists p. split_and!; try done. intros i op k Hi. by apply not_elem_of_nil in Hi. }
  destruct (Hl i) as [op Hop]; [by left|]. cbn [foldM].
  assert (E : remove_op tt i p = (Ret tt, removeRequestOp op p)).
  { unfold remove_op. by rewrite (bind_eq _ _ _ _ _ (the_op_eq p i op Hop)). }
  rewrite (bind_eq _ _ _ _ _ E).
  destruct (IH (removeRequestOp op p)) as (p' & E' & Ho & Hok & Hin & Hout & Hn).
  { intros j Hj. apply Hl. by right. }
  exists p'. split_and!; [done|done|by intros; apply Hok, remove_ok|..].
  - intros j opj k Hj Hopj Hk. apply elem_of_cons in Hj as [->|Hj]; [|by eapply Hin].
    assert (opj = op) as -> by congruence. apply Hn. rewrite remove_lookup. by rewrite decide_True.
  - intros k Hk. rewrite Hout.
    + rewrite remove_lookup, decide_False; [done|]. apply (Hk i); [by left|done].
    + intros j opj Hj. apply Hk. by right.
  - intros k Hk. apply Hn. rewrite remove_lookup. by case_decide.
Qed.

(** ** Properties *)


(** A batch of two calls and a call wait; the batch and the call are answered
    by one response each. *)
Definition two_waiting : pending :=
  {| ops := <[0%nat := Op ["1"; "2"] None [] false None false]> {[1%nat := Op ["3"] None [] false None false]};
     subs := ∅; events := []; respWait := <["1" := 0%nat]> (<["2" := 0%nat]> {["3" := 1%nat]});
     clientSubs := ∅ |}.

Definition answer (id : string) : jsonrpcMessage :=
  Msg "2.0" (Some (JNum id)) "" None None (Some JNull).

Lemma two_waiting_ok : pending_ok two_waiting.
Proof.
  split.
  - intros k i. unfold two_waiting, respWait, ops. rewrite !lookup_insert_Some, lookup_singleton_Some.
    intros [[<- <-]|[_ [[<- <-]|[_ [<- <-]]]]]; eexists; (split; [reflexivity|]); split; [set_solver|done|set_solver|done|set_solver|done].
  - intros i op. unfold two_waiting, ops. rewrite lookup_insert_Some, lookup_singleton_Some.
    by intros [[<- <-]|[_ [<- <-]]].
  - intros i j op op'. unfold two_waiting, ops. rewrite !lookup_insert_Some, !lookup_singleton_Some.
    intros [[<- <-]|[_ [<- <-]]] [[<- <-]|[_ [<- <-]]] Hne; set_solver.
Defined.

