(* ===== verification/RpcDispatch.v ===== *)
(** * Package rpc, the client's dispatch loop (src/rpc/client.go)

    The goroutine that owns the pending requests ([dispatch]), the callers that
    send ([send], [write], [reconnect]) and wait ([wait]), and the connection
    below, as a step relation: a step is one communication of the loop or one
    action of a caller, so every interleaving is a run. *)

From S2P Require Import Prelude Strconv GoJson GoValue RpcErrors RpcJson RpcPending.

(** Where the goroutine of a call is. *)
Inductive result :=
| Answered (batch : list jsonrpcMessage) (err : option op_error)
| Cancelled (err : option op_error)         (* the channel was closed *)
| SendFailed (e : string)                   (* writing failed *)
| SendQuit                                  (* ErrClientQuit while reconnecting *)
| Sent                                      (* a notification *)
| TimedOut.

Inductive phase :=
| Writing (retry : bool)                    (* holds the write lock *)
| Waiting                                   (* in [wait] *)
| Done (r : result).

(** The state of the client.  A connection is a number; one that was closed by
    the loop stays closed and cannot be written. *)
Record client := {
  pend : pending;                    (* the handler of the current connection *)
  conn : nat;
  next_conn : nat;
  closed_conns : gset nat;
  reading : bool;
  lastOp : option nat;
  locked : bool;                     (* reqInitLock is nil *)
  reqSent : option (option string);  (* the buffer of the channel *)
  writeConn : option nat;
  quit : bool;                       (* dispatch has returned *)
  phases : gmap nat phase;
  notify : gset nat;                 (* calls of Notify: nobody waits *)
  raced : gset nat                   (* ghost: written, but the connection was lost
                                        before the loop heard of it *)
}.

Definition set_pend (p : pending) (c : client) : client :=
  {| pend := p; conn := conn c; next_conn := next_conn c; closed_conns := closed_conns c;
     reading := reading c; lastOp := lastOp c; locked := locked c; reqSent := reqSent c;
     writeConn := writeConn c; quit := quit c; phases := phases c; notify := notify c;
     raced := raced c |}.

Definition set_phase (i : nat) (ph : phase) (c : client) : client :=
  {| pend := pend c; conn := conn c; next_conn := next_conn c; closed_conns := closed_conns c;
     reading := reading c; lastOp := lastOp c; locked := locked c; reqSent := reqSent c;
     writeConn := writeConn c; quit := quit c; phases := <[i := ph]> (phases c);
     notify := notify c; raced := raced c |}.

Definition set_lock (op : option nat) (l : bool) (c : client) : client :=
  {| pend := pend c; conn := conn c; next_conn := next_conn c; closed_conns := closed_conns c;
     reading := reading c; lastOp := op; locked := l; reqSent := reqSent c;
     writeConn := writeConn c; quit := quit c; phases := phases c; notify := notify c;
     raced := raced c |}.

Definition set_sent (s : option (option string)) (c : client) : client :=
  {| pend := pend c; conn := conn c; next_conn := next_conn c; closed_conns := closed_conns c;
     reading := reading c; lastOp := lastOp c; locked := locked c; reqSent := s;
     writeConn := writeConn c; quit := quit c; phases := phases c; notify := notify c;
     raced := raced c |}.

Definition set_writeConn (w : option nat) (c : client) : client :=
  {| pend := pend c; conn := conn c; next_conn := next_conn c; closed_conns := closed_conns c;
     reading := reading c; lastOp := lastOp c; locked := locked c; reqSent := reqSent c;
     writeConn := w; quit := quit c; phases := phases c; notify := notify c; raced := raced c |}.

(** A new operation in the store, with its kind. *)
Definition new_op (i : nat) (op : requestOp) (is_notify : bool) (c : client) : client :=
  let c := set_pend (set_ops <[i := op]> (pend c)) c in
  {| pend := pend c; conn := conn c; next_conn := next_conn c; closed_conns := closed_conns c;
     reading := reading c; lastOp := lastOp c; locked := locked c; reqSent := reqSent c;
     writeConn := writeConn c; quit := quit c; phases := phases c;
     notify := if is_notify then {[i]} ∪ notify c else notify c; raced := raced c |}.

(** The loop loses its connection: closed, no longer read. *)
Definition lose_conn (p : pending) (c : client) : client :=
  {| pend := p; conn := conn c; next_conn := next_conn c;
     closed_conns := {[conn c]} ∪ closed_conns c; reading := false; lastOp := lastOp c;
     locked := locked c; reqSent := reqSent c; writeConn := writeConn c; quit := quit c;
     phases := phases c; notify := notify c;
     raced := match lastOp c, reqSent c with
              | Some i, Some None => {[i]} ∪ raced c
              | _, _ => raced c
              end |}.

(** A new handler for the connection [k]: nothing is pending on it. *)
Definition new_conn (k : nat) (c : client) : client :=
  {| pend := {| ops := ops (pend c); subs := subs (pend c); events := events (pend c);
                respWait := ∅; clientSubs := ∅ |};
     conn := k; next_conn := S k; closed_conns := closed_conns c; reading := true;
     lastOp := lastOp c; locked := locked c; reqSent := reqSent c; writeConn := Some k;
     quit := quit c; phases := phases c; notify := notify c; raced := raced c |}.

Definition set_quit (p : pending) (c : client) : client :=
  {| pend := p; conn := conn c; next_conn := next_conn c;
     closed_conns := {[conn c]} ∪ closed_conns c;
     reading := reading c; lastOp := lastOp c; locked := locked c; reqSent := reqSent c;
     writeConn := writeConn c; quit := true; phases := phases c; notify := notify c;
     raced := raced c |}.

Section dispatch.
Context `{!RangeOrder}.
Context (batchItemLimit : Z).

(** ** The cases of the loop

    Each runs a part of the handler; it returns what the handler's run gives,
    a panic included. *)

Definition on_pending (m : GoM pending unit) (k : pending → client → client) (c : client)
    : outcome client :=
  match m (pend c) with
  | (Ret _, p) => Ret (k p c)
  | (Panic w, _) => Panic w
  end.

(** [case op := <-reqInitLock] *)
Definition on_reqInit (i : nat) (op : requestOp) (c : client) : client :=
  set_lock (Some i) true (set_pend (addRequestOp i op (pend c)) c).

(** [case op := <-c.readOp] *)
Definition on_readOp (batch : bool) (msgs : list jsonrpcMessage) (c : client) : outcome client :=
  on_pending (_ ← incoming batchItemLimit batch msgs; mret tt) set_pend c.

(** [case err := <-c.readErr] *)
Definition on_readErr (e : string) (c : client) : outcome client :=
  on_pending (cancelAllRequests (ErrRead e) (lastOp c)) lose_conn c.

(** [case newcodec := <-c.reconnected]; [k] is the new connection. *)
Definition on_reconnected (k : nat) (c : client) : outcome client :=
  c ← (if reading c
       then on_pending (cancelAllRequests errClientReconnected (lastOp c)) lose_conn c
       else Ret c);
  let c := new_conn k c in
  match lastOp c with
  | None => Panic (NilDeref "lastOp")
  | Some i =>
      match ops (pend c) !! i with
      | Some op => Ret (set_pend (addRequestOp i op (pend c)) c)
      | None => Panic (NilDeref "op")
      end
  end.

(** [case err := <-c.reqSent] *)
Definition on_reqSent (err : option string) (c : client) : outcome client :=
  c ← match err with
      | None => Ret c
      | Some _ =>
          match lastOp c with
          | None => Panic (NilDeref "lastOp")
          | Some i => on_pending (remove_op tt i) set_pend c
          end
      end;
  Ret (set_sent None (set_lock None false c)).

(** [case op := <-c.reqTimeout] *)
Definition on_reqTimeout (i : nat) (c : client) : outcome client :=
  on_pending (remove_op tt i) set_pend c.

(** [case <-c.close], and the deferred function. *)
Definition on_close (c : client) : outcome client :=
  if reading c then on_pending (cancelAllRequests ErrClientQuit None) set_quit c
  else Ret (set_quit (pend c) c).

(** ** Steps *)

(** A fresh operation; the ids of requests are not reused (the counter of
    2^32 ids has not come round to a request that is still known). *)
Definition fresh_op (i : nat) (op : requestOp) (c : client) : Prop :=
  ops (pend c) !! i = None ∧
  (∀ j op', ops (pend c) !! j = Some op' → ids op ## ids op') ∧ NoDup (ids op) ∧
  op_err op = None ∧ resp op = [] ∧ resp_closed op = false ∧ hadResponse op = false ∧
  (∀ s j op', op_sub op = Some s → ops (pend c) !! j = Some op' → op_sub op' ≠ Some s).

(** What the caller does when its message is written. *)
Definition after_write (i : nat) (c : client) : phase :=
  if decide (i ∈ notify c) then Done Sent else Waiting.

(** The loop handles a case; [r] is its outcome. *)
Inductive handles : client → outcome client → Prop :=
| h_init i op is_notify c :
    quit c = false → locked c = false → fresh_op i op c → (is_notify = true → ids op = []) →
    handles c (Ret (set_phase i (Writing false) (on_reqInit i op (new_op i op is_notify c))))
| h_read batch msgs c :
    quit c = false → reading c = true → (batch = false → msgs ≠ []) →
    handles c (on_readOp batch msgs c)
| h_readErr e c :
    quit c = false → reading c = true → handles c (on_readErr e c)
| h_reconnected i retry c :
    quit c = false → phases c !! i = Some (Writing retry) → writeConn c = None →
    handles c (on_reconnected (next_conn c) c)
| h_sent err c :
    quit c = false → reqSent c = Some err → handles c (on_reqSent err c)
| h_timeout i c :
    quit c = false → phases c !! i = Some Waiting →
    handles c (c' ← on_reqTimeout i c; Ret (set_phase i (Done TimedOut) c'))
| h_close c :
    quit c = false → handles c (on_close c).

(** The callers. *)
Inductive acts : client → client → Prop :=
| a_write i retry k c :
    phases c !! i = Some (Writing retry) → writeConn c = Some k → k ∉ closed_conns c →
    acts c (set_phase i (after_write i c) (set_sent (Some None) c))
| a_write_fails i k c :
    phases c !! i = Some (Writing false) → writeConn c = Some k →
    acts c (set_phase i (Writing true) (set_writeConn None c))
| a_retry_fails i k e c :
    phases c !! i = Some (Writing true) → writeConn c = Some k →
    acts c (set_phase i (Done (SendFailed e)) (set_sent (Some (Some e)) (set_writeConn None c)))
| a_dial_fails i retry e c :
    phases c !! i = Some (Writing retry) → writeConn c = None →
    acts c (set_phase i (Done (SendFailed e)) (set_sent (Some (Some e)) c))
| a_quit i retry c :
    phases c !! i = Some (Writing retry) → writeConn c = None → quit c = true →
    acts c (set_phase i (Done SendQuit) (set_sent (Some (Some "client is closed")) c))
| a_receive i op batch rest c :
    phases c !! i = Some Waiting → ops (pend c) !! i = Some op → resp op = batch :: rest →
    acts c (set_phase i (Done (Answered batch (op_err op)))
      (set_pend (set_ops <[i := Op (ids op) (op_err op) rest (resp_closed op) (op_sub op)
                                   (hadResponse op)]> (pend c)) c))
| a_cancelled i op c :
    phases c !! i = Some Waiting → ops (pend c) !! i = Some op → resp op = [] →
    resp_closed op = true → acts c (set_phase i (Done (Cancelled (op_err op))) c)
| a_timeout i c :
    phases c !! i = Some Waiting → quit c = true → acts c (set_phase i (Done TimedOut) c).

Inductive step : client → client → Prop :=
| s_handles c c' : handles c (Ret c') → step c c'
| s_acts c c' : acts c c' → step c c'.

(** The client that [newClient] makes: connection 0 is up. *)
Definition initClient : client :=
  {| pend := {| ops := ∅; subs := ∅; events := []; respWait := ∅; clientSubs := ∅ |};
     conn := 0; next_conn := 1; closed_conns := ∅; reading := true; lastOp := None;
     locked := false; reqSent := None; writeConn := Some 0%nat; quit := false; phases := ∅;
     notify := ∅; raced := ∅ |}.

Definition reachable (c : client) : Prop := rtc step initClient c.
End dispatch.

(** * Lemmas *)

(** ** The invariant *)

(** A call that nobody waits for an answer of: nothing identifies it. *)
Definition anonymous (op : requestOp) : Prop := ids op = [].

(** The loop will answer the operation. *)
Definition served (c : client) (i : nat) (op : requestOp) : Prop :=
  settled op ∨ registered (pend c) i op.

Record inv (c : client) : Prop := {
  inv_pend : pending_ok (pend c);
  inv_last : ∀ i, lastOp c = Some i → quit c = false →
    locked c = true ∧ ∃ op, ops (pend c) !! i = Some op ∧ resp_closed op = false;
  inv_known : ∀ i ph, phases c !! i = Some ph → is_Some (ops (pend c) !! i);
  inv_writing : ∀ i r, phases c !! i = Some (Writing r) → quit c = false →
    lastOp c = Some i ∧ reqSent c = None;
  inv_sent : ∀ e, reqSent c = Some e → quit c = false →
    ∃ i, lastOp c = Some i ∧ (e ≠ None → ∃ r, phases c !! i = Some (Done r));
  inv_lastwait : ∀ i, lastOp c = Some i → phases c !! i = Some Waiting → quit c = false →
    reqSent c = Some None;
  inv_conn : ∀ k, writeConn c = Some k → k = conn c;
  inv_closed : reading c = false ∨ quit c = true → conn c ∈ closed_conns c;
  inv_had : ∀ i op, ops (pend c) !! i = Some op → hadResponse op = true →
    resp op ≠ [] ∨ ∃ r, phases c !! i = Some (Done r);
  inv_reg : ∀ i r op, phases c !! i = Some (Writing r) → ops (pend c) !! i = Some op →
    quit c = false → reading c = true → served c i op;
  inv_wait : ∀ i op, phases c !! i = Some Waiting → ops (pend c) !! i = Some op →
    i ∈ raced c ∨ anonymous op ∨ settled op ∨
    (quit c = false ∧ reading c = true ∧ registered (pend c) i op)
}.

Section inv_steps.
Context `{!RangeOrder}.
Context (batchItemLimit : Z).

Lemma dispatch_inv_init : inv initClient.
Proof.
  split; try done.
  - intros k E. simpl in E. by simplify_eq.
  - by intros [|].
Qed.

(** What stays true of an operation when messages are handled. *)
Lemma settled_after p p' i op op' :
  pending_ok p → ops p !! i = Some op → op_after p p' i op op' → settled op → settled op'.
Proof.
  intros Hok Hop A [Hr|Hc]; [left|right; by rewrite (oa_closed _ _ _ _ _ A)].
  destruct (hadResponse op) eqn:Hh; [|by rewrite (po_resp _ Hok i op Hop Hh) in Hr].
  by destruct (oa_had _ _ _ _ _ A Hh) as [_ ->].
Qed.

Lemma served_after p p' i op op' :
  pending_ok p → ops p !! i = Some op → op_after p p' i op op' →
  (hadResponse op = true → resp op ≠ []) →
  settled op ∨ registered p i op → settled op' ∨ registered p' i op'.
Proof.
  intros Hok Hop A Hh [Hs|Hreg]; [left; by eapply settled_after|].
  destruct (oa_reg _ _ _ _ _ A) as [Hh'|Hk].
  - left; left. destruct (hadResponse op) eqn:E; [|exact (oa_new _ _ _ _ _ A E Hh')].
    destruct (oa_had _ _ _ _ _ A E) as [_ ->]. by apply Hh.
  - right. intros id Hid. apply Hk, Hreg. by rewrite <-(oa_ids _ _ _ _ _ A).
Qed.

Lemma inv_set_pend c p' : inv c → pending_after (pend c) p' → inv (set_pend p' c).
Proof.
  intros I A. destruct (I) as [Hp Hl Hk Hw Hs Hlw Hc Hcl Hh Hr Hwt].
  assert (Hop : ∀ i op', ops p' !! i = Some op' → ∃ op, ops (pend c) !! i = Some op ∧
    op_after (pend c) p' i op op').
  { intros i op' Hi. destruct (pa_new _ _ A i op' Hi) as [op Hop].
    destruct (pa_ops _ _ A i op Hop) as (op2 & H2 & A2). exists op. by simplify_eq. }
  assert (Hans : ∀ i op, ops (pend c) !! i = Some op → (∀ r, phases c !! i ≠ Some (Done r)) →
    hadResponse op = true → resp op ≠ []).
  { intros i op Hi Hd Ht. destruct (Hh i op Hi Ht) as [?|[r ?]]; [done|by destruct (Hd r)]. }
  split; simpl; try done.
  - exact (pa_ok _ _ A Hp).
  - intros i Hi Hq. destruct (Hl i Hi Hq) as (? & op & Hiop & Hcl'). split; [done|].
    destruct (pa_ops _ _ A i op Hiop) as (op' & Hop' & A'). exists op'. split; [done|].
    by rewrite (oa_closed _ _ _ _ _ A').
  - intros i ph Hi. destruct (Hk i ph Hi) as [op Hiop].
    destruct (pa_ops _ _ A i op Hiop) as (op' & Hop' & _). by exists op'.
  - intros i op' Hi Ht. destruct (Hop i op' Hi) as (op & Hiop & A').
    destruct (hadResponse op) eqn:E; [|left; exact (oa_new _ _ _ _ _ A' E Ht)].
    destruct (oa_had _ _ _ _ _ A' E) as [_ ->]. by apply Hh.
  - intros i r op' Hi Hiop' Hq Hrd. destruct (Hop i op' Hiop') as (op & Hiop & A').
    unfold served. simpl. eapply served_after; [exact Hp|exact Hiop|exact A'| |by eapply Hr].
    apply (Hans i); [done|]. intros r'. congruence.
  - intros i op' Hi Hiop'. destruct (Hop i op' Hiop') as (op & Hiop & A').
    destruct (Hwt i op Hi Hiop) as [?|[?|[Hset|(Hq & Hrd & Hreg)]]]; [by left| | |].
    + right; left. unfold anonymous. by rewrite (oa_ids _ _ _ _ _ A').
    + right; right; left. by eapply settled_after.
    + destruct (served_after _ _ i op op' Hp Hiop A') as [?|?]; [|by right|naive_solver..].
      apply (Hans i); [done|]. intros r. congruence.
Qed.
Lemma registered_add p i op : registered (addRequestOp i op p) i op.
Proof. intros id Hid. rewrite add_lookup. by rewrite decide_True. Qed.

(** ** The cases of the loop, and the invariant *)

Definition good (r : outcome client) : Prop := ∃ c', r = Ret c' ∧ inv c'.

Lemma init_good i op is_notify c :
  inv c → quit c = false → locked c = false → fresh_op i op c →
  good (Ret (set_phase i (Writing false) (on_reqInit i op (new_op i op is_notify c)))).
Proof.
  intros [Hp Hl Hk Hw Hs Hlw Hc Hcl Hh Hr Hwt] Hq Hlock (Hnone & Hdisj & _ & _ & Hresp & Hrc & Hhad & _).
  assert (Hlast : lastOp c = None).
  { destruct (lastOp c) as [j|] eqn:E; [|done]. destruct (Hl j eq_refl Hq). congruence. }
  assert (Hsent : reqSent c = None).
  { destruct (reqSent c) as [e|] eqn:E; [|done]. destruct (Hs e eq_refl Hq) as (j & Hj & _). congruence. }
  assert (Hph : phases c !! i = None).
  { destruct (phases c !! i) as [ph|] eqn:E; [|done]. destruct (Hk i ph E) as [? Ho]. congruence. }
  assert (Hnew : ∀ p id, respWait (addRequestOp i op (set_ops p (pend c))) !! id =
    if decide (id ∈ ids op) then Some i else respWait (pend c) !! id)
    by (intros; by rewrite add_lookup).
  eexists. split; [done|]. split; simpl.
  - destruct Hp as [Hpw Hpr Hpd]. split; simpl.
    + intros k j. change (foldl _ _ _) with (respWait (addRequestOp i op (set_ops <[i := op]> (pend c)))).
      rewrite Hnew. case_decide as Hin.
      * intros [= <-]. exists op. by rewrite lookup_insert_eq.
      * intros Hkj. destruct (Hpw k j Hkj) as (opj & Hj & ?).
        exists opj. rewrite lookup_insert_ne by congruence. done.
    + intros j opj [[-> ->]|[_ Hj]]%lookup_insert_Some; [done|by eapply Hpr].
    + intros j k opj opk [[<- <-]|[_ Hj]]%lookup_insert_Some [[<- <-]|[_ Hk']]%lookup_insert_Some Hne;
        [done|by eapply Hdisj| |by eapply Hpd].
      intros x Hx1 Hx2. by apply (Hdisj j opj Hj x).
  - intros j [= <-] _. split; [done|]. exists op. by rewrite lookup_insert_eq.
  - intros j ph [[-> _]|[_ Hj]]%lookup_insert_Some.
    + exists op. apply lookup_insert_eq.
    + destruct (Hk j ph Hj) as [opj Hopj]. rewrite lookup_insert_ne by congruence. by exists opj.
  - intros j r [[-> _]|[Hne Hj]]%lookup_insert_Some _; [done|].
    destruct (Hw j r Hj Hq). congruence.
  - rewrite Hsent. done.
  - intros j [= <-]. by rewrite lookup_insert_eq.
  - exact Hc.
  - exact Hcl.
  - intros j opj [[<- <-]|[Hne Hj]]%lookup_insert_Some Ht; [congruence|].
    rewrite lookup_insert_ne by done. by apply Hh.
  - intros j r opj [[<- _]|[Hne Hj]]%lookup_insert_Some Hopj _ _.
    + rewrite lookup_insert_eq in Hopj. simplify_eq. right. apply registered_add.
    + destruct (Hw j r Hj Hq). congruence.
  - intros j opj [[<- ?]|[Hne Hj]]%lookup_insert_Some Hopj; [done|].
    rewrite lookup_insert_ne in Hopj by done.
    destruct (Hwt j opj Hj Hopj) as [?|[?|[?|(? & ? & Hreg)]]]; [by left|by right; left|by right; right; left|].
    right; right; right. split_and!; [done..|]. intros id Hid.
    rewrite Hnew, decide_False; [by apply Hreg|]. intros Hin. by apply (Hdisj j opj Hopj id).
Qed.

Lemma read_good batch msgs c :
  inv c → (batch = false → msgs ≠ []) → good (on_readOp batchItemLimit batch msgs c).
Proof.
  intros I Hm. unfold on_readOp, on_pending.
  destruct (incoming_advances batchItemLimit batch msgs (pend c) Hm (inv_pend _ I)) as (r & p' & E & A & _).
  rewrite (bind_eq _ _ _ _ _ E). eexists. split; [done|]. by apply inv_set_pend.
Qed.
(** The end of a connection, for the operations. *)
Record ended (err : op_error) (inflight : option nat) (p p' : pending) (f : nat → requestOp → requestOp)
    : Prop := {
  en_ops : ∀ j, ops p' !! j = f j <$> ops p !! j;
  en_wait : respWait p' = ∅;
  en_ok : pending_ok p';
  en_cases : ∀ j op, f j op = op ∨ f j op = closed_by err op;
  en_inflight : ∀ j op, inflight = Some j → f j op = op;
  en_closed : ∀ j op id, inflight ≠ Some j → respWait p !! id = Some j → f j op = closed_by err op
}.

Lemma cancel_ended err inflight p :
  pending_ok p → ∃ p' f, cancelAllRequests err inflight p = (Ret tt, p') ∧ ended err inflight p p' f.
Proof.
  intros Hok. destruct (cancelAllRequests_spec err inflight p Hok) as (p' & E & Hw & _ & _ & _ & Ho).
  eexists p', _. split; [exact E|]. split; [exact Ho|done| | | |].
  - apply (cancel_ok p p' _ Hok Ho Hw). intros j op. unfold cancelled. by case_decide.
  - intros j op. unfold cancelled. case_decide; auto.
  - intros j op ->. apply cancelled_no. right. by left.
  - intros j op id Hne Hid. apply cancelled_yes.
    + apply list_elem_of_fmap. exists (id, j). split; [done|]. by apply range_order_elem.
    + destruct inflight as [k|]; [|apply not_elem_of_nil]. intros Hj%list_elem_of_singleton. congruence.
Qed.

(** Whoever waits with a registered request gets its end. *)
Lemma ended_wait err inflight p p' f i op :
  ended err inflight p p' f → ops p !! i = Some op → inflight ≠ Some i → ids op ≠ [] →
  registered p i op → settled (f i op).
Proof.
  intros En Hop Hne Hids Hreg. destruct (ids op) as [|id l] eqn:E; [done|].
  rewrite (en_closed _ _ _ _ _ En i op id Hne); [by right|]. apply Hreg. rewrite E. by left.
Qed.

Lemma f_keeps err inflight p p' f j op :
  ended err inflight p p' f →
  ids (f j op) = ids op ∧ resp (f j op) = resp op ∧ hadResponse (f j op) = hadResponse op ∧
  (settled op → settled (f j op)).
Proof.
  intros En. destruct (en_cases _ _ _ _ _ En j op) as [->| ->]; split_and!; try done.
  intros _. by right.
Qed.

Lemma readErr_good e c :
  inv c → quit c = false → reading c = true → good (on_readErr e c).
Proof.
  intros [Hp Hl Hk Hw Hs Hlw Hc Hcl Hh Hr Hwt] Hq Hrd. unfold on_readErr, on_pending.
  destruct (cancel_ended (ErrRead e) (lastOp c) (pend c) Hp) as (p' & f & -> & En).
  eexists. split; [done|]. split; simpl; try done.
  - by apply (en_ok _ _ _ _ _ En).
  - intros i Hi _. destruct (Hl i Hi Hq) as (Hlk & op & Hop & Hop'). split; [done|].
    exists op. rewrite (en_ops _ _ _ _ _ En), Hop. simpl.
    by rewrite (en_inflight _ _ _ _ _ En i op Hi).
  - intros i ph Hi. destruct (Hk i ph Hi) as [op Hop]. rewrite (en_ops _ _ _ _ _ En), Hop. by eexists.
  - set_solver.
  - intros i op'. rewrite (en_ops _ _ _ _ _ En), fmap_Some. intros (op & Hop & ->).
    destruct (f_keeps _ _ _ _ _ i op En) as (_ & -> & -> & _). by apply Hh.
  - intros i op' Hi. rewrite (en_ops _ _ _ _ _ En), fmap_Some. intros (op & Hop & ->).
    destruct (f_keeps _ _ _ _ _ i op En) as (Hids & _ & _ & Hset). unfold anonymous. rewrite Hids.
    destruct (Hwt i op Hi Hop) as [Hrc|[?|[?|(_ & _ & Hreg)]]]; [|by right; left|by right; right; left; auto|].
    + left. destruct (lastOp c), (reqSent c) as [[]|]; set_solver.
    + destruct (decide (lastOp c = Some i)) as [Hi'|Hne].
      * left. rewrite Hi', (Hlw i Hi' Hi Hq). set_solver.
      * destruct (decide (ids op = [])); [by right; left|]. right; right; left.
        by eapply ended_wait.
Qed.

Lemma close_good c : inv c → quit c = false → good (on_close c).
Proof.
  intros [Hp Hl Hk Hw Hs Hlw Hc Hcl Hh Hr Hwt] Hq. unfold on_close, on_pending.
  destruct (reading c) eqn:Hrd.
  - destruct (cancel_ended ErrClientQuit None (pend c) Hp) as (p' & f & -> & En).
    eexists. split; [done|]. split; simpl; try done.
    + by apply (en_ok _ _ _ _ _ En).
    + intros i ph Hi. destruct (Hk i ph Hi) as [op Hop]. rewrite (en_ops _ _ _ _ _ En), Hop. by eexists.
    + set_solver.
    + intros i op'. rewrite (en_ops _ _ _ _ _ En), fmap_Some. intros (op & Hop & ->).
      destruct (f_keeps _ _ _ _ _ i op En) as (_ & -> & -> & _). by apply Hh.
    + intros i op' Hi. rewrite (en_ops _ _ _ _ _ En), fmap_Some. intros (op & Hop & ->).
      destruct (f_keeps _ _ _ _ _ i op En) as (Hids & _ & _ & Hset). unfold anonymous. rewrite Hids.
      destruct (Hwt i op Hi Hop) as [?|[?|[?|(_ & _ & Hreg)]]];
        [by left|by right; left|by right; right; left; auto|].
      destruct (decide (ids op = [])); [by right; left|]. right; right; left. by eapply ended_wait.
  - eexists. split; [done|]. split; simpl; try done; [set_solver|].
    intros i op Hi Hop. destruct (Hwt i op Hi Hop) as [?|[?|[?|(_ & ? & _)]]]; [by left|by right; left| |done].
    by right; right; left.
Qed.
Lemma remove_op_eq i op p :
  ops p !! i = Some op → remove_op tt i p = (Ret tt, removeRequestOp op p).
Proof. intros Hop. unfold remove_op. by rewrite (bind_eq _ _ _ _ _ (the_op_eq p i op Hop)). Qed.

Lemma registered_remove p i op j opj :
  pending_ok p → ops p !! i = Some op → j ≠ i → registered p j opj →
  registered (removeRequestOp op p) j opj.
Proof. intros Hok Hop Hne Hreg id Hid. eapply remove_other; [done|done|by apply Hreg|done]. Qed.

Lemma timeout_good i c :
  inv c → quit c = false → phases c !! i = Some Waiting →
  good (c' ← on_reqTimeout i c; Ret (set_phase i (Done TimedOut) c')).
Proof.
  intros [Hp Hl Hk Hw Hs Hlw Hc Hcl Hh Hr Hwt] Hq Hi. unfold on_reqTimeout, on_pending.
  destruct (Hk i _ Hi) as [op Hop]. rewrite (remove_op_eq i op _ Hop).
  eexists. split; [done|]. split; simpl; try done.
  - by apply remove_ok.
  - intros j ph [[<- _]|[_ Hj]]%lookup_insert_Some; [by exists op|by eapply Hk].
  - intros j r [[_ ?]|[_ Hj]]%lookup_insert_Some; [done|by eapply Hw].
  - intros e He Hq'. destruct (Hs e He Hq') as (j & Hj & Hd). exists j. split; [done|]. intros Hne.
    destruct (Hd Hne) as [r Hjr]. exists r. rewrite lookup_insert_ne; [done|]. intros <-. congruence.
  - intros j Hj [[_ ?]|[_ Hjw]]%lookup_insert_Some; [done|by eapply Hlw].
  - intros j opj Hj Ht. destruct (decide (j = i)) as [->|Hne].
    + right. exists TimedOut. apply lookup_insert_eq.
    + rewrite lookup_insert_ne by done. by apply Hh.
  - intros j r opj [[_ ?]|[Hne Hj]]%lookup_insert_Some Hopj Hq' Hrd; [done|].
    destruct (Hr j r opj Hj Hopj Hq' Hrd) as [?|?]; [by left|right]. by eapply registered_remove.
  - intros j opj [[_ ?]|[Hne Hj]]%lookup_insert_Some Hopj; [done|].
    destruct (Hwt j opj Hj Hopj) as [?|[?|[?|(? & ? & Hreg)]]]; [by left|by right; left|by right; right; left|].
    right; right; right. split_and!; [done..|]. by eapply registered_remove.
Qed.

Lemma sent_good e c : inv c → quit c = false → reqSent c = Some e → good (on_reqSent e c).
Proof.
  intros I Hq He. destruct (I) as [Hp Hl Hk Hw Hs Hlw Hc Hcl Hh Hr Hwt].
  destruct (Hs e He Hq) as (i & Hi & Hd). destruct (Hl i Hi Hq) as (_ & op & Hop & _).
  assert (Hnw : ∀ j r, phases c !! j ≠ Some (Writing r)).
  { intros j r Hj. destruct (Hw j r Hj Hq). congruence. }
  unfold on_reqSent. destruct e as [e|].
  - rewrite Hi. unfold on_pending. rewrite (remove_op_eq i op _ Hop).
    destruct (Hd ltac:(done)) as [r Hir]. eexists. split; [done|].
    split; simpl; try done.
    + by apply remove_ok.
    + intros j r' Hj. by destruct (Hnw j r').
    + intros j r' opj Hj. by destruct (Hnw j r').
    + intros j opj Hj Hopj.
      destruct (Hwt j opj Hj Hopj) as [?|[?|[?|(? & ? & Hreg)]]]; [by left|by right; left|by right; right; left|].
      right; right; right. split_and!; [done..|]. eapply registered_remove; [done..| |done]. congruence.
  - eexists. split; [done|]. split; simpl; try done.
    intros j r' Hj. by destruct (Hnw j r').
Qed.

(** The new handler knows the operation in flight and nothing else. *)
Lemma new_handler_ok p i op :
  pending_ok p → ops p !! i = Some op → resp_closed op = false →
  pending_ok (addRequestOp i op {| ops := ops p; subs := subs p; events := events p;
                                    respWait := ∅; clientSubs := ∅ |}).
Proof.
  intros [Hw Hr Hd] Hop Hcl. split; [|exact Hr|exact Hd].
  intros k j. rewrite add_lookup. case_decide as Hin; [|simpl; by rewrite lookup_empty].
  intros [= <-]. by exists op.
Qed.

Lemma reconnected_good i retry c :
  inv c → quit c = false → phases c !! i = Some (Writing retry) → good (on_reconnected (next_conn c) c).
Proof.
  intros [Hp Hl Hk Hw Hs Hlw Hc Hcl Hh Hr Hwt] Hq Hi.
  destruct (Hw i retry Hi Hq) as [Hlast Hsent]. destruct (Hl i Hlast Hq) as (Hlock & op & Hop & Hopc).
  assert (Hone : ∀ j r, phases c !! j = Some (Writing r) → j = i).
  { intros j r Hj. destruct (Hw j r Hj Hq). congruence. }
  unfold on_reconnected, on_pending. destruct (reading c) eqn:Hrd.
  - destruct (cancel_ended errClientReconnected (lastOp c) (pend c) Hp) as (p' & f & -> & En).
    assert (Hop' : ops p' !! i = Some op).
    { rewrite (en_ops _ _ _ _ _ En), Hop. simpl. by rewrite (en_inflight _ _ _ _ _ En i op Hlast). }
    simpl. rewrite Hlast, Hop'. eexists. split; [done|]. split; simpl; try done.
    + apply (new_handler_ok p' i op); [by apply (en_ok _ _ _ _ _ En)|done|done].
    + intros j Hj _. assert (j = i) as -> by congruence. split; [done|]. by exists op.
    + intros j ph Hj. destruct (Hk j ph Hj) as [opj Hopj]. rewrite (en_ops _ _ _ _ _ En), Hopj. by eexists.
    + by intros ? [= <-].
    + intros [?|?]; congruence.
    + intros j opj'. rewrite (en_ops _ _ _ _ _ En), fmap_Some. intros (opj & Hopj & ->).
      destruct (f_keeps _ _ _ _ _ j opj En) as (_ & -> & -> & _). by apply Hh.
    + intros j r opj Hj Hopj _ _. rewrite (Hone j r Hj) in *. assert (opj = op) as -> by congruence.
      right. apply registered_add.
    + intros j opj' Hj. rewrite (en_ops _ _ _ _ _ En), fmap_Some. intros (opj & Hopj & ->).
      destruct (f_keeps _ _ _ _ _ j opj En) as (Hids & _ & _ & Hset). unfold anonymous. rewrite Hids.
      destruct (Hwt j opj Hj Hopj) as [?|[?|[?|(_ & _ & Hreg)]]];
        [left; by rewrite Hlast, Hsent|by right; left|by right; right; left; auto|].
      destruct (decide (ids opj = [])); [by right; left|]. right; right; left.
      eapply ended_wait; [done..| |done|done]. congruence.
  - simpl. rewrite Hlast, Hop. eexists. split; [done|]. split; simpl; try done.
    + by apply new_handler_ok.
    + by intros ? [= <-].
    + intros [?|?]; congruence.
    + intros j r opj Hj Hopj _ _. rewrite (Hone j r Hj) in *. assert (opj = op) as -> by congruence.
      right. apply registered_add.
    + intros j opj Hj Hopj. destruct (Hwt j opj Hj Hopj) as [?|[?|[?|(_ & ? & _)]]];
        [by left|by right; left|by right; right; left|done].
Qed.
(** ** The callers, and the invariant *)

(** A caller that leaves the writing phase while it holds the lock. *)
Lemma inv_leave i retry ph e w c :
  inv c → phases c !! i = Some (Writing retry) → (∀ r, ph ≠ Writing r) → (ph = Waiting → e = None) →
  (e ≠ None → ∃ r, ph = Done r) → (∀ k, w = Some k → k = conn c) →
  (ph = Waiting → ∀ op, ops (pend c) !! i = Some op →
     anonymous op ∨ settled op ∨ (quit c = false ∧ reading c = true ∧ registered (pend c) i op)) →
  inv (set_phase i ph (set_sent (Some e) (set_writeConn w c))).
Proof.
  intros [Hp Hl Hk Hw Hs Hlw Hc Hcl Hh Hr Hwt] Hi Hph He Hd Hwc Hwait.
  split; simpl; try done.
  - intros j ph' [[<- _]|[_ Hj]]%lookup_insert_Some; by eapply Hk.
  - intros j r [[_ ?]|[Hne Hj]]%lookup_insert_Some Hq; [by destruct (Hph r)|].
    destruct (Hw i retry Hi Hq), (Hw j r Hj Hq). congruence.
  - intros e' [= <-] Hq. exists i. split; [by apply (Hw i retry Hi Hq)|]. intros Hne.
    destruct (Hd Hne) as [r ->]. exists r. apply lookup_insert_eq.
  - intros j Hj [[<- Hjw]|[Hne Hjw]]%lookup_insert_Some Hq; [by rewrite He|].
    destruct (Hw i retry Hi Hq); congruence.
  - intros j opj Hj Ht. destruct (Hh j opj Hj Ht) as [?|[r Hjd]]; [by left|right].
    exists r. rewrite lookup_insert_ne; [done|]. intros <-. congruence.
  - intros j r opj [[_ ?]|[Hne Hj]]%lookup_insert_Some Hopj Hq; [by destruct (Hph r)|].
    by eapply Hr.
  - intros j opj [[<- Hjw]|[Hne Hj]]%lookup_insert_Some Hopj; [right; by apply Hwait|by apply Hwt].
Qed.
Lemma inv_retry i c :
  inv c → phases c !! i = Some (Writing false) → inv (set_phase i (Writing true) (set_writeConn None c)).
Proof.
  intros [Hp Hl Hk Hw Hs Hlw Hc Hcl Hh Hr Hwt] Hi. split; simpl; try done.
  - intros j ph [[<- _]|[_ Hj]]%lookup_insert_Some; [exact (Hk i _ Hi)|exact (Hk j ph Hj)].
  - intros j r [[<- _]|[_ Hj]]%lookup_insert_Some; [exact (Hw i _ Hi)|exact (Hw j r Hj)].
  - intros e He Hq. destruct (Hw i false Hi Hq). congruence.
  - intros j Hj [[_ ?]|[_ Hjw]]%lookup_insert_Some; [done|exact (Hlw j Hj Hjw)].
  - intros j op Hj Ht. destruct (Hh j op Hj Ht) as [?|[r Hjd]]; [by left|right].
    exists r. rewrite lookup_insert_ne; [done|]. intros <-. congruence.
  - intros j r op [[<- _]|[_ Hj]]%lookup_insert_Some; [exact (Hr i false op Hi)|exact (Hr j r op Hj)].
  - intros j op [[_ ?]|[_ Hj]]%lookup_insert_Some; [done|exact (Hwt j op Hj)].
Qed.

(** A caller that stops waiting. *)
Lemma inv_stop i r op' c :
  inv c → phases c !! i = Some Waiting →
  (∀ op, ops (pend c) !! i = Some op →
     ids op' = ids op ∧ resp_closed op' = resp_closed op ∧ hadResponse op' = hadResponse op ∧
     (hadResponse op = false → resp op' = [])) →
  inv (set_phase i (Done r) (set_pend (set_ops <[i := op']> (pend c)) c)).
Proof.
  intros [Hp Hl Hk Hw Hs Hlw Hc Hcl Hh Hr Hwt] Hi Hop'.
  destruct (Hk i _ Hi) as [op Hop]. destruct (Hop' op Hop) as (Hids & Hcls & Hhd & Hrs).
  destruct (Hp) as [Hpw Hpr Hpd].
  split; simpl; try done.
  - split; simpl.
    + intros k j Hkj. destruct (Hpw k j Hkj) as (opj & Hj & Hin & Hclj).
      destruct (decide (j = i)) as [->|Hne].
      * assert (opj = op) as -> by congruence. exists op'. rewrite lookup_insert_eq.
        split_and!; [done|by rewrite Hids|congruence].
      * exists opj. by rewrite lookup_insert_ne.
    + intros j opj [[<- <-]|[_ Hj]]%lookup_insert_Some; [|exact (Hpr j opj Hj)]. rewrite Hhd. apply Hrs.
    + by apply (ids_insert _ i op op' Hop Hids).
  - intros j Hj Hq. destruct (Hl j Hj Hq) as (Hlk & opj & Hopj & Hclj). split; [done|].
    destruct (decide (j = i)) as [->|Hne].
    + exists op'. rewrite lookup_insert_eq. split; [done|congruence].
    + exists opj. by rewrite lookup_insert_ne.
  - intros j ph Hj. apply lookup_insert_is_Some'.
    apply lookup_insert_Some in Hj as [[<- _]|[_ Hj]]; [by left|right]. by eapply Hk.
  - intros j r' [[_ ?]|[_ Hj]]%lookup_insert_Some; [done|exact (Hw j r' Hj)].
  - intros e He Hq. destruct (Hs e He Hq) as (j & Hj & Hd). exists j. split; [done|]. intros Hne.
    destruct (Hd Hne) as [r' Hjr]. exists r'. rewrite lookup_insert_ne; [done|]. intros <-. congruence.
  - intros j Hj [[_ ?]|[_ Hjw]]%lookup_insert_Some; [done|exact (Hlw j Hj Hjw)].
  - intros j opj [[<- _]|[Hne Hj]]%lookup_insert_Some Ht.
    + right. exists r. apply lookup_insert_eq.
    + rewrite lookup_insert_ne by done. by apply Hh.
  - intros j r' opj [[_ ?]|[Hne Hj]]%lookup_insert_Some; [done|]. rewrite lookup_insert_ne by done.
    exact (Hr j r' opj Hj).
  - intros j opj [[_ ?]|[Hne Hj]]%lookup_insert_Some; [done|]. rewrite lookup_insert_ne by done.
    exact (Hwt j opj Hj).
Qed.

(** Stopping without touching the channel. *)
Lemma inv_stop_same i r c :
  inv c → phases c !! i = Some Waiting → inv (set_phase i (Done r) c).
Proof.
  intros I Hi. destruct (inv_known _ I i _ Hi) as [op Hop].
  replace (set_phase i (Done r) c)
    with (set_phase i (Done r) (set_pend (set_ops <[i := op]> (pend c)) c)).
  - apply inv_stop; [done|done|]. intros op2 Hop2. assert (op2 = op) as -> by congruence.
    split_and!; try done. by apply (po_resp _ (inv_pend _ I) i).
  - unfold set_phase, set_pend, set_ops. simpl. rewrite insert_id by done. by destruct (pend c), c.
Qed.

Lemma acts_inv c c' : inv c → acts c c' → inv c'.
Proof.
  intros I A. destruct A as [i retry k c Hi Hk Ho|i k c Hi Hk|i k e c Hi Hk|i retry e c Hi Hk|
    i retry c Hi Hk Hq|i op batch rest c Hi Hop Hr|i op c Hi Hop Hr Hcl|i c Hi Hq].
  - assert (Hopen : quit c = false ∧ reading c = true).
    { rewrite (inv_conn _ I k Hk) in Ho. pose proof (inv_closed _ I) as Hc.
      destruct (reading c), (quit c); naive_solver. }
    destruct Hopen as [Hq Hrd].
    apply (inv_leave i retry (after_write i c) None (writeConn c) c I Hi).
    + intros r. unfold after_write. by case_decide.
    + done.
    + done.
    + by apply (inv_conn _ I).
    + intros _ op Hop. right. destruct (inv_reg _ I i retry op Hi Hop Hq Hrd); auto.
  - by apply inv_retry.
  - apply (inv_leave i true (Done (SendFailed e)) (Some e) None c I Hi); try done. by eexists.
  - apply (inv_leave i retry (Done (SendFailed e)) (Some e) (writeConn c) c I Hi); try done.
    + by eexists.
    + by apply (inv_conn _ I).
  - apply (inv_leave i retry (Done SendQuit) (Some "client is closed") (writeConn c) c I Hi); try done.
    + by eexists.
    + by apply (inv_conn _ I).
  - apply inv_stop; [done|done|]. intros op2 Hop2. assert (op2 = op) as -> by congruence.
    split_and!; try done. intros Hf. rewrite (po_resp _ (inv_pend _ I) i op Hop Hf) in Hr. done.
  - by apply inv_stop_same.
  - by apply inv_stop_same.
Qed.

Lemma handles_good c r : inv c → handles batchItemLimit c r → good r.
Proof.
  intros I Hh. destruct Hh.
  - by apply init_good.
  - by apply read_good.
  - by apply readErr_good.
  - by eapply reconnected_good.
  - by apply sent_good.
  - by apply timeout_good.
  - by apply close_good.
Qed.

Lemma dispatch_step_inv c c' : inv c → step batchItemLimit c c' → inv c'.
Proof.
  intros I Hst. destruct Hst as [c c' Hs|c c' Hs]; [|by eapply acts_inv].
  by destruct (handles_good _ _ I Hs) as (c3 & [= ->] & ?).
Qed.

Lemma dispatch_inv c : reachable batchItemLimit c → inv c.
Proof.
  apply (rtc_ind_r inv initClient).
  - apply dispatch_inv_init.
  - intros c1 c2 _ Hs I. by eapply dispatch_step_inv.
Qed.
End inv_steps.

(** ** Calls that nothing will answer *)

Section lost.
Context `{!RangeOrder}.
Context (batchItemLimit : Z).

(** A call waits, and neither the handler knows it nor was its channel used. *)
Definition lost (i : nat) (c : client) : Prop :=
  phases c !! i = Some Waiting ∧ orphan (pend c) i.

Lemma cancel_orphan err inflight p i p' :
  pending_ok p → orphan p i → cancelAllRequests err inflight p = (Ret tt, p') → orphan p' i.
Proof.
  intros Hok [(op & Hop & Hr & Hcl) Hq] E.
  destruct (cancelAllRequests_spec err inflight p Hok) as (p2 & E2 & Hw & _ & _ & _ & Ho).
  assert (p2 = p') as -> by congruence. split; [|by intros k; rewrite Hw, lookup_empty].
  exists op. rewrite Ho, Hop. simpl. rewrite cancelled_no; [done|left].
  intros Hin. apply list_elem_of_fmap in Hin as ([k j] & -> & Hk).
  apply range_order_elem in Hk. by apply (Hq k).
Qed.

Lemma on_pending_orphan m k c c' i :
  on_pending m k c = Ret c' → (∀ p', m (pend c) = (Ret tt, p') → orphan p' i) →
  (∀ p, pend (k p c) = p) → orphan (pend c') i.
Proof.
  unfold on_pending. destruct (m (pend c)) as [[[]|w] p'] eqn:E; [|done].
  intros [= <-] Hm Hk. rewrite Hk. by apply Hm.
Qed.

Lemma on_pending_phases m k c c' :
  on_pending m k c = Ret c' → (∀ p, phases (k p c) = phases c) → phases c' = phases c.
Proof. unfold on_pending. destruct (m (pend c)) as [[[]|w] p']; [|done]. by intros [= <-] ->. Qed.

Lemma orphan_add i j op p : i ≠ j → orphan p i → orphan (addRequestOp j op p) i.
Proof.
  intros Hne [Ho Hq]. split; [exact Ho|]. intros k. rewrite add_lookup. case_decide; [congruence|apply Hq].
Qed.

Lemma orphan_new i c k : orphan (pend c) i → orphan (pend (new_conn k c)) i.
Proof. intros [Ho Hq]. split; [exact Ho|]. intros k'. simpl. by rewrite lookup_empty. Qed.

Lemma incoming_orphan batch msgs p p' i :
  pending_ok p → (batch = false → msgs ≠ []) → orphan p i →
  (_ ← incoming batchItemLimit batch msgs; mret tt) p = (Ret tt, p') → orphan p' i.
Proof.
  intros Hok Hm Ho. destruct (incoming_advances batchItemLimit batch msgs p Hm Hok) as (r & p2 & E & A & _).
  rewrite (bind_eq _ _ _ _ _ E). intros [= <-]. by apply (pa_orphan _ _ A).
Qed.

Lemma remove_op_orphan j p p' i : orphan p i → remove_op tt j p = (Ret tt, p') → orphan p' i.
Proof.
  intros Ho. unfold remove_op, the_op, gets, id, modify, mbind, GoM_bind.
  destruct (ops p !! j); [|done]. intros [= <-]. by apply remove_orphan.
Qed.

Lemma lost_other c c' i j ph :
  lost i c → j ≠ i → phases c' = phases c → orphan (pend c') i → lost i (set_phase j ph c').
Proof.
  intros [Hi _] Hne Hph Ho. split; [|exact Ho]. simpl. by rewrite lookup_insert_ne, Hph.
Qed.

Lemma on_reqSent_lost i c c' err : lost i c → on_reqSent err c = Ret c' → lost i c'.
Proof.
  intros [Hi Ho] E. unfold on_reqSent in E. destruct err as [e|]; [|by simplify_eq/=].
  destruct (lastOp c) as [j|]; [|done].
  destruct (on_pending (remove_op tt j) set_pend c) as [c1|] eqn:E1; [|done].
  injection E as <-. split; simpl.
  - by rewrite (on_pending_phases _ _ _ _ E1).
  - eapply on_pending_orphan; [exact E1| |done]. intros p'. by apply remove_op_orphan.
Qed.

Lemma on_reconnected_lost i j k c c' :
  inv c → lastOp c = Some j → j ≠ i → lost i c → on_reconnected k c = Ret c' → lost i c'.
Proof.
  intros I Hj Hne [Hi Ho] E. unfold on_reconnected in E. rewrite Hj in E.
  assert (Hstart : ∀ c1, phases c1 = phases c → lastOp c1 = Some j → orphan (pend c1) i →
    (let c := new_conn k c1 in
     match lastOp c with
     | None => Panic (NilDeref "lastOp")
     | Some i => match ops (pend c) !! i with
                 | Some op => Ret (set_pend (addRequestOp i op (pend c)) c)
                 | None => Panic (NilDeref "op")
                 end
     end) = Ret c' → lost i c').
  { intros c1 Hp Hl Ho1. simpl. rewrite Hl. destruct (ops (pend c1) !! j); [|done].
    intros [= <-]. split; simpl; [by rewrite Hp|]. apply orphan_add; [done|]. by apply (orphan_new i c1 k). }
  destruct (reading c); [|by apply (Hstart c)].
  destruct (on_pending _ lose_conn c) as [c1|] eqn:E1; [|done]. apply (Hstart c1).
  - by eapply on_pending_phases.
  - unfold on_pending in E1. destruct (cancelAllRequests _ _ _) as [[[]|] p']; [|done]. by injection E1 as <-.
  - eapply on_pending_orphan; [exact E1| |done]. intros p'. apply cancel_orphan; [apply I|done].
  - exact E.
Qed.

Lemma lost_step i c c' :
  inv c → lost i c → step batchItemLimit c c' → lost i c' ∨ phases c' !! i = Some (Done TimedOut).
Proof.
  intros I L Hst. pose proof (inv_pend _ I) as Hok. pose proof L as [Hi Ho].
  destruct Hst as [c c' Hs|c c' Hs].
  - remember (Ret c') as out eqn:Er.
    destruct Hs as [j op n c Hq Hlk (Hnew & _) Hn|b ms c Hq Hrd Hm|e c Hq Hrd|j r c Hq Hj Hw|
      e c Hq He|j c Hq Hj|c Hq].
    + left. injection Er as <-. destruct Ho as [(opi & Hopi & ?) Hk]. assert (j ≠ i) by congruence.
      apply (lost_other c); [done..|]. apply orphan_add; [done|]. split; [|exact Hk].
      exists opi. simpl. by rewrite lookup_insert_ne.
    + left. split.
      * by rewrite (on_pending_phases _ _ _ _ Er).
      * eapply on_pending_orphan; [exact Er| |done]. intros p'. by apply incoming_orphan.
    + left. split.
      * by rewrite (on_pending_phases _ _ _ _ Er).
      * eapply on_pending_orphan; [exact Er| |done]. intros p'. by apply cancel_orphan.
    + left. destruct (inv_writing _ I j r Hj Hq). eapply on_reconnected_lost; [done..| | |done]; [congruence|done].
    + left. by eapply on_reqSent_lost.
    + unfold on_reqTimeout in Er. destruct (on_pending _ set_pend c) as [c1|] eqn:E1; [|done].
      injection Er as <-. destruct (decide (j = i)) as [->|Hne]; [right; apply lookup_insert_eq|left].
      apply (lost_other c); [done|done|by eapply on_pending_phases|].
      eapply on_pending_orphan; [exact E1| |done]. intros p'. by apply remove_op_orphan.
    + left. unfold on_close in Er. destruct (reading c); [|by injection Er as <-]. split.
      * by rewrite (on_pending_phases _ _ _ _ Er).
      * eapply on_pending_orphan; [exact Er| |done]. intros p'. by apply cancel_orphan.
  - destruct Hs as [j retry k c Hj Hk Hop|j k c Hj Hk|j k e c Hj Hk|j retry e c Hj Hk|
      j retry c Hj Hk Hq|j op batch rest c Hj Hop Hr|j op c Hj Hop Hr Hcl|j c Hj Hq];
      try (left; apply (lost_other c); [done|congruence|done..]).
    + destruct Ho as [(opi & Hopi & Hri & Hci) Hk]. left. assert (j ≠ i) by congruence.
      apply (lost_other c); [done..|]. split; [|exact Hk]. exists opi. simpl. by rewrite lookup_insert_ne.
    + pose proof Ho as [(opi & Hopi & Hri & Hci) Hk]. left. apply (lost_other c); [done|congruence|done..].
    + destruct (decide (j = i)) as [->|Hne]; [right; apply lookup_insert_eq|left].
      by apply (lost_other c).
Qed.

(** A call that has ended stays so. *)
Lemma done_step i r c c' :
  inv c → phases c !! i = Some (Done r) → step batchItemLimit c c' → phases c' !! i = Some (Done r).
Proof.
  intros I Hi Hst. destruct Hst as [c c' Hs|c c' Hs].
  - remember (Ret c') as out eqn:Er.
    destruct Hs as [j op n c Hq Hlk (Hnew & _) Hn|b ms c Hq Hrd Hm|e c Hq Hrd|j r' c Hq Hj Hw|
      e c Hq He|j c Hq Hj|c Hq].
    + injection Er as <-. destruct (inv_known _ I i _ Hi) as [opi Hopi]. simpl. rewrite lookup_insert_ne; [done|congruence].
    + by rewrite (on_pending_phases _ _ _ _ Er).
    + by rewrite (on_pending_phases _ _ _ _ Er).
    + unfold on_reconnected in Er. destruct (if reading c then _ else _) as [c1|] eqn:E1; [|done].
      assert (Hp : phases c1 = phases c).
      { destruct (reading c); [by eapply on_pending_phases|by injection E1 as <-]. }
      simpl in Er. destruct (lastOp c1); [|done]. destruct (ops (pend c1) !! _); [|done].
      injection Er as <-. simpl. by rewrite Hp.
    + unfold on_reqSent in Er. destruct (match e with None => _ | Some _ => _ end) as [c1|] eqn:E1; [|done].
      injection Er as <-. simpl. destruct e; [|by injection E1 as <-]. destruct (lastOp c); [|done].
      by rewrite (on_pending_phases _ _ _ _ E1).
    + unfold on_reqTimeout in Er. destruct (on_pending _ set_pend c) as [c1|] eqn:E1; [|done].
      injection Er as <-. simpl. rewrite lookup_insert_ne by congruence. by rewrite (on_pending_phases _ _ _ _ E1).
    + unfold on_close in Er. destruct (reading c); [|by injection Er as <-].
      by rewrite (on_pending_phases _ _ _ _ Er).
  - destruct Hs; simpl; rewrite lookup_insert_ne; done || congruence.
Qed.
End lost.

(** * Properties *)

(** ** A run *)

(** A call of one id, before it is registered. *)
Definition plain_op (ks : list string) : requestOp := Op ks None [] false None false.

Lemma fresh_plain ks c : ops (pend c) = ∅ → NoDup ks → fresh_op 0 (plain_op ks) c.
Proof.
  intros Ho Hks. split_and!; try done; [by rewrite Ho|].
  intros j op Hop. by rewrite Ho, lookup_empty in Hop.
Qed.

(** The first call is registered and written. *)
Definition registered0 (ks : list string) : client :=
  set_phase 0 (Writing false) (on_reqInit 0 (plain_op ks) (new_op 0 (plain_op ks) false initClient)).
Definition written0 (ks : list string) : client :=
  set_phase 0 Waiting (set_sent (Some None) (registered0 ks)).

Lemma written0_reachable `{!RangeOrder} L ks : NoDup ks → reachable L (written0 ks).
Proof.
  intros Hks. eapply rtc_l; [|eapply rtc_l; [|apply rtc_refl]].
  - apply s_handles. apply (h_init L 0 (plain_op ks) false initClient eq_refl eq_refl); [|done].
    by apply fresh_plain.
  - apply s_acts. apply (a_write 0 false 0 (registered0 ks)); [reflexivity|reflexivity|set_solver].
Defined.

(** C11: Whatever the callers, the server and the connection do, no case of the
    dispatch loop goes wrong: it never sends on or closes a closed channel,
    never blocks on a full one and never meets a nil request. *)
Theorem dispatch_never_panics `{!RangeOrder} L c r :
  reachable L c → handles L c r → ∃ c', r = Ret c'.
Proof.
  intros Hc Hr. destruct (handles_good L c r (dispatch_inv L c Hc) Hr) as (c' & -> & _). by exists c'.
Qed.

Example dispatch_never_panics_witness :
  let R := default_range_order in ∃ c', on_readErr "EOF" (written0 ["1"; "2"]) = Ret c'.
Proof.
  intros R. apply (dispatch_never_panics 0 (written0 ["1"; "2"])).
  - apply written0_reachable. by apply (bool_decide_unpack _).
  - apply h_readErr; reflexivity.
Defined.


(** The connection breaks after the loop heard that the message was sent. *)
Definition sent0 (ks : list string) : client := set_sent None (set_lock None false (written0 ks)).


(** A call that waits while its channel is empty and open and no handler
    knows it never returns, unless its context ends: no response, no lost
    connection, no reconnection and no [Close] helps it. *)
Theorem lost_call_never_returns `{!RangeOrder} L i c c' :
  reachable L c → lost i c → rtc (step L) c c' →
  lost i c' ∨ phases c' !! i = Some (Done TimedOut).
Proof.
  intros Hc Hl Hrun. enough (inv c' ∧ (lost i c' ∨ phases c' !! i = Some (Done TimedOut))) by tauto.
  revert c' Hrun. apply rtc_ind_r.
  - split; [by eapply dispatch_inv|by left].
  - intros c1 c2 _ Hs [I [Hl1|Hd]]; (split; [by eapply dispatch_step_inv|]).
    + by eapply lost_step.
    + right. by eapply done_step.
Qed.

(** Two ways into it: the connection is lost after the call is written and
    before the loop hears of it; and a batch without elements. *)
Example lost_call_never_returns_witness :
  let R := default_range_order in
  (∃ c, on_readErr "EOF" (written0 ["1"]) = Ret c ∧
     ∀ c', rtc (step 0) c c' → lost 0 c' ∨ phases c' !! 0%nat = Some (Done TimedOut)) ∧
  (∀ c', rtc (step 0) (written0 []) c' → lost 0 c' ∨ phases c' !! 0%nat = Some (Done TimedOut)).
Proof.
  intros R. split.
  - eexists. split; [vm_compute; reflexivity|]. intros c'.
    match goal with |- rtc _ ?c c' → _ => set (c0 := c) end. apply lost_call_never_returns.
    + apply (rtc_r _ (written0 ["1"])); [apply written0_reachable; by apply (bool_decide_unpack _)|].
      apply s_handles. replace (Ret c0) with (on_readErr "EOF" (written0 ["1"])) by (vm_compute; reflexivity).
      apply h_readErr; reflexivity.
    + split; [reflexivity|]. split; [eexists; split; [vm_compute; reflexivity|by split]|].
      intros k. change (respWait (pend c0)) with (∅ : gmap string nat). by rewrite lookup_empty.
  - intros c'. apply lost_call_never_returns.
    + apply written0_reachable. apply NoDup_nil_2.
    + split; [reflexivity|]. split; [eexists; split; [vm_compute; reflexivity|by split]|].
      intros k. change (respWait (pend (written0 []))) with (∅ : gmap string nat). by rewrite lookup_empty.
Defined.
