(* ===== verification/RpcNotifier.v ===== *)
(** * Package rpc, subscriptions on the server (src/rpc/subscription.go, handler.go)

    The ids of subscriptions ([encodeID]), the notifier of a subscription call
    with its buffer, and the table of the active subscriptions of a connection
    with their error channels. *)

From S2P Require Import Prelude Strconv GoJson GoValue JsonRound GoRound RpcErrors RpcJson RpcWire RpcPending.

(** ** Ids *)

(** [hex.EncodeToString] *)
Fixpoint hex_encode (b : list Byte.byte) : string :=
  match b with
  | [] => ""
  | x :: b' =>
      let v := Z.of_N (Byte.to_N x) in
      String (hex_digit (v / 16)) (String (hex_digit (v mod 16)) (hex_encode b'))
  end.

(** [strings.TrimLeft(s, "0")] *)
Fixpoint trim_zeros (s : string) : string :=
  match s with
  | String "0" s' => trim_zeros s'
  | _ => s
  end.

Definition encodeID (b : list Byte.byte) : string :=
  let id := trim_zeros (hex_encode b) in
  let id := if decide (id = "") then "0" else id in
  "0x" +:+ id.

(** ** The notifier *)

(** What a connection does with a message, and where ids come from. *)
Class Conn (K : Type) := {
  writeJSON : jsonrpcMessage → K → option string * K;
  idgen : K → string * K
}.

Inductive notify_error :=
| NMarshal (e : string)
| NWrite (e : string).

Record Notifier := {
  n_namespace : string;
  n_sub : option string;           (* the id of the subscription *)
  n_buffer : list json;
  n_callReturned : bool;
  n_activated : bool
}.

Section notifier.
Context {K : Type} `{!Conn K}.

(** A notifier and its connection.  Each operation holds the lock. *)
Record nstate := { notifier : Notifier; conn : K }.

Definition set_notifier (f : Notifier → Notifier) (s : nstate) : nstate :=
  {| notifier := f (notifier s); conn := conn s |}.

Definition CreateSubscription : GoM nstate string :=
  n ← gets notifier;
  match n_sub n with
  | Some _ => panic (ExplicitPanic "can't create multiple subscriptions with Notifier")
  | None =>
      if n_callReturned n
      then panic (ExplicitPanic "can't create subscription after subscribe call has returned")
      else λ s,
        let '(id, k) := idgen (conn s) in
        (Ret id, {| notifier := {| n_namespace := n_namespace n; n_sub := Some id;
                                   n_buffer := n_buffer n; n_callReturned := n_callReturned n;
                                   n_activated := n_activated n |};
                    conn := k |})
  end.

(** The message of [send]. *)
Definition notification (namespace id : string) (data : json) : jsonrpcMessage :=
  Msg vsn None (namespace +:+ notificationMethodSuffix)
    (match marshal {| sr_ID := id; sr_Result := Some data |} with inl j => Some j | inr _ => None end)
    None None.

Definition send (id : string) (data : json) : GoM nstate (option notify_error) := λ s,
  let '(e, k) := writeJSON (notification (n_namespace (notifier s)) id data) (conn s) in
  (Ret (NWrite <$> e), {| notifier := notifier s; conn := k |}).

Definition push_buffer (data : json) (n : Notifier) : Notifier :=
  {| n_namespace := n_namespace n; n_sub := n_sub n; n_buffer := n_buffer n ++ [data];
     n_callReturned := n_callReturned n; n_activated := n_activated n |}.

Definition Notify (id : string) (data : gty * gval) : GoM nstate (option notify_error) :=
  match encode data.1 data.2 with
  | inr e => mret (Some (NMarshal e))
  | inl enc =>
      n ← gets notifier;
      match n_sub n with
      | None => panic (ExplicitPanic "can't Notify before subscription is created")
      | Some sub =>
          if decide (sub ≠ id) then panic (ExplicitPanic "Notify with wrong ID")
          else if n_activated n then send sub enc
          else _ ← modify (set_notifier (push_buffer enc)); mret None
      end
  end.

Definition takeSubscription : GoM nstate (option string) :=
  _ ← modify (set_notifier (λ n,
    {| n_namespace := n_namespace n; n_sub := n_sub n; n_buffer := n_buffer n;
       n_callReturned := true; n_activated := n_activated n |}));
  n ← gets notifier;
  mret (n_sub n).

(** The loop of [activate]; [sub] is read once, it does not change. *)
Fixpoint send_all (sub : option string) (buffer : list json) : GoM nstate (option notify_error) :=
  match buffer with
  | [] => mret None
  | data :: buffer' =>
      match sub with
      | None => panic (NilDeref "sub.ID")
      | Some id =>
          err ← send id data;
          match err with
          | Some e => mret (Some e)
          | None => send_all sub buffer'
          end
      end
  end.

Definition activate : GoM nstate (option notify_error) :=
  n ← gets notifier;
  err ← send_all (n_sub n) (n_buffer n);
  match err with
  | Some e => mret (Some e)
  | None =>
      _ ← modify (set_notifier (λ n,
        {| n_namespace := n_namespace n; n_sub := n_sub n; n_buffer := n_buffer n;
           n_callReturned := n_callReturned n; n_activated := true |}));
      mret None
  end.

(** ** Uses of a notifier *)

(** The callback creates and notifies, also from goroutines of its own; the
    handler takes the subscription and activates it. *)
Inductive notifier_op :=
| OpCreate
| OpNotify (id : string) (data : gty * gval)
| OpTake
| OpActivate.

Definition run_op (u : unit) (op : notifier_op) : GoM nstate unit :=
  match op with
  | OpCreate => _ ← CreateSubscription; mret tt
  | OpNotify id data => _ ← Notify id data; mret tt
  | OpTake => _ ← takeSubscription; mret tt
  | OpActivate => _ ← activate; mret tt
  end.

Definition run_ops (ops : list notifier_op) : GoM nstate unit := foldM run_op tt ops.

(** [&Notifier{h: h, namespace: namespace}] *)
Definition new_notifier (namespace : string) (k : K) : nstate :=
  {| notifier := {| n_namespace := namespace; n_sub := None; n_buffer := [];
                    n_callReturned := false; n_activated := false |};
     conn := k |}.
End notifier.

Arguments nstate : clear implicits.

(** ** The subscriptions of a connection

    The error channel of a subscription has capacity 1. *)

Record subscription := { s_err : list op_error; s_closed : bool }.

Record sub_table := {
  chans : gmap nat subscription;
  serverSubs : gmap string nat
}.

Definition put_chan (i : nat) (c : subscription) (t : sub_table) : sub_table :=
  {| chans := <[i := c]> (chans t); serverSubs := serverSubs t |}.
Definition set_table (f : gmap string nat → gmap string nat) (t : sub_table) : sub_table :=
  {| chans := chans t; serverSubs := f (serverSubs t) |}.

(** [addSubscriptions], for the subscription [i] that a notifier of the call made. *)
Definition add_subscription (id : string) (i : nat) : GoM sub_table unit :=
  modify (set_table <[id := i]>).

Definition the_chan (i : nat) : GoM sub_table subscription :=
  t ← gets id;
  match chans t !! i with Some c => mret c | None => panic (NilDeref "s") end.

Definition close_chan (i : nat) : GoM sub_table unit :=
  c ← the_chan i;
  if s_closed c then panic (ExplicitPanic "close of closed channel")
  else modify (put_chan i {| s_err := s_err c; s_closed := true |}).

Definition send_chan (i : nat) (err : op_error) : GoM sub_table unit :=
  c ← the_chan i;
  if s_closed c then panic (ExplicitPanic "send on closed channel")
  else
    match s_err c with
    | [] => modify (put_chan i {| s_err := [err]; s_closed := false |})
    | _ => panic (ExplicitPanic "blocked: the channel is full")
    end.

Definition unsubscribe (id : string) : GoM sub_table bool :=
  t ← gets serverSubs;
  match t !! id with
  | None => mret false
  | Some i => _ ← close_chan i; _ ← modify (set_table (delete id)); mret true
  end.

(** [CreateSubscription] makes the channel, [addSubscriptions] registers it. *)
Definition open_subscription (id : string) : GoM sub_table unit :=
  t ← gets chans;
  let i := fresh (dom t) in
  _ ← modify (put_chan i {| s_err := []; s_closed := false |});
  add_subscription id i.

Section cancel.
Context `{!RangeOrder}.

Definition cancel_subscription (err : op_error) (u : unit) (entry : string * nat) : GoM sub_table unit :=
  _ ← send_chan entry.2 err;
  _ ← close_chan entry.2;
  modify (set_table (delete entry.1)).

Definition cancelServerSubscriptions (err : op_error) : GoM sub_table unit :=
  t ← gets serverSubs;
  foldM (cancel_subscription err) tt (range_order 12 t).

(** The uses of the table. *)
Inductive table_op :=
| TOpen (id : string)
| TUnsubscribe (id : string)
| TCancel (err : op_error).

Definition run_table_op (u : unit) (op : table_op) : GoM sub_table unit :=
  match op with
  | TOpen id => open_subscription id
  | TUnsubscribe id => _ ← unsubscribe id; mret tt
  | TCancel err => cancelServerSubscriptions err
  end.
End cancel.

(** * Lemmas *)

(** A connection that takes every message, and what it took. *)
Class ConnLaws (K : Type) `{Conn K} := {
  written : K → list jsonrpcMessage;
  write_ok m k : (writeJSON m k).1 = None ∧ written (writeJSON m k).2 = written k ++ [m];
  idgen_keeps k : written (idgen k).2 = written k
}.

Definition payload (op : notifier_op) : option json :=
  match op with
  | OpNotify _ data => match encode data.1 data.2 with inl j => Some j | inr _ => None end
  | _ => None
  end.

(** The values given to [Notify], as JSON. *)
Definition payloads (ops : list notifier_op) : list json := omap payload ops.

Definition is_activate (op : notifier_op) : bool := match op with OpActivate => true | _ => false end.
Definition activations (ops : list notifier_op) : nat := length (List.filter is_activate ops).

Lemma ignore_Ret {S A} (m : GoM S A) s s' :
  (_ ← m; mret tt) s = (Ret tt, s') → ∃ a, m s = (Ret a, s').
Proof. unfold mbind, GoM_bind. destruct (m s) as [[a|w] s1]; [|done]. intros [= <-]. by exists a. Qed.

Section notifier_lemmas.
Context {K : Type} `{!Conn K} `{!ConnLaws K}.
Implicit Types s : nstate K.

Lemma send_eq id data s :
  ∃ k, send id data s = (Ret None, {| notifier := notifier s; conn := k |}) ∧
    written k = written (conn s) ++ [notification (n_namespace (notifier s)) id data].
Proof.
  unfold send. pose proof (write_ok (notification (n_namespace (notifier s)) id data) (conn s)) as [He Hw].
  destruct (writeJSON _ _) as [e k]. simpl in *. subst e. by exists k.
Qed.

Lemma send_all_eq id l s :
  ∃ k, send_all (Some id) l s = (Ret None, {| notifier := notifier s; conn := k |}) ∧
    written k = written (conn s) ++ (notification (n_namespace (notifier s)) id <$> l).
Proof.
  revert s. induction l as [|x l IH]; intros s.
  - exists (conn s). simpl. rewrite app_nil_r. by destruct s.
  - destruct (send_eq id x s) as (k & E & Hw). cbn [send_all].
    rewrite (bind_eq _ _ _ _ _ E). destruct (IH {| notifier := notifier s; conn := k |}) as (k2 & E2 & Hw2).
    exists k2. split; [exact E2|]. rewrite Hw2. simpl. by rewrite Hw, <-app_assoc.
Qed.

(** What has happened after the uses [ops]. *)
Record told (namespace : string) (k0 : K) (ops : list notifier_op) (s : nstate K) : Prop := {
  td_ns : n_namespace (notifier s) = namespace;
  td_act : n_activated (notifier s) = (0 <? activations ops)%nat;
  td_sub : n_sub (notifier s) = None → payloads ops = [];
  td_buffer : n_activated (notifier s) = false →
    n_buffer (notifier s) = payloads ops ∧ written (conn s) = written k0;
  td_sent : n_activated (notifier s) = true →
    written (conn s) = written k0 ++
      (notification namespace (default "" (n_sub (notifier s))) <$> payloads ops)
}.

Lemma told_step namespace k0 ops op s s' :
  told namespace k0 ops s → (activations (ops ++ [op]) ≤ 1)%nat →
  run_op tt op s = (Ret tt, s') → told namespace k0 (ops ++ [op]) s'.
Proof.
  intros [Hns Ha Hs Hb Hw]. assert (Hc : activations (ops ++ [op]) =
    (activations ops + if is_activate op then 1 else 0)%nat).
  { unfold activations. rewrite List.filter_app, length_app. simpl. by destruct (is_activate op). }
  rewrite Hc. intros Hact.
  assert (Hp : payloads (ops ++ [op]) = payloads ops ++ option_list (payload op)).
  { unfold payloads. rewrite omap_app. simpl. by destruct (payload op). }
  destruct op as [|id data| |]; cbn [run_op]; intros (r & Hr)%ignore_Ret; revert Hr.
  - unfold CreateSubscription, gets, mbind, GoM_bind.
    destruct (n_sub (notifier s)) as [|] eqn:Hsub; [done|]. destruct (n_callReturned _); [done|].
    pose proof (idgen_keeps (conn s)) as Hk. destruct (idgen (conn s)) as [id k]. intros [= _ <-].
    specialize (Hs eq_refl). simpl in *. rewrite Hs in *.
    split; simpl; rewrite ?Hp, ?Hc, ?Nat.add_0_r; try done.
    + intros Hn. destruct (Hb Hn). split; [done|congruence].
    + intros Hn. by rewrite Hk, (Hw Hn).
  - unfold Notify. simpl in Hp. destruct (encode data.1 data.2) as [enc|e]; cycle 1.
    { intros [= _ <-]. simpl in Hp. rewrite app_nil_r in Hp. split; rewrite ?Hp; rewrite ?Hc; simpl; rewrite ?Nat.add_0_r; done. }
    rewrite (bind_eq (gets notifier) _ s (notifier s) s) by done.
    destruct (n_sub (notifier s)) as [sub|] eqn:Hsub; [|done].
    destruct (decide (sub ≠ id)); [done|]. destruct (n_activated (notifier s)) eqn:Hn.
    + destruct (send_eq sub enc s) as (k & E & Hk). rewrite E. intros [= _ <-].
      split; simpl; rewrite ?Hp, ?Hc, ?Nat.add_0_r; try done; [congruence..|].
      intros _. rewrite Hk, (Hw eq_refl), Hsub, Hns, fmap_app, app_assoc. done.
    + intros [= _ <-]. destruct (Hb eq_refl) as [Hbuf Hwr].
      split; simpl; rewrite ?Hp, ?Hc, ?Nat.add_0_r; try done; [congruence..| |congruence].
      intros _. by rewrite Hbuf.
  - intros [= _ <-]. simpl in Hp. rewrite app_nil_r in Hp. split; rewrite ?Hp; rewrite ?Hc; simpl; rewrite ?Nat.add_0_r; done.
  - simpl in *. rewrite app_nil_r in Hp.
    assert (Hn : n_activated (notifier s) = false).
    { rewrite Ha. apply Nat.ltb_ge. lia. }
    destruct (Hb Hn) as [Hbuf Hwr]. unfold activate.
    rewrite (bind_eq (gets notifier) _ s (notifier s) s) by done. rewrite Hbuf.
    assert (Hsend : ∃ k, send_all (n_sub (notifier s)) (payloads ops) s =
        (Ret None, {| notifier := notifier s; conn := k |}) ∧
      written k = written k0 ++ (notification namespace (default "" (n_sub (notifier s))) <$> payloads ops)).
    { destruct (n_sub (notifier s)) as [id|] eqn:Hsub.
      - rewrite <-Hwr, <-Hns. apply send_all_eq.
      - rewrite Hs by done. exists (conn s). simpl. rewrite app_nil_r. split; [by destruct s|done]. }
    destruct Hsend as (k & E & Hk). rewrite (bind_eq _ _ _ _ _ E). intros [= _ <-].
    split; simpl; rewrite ?Hp, ?Hc; try done.
    symmetry. apply Nat.ltb_lt. simpl. lia.
Qed.

Lemma run_ops_told namespace k ops s :
  (activations ops ≤ 1)%nat → run_ops ops (new_notifier namespace k) = (Ret tt, s) →
  told namespace k ops s.
Proof.
  revert s. induction ops as [|op ops IH] using rev_ind; intros s Ha Hrun.
  - injection Hrun as <-. by split.
  - apply foldM_snoc in Hrun as ([] & s1 & H1 & H2). eapply told_step; [|done|exact H2].
    apply IH; [|done]. unfold activations in *. rewrite List.filter_app, length_app in Ha. lia.
Qed.
End notifier_lemmas.

(** ** Ids *)

Definition hex_string_ok (s : string) : bool :=
  forallb (λ c, is_hex c) (String.list_ascii_of_string s).

(** The value of a text of hexadecimal digits. *)
Fixpoint hex_value (acc : Z) (s : string) : Z :=
  match s with
  | EmptyString => acc
  | String c s' => hex_value (acc * 16 + default 0 (hex_val c)) s'
  end.

(** The big-endian number of a list of bytes. *)
Definition be_value (b : list Byte.byte) : Z := foldl (λ acc x, acc * 256 + Z.of_N (Byte.to_N x)) 0 b.

Lemma byte_range x : 0 ≤ Z.of_N (Byte.to_N x) < 256.
Proof. pose proof (Byte.to_N_bounded x). lia. Qed.

Lemma nibbles x : let v := Z.of_N (Byte.to_N x) in 0 ≤ v / 16 < 16 ∧ 0 ≤ v mod 16 < 16.
Proof.
  intros v. pose proof (byte_range x). split; [|apply Z.mod_pos_bound; lia].
  split; [apply Z.div_pos; lia|]. apply Z.div_lt_upper_bound; lia.
Qed.

Lemma hex_value_encode acc b :
  hex_value acc (hex_encode b) = foldl (λ acc x, acc * 256 + Z.of_N (Byte.to_N x)) acc b.
Proof.
  revert acc. induction b as [|x b IH]; intros acc; [done|]. cbn [hex_encode hex_value foldl].
  rewrite IH, !hex_digit_val by apply nibbles. cbn [default]. f_equal.
  unfold id. pose proof (Z.div_mod (Z.of_N (Byte.to_N x)) 16 ltac:(lia)).
  lia.
Qed.

Lemma hex_value_trim s : hex_value 0 (trim_zeros s) = hex_value 0 s.
Proof.
  induction s as [|c s IH]; [done|]. destruct (decide (c = "0"%char)) as [->|Hc]; [exact IH|].
  cbn [trim_zeros]. by destruct c as [[] [] [] [] [] [] [] []].
Qed.

Lemma trim_zeros_head s : String.prefix "0" (trim_zeros s) = false.
Proof.
  induction s as [|c s IH]; [done|]. cbn [trim_zeros].
  destruct c as [[] [] [] [] [] [] [] []]; first [exact IH|reflexivity|by destruct s].
Qed.

Lemma trim_zeros_hex s : hex_string_ok s = true → hex_string_ok (trim_zeros s) = true.
Proof.
  induction s as [|c s IH]; [done|]. intros Hs. assert (hex_string_ok s = true).
  { unfold hex_string_ok in *. simpl in Hs. by apply andb_true_iff in Hs as [_ ?]. }
  cbn [trim_zeros]. destruct c as [[] [] [] [] [] [] [] []]; auto.
Qed.

Lemma hex_encode_ok b : hex_string_ok (hex_encode b) = true.
Proof.
  induction b as [|x b IH]; [done|]. unfold hex_string_ok in *. simpl. rewrite IH.
  unfold is_hex. by rewrite !hex_digit_val by apply nibbles.
Qed.

Lemma be_value_inj b b' : length b = length b' → be_value b = be_value b' → b = b'.
Proof.
  revert b'. induction b as [|x b IH] using rev_ind; intros b' Hlen Hv.
  - by destruct b'.
  - destruct b' as [|y b' _] using rev_ind; [rewrite length_app in Hlen; simpl in Hlen; lia|].
    rewrite !length_app in Hlen. simpl in Hlen. unfold be_value in Hv. rewrite !foldl_app in Hv. simpl in Hv.
    fold (be_value b) in Hv. fold (be_value b') in Hv.
    pose proof (byte_range x). pose proof (byte_range y).
    assert (be_value b = be_value b') as Hb by lia.
    assert (Byte.to_N x = Byte.to_N y) as Hxy by lia.
    apply (f_equal Byte.of_N) in Hxy. rewrite !Byte.of_to_N in Hxy.
    rewrite (IH b'); [congruence|lia|done].
Qed.

(** ** Notifications at the client *)

Lemma valid_utf8_app a b : valid_utf8 a → valid_utf8 b → valid_utf8 (a +:+ b).
Proof. intros Ha Hb. induction Ha; [done|by constructor..]. Qed.

Lemma HasSuffix_app a suf : HasSuffix (a +:+ suf) suf = true.
Proof.
  unfold HasSuffix. rewrite decide_True by (rewrite string_length_app; lia). apply bool_decide_eq_true.
  rewrite string_length_app, Nat.add_sub. induction a as [|c a IH]; [by apply substring_all|exact IH].
Qed.

Lemma subscriptionResult_rt id data :
  valid_utf8 id → marshalled data →
  rt (go_type subscriptionResult) (to_go {| sr_ID := id; sr_Result := Some data |}).
Proof. intros Hi Hd. cbn. by split_and!. Qed.

(** The parameters of a notification. *)
Lemma notification_params id data :
  valid_utf8 id → marshalled data →
  ∃ j, marshal {| sr_ID := id; sr_Result := Some data |} = inl j ∧ marshalled j ∧
    unmarshal_raw_into (A := subscriptionResult) (Some j) = ({| sr_ID := id; sr_Result := Some data |}, None).
Proof.
  intros Hi Hd. destruct (rt_survives _ _ (subscriptionResult_rt id data Hi Hd)) as (j & He & Hj & Hdec & _).
  exists j. split_and!; [done|done|]. unfold unmarshal_raw_into, UnmarshalRaw. by rewrite Hdec.
Qed.

(** ** The table of subscriptions *)

Definition fresh_chan : subscription := {| s_err := []; s_closed := false |}.
Definition unsubscribed : subscription := {| s_err := []; s_closed := true |}.
Definition ended_with (err : op_error) : subscription := {| s_err := [err]; s_closed := true |}.

(** The channel of an active subscription is open and empty, and its own. *)
Record table_ok (t : sub_table) : Prop := {
  tb_open : ∀ id i, serverSubs t !! id = Some i → chans t !! i = Some fresh_chan;
  tb_inj : ∀ id id' i, serverSubs t !! id = Some i → serverSubs t !! id' = Some i → id = id'
}.

Lemma unsubscribe_eq id t :
  table_ok t →
  unsubscribe id t =
    match serverSubs t !! id with
    | None => (Ret false, t)
    | Some i => (Ret true, {| chans := <[i := unsubscribed]> (chans t); serverSubs := delete id (serverSubs t) |})
    end.
Proof.
  intros [Ho _]. unfold unsubscribe. rewrite (bind_eq (gets serverSubs) _ t _ t) by reflexivity.
  destruct (serverSubs t !! id) as [i|] eqn:Hi; [|done]. specialize (Ho id i Hi).
  unfold close_chan, the_chan, gets, modify, mbind, GoM_bind. unfold Datatypes.id. by rewrite Ho.
Qed.

Lemma unsubscribe_ok id i t :
  table_ok t → serverSubs t !! id = Some i →
  table_ok {| chans := <[i := unsubscribed]> (chans t); serverSubs := delete id (serverSubs t) |}.
Proof.
  intros [Ho Hi] Hid. split; simpl.
  - intros id' j [Hne Hj]%lookup_delete_Some. rewrite lookup_insert_ne; [by eapply Ho|].
    intros <-. by apply Hne, (Hi _ _ i).
  - intros id1 id2 j [_ H1]%lookup_delete_Some [_ H2]%lookup_delete_Some. by eapply Hi.
Qed.

Lemma open_eq id t :
  open_subscription id t =
    (Ret tt, {| chans := <[fresh (dom (chans t)) := fresh_chan]> (chans t);
                serverSubs := <[id := fresh (dom (chans t))]> (serverSubs t) |}).
Proof. done. Qed.

Lemma open_ok id t :
  table_ok t →
  table_ok {| chans := <[fresh (dom (chans t)) := fresh_chan]> (chans t);
              serverSubs := <[id := fresh (dom (chans t))]> (serverSubs t) |}.
Proof.
  intros [Ho Hi]. set (i := fresh (dom (chans t))).
  assert (Hnew : ∀ id', serverSubs t !! id' ≠ Some i).
  { intros id' Hid. apply (is_fresh (dom (chans t))). apply (elem_of_dom_2 _ _ fresh_chan).
    by eapply Ho. }
  split; simpl.
  - intros id' j [[<- <-]|[_ Hj]]%lookup_insert_Some; [apply lookup_insert_eq|].
    rewrite lookup_insert_ne; [by eapply Ho|]. intros <-. by eapply Hnew.
  - intros id1 id2 j [[<- <-]|[_ H1]]%lookup_insert_Some [[<- ?]|[_ H2]]%lookup_insert_Some; try done.
    + by destruct (Hnew id2).
    + subst j. by destruct (Hnew id1).
    + by eapply Hi.
Qed.

Section table.
Context `{!RangeOrder}.

(** The channels after some of the active subscriptions were cancelled. *)
Lemma cancel_table_fold err l t :
  table_ok t → NoDup l.*1 → (∀ e, e ∈ l → serverSubs t !! e.1 = Some e.2) →
  ∃ t', foldM (cancel_subscription err) tt l t = (Ret tt, t') ∧ table_ok t' ∧
    (∀ j, chans t' !! j = if decide (j ∈ l.*2) then Some (ended_with err) else chans t !! j) ∧
    (∀ k, serverSubs t' !! k = if decide (k ∈ l.*1) then None else serverSubs t !! k).
Proof.
  revert t. induction l as [|[k i] l IH]; intros t Hok Hnd Hl.
  { exists t. split_and!; try done. }
  apply NoDup_cons in Hnd as [Hk Hnd]. pose proof (Hl (k, i) ltac:(by left)) as Hki. simpl in Hki, Hk.
  destruct (Hok) as [Ho Hinj]. pose proof (Ho k i Hki) as Hi.
  set (t1 := {| chans := <[i := ended_with err]> (chans t); serverSubs := delete k (serverSubs t) |}).
  assert (Hstep : cancel_subscription err tt (k, i) t = (Ret tt, t1)).
  { unfold cancel_subscription, send_chan, close_chan, the_chan, gets, modify, mbind, GoM_bind, put_chan, set_table.
    unfold Datatypes.id.
    simpl. rewrite Hi. simpl. rewrite lookup_insert_eq. simpl. by rewrite insert_insert_eq. }
  cbn [foldM]. rewrite (bind_eq _ _ _ _ _ Hstep).
  assert (Hok1 : table_ok t1).
  { split; simpl.
    - intros id' j [Hne Hj]%lookup_delete_Some. rewrite lookup_insert_ne; [by eapply Ho|].
      intros <-. by apply Hne, (Hinj _ _ i).
    - intros id1 id2 j [_ H1]%lookup_delete_Some [_ H2]%lookup_delete_Some. by eapply Hinj. }
  destruct (IH t1 Hok1 Hnd) as (t' & E & Hok' & Hc & Hs).
  { intros [k' j] He. simpl. rewrite lookup_delete_ne.
    - apply (Hl (k', j)). by right.
    - intros <-. apply Hk. apply list_elem_of_fmap. by exists (k, j). }
  exists t'. split_and!; [done|done|..].
  - intros j. rewrite Hc. rewrite fmap_cons. cbn [snd chans t1]. destruct (decide (j = i)) as [->|Hne].
    + rewrite lookup_insert_eq, (decide_True (P := i ∈ i :: l.*2)) by by left. by case_decide.
    + rewrite lookup_insert_ne by done. apply decide_ext. rewrite elem_of_cons. naive_solver.
  - intros k'. rewrite Hs. rewrite fmap_cons. cbn [fst serverSubs t1]. destruct (decide (k' = k)) as [->|Hne].
    + rewrite lookup_delete_eq, (decide_True (P := k ∈ k :: l.*1)) by by left. by case_decide.
    + rewrite lookup_delete_ne by done. apply decide_ext. rewrite elem_of_cons. naive_solver.
Qed.

Lemma cancelServerSubscriptions_spec err t :
  table_ok t →
  ∃ t', cancelServerSubscriptions err t = (Ret tt, t') ∧ table_ok t' ∧ serverSubs t' = ∅ ∧
    (∀ j, (∃ id, serverSubs t !! id = Some j) → chans t' !! j = Some (ended_with err)) ∧
    (∀ j, (∀ id, serverSubs t !! id ≠ Some j) → chans t' !! j = chans t !! j).
Proof.
  intros Hok. unfold cancelServerSubscriptions. rewrite (bind_eq (gets serverSubs) _ t _ t) by reflexivity.
  assert (Hp := range_order_perm _ 12 (serverSubs t)).
  destruct (cancel_table_fold err (range_order 12 (serverSubs t)) t Hok) as (t' & E & Hok' & Hc & Hs).
  { rewrite Hp. apply NoDup_fst_map_to_list. }
  { intros [k i] He. by apply range_order_elem in He. }
  exists t'. split_and!; [done|done|..].
  - apply map_eq. intros k. rewrite Hs, lookup_empty. case_decide as Hk; [done|].
    destruct (serverSubs t !! k) as [i|] eqn:Hki; [|done]. destruct Hk.
    apply list_elem_of_fmap. exists (k, i). split; [done|]. by apply range_order_elem.
  - intros j (k & Hk). rewrite Hc, decide_True; [done|]. apply list_elem_of_fmap.
    exists (k, j). split; [done|]. by apply range_order_elem.
  - intros j Hj. rewrite Hc, decide_False; [done|].
    intros ([k i] & -> & Hki)%list_elem_of_fmap. apply range_order_elem in Hki. by apply (Hj k).
Qed.
End table.

(** * Properties *)


(** A connection that keeps a log. *)
Definition log_conn : Conn (list jsonrpcMessage) :=
  {| writeJSON m l := (None, l ++ [m]); idgen l := (encodeID [Byte.x07], l) |}.
Definition log_laws : ConnLaws (H := log_conn) (list jsonrpcMessage).
Proof. by refine {| written l := l |}. Defined.


(** A notification the server sends reaches the subscription of the client
    that has its id, with the value given to [Notify], and nothing else
    happens to the client; the notification of an unknown subscription is
    dropped. *)
Theorem notification_delivered (namespace sub : string) (data : json) (limit : Z) (rest : string)
    (p : pending) :
  valid_utf8 namespace → valid_utf8 sub → marshalled data → delim rest →
  let msg := notification namespace sub data in
  readBatch (String_msg msg +:+ rest) = Some ([msg], false, rest) ∧
    incoming limit false [msg] p =
      (Ret [], match clientSubs p !! sub with
               | Some i => add_event (Deliver i (Some data)) p
               | None => p
               end).
Proof.
  intros Hn Hs Hd Hr msg. destruct (notification_params sub data Hs Hd) as (j & Hj & Hm & Hu).
  unfold msg. split.
  - assert (Hok : msg_ok (notification namespace sub data)).
    { unfold notification. rewrite Hj. split; simpl; try done.
      - by apply is_ascii_valid.
      - apply valid_utf8_app; [done|by apply is_ascii_valid].
      - by intros ? [= <-]. }
    by apply readBatch_one.
  - unfold incoming, handleResponses. cbn [foldM].
    assert (Hstep : response_step [notification namespace sub data] ([], []) (notification namespace sub data) p =
      (Ret ([], []), match clientSubs p !! sub with
                     | Some i => add_event (Deliver i (Some data)) p
                     | None => p
                     end)).
    { unfold response_step, notification. rewrite Hj.
      assert (Hmeth : namespace +:+ notificationMethodSuffix ≠ "") by by destruct namespace.
      unfold isResponse, hasValidID. simpl ID. rewrite !andb_false_r. simpl.
      unfold isNotification. simpl. rewrite (bool_decide_false _ Hmeth), HasSuffix_app. simpl.
      unfold handleSubscriptionResult. simpl Params. rewrite Hu.
      unfold gets, modify, mbind, GoM_bind. unfold Datatypes.id. simpl.
      by destruct (clientSubs p !! sub). }
    unfold mbind, GoM_bind. rewrite Hstep. done.
Qed.

Example notification_delivered_witness :
  let msg := notification "eth" "0x7" (JNum "1") in
  let p := {| ops := ∅; subs := ∅; events := []; respWait := ∅; clientSubs := {["0x7" := 3%nat]} |} in
  readBatch (String_msg msg +:+ String "010" "") = Some ([msg], false, String "010" "") ∧
    incoming 0 false [msg] p = (Ret [], add_event (Deliver 3 (Some (JNum "1"))) p).
Proof.
  intros msg p. apply (notification_delivered "eth" "0x7" (JNum "1") 0 (String "010" "") p).
  - by apply is_ascii_valid.
  - by apply is_ascii_valid.
  - by constructor.
  - by vm_compute.
Defined.

(** The id of a subscription is its random bytes as an RPC quantity:
    lower-case hexadecimal digits after 0x, without leading zero, for their
    big-endian number; different bytes of one length have different ids. *)
Theorem encodeID_quantity (b : list Byte.byte) :
  (∃ s, encodeID b = "0x" +:+ s ∧ s ≠ "" ∧ hex_string_ok s = true ∧
     (s = "0" ∨ String.prefix "0" s = false) ∧ hex_value 0 s = be_value b) ∧
  (∀ b', length b' = length b → encodeID b' = encodeID b → b' = b).
Proof.
  assert (Hq : ∀ b, ∃ s, encodeID b = "0x" +:+ s ∧ s ≠ "" ∧ hex_string_ok s = true ∧
     (s = "0" ∨ String.prefix "0" s = false) ∧ hex_value 0 s = be_value b).
  { clear b. intros b. unfold encodeID. set (t := trim_zeros (hex_encode b)).
    assert (Hv : hex_value 0 t = be_value b) by (unfold t; rewrite hex_value_trim; apply hex_value_encode).
    case_decide as Ht.
    - exists "0". split_and!; [done|done|reflexivity|by left|]. rewrite <-Hv, Ht. reflexivity.
    - exists t. split_and!; [done|done| |right; apply trim_zeros_head|done].
      apply trim_zeros_hex, hex_encode_ok. }
  split; [apply Hq|]. intros b' Hlen Heq.
  destruct (Hq b) as (s & E & _ & _ & _ & Hv), (Hq b') as (s' & E' & _ & _ & _ & Hv').
  apply be_value_inj; [done|]. rewrite <-Hv, <-Hv'. f_equal. rewrite E, E' in Heq.
  by injection Heq.
Qed.

(** ** The generator of ids *)

(** math/rand: a source from a seed, the next bytes. *)
Class RandLib := {
  rng : Type;
  NewSource : Z → rng;
  rand_Read : nat → rng → list Byte.byte * rng
}.

Section generator.
Context `{!RandLib}.

(** [buf]: the eight bytes of crypto/rand, if it has them; else the clock. *)
Definition randomIDGenerator (buf : option (list Byte.byte)) (nanosecond : Z) : rng :=
  NewSource (match buf with Some b => to_int64 (be_value b) | None => nanosecond end).

(** One call of the generator, under its mutex. *)
Definition NewID (g : rng) : string * rng :=
  let '(id, g) := rand_Read 16 g in (encodeID id, g).

(** The ids of a sequence of calls, whichever goroutines make them, and the
    bytes they are made of. *)
Fixpoint new_ids (n : nat) (g : rng) : list string :=
  match n with
  | O => []
  | S n => let '(id, g) := NewID g in id :: new_ids n g
  end.
Fixpoint new_bytes (n : nat) (g : rng) : list (list Byte.byte) :=
  match n with
  | O => []
  | S n => let '(b, g) := rand_Read 16 g in b :: new_bytes n g
  end.

Lemma new_ids_encode n g : new_ids n g = encodeID <$> new_bytes n g.
Proof.
  revert g. induction n as [|n IH]; intros g; [done|]. cbn. unfold NewID.
  destruct (rand_Read 16 g) as [b g']. cbn. by rewrite IH.
Qed.

(** Ids never collide unless the generator repeats its bytes. *)
Lemma new_ids_distinct (n : nat) (g : rng) :
  (∀ k g, length (rand_Read k g).1 = k) → NoDup (new_bytes n g) → NoDup (new_ids n g).
Proof.
  intros Hk Hn. rewrite new_ids_encode.
  assert (Hl : ∀ b, b ∈ new_bytes n g → length b = 16%nat).
  { clear Hn. revert g. induction n as [|n IH]; intros g b; cbn; [by intros ?%elem_of_nil|].
    specialize (Hk 16%nat g). destruct (rand_Read 16 g) as [b0 g']. intros [->|Hb]%elem_of_cons; [done|by eapply IH]. }
  apply NoDup_fmap_2_strong; [|done]. intros x y Hx Hy E. destruct (encodeID_quantity y) as [_ Hinj].
  apply Hinj; [|done]. by rewrite (Hl x Hx), (Hl y Hy).
Qed.
End generator.

Definition empty_table : sub_table := {| chans := ∅; serverSubs := ∅ |}.

Lemma run_table_ok `{!RangeOrder} ops t :
  table_ok t → ∃ t', foldM run_table_op tt ops t = (Ret tt, t') ∧ table_ok t'.
Proof.
  revert t. induction ops as [|op ops IH]; intros t Hok; [by exists t|].
  assert (∃ t1, run_table_op tt op t = (Ret tt, t1) ∧ table_ok t1) as (t1 & E & Hok1).
  { destruct op as [id|id|err]; cbn [run_table_op].
    - eexists. split; [apply open_eq|by apply open_ok].
    - unfold mbind, GoM_bind. rewrite unsubscribe_eq by done.
      destruct (serverSubs t !! id) as [i|] eqn:Hi; (eexists; split; [reflexivity|]); [|done].
      by apply (unsubscribe_ok id i).
    - destruct (cancelServerSubscriptions_spec err t Hok) as (t1 & E & Hok1 & _). by exists t1. }
  destruct (IH t1 Hok1) as (t' & E' & Hok'). exists t'. cbn [foldM]. by rewrite (bind_eq _ _ _ _ _ E).
Qed.

(** Whatever is subscribed, unsubscribed and cancelled on a connection,
    also under an id twice, no error channel is closed twice, sent to when
    closed, or blocks. Unsubscribing closes the channel of the active
    subscription of that id only, and is an error when there is none; the end
    of the connection sends its reason to every active subscription, closes
    it, and leaves none. *)
Theorem server_subscriptions_correct `{!RangeOrder} (ops : list table_op) (id : string) (err : op_error) :
  ∃ t, foldM run_table_op tt ops empty_table = (Ret tt, t) ∧
    match serverSubs t !! id with
    | None => unsubscribe id t = (Ret false, t)
    | Some i => chans t !! i = Some fresh_chan ∧
        unsubscribe id t =
          (Ret true, {| chans := <[i := unsubscribed]> (chans t); serverSubs := delete id (serverSubs t) |})
    end ∧
    ∃ t', cancelServerSubscriptions err t = (Ret tt, t') ∧ serverSubs t' = ∅ ∧
      (∀ j, (∃ id, serverSubs t !! id = Some j) → chans t' !! j = Some (ended_with err)) ∧
      (∀ j, (∀ id, serverSubs t !! id ≠ Some j) → chans t' !! j = chans t !! j).
Proof.
  destruct (run_table_ok ops empty_table) as (t & E & Hok).
  { split; intros ?*; simpl; by rewrite lookup_empty. }
  exists t. split_and!; [done| |].
  - rewrite unsubscribe_eq by done. destruct (serverSubs t !! id) as [i|] eqn:Hi; [|done].
    split; [by eapply tb_open|done].
  - destruct (cancelServerSubscriptions_spec err t Hok) as (t' & E' & _ & Hend). by exists t'.
Qed.
