(* ===== verification/RpcSubscription.v ===== *)
(** * Package rpc, subscriptions of the client (src/rpc/subscription.go)

    A [ClientSubscription] from the answer to its request on: the goroutine
    that forwards notifications ([run], [forward]), the dispatch loop that
    hands them over ([deliver], [close]), the consumer of the channel and the
    caller of [Unsubscribe], as steps that interleave freely. *)

From S2P Require Import Prelude Strconv GoJson GoValue RpcErrors RpcJson.

Definition maxClientSubscriptionBuffer : nat := 20000.

(** Why the forwarding ends; [ConnLost] is the error [close] is given. *)
Inductive sub_error :=
| ErrSubscriptionQueueOverflow
| ErrUnmarshalValue (e : unmarshal_error)
| ErrClientQuit
| ConnLost (e : string).

(** The goroutine of [run]. *)
Inductive run_pc :=
| Forwarding (buffer : list gval)
| Ended (unsubscribe : bool) (err : option sub_error)  (* [forward] has returned *)
| Requesting (err : option sub_error)                  (* in [requestUnsubscribe] *)
| Reporting (err : option sub_error)
| Finishing                                            (* the deferred close *)
| Finished.

(** The dispatch loop: [deliver] and [close] are called by its handler, which
    forgets the subscription when it closes it. *)
Inductive loop_pc :=
| LIdle
| Delivering (result : option json)
| Closing (err : sub_error)
| LGone.

(** The first caller of [Unsubscribe]; the others wait for it ([errOnce]). *)
Inductive unsub_pc :=
| NotCalled
| Selecting
| AwaitDone
| Returned.

Record sub := {
  run : run_pc;
  loop : loop_pc;
  unsub : unsub_pc;
  forwardDone : bool;
  unsubDone : bool;
  errs : list (option sub_error);    (* the buffer of [err], capacity 1 *)
  err_closed : bool;
  (* what has happened: *)
  accepted : list gval;              (* values taken into the buffer *)
  delivered : list gval;             (* values the consumer has got *)
  requests : nat;                    (* unsubscribe requests *)
  reported : list (option sub_error);
  reason : option (bool * option sub_error)
}.

Definition set_run (r : run_pc) (s : sub) : sub :=
  {| run := r; loop := loop s; unsub := unsub s; forwardDone := forwardDone s;
     unsubDone := unsubDone s; errs := errs s; err_closed := err_closed s; accepted := accepted s;
     delivered := delivered s; requests := requests s; reported := reported s; reason := reason s |}.
Definition set_loop (l : loop_pc) (s : sub) : sub :=
  {| run := run s; loop := l; unsub := unsub s; forwardDone := forwardDone s;
     unsubDone := unsubDone s; errs := errs s; err_closed := err_closed s; accepted := accepted s;
     delivered := delivered s; requests := requests s; reported := reported s; reason := reason s |}.
Definition set_unsub (u : unsub_pc) (s : sub) : sub :=
  {| run := run s; loop := loop s; unsub := u; forwardDone := forwardDone s;
     unsubDone := unsubDone s; errs := errs s; err_closed := err_closed s; accepted := accepted s;
     delivered := delivered s; requests := requests s; reported := reported s; reason := reason s |}.
Definition set_errs (l : list (option sub_error)) (s : sub) : sub :=
  {| run := run s; loop := loop s; unsub := unsub s; forwardDone := forwardDone s;
     unsubDone := unsubDone s; errs := l; err_closed := err_closed s; accepted := accepted s;
     delivered := delivered s; requests := requests s; reported := reported s; reason := reason s |}.

(** [forward] returns. *)
Definition end_forward (u : bool) (err : option sub_error) (s : sub) : sub :=
  {| run := Ended u err; loop := loop s; unsub := unsub s; forwardDone := forwardDone s;
     unsubDone := unsubDone s; errs := errs s; err_closed := err_closed s; accepted := accepted s;
     delivered := delivered s; requests := requests s; reported := reported s;
     reason := Some (u, err) |}.

(** The value joins the buffer. *)
Definition push (buffer : list gval) (v : gval) (s : sub) : sub :=
  {| run := Forwarding (buffer ++ [v]); loop := loop s; unsub := unsub s;
     forwardDone := forwardDone s; unsubDone := unsubDone s; errs := errs s;
     err_closed := err_closed s; accepted := accepted s ++ [v]; delivered := delivered s;
     requests := requests s; reported := reported s; reason := reason s |}.

(** The consumer takes the first value. *)
Definition pop (v : gval) (buffer : list gval) (s : sub) : sub :=
  {| run := Forwarding buffer; loop := loop s; unsub := unsub s; forwardDone := forwardDone s;
     unsubDone := unsubDone s; errs := errs s; err_closed := err_closed s; accepted := accepted s;
     delivered := delivered s ++ [v]; requests := requests s; reported := reported s;
     reason := reason s |}.

(** A nil interface: [reflect.ValueOf] of it is the zero [Value], which
    [reflect.Select] refuses to send. *)
Definition nil_interface (v : gval) : bool :=
  match v with VAny None | VErr None => true | _ => false end.

(** The first value of the buffer, if any, can be sent. *)
Definition sendable (buffer : list gval) : bool :=
  match buffer with v :: _ => negb (nil_interface v) | [] => true end.

Section forward.
(** [etype], the element type of the channel. *)
Context (etype : gty).

(** [case 1: <-sub.in] *)
Definition on_in (buffer : list gval) (result : option json) (s : sub) : sub :=
  let '(val, err) := UnmarshalRaw etype result (zero etype) in
  match err with
  | Some e => end_forward true (Some (ErrUnmarshalValue e)) s
  | None =>
      if decide (length buffer = maxClientSubscriptionBuffer)
      then end_forward true (Some ErrSubscriptionQueueOverflow) s
      else push buffer val s
  end.

(** [close(sub.forwardDone)], and what follows. *)
Definition close_forwardDone (u : bool) (err : option sub_error) (s : sub) : outcome sub :=
  if forwardDone s then Panic (ExplicitPanic "close of closed channel")
  else Ret {| run := if u then Requesting err else Reporting err; loop := loop s; unsub := unsub s;
              forwardDone := true; unsubDone := unsubDone s; errs := errs s;
              err_closed := err_closed s; accepted := accepted s; delivered := delivered s;
              requests := requests s; reported := reported s; reason := reason s |}.

(** [requestUnsubscribe] *)
Definition request_done (err : option sub_error) (s : sub) : sub :=
  {| run := Reporting err; loop := loop s; unsub := unsub s; forwardDone := forwardDone s;
     unsubDone := unsubDone s; errs := errs s; err_closed := err_closed s; accepted := accepted s;
     delivered := delivered s; requests := S (requests s); reported := reported s;
     reason := reason s |}.

(** The error as the consumer sees it: quitting is none. *)
Definition as_reported (e : sub_error) : option sub_error :=
  match e with ErrClientQuit => None | _ => Some e end.

(** [sub.err <- err] *)
Definition report (e : sub_error) (s : sub) : outcome sub :=
  if err_closed s then Panic (ExplicitPanic "send on closed channel")
  else Ret {| run := Finishing; loop := loop s; unsub := unsub s; forwardDone := forwardDone s;
              unsubDone := unsubDone s; errs := errs s ++ [as_reported e];
              err_closed := err_closed s; accepted := accepted s; delivered := delivered s;
              requests := requests s; reported := reported s ++ [as_reported e];
              reason := reason s |}.

(** The deferred [close(sub.unsubDone)]. *)
Definition close_unsubDone (s : sub) : outcome sub :=
  if unsubDone s then Panic (ExplicitPanic "close of closed channel")
  else Ret {| run := Finished; loop := loop s; unsub := unsub s; forwardDone := forwardDone s;
              unsubDone := true; errs := errs s; err_closed := err_closed s;
              accepted := accepted s; delivered := delivered s; requests := requests s;
              reported := reported s; reason := reason s |}.

(** [close(sub.err)] *)
Definition close_err (s : sub) : outcome sub :=
  if err_closed s then Panic (ExplicitPanic "close of closed channel")
  else Ret {| run := run s; loop := loop s; unsub := Returned; forwardDone := forwardDone s;
              unsubDone := unsubDone s; errs := errs s; err_closed := true;
              accepted := accepted s; delivered := delivered s; requests := requests s;
              reported := reported s; reason := reason s |}.

(** The loop is not inside [deliver] or [close] of this subscription, so that
    it can carry out a request. *)
Definition loop_free (l : loop_pc) : bool :=
  match l with LIdle | LGone => true | Delivering _ | Closing _ => false end.

(** ** Steps that need nobody from outside *)

Inductive auto : sub → outcome sub → Prop :=
| s_select buffer s :
    run s = Forwarding buffer → sendable buffer = false →
    auto s (Panic (ExplicitPanic "reflect.Select: SendDir case missing Send value"))
| s_in buffer result s :
    run s = Forwarding buffer → sendable buffer = true → loop s = Delivering result →
    auto s (Ret (set_loop LIdle (on_in buffer result s)))
| s_deliver_false result s :
    loop s = Delivering result → forwardDone s = true → auto s (Ret (set_loop LIdle s))
| s_quit buffer err s :
    run s = Forwarding buffer → sendable buffer = true → loop s = Closing err →
    auto s (Ret (set_loop LGone (end_forward false (Some err) s)))
| s_close_done err s :
    loop s = Closing err → forwardDone s = true → auto s (Ret (set_loop LGone s))
| s_unsubscribe buffer s :
    run s = Forwarding buffer → sendable buffer = true → unsub s = Selecting →
    auto s (Ret (set_unsub AwaitDone (end_forward true None s)))
| s_forwardDone u err s : run s = Ended u err → auto s (close_forwardDone u err s)
| s_request err s :
    run s = Requesting err → loop_free (loop s) = true → auto s (Ret (request_done err s))
| s_no_error s : run s = Reporting None → auto s (Ret (set_run Finishing s))
| s_report e s : run s = Reporting (Some e) → errs s = [] → auto s (report e s)
| s_finish s : run s = Finishing → auto s (close_unsubDone s)
| s_unsubscribed s :
    unsub s = Selecting ∨ unsub s = AwaitDone → unsubDone s = true → auto s (close_err s).

(** ** Steps of the loop, the consumer and the caller of [Unsubscribe] *)

Inductive env : sub → sub → Prop :=
| e_deliver result s : loop s = LIdle → env s (set_loop (Delivering result) s)
| e_close err s : loop s = LIdle → env s (set_loop (Closing err) s)
| e_take v buffer s : run s = Forwarding (v :: buffer) → nil_interface v = false → env s (pop v buffer s)
| e_error e l s : errs s = e :: l → env s (set_errs l s)
| e_unsubscribe s : unsub s = NotCalled → env s (set_unsub Selecting s).

Definition auto_to (s s' : sub) : Prop := auto s (Ret s').

Inductive step : sub → sub → Prop :=
| step_auto s s' : auto s (Ret s') → step s s'
| step_env s s' : env s s' → step s s'.

(** [newClientSubscription], when [run] is started. *)
Definition newClientSubscription : sub :=
  {| run := Forwarding []; loop := LIdle; unsub := NotCalled; forwardDone := false;
     unsubDone := false; errs := []; err_closed := false; accepted := []; delivered := [];
     requests := 0; reported := []; reason := None |}.

Definition reachable (s : sub) : Prop := rtc step newClientSubscription s.
End forward.

(** * Lemmas *)

(** What the consumer is told at the end, and how often the server is asked to
    unsubscribe. *)
Definition final_report (r : option (bool * option sub_error)) : list (option sub_error) :=
  match r with Some (_, Some e) => [as_reported e] | _ => [] end.
Definition final_requests (r : option (bool * option sub_error)) : nat :=
  match r with Some (true, _) => 1 | _ => 0 end.

(** The state of the goroutine and what has happened. *)
Definition run_inv (s : sub) : Prop :=
  match run s with
  | Forwarding buffer =>
      reason s = None ∧ forwardDone s = false ∧ unsubDone s = false ∧ reported s = [] ∧ requests s = 0%nat ∧
      accepted s = delivered s ++ buffer ∧ Forall (λ v, nil_interface v = false) buffer ∧ (length buffer ≤ maxClientSubscriptionBuffer)%nat
  | Ended u e =>
      reason s = Some (u, e) ∧ forwardDone s = false ∧ unsubDone s = false ∧ reported s = [] ∧ requests s = 0%nat
  | Requesting e =>
      reason s = Some (true, e) ∧ forwardDone s = true ∧ unsubDone s = false ∧ reported s = [] ∧ requests s = 0%nat
  | Reporting e =>
      forwardDone s = true ∧ unsubDone s = false ∧ reported s = [] ∧
      (∃ u, reason s = Some (u, e)) ∧ requests s = final_requests (reason s)
  | Finishing =>
      is_Some (reason s) ∧ forwardDone s = true ∧ unsubDone s = false ∧
      reported s = final_report (reason s) ∧ requests s = final_requests (reason s)
  | Finished =>
      is_Some (reason s) ∧ forwardDone s = true ∧ unsubDone s = true ∧
      reported s = final_report (reason s) ∧ requests s = final_requests (reason s)
  end.

Record sub_inv (s : sub) : Prop := {
  si_run : run_inv s;
  si_prefix : delivered s `prefix_of` accepted s;
  si_errs : ∃ taken, reported s = taken ++ errs s;
  si_closed : err_closed s = true ↔ unsub s = Returned;
  si_returned : unsub s = Returned → unsubDone s = true;
  si_await : unsub s = AwaitDone → reason s = Some (true, None)
}.

(** The types whose values may be nil interfaces. *)
Definition interface_type (t : gty) : bool := match t with TAny | TError | TContext => true | _ => false end.

Lemma decode_not_nil ctx t j :
  interface_type t = false → nil_interface (GoValue.decode ctx t j (zero t)).1 = false.
Proof.
  intros Ht. destruct t; try done; destruct j; simpl; try done; repeat (case_match; simpl; try done);
    by simplify_eq/=.
Qed.

Lemma UnmarshalRaw_not_nil t raw v :
  interface_type t = false → UnmarshalRaw t raw (zero t) = (v, None) → nil_interface v = false.
Proof.
  intros Ht. unfold UnmarshalRaw. destruct raw as [j|]; [|done].
  pose proof (decode_not_nil None t j Ht) as Hv. destruct (GoValue.decode _ _ _ _) as [v' [e|]]; [done|].
  by intros [= <-].
Qed.

Lemma sendable_all buffer : Forall (λ v, nil_interface v = false) buffer → sendable buffer = true.
Proof. destruct 1 as [|v l Hv _]; [done|]. simpl. by rewrite Hv. Qed.

Section sub_lemmas.
Context (etype : gty) (Hety : interface_type etype = false).

Lemma initial_inv : sub_inv newClientSubscription.
Proof. split; try done; [split_and!; try done; first [by constructor|simpl; lia]|by exists []]. Qed.

(** Nothing is in the channel before the report. *)
Lemma errs_empty s : sub_inv s → reported s = [] → errs s = [].
Proof. intros I Hr. destruct (si_errs _ I) as [t Ht]. rewrite Hr in Ht. by destruct t, (errs s). Qed.

Lemma not_returned s : sub_inv s → unsubDone s = false → err_closed s = false.
Proof.
  intros I Hu. destruct (err_closed s) eqn:E; [|done].
  apply (si_closed _ I) in E. pose proof (si_returned _ I E). congruence.
Qed.

(** [forward] ends in a state that is otherwise unchanged. *)
Lemma end_forward_inv buffer u e s :
  sub_inv s → run s = Forwarding buffer → sub_inv (end_forward u e s).
Proof.
  intros [Hr Hp He Hc Hd Ha] Hrun. unfold run_inv in Hr. rewrite Hrun in Hr.
  destruct Hr as (Hre & Hf & Hu & Hrep & Hreq & Hacc & Hnil & Hlen).
  split; simpl; try done. intros Haw. specialize (Ha Haw). congruence.
Qed.

Lemma set_loop_inv l s : sub_inv s → sub_inv (set_loop l s).
Proof. by intros [Hr Hp He Hc Hd Ha]; split. Qed.

Lemma on_in_inv buffer result s :
  sub_inv s → run s = Forwarding buffer → sub_inv (on_in etype buffer result s).
Proof.
  intros I Hrun. unfold on_in.
  destruct (UnmarshalRaw _ _ _) as [v [e|]] eqn:Hv; [by eapply end_forward_inv|].
  case_decide as Hlen; [by eapply end_forward_inv|]. destruct I as [Hr Hp He Hc Hd Ha].
  unfold run_inv in Hr. rewrite Hrun in Hr. destruct Hr as (Hre & Hf & Hu & Hrep & Hreq & Hacc & Hnil & Hle).
  split; simpl; try done.
  - unfold run_inv. simpl. split_and!; try done; [by rewrite Hacc, app_assoc| |].
    { apply Forall_app_2; [done|]. apply Forall_singleton. by eapply UnmarshalRaw_not_nil. }
    rewrite length_app. simpl. lia.
  - by apply prefix_app_r.
Qed.

Lemma auto_inv s r : sub_inv s → auto etype s r → ∃ s', r = Ret s' ∧ sub_inv s'.
Proof.
  intros I A. pose proof (si_run _ I) as Hr. unfold run_inv in Hr.
  destruct A as [buffer s Hrun Hb|buffer result s Hrun Hb Hl|result s Hl Hf|buffer err s Hrun Hb Hl|err s Hl Hf|buffer s Hrun Hb Hu|
    u err s Hrun|err s Hrun Hl|s Hrun|e s Hrun He|s Hrun|s Hu Hd]; try rewrite Hrun in Hr.
  - destruct Hr as (_ & _ & _ & _ & _ & _ & Hnil & _). by rewrite (sendable_all _ Hnil) in Hb.
  - eexists. split; [done|]. by apply set_loop_inv, on_in_inv.
  - eexists. split; [done|]. by apply set_loop_inv.
  - eexists. split; [done|]. apply set_loop_inv. by eapply end_forward_inv.
  - eexists. split; [done|]. by apply set_loop_inv.
  - eexists. split; [done|]. destruct (end_forward_inv buffer true None s I Hrun) as [Hr' Hp He Hc Hd Ha].
    split; simpl in *; try done. rewrite Hc, Hu. done.
  - destruct Hr as (Hre & Hf & Hud & Hrep & Hreq). unfold close_forwardDone. rewrite Hf.
    eexists. split; [done|]. destruct I as [_ Hp He Hc Hd Ha]. split; simpl; try done.
    unfold run_inv. simpl. destruct u; simpl; split_and!; try done; [by eexists|by rewrite Hre].
  - destruct Hr as (Hre & Hf & Hud & Hrep & Hreq). eexists. split; [done|].
    destruct I as [_ Hp He Hc Hd Ha]. split; simpl; try done.
    unfold run_inv. simpl. split_and!; try done; [by eexists|by rewrite Hre, Hreq].
  - destruct Hr as (Hf & Hud & Hrep & [u Hre] & Hreq). eexists. split; [done|].
    destruct I as [_ Hp He Hc Hd Ha]. split; simpl; try done.
    unfold run_inv. simpl. rewrite Hre in *. by split_and!.
  - destruct Hr as (Hf & Hud & Hrep & [u Hre] & Hreq). pose proof (not_returned _ I Hud) as Hnr.
    unfold report. rewrite Hnr. eexists. split; [done|]. destruct I as [_ Hp He' Hc Hd Ha]. split; simpl; try done.
    + unfold run_inv. simpl. rewrite Hre, Hrep in *. by split_and!.
    + exists []. by rewrite Hrep, He.
    + by rewrite <-Hc, Hnr.
  - destruct Hr as (Hre & Hf & Hud & Hrep & Hreq). unfold close_unsubDone. rewrite Hud.
    eexists. split; [done|]. destruct I as [_ Hp He Hc Hd Ha]. split; simpl; try done.
  - assert (Hec : err_closed s = false).
    { destruct (err_closed s) eqn:E; [|done]. apply (si_closed _ I) in E. destruct Hu; congruence. }
    unfold close_err. rewrite Hec. eexists. split; [done|].
    destruct I as [Hri Hp He Hc Hd' Ha]. split; simpl; try done.
Qed.

Lemma env_inv s s' : sub_inv s → env s s' → sub_inv s'.
Proof.
  intros I E. pose proof (si_run _ I) as Hr. unfold run_inv in Hr.
  destruct E as [result s Hl|err s Hl|v buffer s Hrun Hv|e l s Hl|s Hu].
  - by apply set_loop_inv.
  - by apply set_loop_inv.
  - rewrite Hrun in Hr. destruct Hr as (Hre & Hf & Hu & Hrep & Hreq & Hacc & Hnil & Hle).
    destruct I as [_ Hp He Hc Hd Ha]. split; simpl; try done.
    + unfold run_inv. simpl in *. rewrite <-app_assoc. split_and!; try done; [by apply Forall_cons in Hnil as [_ ?]|lia].
    + rewrite Hacc. exists buffer. by rewrite <-app_assoc.
  - destruct I as [_ Hp [t He] Hc Hd Ha]. split; simpl; try done.
    exists (t ++ [e]). rewrite <-app_assoc. simpl. by rewrite <-Hl.
  - destruct I as [_ Hp He Hc Hd Ha]. split; simpl; try done. rewrite Hc, Hu. done.
Qed.

Lemma step_sub_inv s s' : sub_inv s → step etype s s' → sub_inv s'.
Proof.
  intros I S. destruct S as [s s' A|s s' E]; [|by eapply env_inv].
  by destruct (auto_inv _ _ I A) as (s2 & [= ->] & ?).
Qed.

Lemma reachable_sub_inv s : reachable etype s → sub_inv s.
Proof.
  apply (rtc_ind_r sub_inv newClientSubscription); [apply initial_inv|].
  intros s1 s2 _ S I. by eapply step_sub_inv.
Qed.
End sub_lemmas.

(** ** Progress *)

Definition run_rank (r : run_pc) : nat :=
  match r with
  | Forwarding _ => 5 | Ended _ _ => 4 | Requesting _ => 3 | Reporting _ => 2 | Finishing => 1 | Finished => 0
  end.
Definition loop_rank (l : loop_pc) : nat := if loop_free l then 0 else 1.
Definition unsub_rank (u : unsub_pc) : nat := match u with Selecting => 2 | AwaitDone => 1 | _ => 0 end.
Definition rank (s : sub) : nat := run_rank (run s) + loop_rank (loop s) + unsub_rank (unsub s).

Section progress.
Context (etype : gty) (Hety : interface_type etype = false).

Lemma on_in_rank buffer result s :
  run s = Forwarding buffer →
  (run_rank (run (on_in etype buffer result s)) ≤ 5)%nat ∧ unsub (on_in etype buffer result s) = unsub s.
Proof.
  intros Hrun. unfold on_in. destruct (UnmarshalRaw _ _ _) as [v [e|]]; simpl; [by split; [lia|]|].
  case_decide; simpl; split; done || lia.
Qed.

Lemma auto_rank s s' : auto_to etype s s' → (rank s' < rank s)%nat.
Proof.
  unfold auto_to. remember (Ret s') as r eqn:Er. intros A. unfold rank, loop_rank.
  destruct A as [buffer s Hrun Hb|buffer result s Hrun Hb Hl|result s Hl Hf|buffer err s Hrun Hb Hl|err s Hl Hf|buffer s Hrun Hb Hu|
    u err s Hrun|err s Hrun Hl|s Hrun|e s Hrun He|s Hrun|s Hu Hd]; try (injection Er as <-); try rewrite Hrun.
  - done.
  - destruct (on_in_rank buffer result s Hrun) as [Hr Hu]. simpl. rewrite Hl, Hu. simpl. lia.
  - simpl. rewrite Hl. simpl. lia.
  - simpl. rewrite Hl. simpl. lia.
  - simpl. rewrite Hl. simpl. lia.
  - simpl. rewrite Hu. simpl. lia.
  - unfold close_forwardDone in Er. destruct (forwardDone s); [done|]. injection Er as <-. destruct u; simpl; lia.
  - simpl. lia.
  - simpl. lia.
  - unfold report in Er. destruct (err_closed s); [done|]. injection Er as <-. simpl. lia.
  - unfold close_unsubDone in Er. destruct (unsubDone s); [done|]. injection Er as <-. simpl. lia.
  - unfold close_err in Er. destruct (err_closed s); [done|]. injection Er as <-. simpl. destruct Hu as [-> | ->]; simpl; lia.
Qed.

Lemma auto_wf : well_founded (flip (auto_to etype)).
Proof. apply (well_founded_lt_compat _ rank). intros s' s. apply auto_rank. Qed.

Definition stuck (s : sub) : Prop := ∀ s', ¬ auto_to etype s s'.

Lemma not_stuck s r : sub_inv s → auto etype s r → ¬ stuck s.
Proof. intros I A Hs. destruct (auto_inv _ Hety _ _ I A) as (s' & -> & _). by apply (Hs s'). Qed.

(** Where a subscription can come to rest. *)
Lemma stuck_inv s :
  sub_inv s → stuck s →
  loop_free (loop s) = true ∧ (unsub s = NotCalled ∨ unsub s = Returned) ∧
  ((∃ buffer, run s = Forwarding buffer) ∨ run s = Finished).
Proof.
  intros I Hs. pose proof (si_run _ I) as Hr. unfold run_inv in Hr.
  assert (Hno : ∀ r, ¬ auto etype s r) by (intros r A; by apply (not_stuck s r)).
  destruct (run s) as [buffer|u e|e|[e|]| |] eqn:Hrun.
  - assert (Hb : sendable buffer = true) by (apply sendable_all; by destruct Hr as (_ & _ & _ & _ & _ & _ & ? & _)).
    split_and!.
    + destruct (loop s) eqn:Hl; try done; exfalso; eapply Hno; [by eapply s_in|by eapply s_quit].
    + destruct (unsub s) eqn:Hu; auto; exfalso.
      * eapply Hno. by eapply s_unsubscribe.
      * pose proof (si_await _ I Hu). destruct Hr as (? & _). congruence.
    + left. by exists buffer.
  - exfalso. eapply Hno. by eapply s_forwardDone.
  - exfalso. destruct (loop_free (loop s)) eqn:Hl; [eapply Hno; by eapply s_request|].
    destruct Hr as (_ & Hf & _). destruct (loop s) eqn:Hl'; try done;
      eapply Hno; [by eapply s_deliver_false|by eapply s_close_done].
  - exfalso. eapply Hno. eapply s_report; [done|]. apply errs_empty; [done|]. naive_solver.
  - exfalso. eapply Hno. by eapply s_no_error.
  - exfalso. eapply Hno. by eapply s_finish.
  - destruct Hr as (_ & Hf & Hd & _). split_and!; [..|by right].
    + destruct (loop s) eqn:Hl; try done; exfalso; eapply Hno; [by eapply s_deliver_false|by eapply s_close_done].
    + destruct (unsub s) eqn:Hu; auto; exfalso; eapply Hno; eapply s_unsubscribed; auto.
Qed.
End progress.

(** * Properties *)

(** C30: When the element type of the channel is no interface type, no step of
    a subscription panics: no channel is closed twice or sent on when closed.
    While it runs, the values the consumer has got are the accepted ones
    in order, without gap, but for those in the buffer, which never holds more
    than 20000; after that they are a prefix. *)
Theorem subscription_in_order (etype : gty) (s : sub) :
  interface_type etype = false → reachable etype s →
  (∀ r, auto etype s r → ∃ s', r = Ret s') ∧
  delivered s `prefix_of` accepted s ∧
  (∀ buffer, run s = Forwarding buffer →
     accepted s = delivered s ++ buffer ∧ (length buffer ≤ 20000)%nat).
Proof.
  intros Hety Hs. pose proof (reachable_sub_inv _ Hety _ Hs) as I. split_and!.
  - intros r A. destruct (auto_inv _ Hety _ _ I A) as (s' & -> & _). by exists s'.
  - by apply si_prefix.
  - intros buffer Hrun. pose proof (si_run _ I) as Hr. unfold run_inv in Hr. rewrite Hrun in Hr.
    by destruct Hr as (_ & _ & _ & _ & _ & ? & _ & ?).
Qed.

(** Two values arrive, the first is taken, the connection is lost. *)
Definition two_arrived : sub :=
  let s := set_loop LIdle (on_in TInt [] (Some (JNum "1")) (set_loop (Delivering (Some (JNum "1"))) newClientSubscription)) in
  set_loop LIdle (on_in TInt [VInt 1] (Some (JNum "2")) (set_loop (Delivering (Some (JNum "2"))) s)).

Lemma two_arrived_reachable : reachable TInt two_arrived.
Proof.
  eapply rtc_l; [apply step_env, (e_deliver (Some (JNum "1"))); reflexivity|].
  eapply rtc_l; [apply step_auto, (s_in TInt [] (Some (JNum "1"))); reflexivity|].
  eapply rtc_l; [apply step_env, (e_deliver (Some (JNum "2"))); reflexivity|].
  eapply rtc_l; [apply step_auto, (s_in TInt [VInt 1] (Some (JNum "2"))); reflexivity|].
  apply rtc_refl.
Defined.

Example subscription_in_order_witness :
  accepted two_arrived = [VInt 1; VInt 2] ∧ delivered two_arrived = [] ∧
    accepted two_arrived = delivered two_arrived ++ [VInt 1; VInt 2].
Proof.
  destruct (subscription_in_order TInt two_arrived eq_refl two_arrived_reachable) as (_ & _ & Hb).
  split_and!; [reflexivity|reflexivity|]. by apply (Hb [VInt 1; VInt 2]).
Defined.


(** The consumer unsubscribes while two values wait. *)
Definition unsubscribing : sub := set_unsub Selecting two_arrived.

Definition unsubscribed : sub :=
  {| run := Finished; loop := LIdle; unsub := Returned; forwardDone := true; unsubDone := true;
     errs := []; err_closed := true; accepted := [VInt 1; VInt 2]; delivered := []; requests := 1;
     reported := []; reason := Some (true, None) |}.

Lemma auto_goes etype s r s' : auto etype s r → r = Ret s' → auto_to etype s s'.
Proof. by intros ? ->. Defined.

Lemma unsubscribing_run : rtc (auto_to TInt) unsubscribing unsubscribed.
Proof.
  eapply rtc_l; [eapply auto_goes; [apply (s_unsubscribe TInt [VInt 1; VInt 2]); reflexivity|reflexivity]|].
  eapply rtc_l; [eapply auto_goes; [apply (s_forwardDone TInt true None); reflexivity|reflexivity]|].
  eapply rtc_l; [eapply auto_goes; [apply (s_request TInt None); reflexivity|reflexivity]|].
  eapply rtc_l; [eapply auto_goes; [apply (s_no_error TInt); reflexivity|reflexivity]|].
  eapply rtc_l; [eapply auto_goes; [apply (s_finish TInt); reflexivity|reflexivity]|].
  eapply rtc_l; [eapply auto_goes; [apply (s_unsubscribed TInt); [right|]; reflexivity|reflexivity]|].
  apply rtc_refl.
Defined.


(** A channel of interfaces: the value null, which a server may send, becomes a
    nil interface in the buffer, and the goroutine panics at its next select. *)
Theorem null_notification_panics :
  ∃ s, reachable TAny s ∧
    auto TAny s (Panic (ExplicitPanic "reflect.Select: SendDir case missing Send value")).
Proof.
  eexists. split.
  - eapply rtc_l; [apply step_env, (e_deliver (Some JNull)); reflexivity|].
    eapply rtc_l; [apply step_auto, (s_in TAny [] (Some JNull)); reflexivity|].
    apply rtc_refl.
  - apply (s_select TAny [VAny None]); reflexivity.
Qed.
