(* ===== verification/SubEndToEnd.v ===== *)
(** * Package rpc, a subscription from end to end (src/rpc/client.go, subscription.go)

    The read loop of the client ([read] with the cases of [dispatch] it feeds),
    and its composition with the notifier of the server and the subscription of
    the client. *)

From S2P Require Import Prelude Strconv GoJson GoValue JsonRound GoRound RpcErrors RpcJson RpcWire RpcPending.
From S2P Require Import RpcSubscription RpcNotifier.

(** [read]: messages are read and handed to the loop until an error; the
    result is what could not be read. *)
Fixpoint read (fuel : nat) (batchItemLimit : Z) (stream : string) : GoM pending string :=
  match fuel with
  | O => mret stream
  | S fuel' =>
      match readBatch stream with
      | None => mret stream
      | Some (msgs, batch, rest) =>
          _ ← incoming batchItemLimit batch msgs;
          read fuel' batchItemLimit rest
      end
  end.

(** [json.Encoder.Encode] of a message: its text and a newline. *)
Definition encoded (msg : jsonrpcMessage) : string := String_msg msg +:+ String (chr 10) "".

Definition stream_of (msgs : list jsonrpcMessage) : string := String.concat "" (encoded <$> msgs).

(** The loop hands a value to a subscription that forwards. *)
Definition hand (etype : gty) (s : sub) (result : option json) : sub :=
  match run s with
  | Forwarding buffer => set_loop LIdle (on_in etype buffer result (set_loop (Delivering result) s))
  | _ => s
  end.

(** * Lemmas *)

Lemma stream_cons msg msgs : stream_of (msg :: msgs) = String_msg msg +:+ String (chr 10) (stream_of msgs).
Proof.
  unfold stream_of. rewrite fmap_cons.
  assert (Hc : ∀ a l, String.concat "" (a :: l) = a +:+ String.concat "" l).
  { intros a l. simpl. destruct l; [by rewrite string_app_nil_r|done]. }
  rewrite Hc. unfold encoded. by rewrite <-string_app_assoc.
Qed.

(** White space before a message is skipped. *)
Lemma pval_newline n s : pval (S n) (String (chr 10) s) = pval (S n) s.
Proof. done. Qed.

Lemma next_raw_newline j rest :
  wf_json j → delim rest → next_raw (String (chr 10) (print j +:+ rest)) = Some (print j, rest).
Proof.
  intros Hj Hr. unfold next_raw, parse_next. rewrite pval_newline, print_reads; [|done|done|].
  2: { simpl. rewrite string_length_app. lia. }
  cbn [String.length]. rewrite string_length_app.
  replace (S (String.length (print j) + String.length rest) - String.length rest)%nat
    with (S (String.length (print j))) by lia.
  assert (Hsub : ∀ s, String.substring 0 (String.length s) (s +:+ rest) = s).
  { intros s. induction s as [|c s IH]; [by destruct rest|]. simpl. f_equal. exact IH. }
  simpl. rewrite Hsub. pose proof (print_head j "" Hj) as Hh. rewrite string_app_nil_r in Hh.
  by rewrite skip_ws_head.
Qed.

Lemma readBatch_newline m rest :
  msg_ok m → delim rest →
  readBatch (String (chr 10) (String_msg m +:+ rest)) = readBatch (String_msg m +:+ rest).
Proof.
  intros Hm Hr. destruct (msg_wire m Hm) as (l & He & Hl & _). unfold String_msg. rewrite He.
  pose proof (marshalled_wf _ Hl) as Hwf. unfold readBatch.
  by rewrite next_raw_newline, next_raw_print.
Qed.

(** The values join the events of the client. *)
Definition with_events (l : list sub_event) (p : pending) : pending :=
  {| ops := ops p; subs := subs p; events := events p ++ l; respWait := respWait p;
     clientSubs := clientSubs p |}.

Lemma notification_ok namespace id data :
  valid_utf8 namespace → valid_utf8 id → marshalled data → msg_ok (notification namespace id data).
Proof.
  intros Hn Hi Hd. destruct (notification_params id data Hi Hd) as (j & Hj & Hm & _).
  unfold notification. rewrite Hj. split; simpl; try done.
  - by apply is_ascii_valid.
  - apply valid_utf8_app; [done|by apply is_ascii_valid].
  - by intros ? [= <-].
Qed.

Section stream.
Context (namespace id : string) (limit : Z) (i : nat).
Context (Hns : valid_utf8 namespace) (Hid : valid_utf8 id).

Lemma newline_delim text : delim (String (chr 10) text).
Proof. by vm_compute. Qed.

Lemma read_notifications l p pre :
  (pre = "" ∨ pre = String (chr 10) "") → Forall marshalled l → clientSubs p !! id = Some i →
  ∃ rest, skip_ws rest = "" ∧
    read (S (length l)) limit (pre +:+ stream_of (notification namespace id <$> l)) p =
      (Ret rest, with_events ((λ d, Deliver i (Some d)) <$> l) p).
Proof.
  intros Hpre Hl. revert p pre Hpre. induction Hl as [|d l Hd _ IH]; intros p pre Hpre Hp.
  - exists pre. destruct Hpre as [-> | ->]; (split; [done|]); simpl; unfold with_events; rewrite app_nil_r; by destruct p.
  - rewrite fmap_cons, stream_cons. set (m := notification namespace id d).
    set (tail := String (chr 10) (stream_of (notification namespace id <$> l))).
    assert (Hread : readBatch (pre +:+ (String_msg m +:+ tail)) = Some ([m], false, tail)).
    { destruct (notification_delivered namespace id d limit tail p Hns Hid Hd (newline_delim _)) as [Hr _].
      destruct Hpre as [-> | ->]; [exact Hr|].
      transitivity (readBatch (String_msg m +:+ tail)); [|exact Hr].
      apply readBatch_newline; [by apply notification_ok|apply newline_delim]. }
    destruct (notification_delivered namespace id d limit tail p Hns Hid Hd (newline_delim _)) as [_ Hin].
    rewrite Hp in Hin. cbn [length]. change (S (S (length l))) with (S (S (length l))).
    cbn [read]. rewrite Hread, (bind_eq _ _ _ _ _ Hin).
    destruct (IH (add_event (Deliver i (Some d)) p) (String (chr 10) "")) as (rest & Hrest & E); [by right|done|].
    exists rest. split; [done|].
    transitivity (read (S (length l)) limit (String (chr 10) "" +:+ stream_of (notification namespace id <$> l))
      (add_event (Deliver i (Some d)) p)); [reflexivity|]. rewrite E. unfold with_events, add_event. simpl.
    by rewrite <-app_assoc.
Qed.
End stream.

(** The subscription takes what it is handed while its buffer has room. *)
Lemma hand_all etype ds vs s buffer :
  interface_type etype = false →
  Forall2 (λ d v, UnmarshalRaw etype (Some d) (zero etype) = (v, None)) ds vs →
  reachable etype s → run s = Forwarding buffer → loop s = LIdle →
  (length buffer + length ds ≤ maxClientSubscriptionBuffer)%nat →
  let s' := foldl (λ s d, hand etype s (Some d)) s ds in
  reachable etype s' ∧ run s' = Forwarding (buffer ++ vs) ∧ accepted s' = accepted s ++ vs.
Proof.
  intros Hety Hds. revert s buffer. induction Hds as [|d v ds vs Hd _ IH]; intros s buffer Hs Hrun Hl Hlen.
  - simpl. by rewrite !app_nil_r.
  - cbn [foldl]. set (s1 := set_loop (Delivering (Some d)) s).
    assert (H1 : reachable etype s1).
    { unfold reachable. apply (rtc_r _ s); [exact Hs|]. apply step_env, e_deliver, Hl. }
    assert (Hb : sendable buffer = true).
    { pose proof (si_run _ (reachable_sub_inv _ Hety _ Hs)) as Hi. unfold run_inv in Hi. rewrite Hrun in Hi.
      apply sendable_all. by destruct Hi as (_ & _ & _ & _ & _ & _ & ? & _). }
    assert (E : hand etype s (Some d) = set_loop LIdle (push buffer v s1)).
    { unfold hand. rewrite Hrun. fold s1. unfold on_in. rewrite Hd.
      rewrite decide_False; [done|]. simpl in Hlen. lia. }
    rewrite E. destruct (IH (set_loop LIdle (push buffer v s1)) (buffer ++ [v])) as (Hr & Hf & Ha).
    + unfold reachable. apply (rtc_r _ s1); [exact H1|]. apply step_auto. rewrite <-E. unfold hand.
      rewrite Hrun. fold s1. by apply (s_in etype buffer (Some d) s1).
    + done.
    + done.
    + rewrite length_app. simpl in *. lia.
    + split; [done|]. rewrite Hf, Ha. simpl. by rewrite <-!app_assoc.
Qed.

(** * Properties *)

(** A subscription from end to end. Whatever a callback does with its
    notifier, the stream the server has written when the handler has activated
    it, read by the client, hands the subscription of that id the values given
    to [Notify], each once and in order; and the subscription, as long as they
    fit its buffer, has them decoded, in order, for its consumer. *)
Theorem notifications_end_to_end {K} `{!Conn K} `{!ConnLaws K} (namespace id : string) (k : K)
    (ops : list notifier_op) (s : nstate K) (limit : Z) (p : pending) (i : nat) (etype : gty) (vs : list gval) :
  run_ops ops (new_notifier namespace k) = (Ret tt, s) → activations ops = 1%nat →
  written k = [] → n_sub (notifier s) = Some id →
  valid_utf8 namespace → valid_utf8 id → Forall marshalled (payloads ops) →
  clientSubs p !! id = Some i → interface_type etype = false →
  Forall2 (λ d v, UnmarshalRaw etype (Some d) (zero etype) = (v, None)) (payloads ops) vs →
  (length (payloads ops) ≤ 20000)%nat →
  (∃ rest, skip_ws rest = "" ∧
     read (S (length (payloads ops))) limit (stream_of (written (conn s))) p =
       (Ret rest, with_events ((λ d, Deliver i (Some d)) <$> payloads ops) p)) ∧
  let c := foldl (λ c d, hand etype c (Some d)) newClientSubscription (payloads ops) in
  reachable etype c ∧ run c = Forwarding vs ∧ accepted c = vs.
Proof.
  intros Hrun Hact Hk Hsub Hns Hid Hl Hp Hety Hvs Hlen.
  destruct (run_ops_told namespace k ops s ltac:(lia) Hrun) as [_ Ha _ _ Hw]. split.
  - rewrite Hact in Ha. rewrite (Hw Ha), Hk, Hsub. simpl.
    by apply (read_notifications namespace id limit i Hns Hid (payloads ops) p ""); [left|..].
  - by apply (hand_all etype (payloads ops) vs newClientSubscription []); [..|apply rtc_refl| | |].
Qed.

Example notifications_end_to_end_witness :
  let C := log_conn in
  let ops := [OpCreate; OpNotify "0x7" (TInt, VInt 1); OpTake; OpActivate; OpNotify "0x7" (TInt, VInt 2)] in
  let stream := stream_of [notification "eth" "0x7" (JNum "1"); notification "eth" "0x7" (JNum "2")] in
  let p := {| ops := ∅; subs := ∅; events := []; respWait := ∅; clientSubs := {["0x7" := 3%nat]} |} in
  (∃ rest, skip_ws rest = "" ∧
     read 3 0 stream p = (Ret rest, with_events [Deliver 3 (Some (JNum "1")); Deliver 3 (Some (JNum "2"))] p)) ∧
  let c := foldl (λ c d, hand TInt c (Some d)) newClientSubscription [JNum "1"; JNum "2"] in
  reachable TInt c ∧ run c = Forwarding [VInt 1; VInt 2] ∧ accepted c = [VInt 1; VInt 2].
Proof.
  intros C ops stream p.
  set (s := snd (run_ops ops (new_notifier "eth" []))).
  apply (notifications_end_to_end (ConnLaws0 := log_laws) "eth" "0x7" [] ops s 0 p 3 TInt [VInt 1; VInt 2]).
  - vm_compute. reflexivity.
  - reflexivity.
  - reflexivity.
  - vm_compute. reflexivity.
  - by apply is_ascii_valid.
  - by apply is_ascii_valid.
  - repeat constructor; exact (num_ok_FormatInt 1) || exact (num_ok_FormatInt 2).
  - reflexivity.
  - reflexivity.
  - repeat constructor.
  - apply Nat.leb_le. reflexivity.
Defined.
