(* ===== verification/HttpHeader.v ===== *)
(** * Go standard library used as data: http.Header

    The header map with canonical keys ([net/textproto]): [Get], [Set],
    [Add], [Clone] and [http.CanonicalHeaderKey].  A nil map and an empty one
    are told apart only where the program does. *)

From S2P Require Import Prelude.

(** The bytes of a header name: the tokens of RFC 7230. *)
Definition validHeaderFieldByte (c : ascii) : bool :=
  in_range 97 122 c || in_range 65 90 c || in_range 48 57 c || string_mem c "!#$%&'*+-.^_`|~".

Definition upper_ascii (c : ascii) : ascii :=
  if in_range 97 122 c then chr (code c - 32) else c.

(** The loop of [canonicalMIMEHeaderKey]: upper case at the start and after a
    hyphen, lower case elsewhere. *)
Fixpoint canonical_loop (upper : bool) (s : string) : string :=
  match s with
  | EmptyString => ""
  | String c r =>
      let c' := if upper then upper_ascii c else lower_ascii c in
      String c' (canonical_loop (bool_decide (c' = "-"%char)) r)
  end.

Fixpoint string_forallb (f : ascii → bool) (s : string) : bool :=
  match s with
  | EmptyString => true
  | String c r => f c && string_forallb f r
  end.

(** A key with another byte is returned as it is. *)
Definition CanonicalHeaderKey (s : string) : string :=
  if string_forallb validHeaderFieldByte s then canonical_loop true s else s.

Abbreviation Header := (gmap string (list string)).

(** [h.Values(key)], nil when absent. *)
Definition Values (h : Header) (key : string) : list string :=
  default [] (h !! CanonicalHeaderKey key).

(** The first value, or the empty text. *)
Definition Get (h : Header) (key : string) : string :=
  match Values h key with v :: _ => v | [] => "" end.

Definition SetKey (key value : string) (h : Header) : Header :=
  <[CanonicalHeaderKey key := [value]]> h.

Definition AddKey (key value : string) (h : Header) : Header :=
  <[CanonicalHeaderKey key := Values h key ++ [value]]> h.

Definition canonical (key : string) : Prop := CanonicalHeaderKey key = key.

#[export] Instance canonical_dec key : Decision (canonical key) := decide (_ = _).

(** * Lemmas *)

Lemma upper_ascii_idem c : upper_ascii (upper_ascii c) = upper_ascii c.
Proof.
  unfold upper_ascii. destruct (in_range 97 122 c) eqn:E; [|by rewrite E].
  apply in_range_spec in E. destruct (in_range 97 122 (chr (code c - 32))) eqn:E'; [|done].
  apply in_range_spec in E'. rewrite code_chr in E'; lia.
Qed.

Lemma lower_ascii_idem c : lower_ascii (lower_ascii c) = lower_ascii c.
Proof.
  unfold lower_ascii. destruct (in_range 65 90 c) eqn:E; [|by rewrite E].
  apply in_range_spec in E. destruct (in_range 65 90 (chr (code c + 32))) eqn:E'; [|done].
  apply in_range_spec in E'. rewrite code_chr in E'; lia.
Qed.

Lemma canonical_loop_idem upper s : canonical_loop upper (canonical_loop upper s) = canonical_loop upper s.
Proof.
  revert upper. induction s as [|c r IH]; intros upper; [done|]. cbn [canonical_loop].
  destruct upper; by rewrite ?upper_ascii_idem, ?lower_ascii_idem, IH.
Qed.

(** Changing the case of letters keeps a byte valid. *)
Lemma valid_upper c : validHeaderFieldByte c = true → validHeaderFieldByte (upper_ascii c) = true.
Proof.
  intros Hc. unfold upper_ascii. destruct (in_range 97 122 c) eqn:E; [|done].
  apply in_range_spec in E. unfold validHeaderFieldByte.
  replace (in_range 65 90 (chr (code c - 32))) with true; [by rewrite orb_true_r|].
  symmetry. apply in_range_spec. rewrite code_chr; lia.
Qed.

Lemma valid_lower c : validHeaderFieldByte c = true → validHeaderFieldByte (lower_ascii c) = true.
Proof.
  intros Hc. unfold lower_ascii. destruct (in_range 65 90 c) eqn:E; [|done].
  apply in_range_spec in E. unfold validHeaderFieldByte.
  replace (in_range 97 122 (chr (code c + 32))) with true; [done|].
  symmetry. apply in_range_spec. rewrite code_chr; lia.
Qed.

Lemma canonical_loop_valid upper s :
  string_forallb validHeaderFieldByte s = true →
  string_forallb validHeaderFieldByte (canonical_loop upper s) = true.
Proof.
  revert upper. induction s as [|c r IH]; intros upper; [done|]. cbn [canonical_loop string_forallb].
  rewrite !andb_true_iff. intros [Hc Hr]. split; [|by apply IH].
  destruct upper; [by apply valid_upper|by apply valid_lower].
Qed.

(** Canonical keys stay as they are. *)
Lemma CanonicalHeaderKey_idem s : canonical (CanonicalHeaderKey s).
Proof.
  unfold canonical, CanonicalHeaderKey.
  destruct (string_forallb validHeaderFieldByte s) eqn:E; [|by rewrite E].
  by rewrite canonical_loop_valid, canonical_loop_idem.
Qed.
#[export] Hint Resolve CanonicalHeaderKey_idem : header.

Lemma canonical_insert_lookup k key (vs : list string) (h : Header) :
  <[CanonicalHeaderKey key := vs]> h !! k =
  if decide (CanonicalHeaderKey key = k) then Some vs else h !! k.
Proof. rewrite lookup_insert. by case_decide. Qed.
