(* ===== verification/HttpGzip.v ===== *)
(** * Response compression and CORS (src/server/rpcstack.go [newGzipHandler])

    What a handler writes to an [http.ResponseWriter], with and without the
    compressing writer around it, and what the client makes of it.  The
    compressor of compress/gzip chooses its bytes freely: it is a parameter with
    the laws of its documentation.  The connection is taken not to break. *)

From S2P Require Import Prelude Strconv HttpHeader RpcErrors RpcJson HttpConn HttpStack.

Abbreviation slen s := (Z.of_nat (String.length s)).

(** ** The writer of net/http *)

Record response := {
  handlerHeader : Header;
  answered : option (Z * Header);   (* the status and the headers that were sent *)
  limit : option Z;                 (* the announced length *)
  taken : Z;
  body : string
}.

Definition new_response : response :=
  {| handlerHeader := ∅; answered := None; limit := None; taken := 0; body := "" |}.

Definition set_handlerHeader (h : Header) (r : response) : response :=
  {| handlerHeader := h; answered := answered r; limit := limit r; taken := taken r; body := body r |}.

Definition DelKey (key : string) (h : Header) : Header := delete (CanonicalHeaderKey key) h.

(** The headers are taken as they are now; a Content-Length that is not a
    number is dropped. *)
Definition resp_WriteHeader (status : Z) (r : response) : response :=
  match answered r with
  | Some _ => r
  | None =>
      let h := handlerHeader r in
      let cl := match ParseInt (Get h "content-length") with
                | (n, None) => if 0 <=? n then Some n else None
                | _ => None
                end in
      {| handlerHeader := h;
         answered := Some (status, if decide (cl = None) then DelKey "content-length" h else h);
         limit := cl; taken := taken r; body := body r |}
  end.

Definition bodyAllowed (status : Z) : bool :=
  negb ((100 <=? status) && (status <=? 199) || (status =? 204) || (status =? 304)).

Definition allows (r : response) : bool :=
  match answered r with Some (status, _) => bodyAllowed status | None => true end.

(** How many bytes were accepted: none beyond the announced length. *)
Definition resp_Write (b : string) (r : response) : response * Z :=
  let r := resp_WriteHeader 200 r in
  if decide (b = "") then (r, 0)
  else if negb (allows r) then (r, 0)
  else
    let n := taken r + slen b in
    let over := match limit r with Some cl => cl <? n | None => false end in
    ({| handlerHeader := handlerHeader r; answered := answered r; limit := limit r; taken := n;
        body := if over then body r else body r +:+ b |},
     if over then 0 else slen b).

Definition resp_Flush (r : response) : response := resp_WriteHeader 200 r.

(** ** compress/gzip *)

Inductive gz_event := GWrite (b : string) | GFlush | GClose.

(** The texts a writer passes on for a call after the earlier calls, and the
    decompressor. *)
Class GzipLib := {
  gz_chunks : list gz_event → gz_event → list string;
  gunzip : string → option string
}.

Record gzipWriter := { events : list gz_event; gz_closed : bool; gz_failed : bool }.

(** What was written through. *)
Fixpoint gz_content (evs : list gz_event) : string :=
  match evs with
  | GWrite b :: evs' => b +:+ gz_content evs'
  | _ :: evs' => gz_content evs'
  | [] => ""
  end.

(** Writing stops at the first text that is refused. *)
Fixpoint send_chunks (cs : list string) (r : response) : response * bool :=
  match cs with
  | [] => (r, true)
  | c :: cs' =>
      let '(r, n) := resp_Write c r in
      if n =? slen c then send_chunks cs' r else (r, false)
  end.

Section gzip.
Context `{!GzipLib}.

(** Everything a writer passes on for a sequence of calls. *)
Fixpoint gz_stream_from (past evs : list gz_event) : string :=
  match evs with
  | [] => ""
  | e :: evs' => String.concat "" (gz_chunks past e) +:+ gz_stream_from (past ++ [e]) evs'
  end.
Definition gz_stream : list gz_event → string := gz_stream_from [].

(** The documented behaviour: the header of the stream is written by the first
    call, and a closed stream is decompressed to what was written. *)
Record gzip_laws : Prop := {
  gz_head e : ∃ c cs, gz_chunks [] e = c :: cs ∧ c ≠ "";
  gz_round evs : GClose ∉ evs → gunzip (gz_stream (evs ++ [GClose])) = Some (gz_content evs)
}.

Definition is_close (e : gz_event) : bool := match e with GClose => true | _ => false end.

(** A call of the writer: nothing happens on one that is closed or failed. *)
Definition gz_call (e : gz_event) (z : gzipWriter) (r : response) : gzipWriter * response :=
  if gz_closed z || gz_failed z then (z, r)
  else
    let '(r, ok) := send_chunks (gz_chunks (events z) e) r in
    ({| events := events z ++ [e]; gz_closed := is_close e; gz_failed := negb ok |}, r).

(** [z.Write]: how many bytes were accepted. *)
Definition gz_Write (b : string) (z : gzipWriter) (r : response) : gzipWriter * response * Z :=
  let '(z', r') := gz_call (GWrite b) z r in
  (z', r', if gz_closed z || gz_failed z' then 0 else slen b).

(** ** [gzipResponseWriter] *)

Record gzipResponseWriter := {
  resp : response;
  gz : option gzipWriter;
  contentLength : Z;
  written : Z;
  hasLength : bool;
  inited : bool
}.

Definition wrapper (r : response) : gzipResponseWriter :=
  {| resp := r; gz := None; contentLength := 0; written := 0; hasLength := false; inited := false |}.

Definition set_resp (r : response) (w : gzipResponseWriter) : gzipResponseWriter :=
  {| resp := r; gz := gz w; contentLength := contentLength w; written := written w;
     hasLength := hasLength w; inited := inited w |}.

(** The headers and the writer of a compressed response; the writer of the
    pool is reset. *)
Definition compressed (h : Header) : Header := SetKey "content-encoding" "gzip" (DelKey "content-length" h).
Definition fresh_gz : gzipWriter := {| events := []; gz_closed := false; gz_failed := false |}.

Definition init (w : gzipResponseWriter) : gzipResponseWriter :=
  if inited w then w
  else
    let hdr := handlerHeader (resp w) in
    let length := Get hdr "content-length" in
    let '(has, len) :=
      if decide (length = "") then (hasLength w, contentLength w)
      else match ParseUint length with
           | (n, Some _) => (true, n)
           | (_, None) => (hasLength w, contentLength w)
           end in
    let passthrough := bool_decide (Get hdr "transfer-encoding" = "identity") in
    {| resp := if passthrough then resp w else set_handlerHeader (compressed hdr) (resp w);
       gz := if passthrough then gz w else Some fresh_gz;
       contentLength := len; written := written w; hasLength := has; inited := true |}.

Definition WriteHeader (status : Z) (w : gzipResponseWriter) : gzipResponseWriter :=
  let w := init w in set_resp (resp_WriteHeader status (resp w)) w.

Definition Write (b : string) (w : gzipResponseWriter) : gzipResponseWriter * Z :=
  let w := init w in
  match gz w with
  | None => let '(r, n) := resp_Write b (resp w) in (set_resp r w, n)
  | Some z =>
      let '(z, r, n) := gz_Write b z (resp w) in
      let written := to_uint64 (written w + n) in
      let '(z, r) := if hasLength w && (contentLength w <=? written) then gz_call GClose z r else (z, r) in
      ({| resp := r; gz := Some z; contentLength := contentLength w; written := written;
          hasLength := hasLength w; inited := inited w |}, n)
  end.

Definition Flush (w : gzipResponseWriter) : gzipResponseWriter :=
  match gz w with
  | Some z =>
      let '(z, r) := gz_call GFlush z (resp w) in
      {| resp := resp_Flush r; gz := Some z; contentLength := contentLength w; written := written w;
         hasLength := hasLength w; inited := inited w |}
  | None => set_resp (resp_Flush (resp w)) w
  end.

Definition close (w : gzipResponseWriter) : gzipResponseWriter :=
  match gz w with
  | None => w
  | Some z =>
      {| resp := (gz_call GClose z (resp w)).2; gz := None; contentLength := contentLength w;
         written := written w; hasLength := hasLength w; inited := inited w |}
  end.

(** ** Handlers *)

(** What a handler does with its writer; [Header] gives the headers of the
    connection with both writers. *)
Inductive op :=
| OHeader (key value : string)      (* w.Header().Set *)
| OWriteHeader (status : Z)
| OWrite (b : string)
| OFlush.

Definition direct_op (r : response) (o : op) : response :=
  match o with
  | OHeader k v => set_handlerHeader (SetKey k v (handlerHeader r)) r
  | OWriteHeader status => resp_WriteHeader status r
  | OWrite b => (resp_Write b r).1
  | OFlush => resp_Flush r
  end.

Definition wrapped_op (w : gzipResponseWriter) (o : op) : gzipResponseWriter :=
  match o with
  | OHeader k v => set_resp (set_handlerHeader (SetKey k v (handlerHeader (resp w))) (resp w)) w
  | OWriteHeader status => WriteHeader status w
  | OWrite b => (Write b w).1
  | OFlush => Flush w
  end.

(** net/http answers 200 when the handler wrote nothing. *)
Definition finish (r : response) : response := resp_WriteHeader 200 r.

Definition run_direct (ops : list op) : response := finish (foldl direct_op new_response ops).
Definition run_wrapped (ops : list op) : response :=
  finish (resp (close (foldl wrapped_op (wrapper new_response) ops))).

(** [gzip_wraps]: the client accepts it. *)
Definition newGzipHandler (r : request) (next : list op) : response :=
  if gzip_wraps r then run_wrapped next else run_direct next.

(** ** What the handlers of the service write *)

Definition http_Error (code : Z) (text : string) : list op :=
  [OHeader "Content-Type" "text/plain; charset=utf-8"; OHeader "X-Content-Type-Options" "nosniff";
   OWriteHeader code; OWrite text].

(** The encoder of [newHTTPServerConn]: an error response announces its length,
    turns compression off and is flushed. *)
Definition encoder_ops (w : string * bool) : list op :=
  if w.2
  then [OHeader "content-length" (FormatInt (slen w.1)); OHeader "transfer-encoding" "identity";
        OWrite w.1; OFlush]
  else [OWrite w.1].

(** A reply with the texts the RPC server wrote and whether they are error
    responses; a status without a text is only a header. *)
Definition reply_ops (reply : stack_reply) (texts : list (string * bool)) : list op :=
  let answer code text := if decide (text = "") then [OWriteHeader code] else http_Error code text in
  match reply with
  | Answered code text | ByRpc (Status code text) => answer code text
  | Preflight => [OWriteHeader 204]
  | Upgraded => []
  | ByRpc Served => OHeader "content-type" contentType :: (texts ≫= encoder_ops)
  end.

(** The client decodes what it is told to decode. *)
Definition client_view (r : response) : option (Z * string) :=
  '(status, h) ← answered r;
  if bool_decide (Get h "content-encoding" = "gzip") && negb (bool_decide (body r = ""))
  then b ← gunzip (body r); Some (status, b)
  else Some (status, body r).
End gzip.

(** ** What a handler may do *)

Definition ok_op (o : op) : Prop :=
  match o with
  | OHeader k _ => CanonicalHeaderKey k ≠ "Content-Encoding"
  | OWriteHeader status => 200 ≤ status ≤ 999
  | _ => True
  end.

Definition op_length (o : op) : Z := match o with OWrite b => slen b | _ => 0 end.
Definition total (ops : list op) : Z := foldr (λ o n, op_length o + n) 0 ops.

(** The announced length is none or a number that covers what follows. *)
Definition length_fits (cl : string) (n : Z) : bool :=
  bool_decide (cl = "") || match ParseUint cl with (m, None) => n <=? m | _ => false end.

(** The first output is no flush, and compression is turned off before or the
    length fits. *)
Fixpoint fits (h : Header) (ops : list op) : bool :=
  match ops with
  | [] => true
  | OHeader k v :: ops' => fits (SetKey k v h) ops'
  | OFlush :: _ => false
  | _ =>
      bool_decide (Get h "transfer-encoding" = "identity") || length_fits (Get h "content-length") (total ops)
  end.

(** * Lemmas *)

(** ** Headers *)

Lemma Get_SetKey_ne k k' v h :
  CanonicalHeaderKey k ≠ CanonicalHeaderKey k' → Get (SetKey k v h) k' = Get h k'.
Proof. intros Hne. unfold Get, Values, SetKey. by rewrite lookup_insert_ne. Qed.

Lemma Get_SetKey k v h : Get (SetKey k v h) k = v.
Proof. unfold Get, Values, SetKey. by rewrite lookup_insert_eq. Qed.

Lemma Get_DelKey k h : Get (DelKey k h) k = "".
Proof. unfold Get, Values, DelKey. by rewrite lookup_delete_eq. Qed.

Lemma Get_DelKey_ne k k' h :
  CanonicalHeaderKey k ≠ CanonicalHeaderKey k' → Get (DelKey k h) k' = Get h k'.
Proof. intros Hne. unfold Get, Values, DelKey. by rewrite lookup_delete_ne. Qed.

Lemma Get_compressed h :
  Get (compressed h) "content-encoding" = "gzip" ∧ Get (compressed h) "content-length" = "".
Proof.
  unfold compressed. split; [apply Get_SetKey|]. rewrite Get_SetKey_ne by done. apply Get_DelKey.
Qed.

(** ** The writer of net/http *)

Definition grow (b : string) (r : response) : response :=
  {| handlerHeader := handlerHeader r; answered := answered r; limit := limit r;
     taken := taken r + slen b; body := body r +:+ b |}.

Lemma grow_empty r : grow "" r = r.
Proof. destruct r. unfold grow. cbn. by rewrite string_app_nil_r, Z.add_0_r. Qed.

Lemma slen_app a b : slen (a +:+ b) = slen a + slen b.
Proof. induction a as [|c a IH]; [done|]. rewrite string_app_cons. cbn [String.length]. lia. Qed.

Lemma grow_grow a b r : grow b (grow a r) = grow (a +:+ b) r.
Proof. unfold grow. cbn. rewrite slen_app, <-string_app_assoc. f_equal. lia. Qed.

Lemma WriteHeader_answered s r p : answered r = Some p → resp_WriteHeader s r = r.
Proof. intros H. unfold resp_WriteHeader. by rewrite H. Qed.

Lemma answered_WriteHeader s r : is_Some (answered (resp_WriteHeader s r)).
Proof. unfold resp_WriteHeader. destruct (answered r) eqn:E; [by rewrite E|by eexists]. Qed.

Lemma WriteHeader_twice s s' r : resp_WriteHeader s' (resp_WriteHeader s r) = resp_WriteHeader s r.
Proof. destruct (answered_WriteHeader s r) as [p E]. by apply (WriteHeader_answered _ _ p). Qed.

Lemma resp_Write_header b r : resp_Write b r = resp_Write b (resp_WriteHeader 200 r).
Proof. unfold resp_Write. by rewrite WriteHeader_twice. Qed.

Lemma resp_Write_grow b r st h :
  answered r = Some (st, h) → bodyAllowed st = true →
  (∀ cl, limit r = Some cl → taken r + slen b ≤ cl) → resp_Write b r = (grow b r, slen b).
Proof.
  intros Ha Hb Hl. unfold resp_Write. rewrite (WriteHeader_answered _ _ _ Ha).
  case_decide as He; [by subst b; rewrite grow_empty|]. unfold allows. rewrite Ha, Hb. cbn [negb].
  destruct (limit r) as [cl|] eqn:E.
  2: { unfold grow. rewrite E, Ha. done. }
  rewrite (proj2 (Z.ltb_ge _ _)) by (by apply Hl). unfold grow. by rewrite E, Ha.
Qed.

Lemma resp_Write_refused b r st h :
  answered r = Some (st, h) → bodyAllowed st = false → resp_Write b r = (r, 0).
Proof.
  intros Ha Hb. unfold resp_Write. rewrite (WriteHeader_answered _ _ _ Ha). case_decide; [done|].
  unfold allows. by rewrite Ha, Hb.
Qed.

Lemma concat_cons (c : string) cs : String.concat "" (c :: cs) = c +:+ String.concat "" cs.
Proof. destruct cs as [|d cs]; [cbn; by rewrite string_app_nil_r|done]. Qed.

Lemma send_chunks_grow cs r st h :
  answered r = Some (st, h) → bodyAllowed st = true → limit r = None →
  send_chunks cs r = (grow (String.concat "" cs) r, true).
Proof.
  intros Ha Hb. revert r Ha. induction cs as [|c cs IH]; intros r Ha Hl; [by rewrite grow_empty|].
  cbn [send_chunks]. rewrite (resp_Write_grow c r st h) by (done || by rewrite Hl). rewrite Z.eqb_refl.
  by rewrite IH, grow_grow, concat_cons.
Qed.

Lemma send_chunks_refused cs r st h :
  answered r = Some (st, h) → bodyAllowed st = false → (send_chunks cs r).1 = r.
Proof.
  intros Ha Hb. induction cs as [|c cs IH]; [done|]. cbn [send_chunks].
  rewrite (resp_Write_refused c r st h) by done. by destruct (0 =? slen c).
Qed.

Lemma send_chunks_header c cs r : send_chunks (c :: cs) r = send_chunks (c :: cs) (resp_WriteHeader 200 r).
Proof. cbn [send_chunks]. by rewrite (resp_Write_header c r). Qed.

Lemma gz_call_grow `{!GzipLib} e z r st h :
  gz_closed z = false → gz_failed z = false → answered r = Some (st, h) → bodyAllowed st = true →
  limit r = None →
  gz_call e z r = ({| events := events z ++ [e]; gz_closed := is_close e; gz_failed := false |},
                   grow (String.concat "" (gz_chunks (events z) e)) r).
Proof. intros Hc Hf Ha Hb Hl. unfold gz_call. by rewrite Hc, Hf, (send_chunks_grow _ _ st h). Qed.

Section transparent.
Context `{!GzipLib} (laws : gzip_laws).

(** ** The stream *)

Lemma gz_stream_from_app past evs evs' :
  gz_stream_from past (evs ++ evs') = gz_stream_from past evs +:+ gz_stream_from (past ++ evs) evs'.
Proof.
  revert past. induction evs as [|e evs IH]; intros past; cbn [gz_stream_from app];
    [by rewrite app_nil_r|]. by rewrite IH, <-string_app_assoc, <-app_assoc.
Qed.

Lemma gz_stream_snoc evs e :
  gz_stream (evs ++ [e]) = gz_stream evs +:+ String.concat "" (gz_chunks evs e).
Proof. unfold gz_stream. rewrite gz_stream_from_app. cbn. by rewrite string_app_nil_r. Qed.

Lemma gz_content_app evs evs' : gz_content (evs ++ evs') = gz_content evs +:+ gz_content evs'.
Proof. induction evs as [|[b| |] evs IH]; cbn; [done|by rewrite IH, string_app_assoc|done|done]. Qed.

Lemma string_app_nonempty a b : a ≠ "" → a +:+ b ≠ "".
Proof. by destruct a. Qed.

Lemma gz_stream_nonempty evs e : gz_stream (evs ++ [e]) ≠ "".
Proof.
  unfold gz_stream. destruct evs as [|e' evs]; cbn;
    match goal with |- context [gz_chunks [] ?x] => destruct (gz_head laws x) as (c & cs & -> & Hc) end;
    rewrite concat_cons, <-!string_app_assoc; by apply string_app_nonempty.
Qed.

(** ** A compressed response next to the plain one *)

Record tracks (rem : Z) (d : response) (z : gzipWriter) (r : response) : Prop := {
  t_rem : 0 ≤ rem;
  t_open : gz_closed z = false;
  t_events : GClose ∉ events z;
  t_limit : limit r = None;
  t_status : ∃ st h h', answered d = Some (st, h) ∧ answered r = Some (st, h') ∧
    Get h "content-encoding" ≠ "gzip" ∧ Get h' "content-encoding" = "gzip" ∧
    (bodyAllowed st = true → gz_failed z = false ∧ body r = gz_stream (events z) ∧
       body d = gz_content (events z) ∧ ∀ cl, limit d = Some cl → taken d + rem ≤ cl) ∧
    (bodyAllowed st = false → body r = "" ∧ body d = "")
}.

Lemma tracks_header rem d z r k v k' v' :
  tracks rem d z r →
  tracks rem (set_handlerHeader (SetKey k v (handlerHeader d)) d) z
    (set_handlerHeader (SetKey k' v' (handlerHeader r)) r).
Proof. intros [Hrem Ho He Hl Hs]. by split. Qed.

(** A call that does not close the stream. *)
Lemma tracks_call rem d z r e d' :
  0 ≤ rem → tracks (slen (gz_content [e]) + rem) d z r → is_close e = false → d' = (resp_Write (gz_content [e]) d).1 →
  tracks rem d' (gz_call e z r).1 (gz_call e z r).2.
Proof.
  intros Hrem [_ Ho He Hl (st & h & h' & Hd & Hr & Hc & Hc' & Ht & Hf)] Hne ->. unfold gz_call. rewrite Ho. cbn [orb].
  remember (gz_content [e]) as b eqn:Eb.
  assert (He' : GClose ∉ events z ++ [e]).
  { rewrite elem_of_app, list_elem_of_singleton. intros [?|<-]; [done|discriminate Hne]. }
  destruct (bodyAllowed st) eqn:Hb.
  - destruct (Ht eq_refl) as (Hz & Hbr & Hbd & Hlim). rewrite Hz, (send_chunks_grow _ _ st h') by done.
    rewrite (resp_Write_grow _ _ st h) by (done || intros cl E; specialize (Hlim cl E); lia). cbn.
    split; cbn; [lia|done|done|done|]. exists st, h, h'. split_and!; [done|done|done|done| |congruence].
    intros _. split_and!; [done| | |].
    + by rewrite Hbr, gz_stream_snoc.
    + by rewrite Hbd, gz_content_app, <-Eb.
    + intros cl E. specialize (Hlim cl E). lia.
  - destruct (Hf eq_refl) as [Hbr Hbd]. rewrite (resp_Write_refused _ _ st h) by done.
    destruct (gz_failed z) eqn:Hz; cbn [fst snd].
    + split; [lia|done|done|done|]. exists st, h, h'. split_and!; [done|done|done|done|congruence|done].
    + pose proof (send_chunks_refused (gz_chunks (events z) e) r st h' Hr Hb) as Hsr.
      destruct (send_chunks _ r) as [r1 ok]. cbn in Hsr. subst r1. cbn.
      split; cbn; [lia|done|done|done|]. exists st, h, h'. split_and!; [done|done|done|done|congruence|done].
Qed.

Lemma tracks_close rem d z r : tracks rem d z r → client_view (finish (gz_call GClose z r).2) = client_view (finish d).
Proof.
  intros [_ Ho He Hl (st & h & h' & Hd & Hr & Hc & Hc' & Ht & Hf)]. unfold gz_call. rewrite Ho. cbn [orb].
  unfold finish. rewrite (WriteHeader_answered _ _ _ Hd).
  unfold client_view. rewrite Hd. cbn [mbind option_bind]. rewrite (bool_decide_eq_false_2 (_ = "gzip")) by done.
  cbn [andb]. destruct (bodyAllowed st) eqn:Hb.
  - destruct (Ht eq_refl) as (Hz & Hbr & Hbd & _). rewrite Hz, (send_chunks_grow _ _ st h') by done.
    cbn [snd negb]. rewrite (WriteHeader_answered 200 (grow _ r) (st, h')) by done.
    cbn [grow answered body]. rewrite Hr. cbn [mbind option_bind].
    rewrite bool_decide_eq_true_2 by done. rewrite Hbr, <-gz_stream_snoc.
    rewrite bool_decide_eq_false_2 by apply gz_stream_nonempty. cbn [andb negb].
    rewrite (gz_round laws _ He). cbn. by rewrite Hbd.
  - destruct (Hf eq_refl) as [Hbr Hbd].
    assert (Hs : (if gz_failed z then (z, r) else
        let '(r, ok) := send_chunks (gz_chunks (events z) GClose) r in
        ({| events := events z ++ [GClose]; gz_closed := is_close GClose; gz_failed := negb ok |}, r)).2 = r).
    { destruct (gz_failed z); [done|]. pose proof (send_chunks_refused (gz_chunks (events z) GClose) r st h' Hr Hb) as E.
      by destruct (send_chunks _ r). }
    rewrite Hs, (WriteHeader_answered _ _ _ Hr), Hr, Hbr, Hbd. cbn [mbind option_bind]. by rewrite andb_false_r.
Qed.

(** ** Runs *)

Lemma total_cons o ops : total (o :: ops) = op_length o + total ops.
Proof. done. Qed.

Lemma op_length_nonneg o : 0 ≤ op_length o.
Proof. destruct o; cbn; lia. Qed.

Lemma total_nonneg ops : 0 ≤ total ops.
Proof. induction ops as [|o ops IH]; [done|]. rewrite total_cons. pose proof (op_length_nonneg o). lia. Qed.

Lemma tracks_rem rem rem' d z r : rem = rem' → tracks rem d z r → tracks rem' d z r.
Proof. by intros ->. Qed.

(** Compression is on. *)
Lemma run_compressing ops d w z :
  gz w = Some z → inited w = true → hasLength w = false → tracks (total ops) d z (resp w) →
  client_view (finish (resp (close (foldl wrapped_op w ops)))) = client_view (finish (foldl direct_op d ops)).
Proof.
  revert d w z. induction ops as [|o ops IH]; intros d w z Hz Hi Hl Ht.
  { cbn [foldl]. unfold close. rewrite Hz. by apply (tracks_close (total [])). }
  cbn [foldl]. destruct o as [k v|status|b|].
  - apply (IH _ _ z); [done|done|done|]. by apply tracks_header.
  - pose proof (t_status _ _ _ _ Ht) as (st & h & h' & Hd & Hr & _). cbn [direct_op wrapped_op].
    unfold WriteHeader, init. rewrite Hi, (WriteHeader_answered _ _ _ Hd), (WriteHeader_answered _ _ _ Hr).
    by apply (IH _ _ z).
  - cbn [direct_op wrapped_op]. unfold Write, init. rewrite Hi, Hz. unfold gz_Write.
    pose proof (tracks_call (total ops) d z (resp w) (GWrite b) (resp_Write (gz_content [GWrite b]) d).1
      (total_nonneg ops)) as Hc.
    cbn [gz_content] in Hc. rewrite string_app_nil_r in Hc. specialize (Hc Ht eq_refl eq_refl).
    destruct (gz_call (GWrite b) z (resp w)) as [z' r']. cbn [fst snd] in Hc. rewrite Hl. cbn [andb fst].
    by apply (IH _ _ z').
  - cbn [direct_op wrapped_op]. unfold Flush. rewrite Hz.
    pose proof (tracks_call (total ops) d z (resp w) GFlush (resp_Write "" d).1
      (total_nonneg ops) Ht eq_refl eq_refl) as Hc.
    destruct (gz_call GFlush z (resp w)) as [z' r']. cbn [fst snd gz_content] in Hc.
    pose proof (t_status _ _ _ _ Ht) as (st & h & h' & Hd & _ & _).
    pose proof (t_status _ _ _ _ Hc) as (st1 & h1 & h1' & Hd1 & Hr1 & _).
    apply (IH _ _ z'); [done|done|done|]. cbn [resp]. unfold resp_Flush.
    rewrite (WriteHeader_answered _ _ _ Hd), (WriteHeader_answered _ _ _ Hr1).
    replace (resp_Write "" d).1 with d in Hc; [done|]. unfold resp_Write.
    rewrite (WriteHeader_answered _ _ _ Hd). by rewrite decide_True.
Qed.

(** Compression is off. *)
Lemma run_identity ops w :
  gz w = None → inited w = true →
  resp (close (foldl wrapped_op w ops)) = foldl direct_op (resp w) ops.
Proof.
  revert w. induction ops as [|o ops IH]; intros w Hz Hi; cbn [foldl]; [unfold close; by rewrite Hz|].
  rewrite IH; destruct o; cbn [wrapped_op direct_op]; unfold WriteHeader, Write, Flush, init;
    rewrite ?Hi, ?Hz; try done; by destruct (resp_Write b (resp w)) as [r n].
Qed.

(** ** The first output *)

Record untouched (d : response) : Prop := {
  u_answered : answered d = None;
  u_limit : limit d = None;
  u_taken : taken d = 0;
  u_body : body d = "";
  u_encoding : Get (handlerHeader d) "content-encoding" = ""
}.

Lemma length_fits_limit cl n m :
  length_fits cl n = true → ParseInt cl = (m, None) → 0 ≤ m → n ≤ m.
Proof.
  unfold length_fits. intros [->%bool_decide_eq_true|Hf]%orb_true_iff; [discriminate|].
  destruct (ParseUint cl) as [u [e|]] eqn:Eu; [done|]. apply Z.leb_le in Hf.
  destruct cl as [|c s]; [done|]. unfold ParseInt.
  destruct (decide (c = "+"%char)) as [->|Hp]; [discriminate Eu|].
  destruct (decide (c = "-"%char)) as [->|Hm]; [discriminate Eu|].
  rewrite Eu. cbn [negb andb]. destruct (2 ^ 63 <=? u); [done|]. intros [= <-] _. done.
Qed.

(** With the headers sent, the response is tracked from its start. *)
Lemma tracks_start ops s d :
  untouched d → length_fits (Get (handlerHeader d) "content-length") (total ops) = true →
  tracks (total ops) (resp_WriteHeader s d) fresh_gz
    (resp_WriteHeader s (set_handlerHeader (compressed (handlerHeader d)) d)).
Proof.
  intros [Ha Hl Ht Hb He] Hf. destruct (Get_compressed (handlerHeader d)) as [Hce Hcl].
  unfold resp_WriteHeader. cbn [answered set_handlerHeader handlerHeader]. rewrite Ha, Hcl.
  split; cbn; [apply total_nonneg|done|by apply not_elem_of_nil|done|].
  do 3 eexists. split; [reflexivity|]. split; [reflexivity|]. split_and!.
  - case_decide; [rewrite Get_DelKey_ne by done|]; by rewrite He.
  - rewrite decide_True by done. by rewrite Get_DelKey_ne.
  - intros _. split_and!; [done|done|done|]. rewrite Ht. intros cl E.
    destruct (ParseInt _) as [n [e|]] eqn:Ep; [done|]. destruct (Z.leb_spec 0 n) as [Hn|]; [|done].
    injection E as <-. by eapply length_fits_limit.
  - done.
Qed.

Definition starts (o : op) : bool := match o with OWriteHeader _ | OWrite _ => true | _ => false end.

Lemma init_init w : init (init w) = init w.
Proof.
  unfold init at 1. destruct (inited (init w)) eqn:E; [done|]. revert E. unfold init.
  destruct (inited w) eqn:Ew; [congruence|]. by destruct (if decide _ then _ else _).
Qed.

Lemma starts_init o w : starts o = true → wrapped_op w o = wrapped_op (init w) o.
Proof. destruct o; try done; intros _; cbn [wrapped_op]; unfold WriteHeader, Write; by rewrite init_init. Qed.

Lemma init_identity d :
  Get (handlerHeader d) "transfer-encoding" = "identity" →
  resp (init (wrapper d)) = d ∧ gz (init (wrapper d)) = None ∧ inited (init (wrapper d)) = true.
Proof.
  intros Hid. unfold init. cbn [inited wrapper resp]. destruct (if decide _ then _ else _) as [has len].
  by rewrite bool_decide_eq_true_2.
Qed.

Lemma init_compressing d n :
  Get (handlerHeader d) "transfer-encoding" ≠ "identity" →
  length_fits (Get (handlerHeader d) "content-length") n = true →
  init (wrapper d) =
  {| resp := set_handlerHeader (compressed (handlerHeader d)) d; gz := Some fresh_gz; contentLength := 0;
     written := 0; hasLength := false; inited := true |}.
Proof.
  intros Hn Hf. unfold init. cbn [inited wrapper resp gz contentLength written hasLength].
  rewrite bool_decide_eq_false_2 by done. unfold length_fits in Hf. case_decide as He; [done|].
  rewrite bool_decide_eq_false_2 in Hf by done. by destruct (ParseUint _) as [m [e|]].
Qed.

Lemma gz_call_start e r : gz_call e fresh_gz r = gz_call e fresh_gz (resp_WriteHeader 200 r).
Proof. unfold gz_call. cbn. destruct (gz_head laws e) as (c & cs & -> & _). by rewrite send_chunks_header. Qed.

Lemma run_start_compressing o ops d :
  untouched d → starts o = true → Get (handlerHeader d) "transfer-encoding" ≠ "identity" →
  length_fits (Get (handlerHeader d) "content-length") (total (o :: ops)) = true →
  client_view (finish (resp (close (foldl wrapped_op (wrapper d) (o :: ops))))) =
  client_view (finish (foldl direct_op d (o :: ops))).
Proof.
  intros Hd Ho Hn Hf. cbn [foldl]. rewrite (starts_init o) by done. rewrite (init_compressing d _ Hn Hf).
  destruct o as [|s|b|]; try discriminate Ho.
  - apply (run_compressing ops _ _ fresh_gz); [done..|]. by apply tracks_start.
  - pose proof (tracks_start _ 200 d Hd Hf) as Ht. set (r := set_handlerHeader _ d) in *.
    set (w1 := {| resp := resp_WriteHeader 200 r; gz := Some fresh_gz; contentLength := 0; written := 0;
                  hasLength := false; inited := true |}).
    transitivity (client_view (finish (resp (close (foldl wrapped_op w1 (OWrite b :: ops)))))).
    + cbn [foldl wrapped_op]. unfold Write, init, w1. cbn. unfold gz_Write. by rewrite (gz_call_start _ r).
    + cbn [direct_op]. rewrite (resp_Write_header b d).
      by apply (run_compressing (OWrite b :: ops) (resp_WriteHeader 200 d) w1 fresh_gz).
Qed.

Lemma run_start ops d :
  untouched d → Forall ok_op ops → fits (handlerHeader d) ops = true →
  client_view (finish (resp (close (foldl wrapped_op (wrapper d) ops)))) = client_view (finish (foldl direct_op d ops)).
Proof.
  revert d. induction ops as [|o ops IH]; intros d Hd Hok Hf; [done|].
  apply Forall_cons in Hok as [Ho Hok].
  assert (Hout : (∃ k v, o = OHeader k v) ∨ starts o = true ∧
    (Get (handlerHeader d) "transfer-encoding" = "identity" ∨
     length_fits (Get (handlerHeader d) "content-length") (total (o :: ops)) = true)).
  { destruct o; [left; eauto|right..|done]; cbn [fits] in Hf;
      (split; [done|]; apply orb_true_iff in Hf as [Hf%bool_decide_eq_true|Hf]; [by left|by right]). }
  destruct Hout as [(k & v & ->)|[Hs Hf']].
  { cbn [foldl]. apply (IH (direct_op d (OHeader k v))); [|done|exact Hf].
    destruct Hd as [Ha Hl Ht Hb He]. split; try done. cbn. by rewrite Get_SetKey_ne by exact Ho. }
  destruct (decide (Get (handlerHeader d) "transfer-encoding" = "identity")) as [Hi|Hi];
    [|by apply run_start_compressing; naive_solver].
  destruct (init_identity d Hi) as (Hr & Hz & Hin). cbn [foldl]. rewrite (starts_init o) by done.
  change (foldl wrapped_op (wrapped_op (init (wrapper d)) o) ops) with (foldl wrapped_op (init (wrapper d)) (o :: ops)).
  by rewrite run_identity, Hr.
Qed.
End transparent.

(** ** The replies of the service *)

(** The status and the text of a reply. *)
Definition reply_content (reply : stack_reply) (texts : list (string * bool)) : Z * string :=
  match reply with
  | Answered code text | ByRpc (Status code text) => (code, text)
  | Preflight => (204, "")
  | Upgraded => (200, "")
  | ByRpc Served => (200, String.concat "" texts.*1)
  end.

Definition reply_ok (reply : stack_reply) (texts : list (string * bool)) : Prop :=
  match reply with
  | Answered code _ | ByRpc (Status code _) => 200 ≤ code ≤ 999 ∧ bodyAllowed code = true
  | ByRpc Served => (length texts ≤ 1)%nat ∧ ∀ t, (t, true) ∈ texts → is_int64 (slen t)
  | _ => True
  end.

Section direct.
Context `{!GzipLib}.

Lemma direct_write d b st h :
  answered d = Some (st, h) → bodyAllowed st = true → body d = "" →
  Get h "content-encoding" ≠ "gzip" → (∀ cl, limit d = Some cl → taken d + slen b ≤ cl) →
  client_view (finish (resp_Write b d).1) = Some (st, b).
Proof.
  intros Ha Hb Hd He Hl. rewrite (resp_Write_grow b d st h) by done. cbn [fst].
  unfold finish. rewrite (WriteHeader_answered 200 (grow b d) (st, h)) by done.
  unfold client_view. cbn [grow answered body]. rewrite Ha, Hd. cbn [mbind option_bind].
  by rewrite bool_decide_eq_false_2.
Qed.

Lemma direct_reply reply texts :
  reply_ok reply texts → client_view (run_direct (reply_ops reply texts)) = Some (reply_content reply texts).
Proof.
  assert (Ha : ∀ code text, bodyAllowed code = true →
    client_view (run_direct (if decide (text = "") then [OWriteHeader code] else http_Error code text)) =
    Some (code, text)).
  { intros code text Hb. case_decide as Ht; [by subst text|].
    change (run_direct (http_Error code text)) with
      (finish (resp_Write text (foldl direct_op new_response (take 3 (http_Error code text)))).1).
    eapply direct_write; [reflexivity|done|done|done|]. by intros cl [= <-]. }
  destruct reply as [code text| | |[code text|]]; cbn [reply_ok reply_ops reply_content];
    [intros [_ ?]; by apply Ha|done|done|intros [_ ?]; by apply Ha|].
  intros [Hl Hi]. destruct texts as [|[t []] [|? ?]]; cbn in Hl; try lia; [done|..].
  - cbn [mbind list_bind encoder_ops snd fst app fmap list_fmap String.concat].
    set (d := foldl direct_op new_response [OHeader "content-type" contentType;
      OHeader "content-length" (FormatInt (slen t)); OHeader "transfer-encoding" "identity"]).
    assert (Hd : ∃ p, answered (resp_Write t d).1 = Some p).
    { unfold resp_Write. destruct (answered_WriteHeader 200 d) as [p Hp]. exists p.
      case_decide; [exact Hp|]. by destruct (allows _). }
    destruct Hd as [p Hp].
    transitivity (client_view (finish (resp_Write t d).1)).
    { unfold run_direct. cbn [foldl]. fold (foldl direct_op new_response).
      change (client_view (finish (resp_Flush (resp_Write t d).1)) = client_view (finish (resp_Write t d).1)).
      unfold resp_Flush. by rewrite (WriteHeader_answered _ _ _ Hp). }
    rewrite resp_Write_header. eapply direct_write.
    + reflexivity.
    + done.
    + done.
    + cbn. case_decide; by vm_compute.
    + cbn. rewrite (Get_SetKey_ne "transfer-encoding" "content-length"), Get_SetKey by done.
      rewrite ParseInt_FormatInt by (apply Hi; by left). intros cl. case_match; [|done]. intros [= <-]. lia.
  - cbn [mbind list_bind encoder_ops snd fst app fmap list_fmap String.concat].
    change (client_view (finish (resp_Write t (foldl direct_op new_response [OHeader "content-type" contentType])).1)
      = Some (200, t)).
    rewrite resp_Write_header. eapply direct_write; [reflexivity|done|done|done|]. by intros cl [= <-].
Qed.
End direct.

Ltac ok_ops := repeat (apply Forall_cons_2; [first [exact I | discriminate | cbn; lia]|]); apply Forall_nil_2.

Lemma reply_fits reply texts :
  reply_ok reply texts → Forall ok_op (reply_ops reply texts) ∧ fits ∅ (reply_ops reply texts) = true.
Proof.
  assert (Ha : ∀ code text, 200 ≤ code ≤ 999 →
    let ops := if decide (text = "") then [OWriteHeader code] else http_Error code text in
    Forall ok_op ops ∧ fits ∅ ops = true).
  { intros code text Hc. cbn zeta. case_decide; (split; [ok_ops|done]). }
  destruct reply as [code text| | |[code text|]]; cbn [reply_ok reply_ops];
    [intros [? _]; by apply Ha|split; [ok_ops|done]|done|intros [? _]; by apply Ha|].
  intros [Hl _]. destruct texts as [|[t []] [|? ?]]; cbn in Hl; try lia; (split; [ok_ops|done]).
Qed.

(** A client that accepts gzip sees every reply of the service as it is. *)
Lemma reply_transparent `{!GzipLib} (laws : gzip_laws) r reply texts :
  reply_ok reply texts → client_view (newGzipHandler r (reply_ops reply texts)) = Some (reply_content reply texts).
Proof.
  intros Hr. destruct (reply_fits reply texts Hr) as [Hok Hf]. rewrite <-(direct_reply reply texts Hr).
  unfold newGzipHandler. destruct (gzip_wraps r); [|done]. by apply run_start.
Qed.

(** ** Lengths that are no numbers *)

Section bad_length.
Context `{!GzipLib} (laws : gzip_laws).

Lemma writes_closed rest w z :
  gz w = Some z → gz_closed z = true → inited w = true →
  gz (foldl wrapped_op w (OWrite <$> rest)) = Some z ∧ resp (foldl wrapped_op w (OWrite <$> rest)) = resp w.
Proof.
  intros Hz Hc. revert w Hz. induction rest as [|b rest IH]; intros w Hz Hi; [done|]. cbn [fmap list_fmap foldl].
  assert (Hw : gz (wrapped_op w (OWrite b)) = Some z ∧ inited (wrapped_op w (OWrite b)) = true ∧
    resp (wrapped_op w (OWrite b)) = resp w).
  { cbn [wrapped_op]. unfold Write, init, gz_Write, gz_call. rewrite Hi, Hz, Hc. cbn [orb].
    rewrite Hc. cbn [orb]. by destruct (hasLength w && _). }
  destruct Hw as (Hz' & Hi' & Hr'). destruct (IH _ Hz' Hi') as [-> ->]. done.
Qed.

Lemma init_bad_length d cl :
  Get (handlerHeader d) "transfer-encoding" ≠ "identity" → Get (handlerHeader d) "content-length" = cl →
  cl ≠ "" → (ParseUint cl).2 = Some ErrSyntax →
  init (wrapper d) =
  {| resp := set_handlerHeader (compressed (handlerHeader d)) d; gz := Some fresh_gz; contentLength := 0;
     written := 0; hasLength := true; inited := true |}.
Proof.
  intros Hn Hcl Hne Hp. unfold init. cbn [inited wrapper resp gz contentLength written hasLength].
  rewrite bool_decide_eq_false_2 by done. rewrite Hcl. rewrite decide_False by done.
  destruct (ParseUint cl) as [n e] eqn:E. cbn in Hp. subst e. by rewrite (ParseUint_syntax cl n E).
Qed.

Lemma Write_bad_length d cl b :
  untouched d → Get (handlerHeader d) "transfer-encoding" ≠ "identity" →
  Get (handlerHeader d) "content-length" = cl → cl ≠ "" → (ParseUint cl).2 = Some ErrSyntax →
  ∃ w z h, (Write b (wrapper d)).1 = w ∧ gz w = Some z ∧ gz_closed z = true ∧ inited w = true ∧
    answered (resp w) = Some (200, h) ∧ Get h "content-encoding" = "gzip" ∧
    body (resp w) = gz_stream [GWrite b; GClose].
Proof.
  intros Hd Hn Hcl Hne Hp. unfold Write. rewrite (init_bad_length d cl) by done. cbn [gz resp]. unfold gz_Write.
  rewrite (gz_call_start laws). set (r := resp_WriteHeader 200 _).
  assert (Ha : answered r = Some (200, DelKey "content-length" (compressed (handlerHeader d))) ∧ limit r = None ∧ body r = "").
  { subst r. destruct Hd as [Ha _ _ Hb _]. destruct (Get_compressed (handlerHeader d)) as [_ E].
    unfold resp_WriteHeader. cbn [answered set_handlerHeader handlerHeader].
    rewrite Ha, E. by split_and!. }
  destruct Ha as (Ha & Hl & Hb). rewrite (gz_call_grow (GWrite b) fresh_gz r _ _ eq_refl eq_refl Ha eq_refl Hl). cbn [fst snd].
  cbn [hasLength contentLength written andb].
  rewrite (proj2 (Z.leb_le 0 _)) by (unfold to_uint64; by apply Z.mod_pos_bound).
  erewrite (gz_call_grow GClose) by (reflexivity || exact Ha || exact Hl). cbn [fst snd].
  do 3 eexists. split; [reflexivity|]. split; [reflexivity|]. cbn [gz_closed inited resp]. split; [done|]. split; [done|].
  split; [exact Ha|]. split; [rewrite Get_DelKey_ne by done; apply Get_compressed|].
  cbn. rewrite Hb. by rewrite string_app_nil_r.
Qed.
End bad_length.

(** * Properties *)

(** C19: Compression is transparent.  A handler that sets no Content-Encoding,
    uses final statuses, does not flush before its first output and announces
    no length or one that covers what it writes, is seen by a client that accepts
    gzip as by one that does not: with the same status and the same body, after
    decoding, whatever it writes and flushes in whatever order. *)
Theorem gzip_transparent `{!GzipLib} (laws : gzip_laws) (r : request) (ops : list op) :
  Forall ok_op ops → fits ∅ ops = true →
  client_view (newGzipHandler r ops) = client_view (run_direct ops).
Proof.
  intros Hok Hf. unfold newGzipHandler. destruct (gzip_wraps r); [|done].
  by apply run_start.
Qed.

(** The two ways in which it is not.  A handler that flushes before its first
    output has sent its headers without the Content-Encoding, so its client
    takes the compressed bytes for the body. *)
Theorem gzip_flush_first `{!GzipLib} (b : string) :
  client_view (run_direct [OFlush; OWrite b]) = Some (200, b) ∧
  client_view (run_wrapped [OFlush; OWrite b]) = Some (200, gz_stream [GWrite b; GClose]).
Proof.
  split.
  - change (client_view (finish (resp_Write b (resp_Flush new_response)).1) = Some (200, b)).
    eapply direct_write; [reflexivity|done|done|done|]. by intros cl [= <-].
  - set (d := resp_Flush new_response).
    change (client_view (finish (resp (close (Write b (wrapper d)).1))) = Some (200, gz_stream [GWrite b; GClose])).
    unfold Write. rewrite (init_compressing d 0) by done. cbn [gz]. unfold gz_Write.
    rewrite (gz_call_grow _ _ _ 200 ∅) by done. cbn [fst snd]. unfold close. cbn [gz andb].
    cbn [hasLength andb]. cbn [fst gz resp].
    rewrite (gz_call_grow _ _ _ 200 ∅) by done. cbn. by rewrite string_app_nil_r.
Qed.

(** A Content-Length that is no number ends the stream with the first write;
    the rest of the response is lost. *)
Theorem gzip_content_length `{!GzipLib} (laws : gzip_laws) (cl b : string) (rest : list string) :
  cl ≠ "" → (ParseUint cl).2 = Some ErrSyntax →
  client_view (run_wrapped (OHeader "content-length" cl :: OWrite b :: (OWrite <$> rest))) = Some (200, b).
Proof.
  intros Hne Hp. set (d := direct_op new_response (OHeader "content-length" cl)).
  change (client_view (finish (resp (close (foldl wrapped_op (Write b (wrapper d)).1 (OWrite <$> rest))))) = Some (200, b)).
  destruct (Write_bad_length laws d cl b) as (w & z & h & -> & Hz & Hc & Hi & Hr & He & Hb);
    [by split|done|by apply Get_SetKey|done|done|].
  destruct (writes_closed rest w z Hz Hc Hi) as [Hz' Hw'].
  unfold close. rewrite Hz'. unfold gz_call. rewrite Hc. cbn [orb snd resp]. rewrite Hw'.
  unfold finish. rewrite (WriteHeader_answered _ _ _ Hr). unfold client_view. rewrite Hr, Hb. cbn [mbind option_bind].
  rewrite bool_decide_eq_true_2 by done. change [GWrite b; GClose] with ([GWrite b] ++ [GClose]).
  rewrite bool_decide_eq_false_2 by by apply gz_stream_nonempty. cbn [andb negb].
  rewrite (gz_round laws [GWrite b]) by (rewrite list_elem_of_singleton; done). cbn. by rewrite string_app_nil_r.
Qed.

(** ** Concrete compressors *)

Section sample.
(** A compressor that stores: a mark before every byte. *)
Fixpoint stored (b : string) : string :=
  match b with
  | EmptyString => ""
  | String c r => String "+" (String c (stored r))
  end.

Fixpoint unstored (s : string) : option string :=
  match s with
  | String c EmptyString => if decide (c = "."%char) then Some "" else None
  | String c (String d r) => if decide (c = "+"%char) then String d <$> unstored r else None
  | EmptyString => None
  end.

Definition stored_chunks (past : list gz_event) (e : gz_event) : list string :=
  (if decide (length past = 0%nat) then ["g"] else [])
  ++ match e with GWrite b => [stored b] | GFlush => [] | GClose => ["."] end.

Definition stored_lib : GzipLib :=
  {| gz_chunks := stored_chunks;
     gunzip s := match s with String _ r => unstored r | EmptyString => None end |}.
Existing Instance stored_lib.

Lemma stored_app a b : stored (a +:+ b) = stored a +:+ stored b.
Proof. induction a as [|c a IH]; [done|]. rewrite !string_app_cons. cbn. by rewrite IH. Qed.

Lemma unstored_stored b : unstored (stored b +:+ ".") = Some b.
Proof.
  induction b as [|c b IH]; [done|]. cbn [stored]. rewrite !string_app_cons. cbn.
  change (stored b ++ ".")%string with (stored b +:+ "."). by rewrite IH.
Qed.

Lemma stored_stream past evs :
  past ≠ [] → GClose ∉ evs → gz_stream_from past (evs ++ [GClose]) = stored (gz_content evs) +:+ ".".
Proof.
  revert past. induction evs as [|e evs IH]; intros past Hp Hn; cbn [gz_stream_from app].
  - cbn. unfold stored_chunks. rewrite decide_False by by destruct past. done.
  - apply not_elem_of_cons in Hn as [He Hn]. rewrite IH by (done || by destruct past).
    cbn [gz_chunks stored_lib]. unfold stored_chunks. rewrite decide_False by by destruct past.
    destruct e; cbn; [by rewrite stored_app, <-string_app_assoc|done|done].
Qed.

Lemma stored_laws : gzip_laws.
Proof.
  split.
  - intros e. cbn. by eexists _, _.
  - intros evs Hn. unfold gz_stream. destruct evs as [|e evs]; [done|].
    apply not_elem_of_cons in Hn as [He Hn]. cbn [app gz_stream_from]. rewrite stored_stream by done.
    destruct e; [|by apply unstored_stored|done].
    change (unstored (stored b +:+ (stored (gz_content evs) +:+ ".")) = Some (b +:+ gz_content evs)).
    rewrite string_app_assoc, <-stored_app. apply unstored_stored.
Qed.

Definition gzip_request : request := {|
  r_Method := "POST"; r_Path := "/"; r_RawQuery := ""; r_Host := "localhost"; r_ContentLength := 2;
  h_ContentType := contentType; h_Upgrade := ""; h_Connection := ""; h_AcceptEncoding := "gzip, br";
  r_Body := "{}"
|}.

Definition two_writes : list op := [OHeader "Content-Length" "5"; OWrite "abc"; OFlush; OWrite "de"].

Example gzip_transparent_witness :
  Forall ok_op two_writes ∧ fits ∅ two_writes = true ∧
  client_view (newGzipHandler gzip_request two_writes) = client_view (run_direct two_writes) ∧
  body (newGzipHandler gzip_request two_writes) ≠ body (run_direct two_writes) ∧
  client_view (run_direct two_writes) = Some (200, "abcde").
Proof.
  assert (Hok : Forall ok_op two_writes) by (repeat constructor; discriminate).
  assert (Hf : fits ∅ two_writes = true) by (vm_compute; reflexivity).
  split; [exact Hok|]. split; [exact Hf|].
  split; [exact (gzip_transparent stored_laws gzip_request two_writes Hok Hf)|].
  split; [vm_compute; discriminate|vm_compute; reflexivity].
Defined.

Example gzip_content_length_witness :
  client_view (run_wrapped [OHeader "content-length" "5x"; OWrite "abc"; OWrite "de"]) = Some (200, "abc").
Proof.
  apply (gzip_content_length stored_laws "5x" "abc" ["de"]); [discriminate|reflexivity].
Defined.
End sample.
