(* ===== verification/GoUrl.v ===== *)
(** * Go standard library used as data: package net/url

    [url.Parse] with its errors, the host and port of a URL, user information,
    percent encoding, and [URL.String]. *)

From S2P Require Import Prelude Strconv GoJson.

Inductive encoding := encodePath | encodeUserPassword | encodeHost | encodeZone | encodeFragment.

#[export] Instance encoding_eq_dec : EqDecision encoding.
Proof. solve_decision. Defined.

Inductive url_error :=
| EscapeError (s : string)
| InvalidHostError (s : string)
| InvalidPort (s : string)
| UrlError (msg : string).

(** ** Percent encoding *)

Definition is_alnum (c : ascii) : bool := in_range 97 122 c || in_range 65 90 c || in_range 48 57 c.

Definition host_mode (mode : encoding) : bool :=
  match mode with encodeHost | encodeZone => true | _ => false end.

Definition shouldEscape (c : ascii) (mode : encoding) : bool :=
  if is_alnum c then false
  else if host_mode mode && (string_mem c "!$&'()*+,;=:[]<>" || bool_decide (c = dquote)) then false
  else if string_mem c "-_.~" then false
  else if string_mem c "$&+,/:;=?@" && negb (host_mode mode) then
    match mode with
    | encodePath => bool_decide (c = "?"%char)
    | encodeUserPassword => string_mem c "@/?:"
    | _ => false
    end
  else if bool_decide (mode = encodeFragment) && string_mem c "!()*" then false
  else true.

Definition upper_hex (n : Z) : ascii := if n <? 10 then chr (48 + n) else chr (65 + n - 10).

Fixpoint escape (s : string) (mode : encoding) : string :=
  match s with
  | EmptyString => ""
  | String c r =>
      if shouldEscape c mode
      then String "%" (String (upper_hex (code c / 16)) (String (upper_hex (code c mod 16)) (escape r mode)))
      else String c (escape r mode)
  end.

(** What a percent-encoded byte may be in a part of a URL. *)
Definition escape_allowed (mode : encoding) (hi v : Z) : bool :=
  match mode with
  | encodeHost => (8 <=? hi) || (v =? 37)
  | encodeZone => (v =? 37) || (v =? 32) || negb (shouldEscape (chr v) encodeHost)
  | _ => true
  end.

Fixpoint unescape (s : string) (mode : encoding) : string + url_error :=
  match s with
  | EmptyString => inl ""
  | String c r =>
      if decide (c = "%"%char) then
        match r with
        | String a (String b r') =>
            match hex_val a, hex_val b with
            | Some x, Some y =>
                if escape_allowed mode x (16 * x + y) then
                  match unescape r' mode with
                  | inl t => inl (String (chr (16 * x + y)) t)
                  | inr e => inr e
                  end
                else inr (EscapeError (String c (String a (String b ""))))
            | _, _ => inr (EscapeError (String c (String a (String b ""))))
            end
        | _ => inr (EscapeError s)
        end
      else if host_mode mode && (code c <? 128) && shouldEscape c mode
      then inr (InvalidHostError (String c ""))
      else
        match unescape r mode with
        | inl t => inl (String c t)
        | inr e => inr e
        end
  end.

(** ** URLs *)

Record Userinfo := { username : string; password : string; passwordSet : bool }.

Record URL := {
  Scheme : string;
  Opaque : string;
  User : option Userinfo;
  u_Host : string;
  u_Path : string;
  RawPath : string;
  OmitHost : bool;
  ForceQuery : bool;
  u_RawQuery : string;
  Fragment : string;
  RawFragment : string
}.

(** The text before and after the last occurrence of a byte. *)
Fixpoint last_cut (c : ascii) (s : string) : option (string * string) :=
  match s with
  | EmptyString => None
  | String d r =>
      match last_cut c r with
      | Some (a, b) => Some (String d a, b)
      | None => if decide (c = d) then Some ("", r) else None
      end
  end.

(** [strings.Cut]: without an occurrence the second part is empty. *)
Definition Cut (c : ascii) (s : string) : string * string := default (s, "") (cut_at c s).

Definition count_byte (c : ascii) (s : string) : nat :=
  (fix go (s : string) : nat :=
     match s with
     | EmptyString => 0%nat
     | String d r => if decide (c = d) then S (go r) else go r
     end) s.

Definition stringContainsCTLByte (s : string) : bool :=
  (fix go (s : string) : bool :=
     match s with
     | EmptyString => false
     | String c r => (code c <? 32) || (code c =? 127) || go r
     end) s.

(** The scheme before the first colon; [first] at the first byte. *)
Fixpoint scheme_loop (first : bool) (s : string) : (option (string * string)) + url_error :=
  match s with
  | EmptyString => inl None
  | String c r =>
      let next :=
        match scheme_loop false r with
        | inl (Some (sch, rest)) => inl (Some (String c sch, rest))
        | x => x
        end in
      if in_range 97 122 c || in_range 65 90 c then next
      else if in_range 48 57 c || string_mem c "+-." then if first then inl None else next
      else if decide (c = ":"%char) then
        if first then inr (UrlError "missing protocol scheme") else inl (Some ("", r))
      else inl None
  end.

Definition getScheme (rawURL : string) : (string * string) + url_error :=
  match scheme_loop true rawURL with
  | inl (Some p) => inl p
  | inl None => inl ("", rawURL)
  | inr e => inr e
  end.

Definition all_digits (s : string) : bool :=
  (fix go (s : string) : bool :=
     match s with
     | EmptyString => true
     | String c r => in_range 48 57 c && go r
     end) s.

Definition validOptionalPort (port : string) : bool :=
  match port with
  | EmptyString => true
  | String c r => bool_decide (c = ":"%char) && all_digits r
  end.

(** The position of the zone of an IPv6 address: the text before the first
    escaped percent sign, and the text from it. *)
Fixpoint cut_zone (s : string) : option (string * string) :=
  match s with
  | EmptyString => None
  | String c r =>
      if HasPrefix s "%25" then Some ("", s)
      else match cut_zone r with Some (a, b) => Some (String c a, b) | None => None end
  end.

Definition join3 (a b c : string + url_error) : string + url_error :=
  match a, b, c with
  | inr e, _, _ | inl _, inr e, _ | inl _, inl _, inr e => inr e
  | inl a, inl b, inl c => inl (a +:+ b +:+ c)
  end.

Definition parseHost (host : string) : string + url_error :=
  if HasPrefix host "[" then
    match last_cut "]" host with
    | None => inr (UrlError "missing ']' in host")
    | Some (inside, colonPort) =>
        if negb (validOptionalPort colonPort) then inr (InvalidPort colonPort)
        else
          match cut_zone inside with
          | Some (before, zone) =>
              join3 (unescape before encodeHost) (unescape zone encodeZone)
                (unescape (String "]" colonPort) encodeHost)
          | None => unescape host encodeHost
          end
    end
  else
    match last_cut ":" host with
    | Some (_, port) =>
        if negb (validOptionalPort (String ":" port)) then inr (InvalidPort (String ":" port))
        else unescape host encodeHost
    | None => unescape host encodeHost
    end.

Definition validUserinfo (s : string) : bool :=
  (fix go (s : string) : bool :=
     match s with
     | EmptyString => true
     | String c r => (is_alnum c || string_mem c "-._:~!$&'()*+,;=%@") && go r
     end) s.

Definition parseUser (userinfo : string) : Userinfo + url_error :=
  if negb (validUserinfo userinfo) then inr (UrlError "net/url: invalid userinfo")
  else
    match cut_at ":" userinfo with
    | None =>
        match unescape userinfo encodeUserPassword with
        | inl u => inl {| username := u; password := ""; passwordSet := false |}
        | inr e => inr e
        end
    | Some (u, p) =>
        match unescape u encodeUserPassword, unescape p encodeUserPassword with
        | inr e, _ => inr e
        | inl _, inr e => inr e
        | inl u, inl p => inl {| username := u; password := p; passwordSet := true |}
        end
    end.

Definition parseAuthority (authority : string) : (option Userinfo * string) + url_error :=
  match last_cut "@" authority with
  | None =>
      match parseHost authority with inl h => inl (None, h) | inr e => inr e end
  | Some (userinfo, host) =>
      match parseHost host with
      | inr e => inr e
      | inl h => match parseUser userinfo with inl u => inl (Some u, h) | inr e => inr e end
      end
  end.

Definition empty_URL : URL := {|
  Scheme := ""; Opaque := ""; User := None; u_Host := ""; u_Path := ""; RawPath := "";
  OmitHost := false; ForceQuery := false; u_RawQuery := ""; Fragment := ""; RawFragment := ""
|}.

(** The default encoding of a text needs no hint. *)
Definition raw_hint (s p : string) (mode : encoding) : string :=
  if decide (s = escape p mode) then "" else s.

(** [parse(rawURL, false)]; [host_rest] splits the authority off. *)
Definition host_rest (scheme rest : string) : option (string * string) :=
  if (bool_decide (scheme ≠ "") || negb (HasPrefix rest "///")) && HasPrefix rest "//" then
    let authority := String.substring 2 (String.length rest) rest in
    match cut_at "/" authority with
    | Some (a, r) => Some (a, String "/" r)
    | None => Some (authority, "")
    end
  else None.

Definition parse_url (rawURL : string) : URL + url_error :=
  if stringContainsCTLByte rawURL then inr (UrlError "net/url: invalid control character in URL")
  else if decide (rawURL = "*") then
    inl {| Scheme := ""; Opaque := ""; User := None; u_Host := ""; u_Path := "*"; RawPath := "";
           OmitHost := false; ForceQuery := false; u_RawQuery := ""; Fragment := ""; RawFragment := "" |}
  else
    match getScheme rawURL with
    | inr e => inr e
    | inl (scheme, rest) =>
        let scheme := ToLower scheme in
        let force := HasSuffix rest "?" && bool_decide (count_byte "?" rest = 1%nat) in
        let '(rest, query) := Cut "?" rest in
        if negb (HasPrefix rest "/") && bool_decide (scheme ≠ "") then
          inl {| Scheme := scheme; Opaque := rest; User := None; u_Host := ""; u_Path := "";
                 RawPath := ""; OmitHost := false; ForceQuery := force; u_RawQuery := query;
                 Fragment := ""; RawFragment := "" |}
        else if negb (HasPrefix rest "/") && string_mem ":" (Cut "/" rest).1 then
          inr (UrlError "first path segment in URL cannot contain colon")
        else
          let done user host omit p :=
            match unescape p encodePath with
            | inr e => inr e
            | inl path =>
                inl {| Scheme := scheme; Opaque := ""; User := user; u_Host := host; u_Path := path;
                       RawPath := raw_hint p path encodePath; OmitHost := omit; ForceQuery := force;
                       u_RawQuery := query; Fragment := ""; RawFragment := "" |}
            end in
          match host_rest scheme rest with
          | Some (authority, rest) =>
              match parseAuthority authority with
              | inr e => inr e
              | inl (user, host) => done user host false rest
              end
          | None => done None "" (bool_decide (scheme ≠ "") && HasPrefix rest "/") rest
          end
    end.

Definition with_fragment (raw f : string) (u : URL) : URL := {|
  Scheme := Scheme u; Opaque := Opaque u; User := User u; u_Host := u_Host u; u_Path := u_Path u;
  RawPath := RawPath u; OmitHost := OmitHost u; ForceQuery := ForceQuery u; u_RawQuery := u_RawQuery u;
  Fragment := f; RawFragment := raw_hint raw f encodeFragment |}.

Definition Parse (rawURL : string) : URL + url_error :=
  let '(u, frag) := Cut "#" rawURL in
  match parse_url u with
  | inr e => inr e
  | inl url =>
      if decide (frag = "") then inl url
      else
        match unescape frag encodeFragment with
        | inl f => inl (with_fragment frag f url)
        | inr e => inr e
        end
  end.

(** ** Host names and ports *)

Definition trim_brackets (s : string) : string :=
  match s with
  | String c r =>
      if decide (c = "["%char) then
        match last_cut "]" r with
        | Some (inside, EmptyString) => inside
        | _ => s
        end
      else s
  | EmptyString => ""
  end.

Definition splitHostPort (hostPort : string) : string * string :=
  let '(host, port) :=
    match last_cut ":" hostPort with
    | Some (h, p) => if all_digits p then (h, p) else (hostPort, "")
    | None => (hostPort, "")
    end in
  (trim_brackets host, port).

Definition Hostname (u : URL) : string := (splitHostPort (u_Host u)).1.
Definition Port (u : URL) : string := (splitHostPort (u_Host u)).2.

(** ** Printing *)

Definition Userinfo_String (u : Userinfo) : string :=
  if decide (username u ≠ "" ∨ passwordSet u = true) then
    escape (username u) encodeUserPassword +:+
      (if passwordSet u then ":" +:+ escape (password u) encodeUserPassword else "")
  else "".

Definition validEncoded (s : string) (mode : encoding) : bool :=
  (fix go (s : string) : bool :=
     match s with
     | EmptyString => true
     | String c r => (string_mem c "!$&'()*+,;=:@[]%" || negb (shouldEscape c mode)) && go r
     end) s.

(** The hint is used when it is well formed and still means the same. *)
Definition escaped_with (hint s : string) (mode : encoding) : option string :=
  if bool_decide (hint ≠ "") && validEncoded hint mode then
    match unescape hint mode with
    | inl p => if decide (p = s) then Some hint else None
    | inr _ => None
    end
  else None.

Definition EscapedPath (u : URL) : string :=
  match escaped_with (RawPath u) (u_Path u) encodePath with
  | Some p => p
  | None => if decide (u_Path u = "*") then "*" else escape (u_Path u) encodePath
  end.

Definition EscapedFragment (u : URL) : string :=
  default (escape (Fragment u) encodeFragment) (escaped_with (RawFragment u) (Fragment u) encodeFragment).

Definition URL_String (u : URL) : string :=
  let scheme := if decide (Scheme u = "") then "" else Scheme u +:+ ":" in
  let body :=
    if decide (Opaque u ≠ "") then scheme +:+ Opaque u
    else
      let user := match User u with Some ui => Userinfo_String ui +:+ "@" | None => "" end in
      let no_user := match User u with Some _ => false | None => true end in
      let authority :=
        if bool_decide (Scheme u = "") && bool_decide (u_Host u = "") && no_user then ""
        else if OmitHost u && bool_decide (u_Host u = "") && no_user then ""
        else
          (if bool_decide (u_Host u = "") && bool_decide (u_Path u = "") && no_user then "" else "//")
            +:+ user +:+ (if decide (u_Host u = "") then "" else escape (u_Host u) encodeHost) in
      let path := EscapedPath u in
      let slash :=
        if negb (bool_decide (path = "")) && negb (HasPrefix path "/") && negb (bool_decide (u_Host u = ""))
        then "/" else "" in
      let before := scheme +:+ authority +:+ slash in
      let dot :=
        if bool_decide (before = "") && string_mem ":" (Cut "/" path).1 then "./" else "" in
      before +:+ dot +:+ path in
  body
    +:+ (if ForceQuery u || negb (bool_decide (u_RawQuery u = "")) then "?" +:+ u_RawQuery u else "")
    +:+ (if decide (Fragment u = "") then "" else "#" +:+ EscapedFragment u).

(** * Lemmas *)

Lemma hex_byte c :
  hex_val (upper_hex (code c / 16)) = Some (code c / 16) ∧
  hex_val (upper_hex (code c mod 16)) = Some (code c mod 16).
Proof. destruct c as [[] [] [] [] [] [] [] []]; split; vm_compute; reflexivity. Qed.

(** Outside of hosts, what is escaped is read back. *)
Lemma unescape_escape s mode : host_mode mode = false → unescape (escape s mode) mode = inl s.
Proof.
  intros Hm. induction s as [|c r IH]; [done|]. cbn [escape].
  destruct (shouldEscape c mode) eqn:Hc.
  - cbn [unescape]. destruct (decide _) as [_|[]]; [|reflexivity].
    destruct (hex_byte c) as [-> ->].
    replace (16 * (code c / 16) + code c mod 16) with (code c) by (by rewrite <-Z.div_mod).
    assert (Ha : escape_allowed mode (code c / 16) (code c) = true) by (by destruct mode).
    by rewrite Ha, IH, chr_code.
  - cbn [unescape]. rewrite Hm, IH. cbn [andb]. rewrite decide_False; [done|].
    intros ->. by destruct mode.
Qed.

(** A byte is found in what is put together, from the right. *)
Lemma last_cut_app c a b : string_mem c b = false → last_cut c (a +:+ String c b) = Some (a, b).
Proof.
  intros Hb. assert (H0 : last_cut c b = None).
  { revert Hb. clear. induction b as [|d b IH]; [done|]. cbn [string_mem last_cut].
    intros [Hd Hb]%orb_false_iff. rewrite (IH Hb). apply bool_decide_eq_false in Hd. by rewrite decide_False. }
  induction a as [|d a IH].
  - change ("" +:+ String c b) with (String c b). cbn [last_cut]. rewrite H0. by rewrite decide_True.
  - change ((String d a) +:+ String c b) with (String d (a +:+ String c b)). cbn [last_cut]. by rewrite IH.
Qed.

Lemma last_cut_None c s : string_mem c s = false → last_cut c s = None.
Proof.
  induction s as [|d s IH]; [done|]. cbn [string_mem last_cut].
  intros [Hd Hs]%orb_false_iff. rewrite (IH Hs). apply bool_decide_eq_false in Hd. by rewrite decide_False.
Qed.
