(* ===== verification/WsOrigin.v ===== *)
(** * Package rpc, the origin check of a websocket handshake
    (src/rpc/websocket.go)

    Which origins a server accepts: the rules a handler is made with, the
    reading of a rule and of a browser's Origin header as a URL, and the
    comparison of scheme, host and port. *)

From S2P Require Import Prelude Strconv GoJson GoUrl HttpHeader.

Definition parseOriginURL (origin : string) : (string * string * string) + url_error :=
  match Parse (ToLower origin) with
  | inr e => inr e
  | inl parsedURL =>
      if strings_Contains origin "://" then inl (Scheme parsedURL, Hostname parsedURL, Port parsedURL)
      else
        let hostname := if decide (Scheme parsedURL = "") then origin else Scheme parsedURL in
        inl ("", hostname, Opaque parsedURL)
  end.

(** A component of a rule: empty allows everything. *)
Definition component_allows (allowed browser : string) : bool :=
  bool_decide (allowed = "") || bool_decide (allowed = browser).

Definition ruleAllowsOrigin (allowedOrigin browserOrigin : string) : bool :=
  match parseOriginURL allowedOrigin, parseOriginURL browserOrigin with
  | inr _, _ | _, inr _ => false
  | inl (allowedScheme, allowedHostname, allowedPort), inl (browserScheme, browserHostname, browserPort) =>
      component_allows allowedScheme browserScheme && component_allows allowedHostname browserHostname
        && component_allows allowedPort browserPort
  end.

(** The set is visited in any order; only whether a rule allows counts. *)
Definition originIsAllowed (allowedOrigins : gset string) (browserOrigin : string) : bool :=
  existsb (λ origin, ruleAllowsOrigin origin browserOrigin) (elements allowedOrigins).

(** The rules of a handler; [hostname] is what [os.Hostname] answers. *)
Definition origin_rules (hostname : option string) (allowedOrigins : list string) : gset string :=
  let origins := list_to_set (filter (λ o, o ≠ "") allowedOrigins) : gset string in
  if decide (elements origins = []) then
    {["http://localhost"]} ∪ match hostname with Some h => {["http://" +:+ h]} | None => ∅ end
  else origins.

Definition wsHandshakeValidator (hostname : option string) (allowedOrigins : list string) (h : Header) : bool :=
  let origins := origin_rules hostname allowedOrigins in
  let allowAllOrigins := bool_decide ("*" ∈ allowedOrigins) in
  match h !! "Origin" with
  | None => true
  | Some _ => allowAllOrigins || originIsAllowed origins (ToLower (Get h "Origin"))
  end.

(** * Origins as browsers write them *)

(** Scheme, host and port; no port is the empty text. *)
Record web_origin := { o_scheme : string; o_host : string; o_port : string }.

Definition origin_text (o : web_origin) : string :=
  o_scheme o +:+ "://" +:+ o_host o +:+ (if decide (o_port o = "") then "" else ":" +:+ o_port o).

Definition is_lower (c : ascii) : bool := in_range 97 122 c.
Definition is_host_char (c : ascii) : bool := is_lower c || in_range 48 57 c || string_mem c "-.".

Definition nonempty (s : string) : bool := bool_decide (s ≠ "").

Definition plain_origin (o : web_origin) : bool :=
  nonempty (o_scheme o) && string_forallb is_lower (o_scheme o) &&
  nonempty (o_host o) && string_forallb is_host_char (o_host o) &&
  string_forallb (in_range 48 57) (o_port o).

(** ** Lemmas on texts *)

Lemma string_forallb_app f a b : string_forallb f (a +:+ b) = string_forallb f a && string_forallb f b.
Proof.
  induction a as [|c a IH]; [done|]. change (String c a +:+ b) with (String c (a +:+ b)).
  cbn [string_forallb]. by rewrite IH, andb_assoc.
Qed.

Lemma string_forallb_mono (f g : ascii → bool) s :
  (∀ c, f c = true → g c = true) → string_forallb f s = true → string_forallb g s = true.
Proof.
  intros Hfg. induction s as [|c s IH]; [done|]. cbn [string_forallb].
  rewrite !andb_true_iff. intros [? ?]. auto.
Qed.

Lemma string_forallb_mem f c s : string_forallb f s = true → f c = false → string_mem c s = false.
Proof.
  intros Hs Hc. induction s as [|d s IH]; [done|]. cbn [string_forallb string_mem] in *.
  apply andb_true_iff in Hs as [Hd Hs]. rewrite (IH Hs), orb_false_r.
  apply bool_decide_eq_false. intros ->. congruence.
Qed.

Lemma string_map_id f s : string_forallb (λ c, bool_decide (f c = c)) s = true → string_map f s = s.
Proof.
  induction s as [|c s IH]; [done|]. cbn [string_forallb string_map].
  rewrite andb_true_iff, bool_decide_eq_true. intros [-> ?]. by rewrite IH.
Qed.

Lemma string_mem_app c a b : string_mem c (a +:+ b) = string_mem c a || string_mem c b.
Proof.
  induction a as [|d a IH]; [done|]. change (String d a +:+ b) with (String d (a +:+ b)).
  cbn [string_mem]. by rewrite IH, orb_assoc.
Qed.

(** A property of single bytes, decided by trying all of them. *)
Ltac all_bytes := intros [[] [] [] [] [] [] [] []]; vm_compute; done.

Lemma host_char_facts c : is_host_char c = true →
  lower_ascii c = c ∧ shouldEscape c encodeHost = false ∧ c ≠ "%"%char.
Proof. revert c. all_bytes. Qed.

Lemma lower_facts c : is_lower c = true → is_host_char c = true.
Proof. revert c. all_bytes. Qed.

Lemma digit_facts c : in_range 48 57 c = true → is_host_char c = true.
Proof. revert c. all_bytes. Qed.

(** The bytes of a plain origin. *)
Definition origin_char (c : ascii) : bool := is_host_char c || string_mem c ":/".

Lemma origin_char_facts c : origin_char c = true →
  lower_ascii c = c ∧ (code c <? 32) || (code c =? 127) = false.
Proof. revert c. all_bytes. Qed.

Lemma CTL_false s : string_forallb origin_char s = true → stringContainsCTLByte s = false.
Proof.
  induction s as [|c s IH]; [done|]. cbn [string_forallb]. rewrite andb_true_iff. intros [Hc Hs].
  unfold stringContainsCTLByte in *. destruct (origin_char_facts c Hc) as [_ ->]. by apply IH.
Qed.

Lemma ToLower_origin s : string_forallb origin_char s = true → ToLower s = s.
Proof.
  intros Hs. apply string_map_id. eapply string_forallb_mono; [|exact Hs].
  intros c Hc. apply bool_decide_eq_true. by apply origin_char_facts.
Qed.

(** ** Reading a plain origin *)

Definition hostport (o : web_origin) : string :=
  o_host o +:+ (if decide (o_port o = "") then "" else ":" +:+ o_port o).

Lemma scheme_loop_plain s r :
  string_forallb is_lower s = true → scheme_loop false (s +:+ String ":" r) = inl (Some (s, r)).
Proof.
  induction s as [|c s IH]; [done|]. cbn [string_forallb]. rewrite andb_true_iff. intros [Hc Hs].
  change (String c s +:+ String ":" r) with (String c (s +:+ String ":" r)). cbn [scheme_loop].
  unfold is_lower in Hc. by rewrite Hc, (IH Hs).
Qed.

Lemma getScheme_plain s r :
  s ≠ "" → string_forallb is_lower s = true → getScheme (s +:+ String ":" r) = inl (s, r).
Proof.
  destruct s as [|c s]; [done|]. intros _. cbn [string_forallb]. rewrite andb_true_iff. intros [Hc Hs].
  unfold getScheme. change (String c s +:+ String ":" r) with (String c (s +:+ String ":" r)).
  cbn [scheme_loop]. unfold is_lower in Hc. by rewrite Hc, (scheme_loop_plain s r Hs).
Qed.

Lemma count_byte_none c s : string_mem c s = false → count_byte c s = 0%nat.
Proof.
  induction s as [|d s IH]; [done|]. cbn [string_mem]. intros [Hd Hs]%orb_false_iff.
  apply bool_decide_eq_false in Hd. unfold count_byte in *. rewrite decide_False by done. by apply IH.
Qed.

Lemma Cut_none c s : string_mem c s = false → Cut c s = (s, "").
Proof. intros Hs. unfold Cut. apply cut_at_None in Hs. by rewrite Hs. Qed.

Lemma unescape_host s :
  string_forallb origin_char s = true → string_mem "/" s = false → unescape s encodeHost = inl s.
Proof.
  induction s as [|c s IH]; [done|]. cbn [string_forallb string_mem].
  rewrite andb_true_iff, orb_false_iff. intros [Hc Hs] [Hd Hm]. cbn [unescape].
  assert (H : shouldEscape c encodeHost = false ∧ c ≠ "%"%char).
  { apply bool_decide_eq_false in Hd. revert c Hc Hd. clear.
    intros [[] [] [] [] [] [] [] []]; vm_compute; intros; try done; split; done. }
  destruct H as [-> Hp]. rewrite decide_False by done. rewrite !andb_false_r. by rewrite (IH Hs Hm).
Qed.

Lemma CTL_app a b : stringContainsCTLByte (a +:+ b) = stringContainsCTLByte a || stringContainsCTLByte b.
Proof.
  induction a as [|c a IH]; [done|]. change (String c a +:+ b) with (String c (a +:+ b)).
  unfold stringContainsCTLByte in *. by rewrite IH, !orb_assoc.
Qed.

Lemma lower_letters s : string_forallb is_lower s = true → string_forallb origin_char s = true.
Proof. apply string_forallb_mono. intros c Hc%lower_facts. unfold origin_char. by rewrite Hc. Qed.

(** A URL that is a scheme and an authority. *)
Lemma Parse_authority s a :
  s ≠ "" → string_forallb is_lower s = true → stringContainsCTLByte a = false →
  string_mem "#" a = false → string_mem "?" a = false → string_mem "/" a = false →
  Parse (s +:+ String ":" (String "/" (String "/" a))) =
  match parseAuthority a with
  | inr e => inr e
  | inl (user, host) => inl {|
      Scheme := s; Opaque := ""; User := user; u_Host := host; u_Path := ""; RawPath := "";
      OmitHost := false; ForceQuery := false; u_RawQuery := ""; Fragment := ""; RawFragment := "" |}
  end.
Proof.
  intros Hs Hsl Hctl Hhash Hquest Hm. pose proof (lower_letters s Hsl) as Hc.
  unfold Parse. rewrite Cut_none.
  2: { rewrite string_mem_app. rewrite (string_forallb_mem _ _ _ Hc) by done. cbn [string_mem]. by rewrite Hhash. }
  unfold parse_url. rewrite CTL_app, (CTL_false s Hc).
  change (stringContainsCTLByte (String ?x (String ?y (String ?z a)))) with (stringContainsCTLByte a).
  rewrite Hctl. cbn [orb]. destruct (decide (_ = "*")) as [E|_].
  { destruct s as [|c s]; [done|]. injection E as _ E. by destruct s. }
  rewrite getScheme_plain by done.
  assert (Hq : string_mem "?" (String "/" (String "/" a)) = false) by (cbn [string_mem]; by rewrite Hquest).
  rewrite (count_byte_none _ _ Hq), andb_false_r, (Cut_none _ _ Hq).
  rewrite (ToLower_origin s Hc).
  assert (HasPrefix (String "/" (String "/" a)) "/" = true) as -> by (cbn; by destruct a).
  cbn [negb andb]. unfold host_rest. rewrite bool_decide_true by done.
  assert (HasPrefix (String "/" (String "/" a)) "//" = true) as -> by (cbn; by destruct a).
  cbn [orb andb]. change (String.substring 2 ?n (String ?x (String ?y ?z))) with (String.substring 0 n z).
  rewrite substring_all by (cbn; lia).
  apply cut_at_None in Hm. rewrite Hm. by destruct (parseAuthority a) as [[user host]|].
Qed.

Lemma all_digits_spec s : string_forallb (in_range 48 57) s = true → all_digits s = true.
Proof. induction s as [|c r IH]; [done|]. cbn. intros [-> ?]%andb_true_iff. by apply IH. Qed.

Lemma Contains_app a sub b : strings_Contains (a +:+ sub +:+ b) sub = true.
Proof.
  unfold strings_Contains. induction a as [|c a IH].
  - change ("" +:+ ?x) with x. pose proof (prefix_app sub b) as Hp.
    destruct (sub +:+ b) as [|d s]; [by destruct sub|]. cbn [String.index]. by rewrite Hp.
  - change (String c a +:+ ?x) with (String c (a +:+ x)). cbn [String.index].
    destruct (String.prefix _ _); [done|]. by destruct (String.index 0 sub _).
Qed.

Section plain.
Context (o : web_origin) (Ho : plain_origin o = true).

Lemma plain_parts :
  o_scheme o ≠ "" ∧ string_forallb is_lower (o_scheme o) = true ∧
  o_host o ≠ "" ∧ string_forallb is_host_char (o_host o) = true ∧
  string_forallb (in_range 48 57) (o_port o) = true.
Proof.
  unfold plain_origin, nonempty in Ho. rewrite !andb_true_iff, !bool_decide_eq_true in Ho. naive_solver.
Qed.

Lemma hostport_chars : string_forallb origin_char (hostport o) = true ∧ string_mem "/" (hostport o) = false.
Proof.
  destruct plain_parts as (_ & _ & _ & Hh & Hp). unfold hostport.
  assert (Hport : string_forallb origin_char (if decide (o_port o = "") then "" else ":" +:+ o_port o) = true ∧
    string_mem "/" (if decide (o_port o = "") then "" else ":" +:+ o_port o) = false).
  { destruct (decide _); [done|]. rewrite string_forallb_app, string_mem_app.
    rewrite (string_forallb_mem _ "/"%char _ Hp) by done. split; [|done]. apply andb_true_iff. split; [done|].
    eapply string_forallb_mono; [|exact Hp]. intros c Hc%digit_facts. unfold origin_char. by rewrite Hc. }
  destruct Hport as [H1 H2]. rewrite string_forallb_app, string_mem_app, H1, H2, andb_true_r, orb_false_r.
  split; [|by eapply string_forallb_mem].
  eapply string_forallb_mono; [|exact Hh]. intros c Hc. unfold origin_char. by rewrite Hc.
Qed.

Lemma origin_text_eq : origin_text o = o_scheme o +:+ String ":" (String "/" (String "/" (hostport o))).
Proof. reflexivity. Qed.

Lemma origin_text_chars : string_forallb origin_char (origin_text o) = true.
Proof.
  rewrite origin_text_eq, string_forallb_app. destruct plain_parts as (_ & Hs & _).
  destruct hostport_chars as [Hh _]. apply andb_true_iff. split; [|by cbn [string_forallb]; rewrite Hh].
  eapply string_forallb_mono; [|exact Hs]. intros c Hc%lower_facts. unfold origin_char. by rewrite Hc.
Qed.

(** No byte outside of [origin_char] occurs. *)
Lemma hostport_mem c : origin_char c = false → string_mem c (hostport o) = false.
Proof. intros Hc. destruct hostport_chars as [Hh _]. by eapply string_forallb_mem. Qed.

Lemma parseHost_plain : parseHost (hostport o) = inl (hostport o).
Proof.
  destruct hostport_chars as [Hc Hm]. destruct plain_parts as (_ & _ & Hne & Hh & Hp). unfold parseHost.
  assert (HasPrefix (hostport o) "[" = false) as ->.
  { unfold hostport. destruct (o_host o) as [|c r]; [done|]. cbn [string_forallb] in Hh.
    apply andb_true_iff in Hh as [Hh _]. unfold HasPrefix. change ((String c r) +:+ ?x) with (String c (r +:+ x)).
    cbn [String.prefix]. destruct (ascii_dec "["%char c) as [<-|]; [by vm_compute in Hh|done]. }
  rewrite unescape_host by done.
  assert (Hcolon : string_mem ":" (o_host o) = false) by (by eapply string_forallb_mem).
  unfold hostport. destruct (decide (o_port o = "")) as [_|].
  - rewrite last_cut_None; [done|]. by rewrite string_mem_app, Hcolon.
  - change (o_host o +:+ (":" +:+ o_port o)) with (o_host o +:+ String ":" (o_port o)).
    rewrite last_cut_app by (by eapply string_forallb_mem). cbn [validOptionalPort].
    by rewrite (all_digits_spec _ Hp).
Qed.

Lemma Parse_origin : Parse (origin_text o) = inl {|
  Scheme := o_scheme o; Opaque := ""; User := None; u_Host := hostport o; u_Path := ""; RawPath := "";
  OmitHost := false; ForceQuery := false; u_RawQuery := ""; Fragment := ""; RawFragment := "" |}.
Proof.
  destruct plain_parts as (Hs & Hsl & _). destruct hostport_chars as [Hc Hm].
  rewrite origin_text_eq, Parse_authority; try done; try (by apply hostport_mem); [|by apply CTL_false].
  unfold parseAuthority. rewrite last_cut_None by (by apply hostport_mem). by rewrite parseHost_plain.
Qed.

Lemma splitHostPort_plain : splitHostPort (hostport o) = (o_host o, o_port o).
Proof.
  destruct plain_parts as (_ & _ & Hne & Hh & Hp). unfold splitHostPort.
  assert (Hcolon : string_mem ":" (o_host o) = false) by (by eapply string_forallb_mem).
  assert (Htrim : trim_brackets (o_host o) = o_host o).
  { destruct (o_host o) as [|c r]; [done|]. cbn [trim_brackets string_forallb] in *.
    apply andb_true_iff in Hh as [Hh _]. rewrite decide_False; [done|]. by intros ->. }
  unfold hostport. destruct (decide (o_port o = "")) as [->|].
  - rewrite string_app_nil_r, last_cut_None by done. by rewrite Htrim.
  - change (o_host o +:+ (":" +:+ o_port o)) with (o_host o +:+ String ":" (o_port o)).
    rewrite last_cut_app by (by eapply string_forallb_mem).
    rewrite (all_digits_spec _ Hp). by rewrite Htrim.
Qed.

Lemma parseOriginURL_plain : parseOriginURL (origin_text o) = inl (o_scheme o, o_host o, o_port o).
Proof.
  unfold parseOriginURL. rewrite ToLower_origin by apply origin_text_chars. rewrite Parse_origin.
  unfold origin_text at 1. rewrite Contains_app. unfold Hostname, Port. cbn [Scheme u_Host].
  by rewrite splitHostPort_plain.
Qed.
End plain.

Definition component_ok (allowed browser : string) : Prop := allowed = "" ∨ allowed = browser.

Lemma component_allows_spec a b : component_allows a b = true ↔ component_ok a b.
Proof. unfold component_allows. by rewrite orb_true_iff, !bool_decide_eq_true. Qed.

(** A rule that is a plain origin against an origin a browser sends. *)
Lemma plain_rule r b :
  plain_origin r = true → plain_origin b = true →
  ruleAllowsOrigin (origin_text r) (origin_text b) = true ↔
  o_scheme r = o_scheme b ∧ o_host r = o_host b ∧ (o_port r = "" ∨ o_port r = o_port b).
Proof.
  intros Hr Hb. unfold ruleAllowsOrigin. rewrite !parseOriginURL_plain by done.
  rewrite !andb_true_iff, !component_allows_spec. unfold component_ok.
  destruct (plain_parts r Hr) as (? & _ & ? & _). naive_solver.
Qed.

Lemma originIsAllowed_spec rules b :
  originIsAllowed rules b = true ↔ ∃ r, r ∈ rules ∧ ruleAllowsOrigin r b = true.
Proof.
  unfold originIsAllowed. rewrite existsb_exists. setoid_rewrite <-list_elem_of_In.
  by setoid_rewrite elem_of_elements.
Qed.

(** ** Rules that are a bare host *)

Definition is_bare_char (c : ascii) : bool := is_host_char c || in_range 65 90 c.

Lemma bare_lower c : is_bare_char c = true → is_host_char (lower_ascii c) = true.
Proof. revert c. all_bytes. Qed.

Lemma ToLower_bare t : string_forallb is_bare_char t = true → string_forallb is_host_char (ToLower t) = true.
Proof.
  unfold ToLower. induction t as [|c t IH]; [done|]. cbn [string_forallb string_map].
  rewrite !andb_true_iff. intros [Hc Ht]. split; [by apply bare_lower|by apply IH].
Qed.

Lemma scheme_loop_bare first t : string_forallb is_host_char t = true → scheme_loop first t = inl None.
Proof.
  revert first. induction t as [|c t IH]; intros first; [done|]. cbn [string_forallb scheme_loop].
  rewrite andb_true_iff. intros [Hc Ht]. rewrite (IH false Ht).
  repeat case_match; try done; subst; by vm_compute in Hc.
Qed.

Lemma unescape_bare t mode :
  host_mode mode = false → string_forallb is_host_char t = true → unescape t mode = inl t.
Proof.
  intros Hm. induction t as [|c t IH]; [done|]. cbn [string_forallb unescape].
  rewrite andb_true_iff. intros [Hc Ht]. destruct (host_char_facts c Hc) as (_ & _ & Hp).
  rewrite decide_False by done. by rewrite Hm, (IH Ht).
Qed.

Lemma Parse_bare t : string_forallb is_host_char t = true →
  ∃ u, Parse t = inl u ∧ Scheme u = "" ∧ Opaque u = "".
Proof.
  intros Ht. assert (Hno : ∀ c, is_host_char c = false → string_mem c t = false)
    by (intros c; by apply string_forallb_mem).
  assert (Hslash : HasPrefix t "/" = false ∧ HasPrefix t "//" = false).
  { destruct t as [|c t]; [done|]. cbn [string_forallb] in Ht. apply andb_true_iff in Ht as [Hc _].
    unfold HasPrefix. cbn [String.prefix]. destruct (ascii_dec "/"%char c) as [<-|]; [by vm_compute in Hc|done]. }
  destruct Hslash as [Hs1 Hs2].
  unfold Parse. rewrite Cut_none by (by apply Hno). unfold parse_url. rewrite CTL_false.
  2: { eapply string_forallb_mono; [|exact Ht]. intros c Hc. unfold origin_char. by rewrite Hc. }
  destruct (decide (t = "*")) as [->|_]; [done|].
  unfold getScheme. rewrite scheme_loop_bare by done.
  rewrite Cut_none by (by apply Hno). change (ToLower "") with "". rewrite Hs1.
  rewrite bool_decide_false by (by intros []). cbn [negb andb].
  rewrite Cut_none by (by apply Hno). cbn [fst]. rewrite (Hno ":"%char) by done.
  unfold host_rest. rewrite Hs2, andb_false_r. rewrite unescape_bare by done. by eexists.
Qed.

Lemma bare_no_scheme t : string_forallb is_bare_char t = true → strings_Contains t "://" = false.
Proof.
  unfold strings_Contains. intros Ht. assert (H : String.index 0 "://" t = None); [|by rewrite H].
  induction t as [|c t IH]; [done|]. cbn [string_forallb] in Ht. apply andb_true_iff in Ht as [Hc Ht].
  cbn [String.index]. assert (String.prefix "://" (String c t) = false) as ->; [|by rewrite (IH Ht)].
  cbn [String.prefix]. destruct (ascii_dec ":"%char c) as [<-|]; [by vm_compute in Hc|done].
Qed.

(** The default rules and the comparison, on parsed origins. *)
Definition default_rules (hostname : option string) : list web_origin :=
  {| o_scheme := "http"; o_host := "localhost"; o_port := "" |} ::
  match hostname with
  | Some h => [{| o_scheme := "http"; o_host := h; o_port := "" |}]
  | None => []
  end.

Definition rule_matches (r b : web_origin) : Prop :=
  o_scheme r = o_scheme b ∧ o_host r = o_host b ∧ (o_port r = "" ∨ o_port r = o_port b).

Lemma origin_text_not r : plain_origin r = true → origin_text r ≠ "" ∧ origin_text r ≠ "*".
Proof.
  intros Hr. pose proof (origin_text_chars r Hr) as Hc.
  split; intros E; [|rewrite E in Hc; done]. rewrite origin_text_eq in E.
  destruct (o_scheme r); done.
Qed.

(** * Properties *)


Definition sample_origin : web_origin := {| o_scheme := "https"; o_host := "app.example"; o_port := "8443" |}.


(** An allowed origin that is only a host name allows exactly the origins
    with that host, with any scheme and port; but the name is compared as it
    is written with the lower-case host of the browser, so that a rule with an
    upper-case letter allows nothing. *)
Theorem bare_host_rule (t : string) (b : web_origin) :
  t ≠ "" → string_forallb is_bare_char t = true → plain_origin b = true →
  (ruleAllowsOrigin t (origin_text b) = true ↔ t = o_host b) ∧
  (ToLower t ≠ t → ruleAllowsOrigin t (origin_text b) = false).
Proof.
  intros Hne Ht Hb.
  assert (Hiff : ruleAllowsOrigin t (origin_text b) = true ↔ t = o_host b).
  { unfold ruleAllowsOrigin. rewrite (parseOriginURL_plain b Hb). unfold parseOriginURL.
    destruct (Parse_bare (ToLower t) (ToLower_bare t Ht)) as (u & -> & Hs & Ho).
    rewrite (bare_no_scheme t Ht), Hs, Ho. destruct (decide ("" = "")) as [_|[]]; [|done].
    rewrite !andb_true_iff, !component_allows_spec. unfold component_ok. naive_solver. }
  split; [exact Hiff|]. intros Hup. apply not_true_iff_false. rewrite Hiff. intros ->.
  destruct Hup. apply ToLower_origin. destruct (plain_parts b Hb) as (_ & _ & _ & Hh & _).
  eapply string_forallb_mono; [|exact Hh]. intros c Hc. unfold origin_char. by rewrite Hc.
Qed.

Example bare_host_rule_witness :
  ("localhost" ≠ "" ∧ string_forallb is_bare_char "LocalHost" = true ∧ plain_origin sample_origin = true) ∧
  ruleAllowsOrigin "LocalHost" (origin_text {| o_scheme := "http"; o_host := "localhost"; o_port := "" |}) = false.
Proof.
  split; [repeat split; try reflexivity; discriminate|].
  apply (bare_host_rule "LocalHost"); [discriminate|reflexivity|reflexivity|].
  intros H. vm_compute in H. discriminate.
Defined.

(** A rule that is an address with a port cannot be read as a URL and allows
    nothing; the same rule with a host name does. *)
Lemma address_port_rule b :
  ruleAllowsOrigin "127.0.0.1:8080" b = false ∧
  ruleAllowsOrigin "localhost:8080" "http://localhost:8080" = true.
Proof. split; [reflexivity|vm_compute; reflexivity]. Qed.
