(* ===== verification/ClientConfig.v ===== *)
(** * Package rpc, the configuration of a client and the headers it sends
    (src/rpc/client_opt.go, context_headers.go, http.go)

    Options fill a [clientConfig]; the HTTP transport made of it keeps a map
    of headers that [SetHeader] changes; a request gets a copy, the headers of
    its context on top, and what the authentication function does to them. *)

From S2P Require Import Prelude Strconv GoJson GoValue RpcErrors RpcJson RpcService RpcHandler.
From S2P Require Import RpcServer HttpConn HttpHeader.

(** [setHeaders]: the header maps have slices of values, which are shared and
    never changed in place. *)
Definition setHeaders `{!RangeOrder} (dst src : Header) : Header :=
  foldl (λ dst kv, <[CanonicalHeaderKey kv.1 := kv.2]> dst) dst (range_order 20 src).

(** The value of a context under [mdHeaderKey], if any. *)
Abbreviation header_context := (option Header).

Definition headersFromContext (ctx : header_context) : Header := default ∅ ctx.

Definition NewContextWithHeaders `{!RangeOrder} (ctx : header_context) (h : Header) : header_context :=
  if decide (size h = 0%nat) then ctx
  else
    Some (match ctx with
          | Some prev => setHeaders prev h
          | None => h
          end).

(** [HTTPAuth] changes the headers of a request or fails. *)
Abbreviation HTTPAuth := (Header → Header * option goerror).

Section config.
Context {HttpClient Dialer IDGen : Type}.

Record clientConfig := {
  httpClient : option HttpClient;
  httpHeaders : option Header;              (* nil or a map *)
  httpAuth : option HTTPAuth;
  wsDialer : option Dialer;
  wsMessageSizeLimit : option Z;
  idgen : option IDGen;
  batchItemLimit : Z;
  batchResponseLimit : Z
}.

Definition empty_config : clientConfig := {|
  httpClient := None; httpHeaders := None; httpAuth := None; wsDialer := None;
  wsMessageSizeLimit := None; idgen := None; batchItemLimit := 0; batchResponseLimit := 0
|}.

Definition with_httpHeaders (h : option Header) (cfg : clientConfig) : clientConfig := {|
  httpClient := httpClient cfg; httpHeaders := h; httpAuth := httpAuth cfg; wsDialer := wsDialer cfg;
  wsMessageSizeLimit := wsMessageSizeLimit cfg; idgen := idgen cfg;
  batchItemLimit := batchItemLimit cfg; batchResponseLimit := batchResponseLimit cfg
|}.

Definition initHeaders (cfg : clientConfig) : clientConfig :=
  match httpHeaders cfg with
  | None => with_httpHeaders (Some ∅) cfg
  | Some _ => cfg
  end.

(** An assignment to a nil map panics; after [initHeaders] it is not nil. *)
Definition update_headers (f : Header → Header) (cfg : clientConfig) : clientConfig :=
  with_httpHeaders (f <$> httpHeaders cfg) cfg.

Definition setHeader (key value : string) (cfg : clientConfig) : clientConfig :=
  update_headers (SetKey key value) (initHeaders cfg).

(** ** Options *)

Definition ClientOption : Type := clientConfig → clientConfig.

Definition WithWebsocketDialer (dialer : Dialer) : ClientOption := λ cfg, {|
  httpClient := httpClient cfg; httpHeaders := httpHeaders cfg; httpAuth := httpAuth cfg;
  wsDialer := Some dialer; wsMessageSizeLimit := wsMessageSizeLimit cfg; idgen := idgen cfg;
  batchItemLimit := batchItemLimit cfg; batchResponseLimit := batchResponseLimit cfg |}.

Definition WithWebsocketMessageSizeLimit (messageSizeLimit : Z) : ClientOption := λ cfg, {|
  httpClient := httpClient cfg; httpHeaders := httpHeaders cfg; httpAuth := httpAuth cfg;
  wsDialer := wsDialer cfg; wsMessageSizeLimit := Some messageSizeLimit; idgen := idgen cfg;
  batchItemLimit := batchItemLimit cfg; batchResponseLimit := batchResponseLimit cfg |}.

Definition WithHeader (key value : string) : ClientOption := λ cfg,
  update_headers (SetKey key value) (initHeaders cfg).

Definition WithHeaders `{!RangeOrder} (headers : Header) : ClientOption := λ cfg,
  update_headers (λ h, foldl (λ h kv, <[kv.1 := kv.2]> h) h (range_order 21 headers)) (initHeaders cfg).

Definition WithHTTPClient (c : option HttpClient) : ClientOption := λ cfg, {|
  httpClient := c; httpHeaders := httpHeaders cfg; httpAuth := httpAuth cfg;
  wsDialer := wsDialer cfg; wsMessageSizeLimit := wsMessageSizeLimit cfg; idgen := idgen cfg;
  batchItemLimit := batchItemLimit cfg; batchResponseLimit := batchResponseLimit cfg |}.

Definition WithHTTPAuth (a : option HTTPAuth) : outcome ClientOption :=
  match a with
  | None => Panic (ExplicitPanic "nil auth")
  | Some a => Ret (λ cfg, {|
      httpClient := httpClient cfg; httpHeaders := httpHeaders cfg; httpAuth := Some a;
      wsDialer := wsDialer cfg; wsMessageSizeLimit := wsMessageSizeLimit cfg; idgen := idgen cfg;
      batchItemLimit := batchItemLimit cfg; batchResponseLimit := batchResponseLimit cfg |})
  end.

Definition WithBatchItemLimit (limit : Z) : ClientOption := λ cfg, {|
  httpClient := httpClient cfg; httpHeaders := httpHeaders cfg; httpAuth := httpAuth cfg;
  wsDialer := wsDialer cfg; wsMessageSizeLimit := wsMessageSizeLimit cfg; idgen := idgen cfg;
  batchItemLimit := limit; batchResponseLimit := batchResponseLimit cfg |}.

Definition WithBatchResponseSizeLimit (sizeLimit : Z) : ClientOption := λ cfg, {|
  httpClient := httpClient cfg; httpHeaders := httpHeaders cfg; httpAuth := httpAuth cfg;
  wsDialer := wsDialer cfg; wsMessageSizeLimit := wsMessageSizeLimit cfg; idgen := idgen cfg;
  batchItemLimit := batchItemLimit cfg; batchResponseLimit := sizeLimit |}.

(** The loop of [DialOptions] over its options. *)
Definition apply_options (options : list ClientOption) : clientConfig :=
  foldl (λ cfg opt, opt cfg) empty_config options.

(** ** The HTTP connection of a client *)

(** [hc_client] is [None] for the client [new(http.Client)] makes. *)
Record httpConn := {
  hc_client : option HttpClient;
  url : string;
  hc_closed : bool;
  headers : Header;
  auth : option HTTPAuth
}.

Definition newClientTransportHTTP `{!RangeOrder} (endpoint : string) (cfg : clientConfig) : httpConn := {|
  hc_client := httpClient cfg;
  url := endpoint;
  hc_closed := false;
  headers :=
    foldl (λ h kv, <[kv.1 := kv.2]> h)
      (SetKey "content-type" contentType (SetKey "accept" contentType ∅))
      (range_order 22 (default ∅ (httpHeaders cfg)));
  auth := httpAuth cfg
|}.

Definition set_conn_headers (f : Header → Header) (hc : httpConn) : httpConn :=
  {| hc_client := hc_client hc; url := url hc; hc_closed := hc_closed hc;
     headers := f (headers hc); auth := auth hc |}.

(** [SetHeader] of a client whose connection is HTTP. *)
Definition SetHeader (key value : string) (hc : httpConn) : httpConn :=
  set_conn_headers (SetKey key value) hc.

(** The connection as a [ServerCodec]: reading blocks until it is closed. *)
Definition hc_writeJSON : outcome unit := Panic (ExplicitPanic "writeJSON called on httpConn").
Definition hc_peerInfo : outcome unit := Panic (ExplicitPanic "peerInfo called on httpConn").
Definition hc_remoteAddr (hc : httpConn) : string := url hc.
Definition hc_readBatch (hc : httpConn) : option (list jsonrpcMessage * bool * goerror) :=
  if hc_closed hc then Some ([], false, plain_error "EOF") else None.
Definition hc_close (hc : httpConn) : httpConn :=
  {| hc_client := hc_client hc; url := url hc; hc_closed := true; headers := headers hc; auth := auth hc |}.

(** The headers [doRequest] gives to a request, unless authentication fails. *)
Definition request_headers `{!RangeOrder} (hc : httpConn) (ctx : header_context) : Header + goerror :=
  let h := setHeaders (headers hc) (headersFromContext ctx) in
  match auth hc with
  | None => inl h
  | Some a => match a h with (h', None) => inl h' | (_, Some err) => inr err end
  end.
End config.

Arguments clientConfig : clear implicits.
Arguments httpConn : clear implicits.
Arguments ClientOption : clear implicits.

(** * Lemmas *)

(** All keys of a header map are canonical. *)
Definition canonical_keys (h : Header) : bool := bool_decide (Forall canonical (map_to_list h).*1).

Lemma canonical_keys_spec h : canonical_keys h = true ↔ ∀ k vs, h !! k = Some vs → canonical k.
Proof.
  unfold canonical_keys. rewrite bool_decide_eq_true, Forall_forall. split.
  - intros H k vs Hk. apply H. apply list_elem_of_fmap. exists (k, vs). split; [done|].
    by apply elem_of_map_to_list.
  - intros Hc k ([k' vs] & -> & Hk)%list_elem_of_fmap. apply elem_of_map_to_list in Hk. by eapply Hc.
Qed.

(** Inserting the entries of a map one by one, in any order. *)
Lemma foldl_insert_union {V} site `{!RangeOrder} (dst src : gmap string V) :
  foldl (λ h kv, <[kv.1 := kv.2]> h) dst (range_order site src) = src ∪ dst.
Proof.
  assert (Hgen : ∀ (l : list (string * V)) (dst : gmap string V), NoDup l.*1 →
    foldl (λ h kv, <[kv.1 := kv.2]> h) dst l = list_to_map l ∪ dst).
  { clear. induction l as [|[k v] l IH]; intros dst Hnd; cbn [foldl fst snd].
    - by rewrite list_to_map_nil, (left_id_L ∅ (∪)).
    - apply NoDup_cons in Hnd as [Hk Hnd]. rewrite IH, list_to_map_cons by done.
      rewrite <-insert_union_l, <-insert_union_r; [done|]. by apply not_elem_of_list_to_map_1. }
  rewrite Hgen by apply range_order_NoDup. f_equal.
  transitivity (list_to_map (M := gmap string V) (map_to_list src)); [|apply list_to_map_to_list].
  apply list_to_map_proper; [apply range_order_NoDup|].
  by apply range_order_perm.
Qed.

Lemma setHeaders_canonical `{!RangeOrder} dst src :
  canonical_keys src = true → setHeaders dst src = src ∪ dst.
Proof.
  intros Hc. rewrite <-(foldl_insert_union 20). unfold setHeaders.
  assert (Hall : ∀ kv, kv ∈ range_order 20 src → canonical kv.1).
  { intros [k vs] Hk. apply range_order_elem in Hk. by eapply canonical_keys_spec. }
  revert dst. induction (range_order 20 src) as [|kv l IH]; intros dst; [done|]. cbn [foldl].
  rewrite (Hall kv) by (by left). apply IH. intros kv' ?. apply Hall. by right.
Qed.

Lemma canonical_union h1 h2 :
  canonical_keys h1 = true → canonical_keys h2 = true → canonical_keys (h1 ∪ h2) = true.
Proof. rewrite !canonical_keys_spec. intros H1 H2 k vs [?|[_ ?]]%lookup_union_Some_raw; eauto. Qed.

(** Layers of headers: the last one with a key wins. *)
Definition layered (layers : list Header) : Header := foldl (λ h l, l ∪ h) ∅ layers.

Lemma layered_from h layers : foldl (λ h (l : Header), l ∪ h) h layers = layered layers ∪ h.
Proof.
  unfold layered. induction layers as [|l layers IH] using rev_ind; cbn; [by rewrite (left_id_L ∅ (∪))|].
  rewrite !foldl_app, IH. cbn [foldl]. by rewrite (assoc_L (∪)).
Qed.

Lemma layered_app l1 l2 : layered (l1 ++ l2) = layered l2 ∪ layered l1.
Proof. unfold layered at 1. by rewrite foldl_app, layered_from. Qed.

Lemma layered_canonical layers :
  Forall (λ h, canonical_keys h = true) layers → canonical_keys (layered layers) = true.
Proof.
  unfold layered. assert (H0 : canonical_keys ∅ = true) by reflexivity. revert H0.
  generalize (∅ : Header). induction layers as [|l layers IH]; intros h Hh Hl; [done|].
  apply Forall_cons in Hl as [Hl Hls]. cbn [foldl]. apply IH; [by apply canonical_union|done].
Qed.

(** The contexts a caller wraps one in the other. *)
Definition wrap_contexts `{!RangeOrder} (hs : list Header) : header_context :=
  foldl NewContextWithHeaders None hs.

Lemma wrap_contexts_layered `{!RangeOrder} hs :
  Forall (λ h, canonical_keys h = true) hs → headersFromContext (wrap_contexts hs) = layered hs.
Proof.
  intros Hhs. unfold wrap_contexts, layered.
  assert (Hgen : ∀ ctx, canonical_keys (headersFromContext ctx) = true →
    headersFromContext (foldl NewContextWithHeaders ctx hs) =
    foldl (λ h l, l ∪ h) (headersFromContext ctx) hs); [|by apply (Hgen None)].
  induction Hhs as [|h hs Hh _ IH]; intros ctx Hc; [done|]. cbn [foldl].
  assert (Hn : headersFromContext (NewContextWithHeaders ctx h) = h ∪ headersFromContext ctx).
  { unfold NewContextWithHeaders. case_decide as Hs.
    - apply map_size_empty_inv in Hs as ->. by rewrite (left_id_L ∅ (∪)).
    - destruct ctx; cbn; [by apply setHeaders_canonical|by rewrite (right_id_L ∅ (∪))]. }
  rewrite IH; [by rewrite Hn|]. rewrite Hn. by apply canonical_union.
Qed.

(** What an option does to the headers of the configuration. *)
Section layers.
Context {HttpClient Dialer IDGen : Type} `{!RangeOrder}.
Abbreviation option_ := (ClientOption HttpClient Dialer IDGen).
Abbreviation conn := (httpConn HttpClient).

Definition sets_headers (o : option_) (l : Header) : Prop :=
  ∀ cfg, default ∅ (httpHeaders (o cfg)) = l ∪ default ∅ (httpHeaders cfg).

Lemma update_headers_init f (cfg : clientConfig HttpClient Dialer IDGen) :
  default ∅ (httpHeaders (update_headers f (initHeaders cfg))) = f (default ∅ (httpHeaders cfg)).
Proof. unfold update_headers, initHeaders. destruct (httpHeaders cfg) eqn:E; cbn; by rewrite ?E. Qed.

Lemma SetKey_union key value h : SetKey key value h = {[CanonicalHeaderKey key := [value]]} ∪ h.
Proof. unfold SetKey. by rewrite <-insert_union_singleton_l. Qed.

Lemma WithHeader_sets key value : sets_headers (WithHeader key value) {[CanonicalHeaderKey key := [value]]}.
Proof. intros cfg. unfold WithHeader. by rewrite update_headers_init, SetKey_union. Qed.

Lemma WithHeaders_sets h : sets_headers (WithHeaders h) h.
Proof. intros cfg. unfold WithHeaders. by rewrite update_headers_init, foldl_insert_union. Qed.

Lemma WithBatchItemLimit_sets n : sets_headers (WithBatchItemLimit n) ∅.
Proof. intros cfg. by rewrite (left_id_L ∅ (∪)). Qed.

Lemma WithHTTPAuth_sets a o : WithHTTPAuth (Some a) = Ret o → sets_headers o ∅.
Proof. intros [= <-] cfg. by rewrite (left_id_L ∅ (∪)). Qed.

Lemma apply_options_headers (opts : list option_) layers :
  Forall2 sets_headers opts layers → default ∅ (httpHeaders (apply_options opts)) = layered layers.
Proof.
  intros Hl. unfold apply_options.
  assert (Hgen : ∀ cfg, default ∅ (httpHeaders (foldl (λ cfg opt, opt cfg) cfg opts)) =
    layered layers ∪ default ∅ (httpHeaders cfg)).
  { induction Hl as [|o l opts layers Ho _ IH]; intros cfg; cbn [foldl].
    - unfold layered. cbn [foldl]. by rewrite (left_id_L ∅ (∪)).
    - rewrite IH, Ho, (assoc_L (∪)). f_equal. change (l :: layers) with ([l] ++ layers).
      rewrite layered_app. f_equal. unfold layered. cbn [foldl]. by rewrite (right_id_L ∅ (∪)). }
  rewrite Hgen. cbn. by rewrite (right_id_L ∅ (∪)).
Qed.

(** The headers every client sends. *)
Definition default_headers : Header := SetKey "content-type" contentType (SetKey "accept" contentType ∅).

Definition set_layers (sets : list (string * string)) : list Header :=
  (λ kv, {[CanonicalHeaderKey kv.1 := [kv.2]]}) <$> sets.

Definition set_all (sets : list (string * string)) (hc : conn) : conn :=
  foldl (λ hc kv, SetHeader kv.1 kv.2 hc) hc sets.

Lemma set_all_headers sets hc :
  headers (set_all sets hc) = layered (set_layers sets) ∪ headers hc ∧ auth (set_all sets hc) = auth hc.
Proof.
  unfold set_all, set_layers. revert hc. induction sets as [|[k v] sets IH]; intros hc; cbn [foldl fmap list_fmap].
  - split; [|done]. unfold layered. cbn [foldl]. by rewrite (left_id_L ∅ (∪)).
  - destruct (IH (SetHeader k v hc)) as [IH1 IH2]. cbn [fst snd]. rewrite IH1, IH2. split; [|done].
    change (?x :: ?l) with ([x] ++ l). rewrite layered_app, <-(assoc_L (∪)). f_equal.
    unfold layered. cbn [foldl]. rewrite (right_id_L ∅ (∪)). cbn. by rewrite SetKey_union.
Qed.
End layers.

(** * Properties *)

(** The headers of a request of an HTTP client are given by layers, of
    which the last one that has a key decides its values: the defaults accept
    and content-type, the options in the order they were passed, the calls of
    [SetHeader] in order, and the headers of the context from the outermost
    wrapping to the innermost one; the authentication function is applied to
    the result and can still refuse.  The context's keys must be canonical. *)
Theorem request_headers_layers {HttpClient Dialer IDGen} `{!RangeOrder}
    (opts : list (ClientOption HttpClient Dialer IDGen)) (layers : list Header)
    (sets : list (string * string)) (ctxs : list Header) (endpoint : string) :
  Forall2 sets_headers opts layers → Forall (λ h, canonical_keys h = true) ctxs →
  let hc := set_all sets (newClientTransportHTTP endpoint (apply_options opts)) in
  let h := layered ([default_headers] ++ layers ++ set_layers sets ++ ctxs) in
  request_headers hc (wrap_contexts ctxs) =
  match httpAuth (apply_options opts) with
  | None => inl h
  | Some a => match a h with (h', None) => inl h' | (_, Some err) => inr err end
  end.
Proof.
  intros Hl Hc hc h.
  assert (Hh : setHeaders (headers hc) (headersFromContext (wrap_contexts ctxs)) = h).
  { rewrite wrap_contexts_layered, setHeaders_canonical by (by auto using layered_canonical).
    destruct (set_all_headers sets (newClientTransportHTTP endpoint (apply_options opts))) as [Hs _].
    fold hc in Hs. rewrite Hs. cbn [headers newClientTransportHTTP].
    rewrite foldl_insert_union, (apply_options_headers opts layers Hl). fold default_headers.
    unfold h. rewrite !layered_app, <-!(assoc_L (∪)). do 3 f_equal. }
  unfold request_headers. rewrite Hh.
  destruct (set_all_headers sets (newClientTransportHTTP endpoint (apply_options opts))) as [_ Ha].
  fold hc in Ha. by rewrite Ha.
Qed.

Section sample.
Existing Instance default_range_order.

Example request_headers_layers_witness :
  let opts := [WithHeader (HttpClient := unit) (Dialer := unit) (IDGen := unit) "x-key" "1";
               WithHeader "CONTENT-type" "text/plain"] in
  let layers : list Header :=
    [{[CanonicalHeaderKey "x-key" := ["1"]]}; {[CanonicalHeaderKey "CONTENT-type" := ["text/plain"]]}] in
  let ctxs : list Header := [{["X-Key" := ["3"]]}; {["X-Key" := ["4"]]}] in
  let hc := set_all [("X-KEY", "2"); ("x-other", "o")]
              (newClientTransportHTTP "http://x" (apply_options opts)) in
  request_headers hc (wrap_contexts ctxs) =
    inl (layered ([default_headers] ++ layers ++ set_layers [("X-KEY", "2"); ("x-other", "o")] ++ ctxs)) ∧
  (Get (layered ([default_headers] ++ layers ++ set_layers [("X-KEY", "2"); ("x-other", "o")] ++ ctxs)) "x-key",
   Get (layered ([default_headers] ++ layers ++ set_layers [("X-KEY", "2"); ("x-other", "o")] ++ ctxs)) "content-type")
  = ("4", "text/plain").
Proof.
  intros opts layers ctxs hc. split; [|vm_compute; reflexivity].
  apply (request_headers_layers opts layers [("X-KEY", "2"); ("x-other", "o")] ctxs "http://x").
  - repeat apply Forall2_cons_2; [apply WithHeader_sets..|apply Forall2_nil_2].
  - repeat apply Forall_cons_2; [reflexivity..|apply Forall_nil_2].
Defined.
End sample.

Definition reverse_range_order : RangeOrder := {|
  range_order V _ m := reverse (map_to_list m);
  range_order_perm V _ m := reverse_Permutation (map_to_list m)
|}.

(** The headers of a context with an override, in either order. *)
Definition overridden `{!RangeOrder} : Header :=
  headersFromContext (wrap_contexts [{["x-key" := ["old"]]}; {["x-key" := ["new"]]}]).

Lemma override_order :
  @range_order default_range_order _ 20 (@overridden default_range_order) = [("x-key", ["old"]); ("X-Key", ["new"])].
Proof. vm_compute. reflexivity. Qed.

Lemma override_order_reverse :
  @range_order reverse_range_order _ 20 (@overridden reverse_range_order) = [("X-Key", ["new"]); ("x-key", ["old"])].
Proof. vm_compute. reflexivity. Qed.

(** The keys of the context's headers are made canonical too late: when a
    caller overrides a header of its context under a key that is not
    canonical, the old and the new value are both kept, and the order in which
    Go happens to visit the map decides which one is sent. *)
Theorem context_override_unspecified {HttpClient} (hc : httpConn HttpClient) :
  auth hc = None →
  let ctx (R : RangeOrder) := wrap_contexts [{["x-key" := ["old"]]}; {["x-key" := ["new"]]}] in
  let value (R : RangeOrder) :=
    match request_headers hc (ctx R) with inl h => Get h "x-key" | inr _ => "" end in
  value default_range_order ≠ value reverse_range_order.
Proof.
  intros Ha ctx value. unfold value, request_headers. rewrite Ha. clear value.
  assert (E : ∀ (R : RangeOrder) l, range_order 20 (headersFromContext (ctx R)) = l →
    ∀ k vs, last l = Some (k, vs) → CanonicalHeaderKey k = "X-Key" →
    Get (setHeaders (headers hc) (headersFromContext (ctx R))) "x-key" = hd "" vs).
  { intros R l El k vs Hl Hk. unfold Get, Values, setHeaders. rewrite El.
    apply last_Some in Hl as [l' ->]. rewrite foldl_app. cbn [foldl fst snd]. rewrite Hk.
    change (CanonicalHeaderKey "x-key") with "X-Key". rewrite lookup_insert_eq. by destruct vs. }
  rewrite (E default_range_order _ override_order "X-Key" ["new"]), (E reverse_range_order _ override_order_reverse "x-key" ["old"])
    by reflexivity. discriminate.
Qed.

Example context_override_unspecified_witness :
  let hc : httpConn unit := newClientTransportHTTP (H := default_range_order) "http://x"
    (apply_options (Dialer := unit) (IDGen := unit) []) in
  auth hc = None ∧
  (let ctx (R : RangeOrder) := wrap_contexts [{["x-key" := ["old"]]}; {["x-key" := ["new"]]}] in
   let value (R : RangeOrder) :=
     match request_headers hc (ctx R) with inl h => Get h "x-key" | inr _ => "" end in
   value default_range_order ≠ value reverse_range_order).
Proof. intros hc. split; [reflexivity|]. exact (context_override_unspecified hc eq_refl). Defined.

(** [WithHeaders] keeps the keys as they are written: under a key that is not
    canonical the values are sent next to the defaults and do not replace
    them, as those of [WithHeader] do. *)
Lemma WithHeaders_not_canonical {HttpClient Dialer IDGen} `{!RangeOrder} endpoint (vs : list string) :
  let hc := newClientTransportHTTP (HttpClient := HttpClient) (Dialer := Dialer) (IDGen := IDGen) endpoint
    (apply_options [WithHeaders {["content-type" := vs]}]) in
  headers hc !! "content-type" = Some vs ∧ headers hc !! "Content-Type" = Some [contentType].
Proof.
  intros hc. cbn [hc headers newClientTransportHTTP]. rewrite foldl_insert_union.
  rewrite (apply_options_headers _ [{["content-type" := vs]}])
    by (apply Forall2_cons_2; [apply WithHeaders_sets|apply Forall2_nil_2]).
  split; vm_compute; reflexivity.
Qed.
