(* ===== verification/RpcDial.v ===== *)
(** * Package rpc, making a client (src/rpc/client.go [DialOptions],
    [newClient], [initClient]; http.go, websocket.go, ipc.go, stdio.go)

    Which transport a URL selects, what a websocket client sends to make its
    connection, and the settings the client gets from its configuration.  The
    websocket dialer is a third-party library and the local socket the
    operating system's: what they answer is an argument. *)

From S2P Require Import Prelude Strconv GoJson GoValue RpcErrors RpcJson RpcService RpcHandler.
From S2P Require Import RpcServer HttpConn HttpHeader GoUrl WsOrigin ClientConfig.

(** ** Connection details *)

Record PeerInfo := {
  Transport : string;
  RemoteAddr : string;
  HTTP_Version : string;
  HTTP_UserAgent : string;
  HTTP_Origin : string;
  HTTP_Host : string
}.

Definition no_peer : PeerInfo := {|
  Transport := ""; RemoteAddr := ""; HTTP_Version := ""; HTTP_UserAgent := ""; HTTP_Origin := "";
  HTTP_Host := "" |}.

(** The value of a context under [peerInfoContextKey], or the zero value. *)
Definition PeerInfoFromContext (ctx : option PeerInfo) : PeerInfo := default no_peer ctx.

(** [remote] is the address, when the connection has one to tell. *)
Definition jsonCodec_remote (remote : option string) : string := default "" remote.
Definition jsonCodec_peerInfo (remote : option string) : PeerInfo := {|
  Transport := "ipc"; RemoteAddr := jsonCodec_remote remote; HTTP_Version := ""; HTTP_UserAgent := "";
  HTTP_Origin := ""; HTTP_Host := "" |}.

Definition websocket_peerInfo (remote host : string) (req : Header) : PeerInfo := {|
  Transport := "ws"; RemoteAddr := remote; HTTP_Version := ""; HTTP_UserAgent := Get req "User-Agent";
  HTTP_Origin := Get req "Origin"; HTTP_Host := host |}.

(** A connection over standard input and output. *)
Definition stdio_RemoteAddr : string := "/dev/stdin".

(** ** Websocket clients *)

Definition wsDefaultReadLimit : Z := 32 * 1024 * 1024.

Definition clear_user (u : URL) : URL := {|
  Scheme := Scheme u; Opaque := Opaque u; User := None; u_Host := u_Host u; u_Path := u_Path u;
  RawPath := RawPath u; OmitHost := OmitHost u; ForceQuery := ForceQuery u; u_RawQuery := u_RawQuery u;
  Fragment := Fragment u; RawFragment := RawFragment u |}.

(** The URL to dial and the headers of the handshake. *)
Definition wsClientHeaders (endpoint origin : string) : (string * Header) + url_error :=
  match Parse endpoint with
  | inr e => inr e
  | inl endpointURL =>
      let header : Header := if decide (origin ≠ "") then AddKey "origin" origin ∅ else ∅ in
      match User endpointURL with
      | Some ui =>
          let b64auth := b64_encode (Userinfo_String ui) in
          inl (URL_String (clear_user endpointURL), AddKey "authorization" ("Basic " +:+ b64auth) header)
      | None => inl (URL_String endpointURL, header)
      end
  end.

(** What the dialer answers: a connection with its remote address, or an
    error and the status of the response, if there was one. *)
Inductive dial_answer := Dialled (remote : string) | DialFailed (err : string) (status : option string).

Record wsHandshakeError := { hs_err : string; hs_status : string }.

Definition wsHandshakeError_text (e : wsHandshakeError) : string :=
  if decide (hs_status e ≠ "") then hs_err e +:+ " (HTTP status " +:+ hs_status e +:+ ")" else hs_err e.

Inductive connect_error :=
| ConnectAuth (e : goerror)
| ConnectHandshake (e : wsHandshakeError)
| ConnectSocket (e : string).

(** What a connected client talks through. *)
Inductive connection :=
| HttpConnection
| WsConnection (info : PeerInfo) (readLimit : Z)
| IoConnection (info : PeerInfo).

(** [WebsocketHandler]: [upgrade] is the library's answer to the handshake
    once the origin was accepted, with the remote address; the connection that
    is served, with its read limit. *)
Definition WebsocketHandler (hostname : option string) (allowedOrigins : list string)
    (upgrade : Header → option string) (host : string) (req : Header) : option (PeerInfo * Z) :=
  if wsHandshakeValidator hostname allowedOrigins req then
    match upgrade req with
    | Some remote => Some (websocket_peerInfo remote host req, wsDefaultReadLimit)
    | None => None
    end
  else None.

Section dial.
Context {HttpClient Dialer IDGen : Type} `{!RangeOrder}.
(** [dialer.DialContext] for a URL and headers, the dialer configured or the
    default one; opening a local socket. *)
Context (DialContext : option Dialer → string → Header → dial_answer).
Context (newIPCConnection : string → string + string).
Abbreviation config := (clientConfig HttpClient Dialer IDGen).
Abbreviation option_ := (ClientOption HttpClient Dialer IDGen).

(** What [newClientTransportWS] prepares. *)
Record wsTransport := { ws_config : config; dialURL : string; ws_header : Header }.

Definition newClientTransportWS (endpoint : string) (cfg : config) : wsTransport + url_error :=
  match wsClientHeaders endpoint "" with
  | inr e => inr e
  | inl (dialURL, header) =>
      inl {| ws_config := cfg; dialURL := dialURL;
             ws_header := foldl (λ h kv, <[kv.1 := kv.2]> h) header
                            (range_order 23 (default ∅ (httpHeaders cfg))) |}
  end.

Definition message_size_limit (cfg : config) : Z :=
  match wsMessageSizeLimit cfg with
  | Some n => if 0 <=? n then n else wsDefaultReadLimit
  | None => wsDefaultReadLimit
  end.

(** The closure [connect]: each connection authenticates anew. *)
Definition ws_connect (t : wsTransport) : connection + connect_error :=
  let dial header :=
    match DialContext (wsDialer (ws_config t)) (dialURL t) header with
    | DialFailed err status =>
        inr (ConnectHandshake {| hs_err := err; hs_status := default "" status |})
    | Dialled remote =>
        inl (WsConnection (websocket_peerInfo remote (dialURL t) header) (message_size_limit (ws_config t)))
    end in
  match httpAuth (ws_config t) with
  | None => dial (ws_header t)
  | Some a =>
      match a (ws_header t) with
      | (header, None) => dial header
      | (_, Some err) => inr (ConnectAuth err)
      end
  end.

(** ** The transport of a URL *)

Inductive transport :=
| TransportHTTP (hc : httpConn HttpClient)
| TransportWS (t : wsTransport)
| TransportIO
| TransportIPC (endpoint : string).

Inductive dial_error :=
| DialURL (e : url_error)
| DialScheme (scheme : string)
| DialConnect (e : connect_error).

(** The switch of [DialOptions] over the scheme. *)
Definition select_transport (rawurl : string) (cfg : config) (u : URL) : transport + dial_error :=
  if bool_decide (Scheme u = "http") || bool_decide (Scheme u = "https") then
    inl (TransportHTTP (newClientTransportHTTP rawurl cfg))
  else if bool_decide (Scheme u = "ws") || bool_decide (Scheme u = "wss") then
    match newClientTransportWS rawurl cfg with
    | inl t => inl (TransportWS t)
    | inr e => inr (DialURL e)
    end
  else if bool_decide (Scheme u = "stdio") then inl TransportIO
  else if bool_decide (Scheme u = "") then inl (TransportIPC rawurl)
  else inr (DialScheme (Scheme u)).

Definition connect (t : transport) : connection + connect_error :=
  match t with
  | TransportHTTP _ => inl HttpConnection
  | TransportWS t => ws_connect t
  | TransportIO => inl (IoConnection (jsonCodec_peerInfo (Some stdio_RemoteAddr)))
  | TransportIPC endpoint =>
      match newIPCConnection endpoint with
      | inl remote => inl (IoConnection (jsonCodec_peerInfo (Some remote)))
      | inr e => inr (ConnectSocket e)
      end
  end.

(** [initClient]: the settings of a client, the generator of subscription ids
    of the configuration or the random one. *)
Record rpcClient := {
  isHTTP : bool;
  c_transport : transport;
  c_connection : connection;
  c_idgen : option IDGen;               (* [None]: [randomIDGenerator()] *)
  c_batchItemLimit : Z;
  c_batchResponseMaxSize : Z
}.

Definition initClient (cfg : config) (t : transport) (conn : connection) : rpcClient := {|
  isHTTP := match conn with HttpConnection => true | _ => false end;
  c_transport := t; c_connection := conn; c_idgen := idgen cfg;
  c_batchItemLimit := ClientConfig.batchItemLimit cfg;
  c_batchResponseMaxSize := ClientConfig.batchResponseLimit cfg |}.

(** The loop of [dispatch] runs next to a client that is not HTTP. *)
Definition dispatches (c : rpcClient) : bool := negb (isHTTP c).

Definition newClient (cfg : config) (t : transport) : rpcClient + dial_error :=
  match connect t with
  | inr e => inr (DialConnect e)
  | inl conn => inl (initClient cfg t conn)
  end.

Definition DialOptions (rawurl : string) (options : list option_) : rpcClient + dial_error :=
  match Parse rawurl with
  | inr e => inr (DialURL e)
  | inl u =>
      let cfg := apply_options options in
      match select_transport rawurl cfg u with
      | inr e => inr e
      | inl t => newClient cfg t
      end
  end.

Definition Dial (rawurl : string) : rpcClient + dial_error := DialOptions rawurl [].
Definition DialContext_ (rawurl : string) : rpcClient + dial_error := DialOptions rawurl [].

Definition DialHTTPWithClient (endpoint : string) (client : option HttpClient) : rpcClient + dial_error :=
  match Parse endpoint with
  | inr e => inr (DialURL e)
  | inl _ =>
      let cfg := WithHTTPClient client empty_config in
      newClient cfg (TransportHTTP (newClientTransportHTTP endpoint cfg))
  end.

(** [new(http.Client)] is the client [None] stands for. *)
Definition DialHTTP (endpoint : string) : rpcClient + dial_error := DialHTTPWithClient endpoint None.

Definition dial_ws (endpoint : string) (cfg : config) : rpcClient + dial_error :=
  match newClientTransportWS endpoint cfg with
  | inr e => inr (DialURL e)
  | inl t => newClient cfg (TransportWS t)
  end.

Definition with_origin (origin : string) (cfg : config) : config :=
  if decide (origin ≠ "") then setHeader "origin" origin cfg else cfg.

Definition DialWebsocket (endpoint origin : string) : rpcClient + dial_error :=
  dial_ws endpoint (with_origin origin empty_config).
Definition DialWebsocketWithDialer (endpoint origin : string) (dialer : Dialer) : rpcClient + dial_error :=
  dial_ws endpoint (with_origin origin (WithWebsocketDialer dialer empty_config)).

Definition DialIPC (endpoint : string) : rpcClient + dial_error := newClient empty_config (TransportIPC endpoint).
Definition DialStdIO : rpcClient + dial_error := newClient empty_config TransportIO.

(** [SetHeader] does nothing for other transports. *)
Definition Client_SetHeader (key value : string) (c : rpcClient) : rpcClient :=
  if negb (isHTTP c) then c
  else
    match c_transport c with
    | TransportHTTP hc =>
        {| isHTTP := isHTTP c; c_transport := TransportHTTP (SetHeader key value hc);
           c_connection := c_connection c; c_idgen := c_idgen c; c_batchItemLimit := c_batchItemLimit c;
           c_batchResponseMaxSize := c_batchResponseMaxSize c |}
    | _ => c
    end.

Definition SupportsSubscriptions (c : rpcClient) : bool := negb (isHTTP c).
End dial.

(** * Lemmas *)

(** ** Escaped credentials *)

Definition userinfo_char (c : ascii) : bool := is_alnum c || string_mem c "-_.~$&+,;=%".

Lemma escaped_byte c : string_forallb userinfo_char (escape (String c "") encodeUserPassword) = true.
Proof. revert c. all_bytes. Qed.

Lemma escape_cons c s mode : escape (String c s) mode = escape (String c "") mode +:+ escape s mode.
Proof. cbn [escape]. by destruct (shouldEscape c mode). Qed.

Lemma escape_chars s : string_forallb userinfo_char (escape s encodeUserPassword) = true.
Proof.
  induction s as [|c s IH]; [done|]. rewrite escape_cons, string_forallb_app, IH, escaped_byte. done.
Qed.

Lemma escape_mem c s : userinfo_char c = false → string_mem c (escape s encodeUserPassword) = false.
Proof. intros Hc. eapply string_forallb_mem; [apply escape_chars|done]. Qed.

Lemma CTL_forallb f s :
  (∀ c, f c = true → (code c <? 32) || (code c =? 127) = false) →
  string_forallb f s = true → stringContainsCTLByte s = false.
Proof.
  intros Hf. induction s as [|c s IH]; [done|]. cbn [string_forallb]. rewrite andb_true_iff.
  intros [Hc Hs]. unfold stringContainsCTLByte in *. by rewrite (Hf c Hc), (IH Hs).
Qed.

Lemma escape_CTL s : stringContainsCTLByte (escape s encodeUserPassword) = false.
Proof. eapply CTL_forallb; [|apply escape_chars]. all_bytes. Qed.

Lemma validUserinfo_forallb f s :
  (∀ c, f c = true → is_alnum c || string_mem c "-._:~!$&'()*+,;=%@" = true) →
  string_forallb f s = true → validUserinfo s = true.
Proof.
  intros Hf. induction s as [|c s IH]; [done|]. cbn [string_forallb]. rewrite andb_true_iff.
  intros [Hc Hs]. unfold validUserinfo in *. by rewrite (Hf c Hc), (IH Hs).
Qed.

Definition userinfo_text (user pass : string) : string :=
  escape user encodeUserPassword +:+ String ":" (escape pass encodeUserPassword).

Lemma parseUser_escaped user pass :
  parseUser (userinfo_text user pass) = inl {| username := user; password := pass; passwordSet := true |}.
Proof.
  unfold parseUser, userinfo_text. rewrite (validUserinfo_forallb (λ c, userinfo_char c || bool_decide (c = ":"%char))).
  - cbn [negb]. rewrite cut_at_app by (by apply escape_mem). by rewrite !unescape_escape by done.
  - all_bytes.
  - rewrite string_forallb_app. cbn [string_forallb]. rewrite bool_decide_true, orb_true_r by done. cbn [andb].
    rewrite !(string_forallb_mono userinfo_char _ (escape _ _)); try apply escape_chars; try done;
      by intros c ->.
Qed.

(** ** Printing what was parsed *)

Lemma escape_host s :
  string_forallb origin_char s = true → string_mem "/" s = false → escape s encodeHost = s.
Proof.
  induction s as [|c s IH]; [done|]. cbn [string_forallb string_mem escape].
  rewrite andb_true_iff, orb_false_iff. intros [Hc Hs] [Hd Hm].
  assert (shouldEscape c encodeHost = false) as ->; [|by rewrite (IH Hs Hm)].
  apply bool_decide_eq_false in Hd. revert c Hc Hd. clear.
  intros [[] [] [] [] [] [] [] []]; vm_compute; intros; done.
Qed.

Lemma URL_String_authority s h :
  s ≠ "" → h ≠ "" → escape h encodeHost = h →
  URL_String {| Scheme := s; Opaque := ""; User := None; u_Host := h; u_Path := ""; RawPath := "";
    OmitHost := false; ForceQuery := false; u_RawQuery := ""; Fragment := ""; RawFragment := "" |} =
  s +:+ String ":" (String "/" (String "/" h)).
Proof.
  intros Hs Hh He. unfold URL_String, EscapedPath, escaped_with. cbn [Scheme Opaque User u_Host u_Path RawPath
    OmitHost ForceQuery u_RawQuery Fragment RawFragment].
  rewrite (decide_False (P := s = "")), !(bool_decide_false (s = "")), !(bool_decide_false (h = "")),
    !(decide_False (P := h = "")), He by done.
  cbn [andb orb negb]. change (bool_decide ("" ≠ "")) with false. cbn [andb].
  destruct (decide ("" = "*")) as [|_]; [done|]. cbn [escape].
  change (bool_decide ("" = "")) with true. cbn [negb andb].
  destruct (decide ("" ≠ "")) as [[]|_]; [done|]. destruct (decide ("" = "")) as [_|[]]; [|done].
  change (string_mem ":" (Cut "/" "").1) with false. rewrite andb_false_r, !string_app_nil_r.
  change ("//" +:+ "" +:+ h) with (String "/" (String "/" h)).
  clear. induction s as [|c s IH]; [done|].
  change ((String c s +:+ ":") +:+ ?x) with (String c ((s +:+ ":") +:+ x)). rewrite IH. reflexivity.
Qed.

(** ** Plain URLs *)

Lemma hostport_nonempty o : plain_origin o = true → hostport o ≠ "".
Proof. intros Ho. destruct (plain_parts o Ho) as (_ & _ & Hh & _). unfold hostport. by destruct (o_host o). Qed.

Lemma URL_String_origin o : plain_origin o = true →
  URL_String {| Scheme := o_scheme o; Opaque := ""; User := None; u_Host := hostport o; u_Path := "";
    RawPath := ""; OmitHost := false; ForceQuery := false; u_RawQuery := ""; Fragment := "";
    RawFragment := "" |} = origin_text o.
Proof.
  intros Ho. destruct (plain_parts o Ho) as (Hs & _). destruct (hostport_chars o Ho) as [Hc Hm].
  rewrite URL_String_authority; [done|done|by apply hostport_nonempty|by apply escape_host].
Qed.

(** A URL with credentials in it. *)
Definition with_credentials (user pass : string) (o : web_origin) : string :=
  o_scheme o +:+ String ":" (String "/" (String "/" (userinfo_text user pass +:+ String "@" (hostport o)))).

Lemma credentials_mem c user pass o :
  plain_origin o = true → userinfo_char c = false → c ≠ ":"%char → c ≠ "@"%char → origin_char c = false ∨ c = "/"%char →
  string_mem c (userinfo_text user pass +:+ String "@" (hostport o)) = false.
Proof.
  intros Ho Hc H1 H2 H3. unfold userinfo_text. rewrite !string_mem_app. cbn [string_mem].
  rewrite !escape_mem by done. rewrite !bool_decide_false by done. cbn [orb].
  destruct H3 as [H3| ->]; [by apply hostport_mem|by apply hostport_chars].
Qed.

Lemma Parse_credentials user pass o : plain_origin o = true →
  Parse (with_credentials user pass o) = inl {|
    Scheme := o_scheme o; Opaque := "";
    User := Some {| username := user; password := pass; passwordSet := true |}; u_Host := hostport o;
    u_Path := ""; RawPath := ""; OmitHost := false; ForceQuery := false; u_RawQuery := "";
    Fragment := ""; RawFragment := "" |}.
Proof.
  intros Ho. destruct (plain_parts o Ho) as (Hs & Hsl & _). destruct (hostport_chars o Ho) as [Hc Hm].
  unfold with_credentials. rewrite Parse_authority; try done; try (by apply credentials_mem; auto).
  - unfold parseAuthority. rewrite last_cut_app by (by apply hostport_mem).
    by rewrite parseHost_plain, parseUser_escaped.
  - unfold userinfo_text. rewrite !CTL_app. change (stringContainsCTLByte (String ?x ?y)) with
      ((code x <? 32) || (code x =? 127) || stringContainsCTLByte y).
    by rewrite !escape_CTL, CTL_false.
Qed.

(** ** Paths *)

Definition path_char (c : ascii) : bool := is_bare_char c || string_mem c "/_".

Lemma path_char_facts c : path_char c = true →
  (code c <? 32) || (code c =? 127) = false ∧ c ≠ "%"%char.
Proof. revert c. all_bytes. Qed.

Lemma unescape_path p : string_forallb path_char p = true → unescape p encodePath = inl p.
Proof.
  induction p as [|c p IH]; [done|]. cbn [string_forallb unescape]. rewrite andb_true_iff. intros [Hc Hp].
  destruct (path_char_facts c Hc) as [_ Hne]. rewrite decide_False by done. cbn [host_mode andb].
  by rewrite (IH Hp).
Qed.

Lemma Parse_path p :
  string_forallb path_char p = true → HasPrefix p "/" = false →
  ∃ u, Parse (String "/" p) = inl u ∧ Scheme u = "".
Proof.
  intros Hp Hs. assert (Hp' : string_forallb path_char (String "/" p) = true) by exact Hp.
  assert (Hno : ∀ c, path_char c = false → string_mem c (String "/" p) = false)
    by (intros c; by apply string_forallb_mem).
  unfold Parse. rewrite Cut_none by (by apply Hno). unfold parse_url.
  rewrite (CTL_forallb path_char) by (done || by intros c [? _]%path_char_facts).
  destruct (decide (String "/" p = "*")) as [|_]; [done|].
  unfold getScheme. cbn [scheme_loop]. change (in_range 97 122 "/" || in_range 65 90 "/") with false.
  change (in_range 48 57 "/" || string_mem "/" "+-.") with false. cbn [negb].
  destruct (decide ("/"%char = ":"%char)) as [|_]; [done|].
  rewrite Cut_none by (by apply Hno). change (ToLower "") with "".
  assert (HasPrefix (String "/" p) "/" = true) as -> by (cbn; by destruct p).
  assert (HasPrefix (String "/" p) "//" = false) as Hs2 by (cbn; exact Hs).
  cbn [negb andb]. unfold host_rest. rewrite Hs2, andb_false_r.
  rewrite (unescape_path _ Hp'). by eexists.
Qed.

(** * Properties *)

(** The credentials of a websocket URL are taken out of it: the URL that
    is dialled is the one without them, and the handshake has one
    Authorization header, whose base64 text is user and password as the URL
    spells them, percent-encoded and not decoded; the password the server
    recovers is the user's only after decoding it once more. *)
Theorem wsClientHeaders_credentials (user pass : string) (o : web_origin) :
  plain_origin o = true →
  ∃ token, wsClientHeaders (with_credentials user pass o) "" =
      inl (origin_text o, {["Authorization" := ["Basic " +:+ token]]}) ∧
    b64_decode token = (userinfo_text user pass, None) ∧
    unescape (escape pass encodeUserPassword) encodeUserPassword = inl pass.
Proof.
  intros Ho. exists (b64_encode (userinfo_text user pass)). split_and!.
  - unfold wsClientHeaders. rewrite (Parse_credentials user pass o Ho). cbn [User].
    destruct (decide ("" ≠ "")) as [[]|_]; [done|].
    unfold clear_user. cbn [Scheme Opaque u_Host u_Path RawPath OmitHost ForceQuery u_RawQuery Fragment RawFragment].
    rewrite (URL_String_origin o Ho). f_equal. f_equal. unfold AddKey, Values.
    change (CanonicalHeaderKey "authorization") with "Authorization". rewrite lookup_empty.
    cbn [from_option id app]. rewrite insert_empty. do 4 f_equal.
    unfold Userinfo_String. cbn [username passwordSet password].
    destruct (decide _) as [_|Hn]; [done|]. destruct Hn. by right.
  - apply b64_decode_encode.
  - by apply unescape_escape.
Qed.

Example wsClientHeaders_credentials_witness :
  let o := {| o_scheme := "ws"; o_host := "node.example"; o_port := "8546" |} in
  plain_origin o = true ∧ with_credentials "me" "p@ss" o = "ws://me:p%40ss@node.example:8546" ∧
  ∃ token, wsClientHeaders (with_credentials "me" "p@ss" o) "" =
      inl ("ws://node.example:8546", {["Authorization" := ["Basic " +:+ token]]}) ∧
    b64_decode token = ("me:p%40ss", None).
Proof.
  intros o. split; [reflexivity|]. split; [reflexivity|].
  destruct (wsClientHeaders_credentials "me" "p@ss" o eq_refl) as (token & H1 & H2 & _).
  exists token. split; [exact H1|exact H2].
Defined.

(** The scheme of a URL selects the transport: http and https post to the
    URL as it was given, ws and wss dial it with the configured headers and no
    others (so without an Origin unless one is configured), stdio talks over the
    standard streams, any other scheme is refused; a path opens the local
    socket of that name.  The dialler's and the socket's answers are passed on. *)
Theorem DialOptions_correct {HttpClient Dialer IDGen} `{!RangeOrder}
    (DialContext : option Dialer → string → Header → dial_answer)
    (newIPCConnection : string → string + string)
    (options : list (ClientOption HttpClient Dialer IDGen)) (o : web_origin) (p : string) :
  plain_origin o = true → string_forallb path_char p = true → HasPrefix p "/" = false →
  let dial := DialOptions DialContext newIPCConnection in
  let new := newClient DialContext newIPCConnection in
  let cfg := apply_options options in
  dial (origin_text o) options =
    (if decide (o_scheme o ∈ ["http"; "https"])
     then inl (initClient cfg (TransportHTTP (newClientTransportHTTP (origin_text o) cfg)) HttpConnection)
     else if decide (o_scheme o ∈ ["ws"; "wss"])
     then new cfg (TransportWS {| ws_config := cfg; dialURL := origin_text o;
                                  ws_header := default ∅ (httpHeaders cfg) |})
     else if decide (o_scheme o = "stdio") then new cfg TransportIO
     else inr (DialScheme (o_scheme o))) ∧
  dial (String "/" p) options = new cfg (TransportIPC (String "/" p)).
Proof.
  intros Ho Hp Hs dial new cfg. split.
  - destruct (plain_parts o Ho) as (Hne & _). unfold dial, DialOptions. rewrite (Parse_origin o Ho).
    fold cfg. unfold select_transport. cbn [Scheme].
    assert (Hin : ∀ a b, bool_decide (o_scheme o = a) || bool_decide (o_scheme o = b) =
      bool_decide (o_scheme o ∈ [a; b])).
    { intros a b. apply eq_true_iff_eq. rewrite orb_true_iff, !bool_decide_eq_true. set_solver. }
    rewrite !Hin. destruct (decide (o_scheme o ∈ ["http"; "https"])) as [Hi|Hi];
      [by rewrite (bool_decide_true _ Hi)|rewrite (bool_decide_false _ Hi)].
    destruct (decide (o_scheme o ∈ ["ws"; "wss"])) as [Hw|Hw];
      [rewrite (bool_decide_true _ Hw)|rewrite (bool_decide_false _ Hw)].
    { unfold newClientTransportWS, wsClientHeaders. rewrite (Parse_origin o Ho). cbn [User].
      destruct (decide ("" ≠ "")) as [[]|_]; [done|].
      rewrite (URL_String_origin o Ho), foldl_insert_union, (right_id_L ∅ (∪)). done. }
    destruct (decide (o_scheme o = "stdio")) as [E|E]; [by rewrite (bool_decide_true _ E)|].
    by rewrite (bool_decide_false _ E), (bool_decide_false _ Hne).
  - destruct (Parse_path p Hp Hs) as (u & Hu & Hsc). unfold dial, DialOptions. rewrite Hu.
    unfold select_transport. by rewrite Hsc.
Qed.

Section sample.
Existing Instance default_range_order.

(** A dialer that connects and a machine without sockets. *)
Definition sample_dial : string → list (ClientOption unit unit unit) → rpcClient + dial_error :=
  DialOptions (λ _ _ _, Dialled "10.0.0.1:80") (λ _, inr "no such file").

Example DialOptions_correct_witness :
  let o := {| o_scheme := "wss"; o_host := "node.example"; o_port := "" |} in
  (plain_origin o = true ∧ string_forallb path_char "tmp/geth.ipc" = true ∧ HasPrefix "tmp/geth.ipc" "/" = false) ∧
  sample_dial (origin_text o) [WithHeader "x-token" "1"] =
    newClient (λ _ _ _, Dialled "10.0.0.1:80") (λ _, inr "no such file")
      (apply_options [WithHeader "x-token" "1"])
      (TransportWS {| ws_config := apply_options [WithHeader "x-token" "1"];
                      dialURL := "wss://node.example"; ws_header := {["X-Token" := ["1"]]} |}) ∧
  sample_dial "/tmp/geth.ipc" [] = inr (DialConnect (ConnectSocket "no such file")).
Proof.
  intros o. split; [repeat split; reflexivity|]. split.
  - exact (proj1 (DialOptions_correct (λ _ _ _, Dialled "10.0.0.1:80") (λ _, inr "no such file")
      [WithHeader "x-token" "1"] o "tmp/geth.ipc" eq_refl eq_refl eq_refl)).
  - exact (proj2 (DialOptions_correct (λ _ _ _, Dialled "10.0.0.1:80") (λ _, inr "no such file")
      [] o "tmp/geth.ipc" eq_refl eq_refl eq_refl)).
Defined.
End sample.
