(* ===== verification/RpcClient.v ===== *)
(** * Package rpc, the client over HTTP (src/rpc/client.go, http.go)

    Calls, batches and notifications of a client whose connection is HTTP: the
    message that is posted and what is made of the reply.  The connection
    itself ([http.Client.Do]) is the standard library's and what it talks to
    the environment's: a [Transport].  The client's dispatch loop, which other
    connections use, is not modelled. *)

From S2P Require Import Prelude Strconv GoJson GoValue RpcErrors RpcJson RpcWire.

(** What [hc.client.Do] brings for a posted body. *)
Inductive http_outcome :=
| NoConnection (e : string)
| Responded (StatusCode : Z) (Status Body : string).

Class Transport (W : Type) := Do : string → W → http_outcome * W.

Inductive client_error :=
| ErrMarshal (e : string)
| ErrTransport (e : string)
| ErrHTTP (e : HTTPError)
| ErrEOF                             (* io.EOF: there is no reply *)
| ErrSyntax
| ErrDecode (e : decode_error)
| ErrRemote (e : jsonError)          (* an error response *)
| ErrNoResult
| ErrUnmarshal (e : unmarshal_error)
| ErrInvalidTarget                   (* Unmarshal into a nil interface *)
| ErrMissingBatchResponse
| Blocks.                            (* the call never returns *)

Section client.
Context {W : Type} `{!Transport W}.

(** [Client]: the counter of the request ids (uint32), and the environment. *)
Record Client := { idCounter : Z; env : W }.

Definition nextID : GoM Client json := λ c,
  let id := (idCounter c + 1) mod 2 ^ 32 in
  (Ret (JNum (FormatInt id)), {| idCounter := id; env := env c |}).

(** [json.Marshal] of the list of the arguments, each with its Go type. *)
Fixpoint marshal_args (args : list (gty * gval)) : list json + string :=
  match args with
  | [] => inl []
  | (t, v) :: args' =>
      match encode t v with
      | inr e => inr e
      | inl j => match marshal_args args' with inl js => inl (j :: js) | inr e => inr e end
      end
  end.

Definition newMessage (method : string) (paramsIn : list (gty * gval))
    : GoM Client (jsonrpcMessage + client_error) :=
  id ← nextID;
  match paramsIn with
  | [] => mret (inl (Msg vsn (Some id) method None None None))
  | _ =>
      match marshal_args paramsIn with
      | inr e => mret (inr (ErrMarshal e))
      | inl js => mret (inl (Msg vsn (Some id) method (Some (JArr js)) None None))
      end
  end.

Definition do_http (body : string) : GoM Client http_outcome := λ c,
  let '(r, w) := Do body (env c) in (Ret r, {| idCounter := idCounter c; env := w |}).

(** [doRequest]: the body of a reply with a 2xx status. *)
Definition doRequest (msg : json + string) : GoM Client (string + client_error) :=
  match msg with
  | inr e => mret (inr (ErrMarshal e))
  | inl body =>
      resp ← do_http (print body);
      mret (match resp with
            | NoConnection e => inr (ErrTransport e)
            | Responded code status body =>
                if (code <? 200) || (300 <=? code)
                then inr (ErrHTTP {| StatusCode := code; Status := status; hBody := body |})
                else inl body
            end)
  end.

(** [json.NewDecoder(respBody).Decode] into a variable of type [t]. *)
Definition decode_reply (t : gty) (body : string) : gval + client_error :=
  match parse_next body with
  | None => inr (if decide (skip_ws body = "") then ErrEOF else ErrSyntax)
  | Some (j, _) =>
      match GoValue.decode None t j (zero t) with
      | (v, None) => inl v
      | (_, Some e) => inr (ErrDecode e)
      end
  end.

Definition sendHTTP (msg : jsonrpcMessage) : GoM Client (jsonrpcMessage + client_error) :=
  respBody ← doRequest (marshal msg);
  match respBody with
  | inr e => mret (inr e)
  | inl body =>
      mret (match decode_reply (go_type jsonrpcMessage) body with
            | inl v => inl (of_go v)
            | inr e => inr e
            end)
  end.

(** [result] is the variable the pointer of the caller points to: its type and
    its value; [None] for a nil interface. *)
Definition CallContext (result : option (gty * gval)) (method : string) (args : list (gty * gval))
    : GoM Client (option gval * option client_error) :=
  let keep e : option gval * option client_error := (snd <$> result, Some e) in
  msg ← newMessage method args;
  match msg with
  | inr e => mret (keep e)
  | inl msg =>
      batchresp ← sendHTTP msg;
      match batchresp with
      | inr e => mret (keep e)
      | inl resp =>
          mret (match Error resp, Result resp with
                | Some err, _ => keep (ErrRemote err)
                | None, None => keep ErrNoResult
                | None, Some raw =>
                    match result with
                    | None => (None, None)
                    | Some (t, old) =>
                        let '(v, e) := UnmarshalRaw t (Some raw) old in
                        (Some v, ErrUnmarshal <$> e)
                    end
                end)
      end
  end.

(** [SupportedModules]: the modules the server offers, with their versions. *)
Definition SupportedModules : GoM Client (option gval * option client_error) :=
  CallContext (Some (TMap TString, zero (TMap TString))) "rpc_modules" [].

(** [Notify] over HTTP: the channel of its operation is nil, so delivering a
    reply blocks. *)
Definition Notify (method : string) (args : list (gty * gval)) : GoM Client (option client_error) :=
  msg ← newMessage method args;
  match msg with
  | inr e => mret (Some e)
  | inl msg =>
      r ← sendHTTP (set_ID None msg);
      mret (match r with inr e => Some e | inl _ => Some Blocks end)
  end.

(** ** Batches *)

Record BatchElem := {
  be_Method : string;
  be_Args : list (gty * gval);
  be_Result : option (gty * gval);
  be_Error : option client_error
}.

Definition set_elem (r : option (gty * gval)) (e : option client_error) (b : BatchElem) : BatchElem :=
  {| be_Method := be_Method b; be_Args := be_Args b; be_Result := r; be_Error := e |}.

Fixpoint new_messages (b : list BatchElem) : GoM Client (list jsonrpcMessage + client_error) :=
  match b with
  | [] => mret (inl [])
  | elem :: b' =>
      msg ← newMessage (be_Method elem) (be_Args elem);
      match msg with
      | inr e => mret (inr e)
      | inl msg =>
          msgs ← new_messages b';
          mret (match msgs with inl msgs => inl (msg :: msgs) | inr e => inr e end)
      end
  end.

(** The text of an id, the key of [byID]. *)
Definition id_text (id : option json) : string :=
  match id with Some j => print j | None => "" end.

Definition byID_of (msgs : list jsonrpcMessage) : gmap string nat :=
  list_to_map (reverse (imap (λ i msg, (id_text (ID msg), i)) msgs)).

Definition batch_type : gty := TSlice (TPtr (go_type jsonrpcMessage)).

Definition batch_of (v : gval) : list (option jsonrpcMessage) :=
  match v with
  | VSlice (Some l) => (λ v, match v with VPtr (Some m) => Some (of_go m) | _ => None end) <$> l
  | _ => []
  end.

Definition sendBatchHTTP (msgs : list jsonrpcMessage)
    : GoM Client (list (option jsonrpcMessage) + client_error) :=
  respBody ← doRequest (match marshal_batch msgs with inl js => inl (JArr js) | inr e => inr e end);
  match respBody with
  | inr e => mret (inr e)
  | inl body =>
      mret (match decode_reply batch_type body with
            | inl v => inl (batch_of v)
            | inr e => inr e
            end)
  end.

(** Result and error of one element from its response. *)
Definition assign (resp : jsonrpcMessage) (elem : BatchElem) : BatchElem :=
  match Error resp, Result resp with
  | Some err, _ => set_elem (be_Result elem) (Some (ErrRemote err)) elem
  | None, None => set_elem (be_Result elem) (Some ErrNoResult) elem
  | None, Some raw =>
      match be_Result elem with
      | None => set_elem None (Some ErrInvalidTarget) elem
      | Some (t, old) =>
          let '(v, e) := UnmarshalRaw t (Some raw) old in
          set_elem (Some (t, v)) (ErrUnmarshal <$> e) elem
      end
  end.

(** The loop over the responses. *)
Fixpoint assign_all (batchresp : list (option jsonrpcMessage)) (byID : gmap string nat)
    (b : list BatchElem) : gmap string nat * list BatchElem :=
  match batchresp with
  | [] => (byID, b)
  | None :: rest => assign_all rest byID b
  | Some resp :: rest =>
      match byID !! id_text (ID resp) with
      | None => assign_all rest byID b
      | Some index =>
          assign_all rest (delete (id_text (ID resp)) byID) (alter (assign resp) index b)
      end
  end.

(** The elements that are still in [byID] got no response. *)
Definition mark_missing (byID : gmap string nat) (b : list BatchElem) : list BatchElem :=
  imap (λ i elem, if decide (i ∈ (map_to_list byID).*2)
                  then set_elem (be_Result elem) (Some ErrMissingBatchResponse) elem else elem) b.

Definition BatchCallContext (b : list BatchElem) : GoM Client (list BatchElem * option client_error) :=
  msgs ← new_messages b;
  match msgs with
  | inr e => mret (b, Some e)
  | inl msgs =>
      batchresp ← sendBatchHTTP msgs;
      match batchresp with
      | inr e => mret (b, Some e)
      | inl batchresp =>
          let '(byID, b) := assign_all batchresp (byID_of msgs) b in
          mret (mark_missing byID b, None)
      end
  end.
End client.

Arguments Client : clear implicits.

(** * Lemmas *)

(** The message of a call with arguments, and the id it takes. *)
Lemma newMessage_args {W} full args js (cl : Client W) :
  args ≠ [] → marshal_args args = inl js →
  let id := (idCounter cl + 1) mod 2 ^ 32 in
  newMessage full args cl =
    (Ret (inl (request_msg (FormatInt id) full js)), {| idCounter := id; env := env cl |}).
Proof.
  intros Hne Ha id. unfold newMessage, nextID, mbind, GoM_bind.
  destruct args; [done|]. by rewrite Ha.
Qed.
