(* ===== verification/RpcSubscribe.v ===== *)
(** * Package rpc, subscribing (src/rpc/client.go [Subscribe], [EthSubscribe],
    [ShhSubscribe]; handler.go [handleNonBatchCall])

    The request that sets up a subscription: what the client checks and sends,
    what the goroutine of the call does on the server, what the client makes of
    the answer; and the whole way from [Subscribe] to the consumer. *)

From S2P Require Import RpcClient.
From S2P Require Import Prelude Strconv GoJson GoValue JsonRound GoRound RpcErrors RpcJson RpcWire.
From S2P Require Import RpcService RpcHandler RpcPending RpcDispatch RpcSubscription RpcNotifier SubEndToEnd.

(** ** The client *)

(** The channel argument, as reflection shows it: no channel, or one with its
    direction, whether it is nil, and its element type. *)
Inductive channel_arg :=
| NoChannel (type : string)
| Channel (type : string) (sends is_nil : bool) (etype : gty).

Inductive subscribe_error :=
| SubUnsupported                     (* ErrNotificationsUnsupported *)
| SubMessage (e : client_error)
| SubSend (e : string)
| SubQuit                            (* ErrClientQuit *)
| SubContext                         (* the context ended *)
| SubRefused (e : op_error).         (* op.err *)

(** The element type the notifications are decoded into; the panics of a
    wrong argument. *)
Definition check_channel {S} (channel : channel_arg) : GoM S gty :=
  let wrong type := panic (ExplicitPanic ("channel argument of Subscribe has type " +:+ type
                             +:+ ", need writable channel")) in
  match channel with
  | NoChannel type => wrong type
  | Channel type sends is_nil etype =>
      if negb sends then wrong type
      else if is_nil then panic (ExplicitPanic "channel given to Subscribe must not be nil")
      else mret etype
  end.

(** The operation of a request for the subscription [sub]. *)
Definition subscribe_op (sub : nat) (msg : jsonrpcMessage) : requestOp :=
  Op [id_key (ID msg)] None [] false (Some sub) false.

(** [Subscribe] up to [send]: the message and its operation. *)
Definition Subscribe_start {W} (isHTTP : bool) (sub : nat) (namespace : string) (channel : channel_arg)
    (args : list (gty * gval)) : GoM (Client W) ((jsonrpcMessage * requestOp) + subscribe_error) :=
  _ ← check_channel channel;
  if isHTTP then mret (inr SubUnsupported)
  else
    msg ← newMessage (namespace +:+ subscribeMethodSuffix) args;
    mret (match msg with
          | inl msg => inl (msg, subscribe_op sub msg)
          | inr e => inr (SubMessage e)
          end).

(** What [Subscribe] returns, from how [send] and [wait] ended. *)
Definition Subscribe_end (sub : nat) (r : result) : nat + subscribe_error :=
  match r with
  | SendFailed e => inr (SubSend e)
  | SendQuit => inr SubQuit
  | TimedOut => inr SubContext
  | Answered _ (Some e) | Cancelled (Some e) => inr (SubRefused e)
  | Answered _ None | Cancelled None | Sent => inl sub
  end.

Definition EthSubscribe {W} (isHTTP : bool) (sub : nat) (channel : channel_arg) (args : list (gty * gval)) :=
  Subscribe_start (W := W) isHTTP sub "eth" channel args.

Definition ShhSubscribe {W} (isHTTP : bool) (sub : nat) (channel : channel_arg) (args : list (gty * gval)) :=
  Subscribe_start (W := W) isHTTP sub "shh" channel args.

(** ** The server *)

(** Writing the answer; an error is not looked at. *)
Definition write_answer {K} `{!Conn K} (answer : jsonrpcMessage) : GoM (nstate K) unit := λ s,
  (Ret tt, {| notifier := notifier s; conn := (RpcNotifier.writeJSON answer (conn s)).2 |}).

(** The notifier in the goroutine of the call: the uses before the callback
    returns, the subscription registered, the answer, the activation; the
    uses after it are those of goroutines the callback left. *)
Definition serve_subscription {K} `{!Conn K} (before after : list notifier_op) (answer : jsonrpcMessage)
    : GoM (nstate K) unit :=
  _ ← run_ops (before ++ [OpTake]);
  _ ← write_answer answer;
  run_ops (OpActivate :: after).

(** * Lemmas *)

(** ** The request at the server *)

Definition answer (lit id : string) : jsonrpcMessage :=
  Msg vsn (Some (JNum lit)) "" None None (Some (JStr (quote id))).

Definition subscribe_msg (lit namespace name : string) (js : list json) : jsonrpcMessage :=
  request_msg lit (namespace +:+ subscribeMethodSuffix) (JStr (quote name) :: js).

(** A handler that knows the subscription; the callback, run with its notifier,
    returns a subscription with the id. *)
Record subscribable {A} (h : handler A) (namespace name : string) (js : list json) (vals : list gval)
    (id : string) (st st' : hstate A) : Prop := {
  sb_allowed : allowSubscribe h = true;
  sb_ns : string_mem serviceMethodSeparator namespace = false;
  sb_name : valid_utf8 name;
  sb_callback : ∃ cb result,
    RpcService.subscription namespace name (reg h) = Some cb ∧
    parsePositionalArguments (Some (JArr (JStr (quote name) :: js))) (TString :: argTypes cb) =
      inl (VStr name :: vals) ∧
    RpcService.call cb vals
      (set_notifiers (λ l, l ++ [{| RpcHandler.n_namespace := namespace; RpcHandler.n_sub := None |}]) st) =
      (Ret (inl result), st') ∧
    encode result.1 result.2 = inl (JStr (quote id))
}.

Lemma subscribe_answered {A} (h : handler A) lit namespace name js vals id st st' :
  subscribable h namespace name js vals id st st' →
  handleCallMsg h (subscribe_msg lit namespace name js) st = (Ret (Some (answer lit id)), st').
Proof.
  intros [Ha Hns Hn (cb & result & Hcb & Hp & Hcall & He)]. set (m := subscribe_msg lit namespace name js).
  assert (Hm : Method m ≠ "") by (by destruct namespace).
  assert (Hsub : isSubscribe m = true) by apply HasSuffix_app.
  assert (Hname : RpcJson.namespace m = namespace).
  { unfold RpcJson.namespace. change (Method m) with (full_name namespace "subscribe"). by rewrite SplitN2_full. }
  unfold handleCallMsg. assert (isNotification m = false) as -> by done.
  assert (isCall m = true) as ->.
  { unfold isCall. cbn [hasValidVersion hasValidID]. by rewrite (bool_decide_false _ Hm). }
  unfold handleCall. rewrite Hsub. unfold handleSubscribe. rewrite Ha. cbn [negb].
  change (Params m) with (Some (JArr (JStr (quote name) :: js))). cbn [parseSubscriptionName].
  rewrite unquote_quote, Hname, Hcb, Hp by done. unfold mbind, GoM_bind. cbn [modify drop].
  unfold runMethod, mbind, GoM_bind. change (drop 0 vals) with vals. rewrite Hcall.
  unfold response. by rewrite He.
Qed.

(** ** The answer at the client *)

Lemma sub_answer_ok lit id : num_ok lit → valid_utf8 id → msg_ok (answer lit id).
Proof.
  intros Hl Hi. split; try done; [by apply is_ascii_valid| |by apply is_ascii_valid|];
    intros j [= <-]; by constructor.
Qed.

(** The client after the answer: the request has its response, the
    subscription its id and its goroutine, and is in the table. *)
Definition subscribed (i s : nat) (lit id : string) (p : pending) : pending :=
  {| ops := <[i := Op [lit] None [[answer lit id]] false (Some s) true]> (ops p);
     subs := <[s := {| subid := id; runs := S (runs (default {| subid := ""; runs := 0 |} (subs p !! s))) |}]> (subs p);
     events := events p;
     respWait := delete lit (delete lit (respWait p));
     clientSubs := <[id := s]> (clientSubs p) |}.

Lemma start_sub_id i s lit id p op :
  valid_utf8 id → ops p !! i = Some op →
  start_sub i s (answer lit id) p = (Ret tt, {|
    ops := <[i := with_err None op]> (ops p);
    subs := <[s := {| subid := id; runs := S (runs (default {| subid := ""; runs := 0 |} (subs p !! s))) |}]> (subs p);
    events := events p; respWait := respWait p; clientSubs := <[id := s]> (clientSubs p) |}).
Proof.
  intros Hid Hop. unfold start_sub. rewrite (bind_eq _ _ _ _ _ (the_op_eq p i op Hop)).
  cbn [answer Error Result]. rewrite (bind_eq (gets Datatypes.id) _ p p p) by reflexivity.
  assert (Hu : ∀ old, UnmarshalRaw TString (Some (JStr (quote id))) old = (VStr id, None)).
  { intros old. unfold UnmarshalRaw. cbn. by rewrite unquote_quote. }
  rewrite Hu. cbn. by rewrite Nat.add_1_r.
Qed.

Lemma incoming_answer limit i s lit id p :
  valid_utf8 id → respWait p !! lit = Some i →
  ops p !! i = Some (Op [lit] None [] false (Some s) false) →
  incoming limit false [answer lit id] p = (Ret [], subscribed i s lit id p).
Proof.
  intros Hid Hw Hop. set (a := answer lit id).
  assert (Hr : handleResp [a] a p = (Ret (Some i), {|
    ops := <[i := Op [lit] None [[a]] false (Some s) true]> (ops p);
    subs := <[s := {| subid := id; runs := S (runs (default {| subid := ""; runs := 0 |} (subs p !! s))) |}]> (subs p);
    events := events p; respWait := delete lit (respWait p); clientSubs := <[id := s]> (clientSubs p) |})).
  { unfold handleResp. change (id_key (ID a)) with lit.
    rewrite (bind_eq (gets Datatypes.id) _ p p p) by reflexivity. rewrite Hw.
    set (p1 := set_wait (delete lit) p). rewrite (bind_eq (modify _) _ p tt p1) by reflexivity.
    assert (Hop1 : ops p1 !! i = Some (Op [lit] None [] false (Some s) false)) by exact Hop.
    rewrite (bind_eq _ _ _ _ _ (the_op_eq p1 i _ Hop1)). cbn [op_sub hadResponse].
    rewrite (bind_eq _ _ _ _ _ (start_sub_id i s lit id p1 _ Hid Hop1)).
    unfold mark_responded, send_resp, put_op.
    erewrite bind_eq; [reflexivity|].
    erewrite bind_eq; [|erewrite bind_eq; [|by apply the_op_eq, lookup_insert_eq]; reflexivity].
    erewrite bind_eq; [|by apply the_op_eq, lookup_insert_eq].
    cbn. unfold modify, set_ops, p1. cbn. by rewrite !insert_insert_eq. }
  unfold incoming, handleResponses. cbn [foldM].
  assert (Hstep : response_step [a] ([], []) a p = (Ret ([i], []), (handleResp [a] a p).2)).
  { unfold response_step. change (isResponse a) with true. cbn match. by rewrite (bind_eq _ _ _ _ _ Hr), Hr. }
  rewrite Hr in Hstep. erewrite bind_eq; [|erewrite bind_eq; [|exact Hstep]; reflexivity].
  cbn [fst snd foldM]. erewrite bind_eq; [reflexivity|].
  erewrite bind_eq; [reflexivity|]. unfold remove_op.
  erewrite bind_eq; [|by apply the_op_eq, lookup_insert_eq]. reflexivity.
Qed.

(** ** The stream of the server *)

Section stream.
Context {K : Type} `{!Conn K} `{!ConnLaws K}.

Lemma told_more namespace (k0 : K) ops ops' s s' :
  told namespace k0 ops s → (activations (ops ++ ops') ≤ 1)%nat →
  run_ops ops' s = (Ret tt, s') → told namespace k0 (ops ++ ops') s'.
Proof.
  revert s'. induction ops' as [|op ops' IH] using rev_ind; intros s' Ht Ha Hrun.
  - rewrite app_nil_r. by injection Hrun as <-.
  - apply foldM_snoc in Hrun as ([] & s1 & H1 & H2). rewrite app_assoc. rewrite app_assoc in Ha.
    eapply told_step; [apply IH; [done| |exact H1]|done|exact H2].
    unfold activations in *. rewrite List.filter_app, length_app in Ha. lia.
Qed.

(** The answer is written before every notification, also before those of
    values given to [Notify] before the callback returned. *)
Lemma serve_subscription_written namespace (k : K) before after a s :
  activations before = 0%nat → activations after = 0%nat →
  serve_subscription before after a (RpcNotifier.new_notifier namespace k) = (Ret tt, s) →
  RpcNotifier.written (conn s) = RpcNotifier.written k ++ a ::
    (notification namespace (default "" (RpcNotifier.n_sub (notifier s))) <$> payloads (before ++ after)).
Proof.
  intros Hb Ha. unfold serve_subscription.
  destruct (run_ops (before ++ [OpTake]) (new_notifier namespace k)) as [[[]|w] s1] eqn:H1;
    [|unfold mbind, GoM_bind; by rewrite H1].
  rewrite (bind_eq _ _ _ _ _ H1), (bind_eq (write_answer a) _ s1 tt _) by reflexivity.
  set (s2 := {| notifier := notifier s1; conn := _ |}). intros H2.
  assert (Hz : activations (before ++ [OpTake]) = 0%nat).
  { unfold activations in *. rewrite List.filter_app, length_app. cbn. lia. }
  apply run_ops_told in H1 as [Hns Hac Hsub Hbuf _]; [|lia]. rewrite Hz in Hac.
  destruct (Hbuf Hac) as [Hbf Hw].
  destruct (write_ok a (conn s1)) as [_ Hwa].
  assert (Ht : told namespace (conn s2) (before ++ [OpTake]) s2)
    by (split; [done|by rewrite Hz|done|done|cbn; intros E; by rewrite Hac in E]).
  assert (Hact : activations ((before ++ [OpTake]) ++ OpActivate :: after) = 1%nat).
  { unfold activations in *. rewrite List.filter_app, length_app. cbn. lia. }
  pose proof (told_more namespace (conn s2) _ (OpActivate :: after) s2 s Ht) as Hmore.
  destruct (Hmore (Nat.eq_le_incl _ _ Hact) H2) as [_ Hac' _ _ Hsent]. rewrite Hact in Hac'.
  rewrite (Hsent Hac'). cbn [conn s2]. rewrite Hwa, Hw, <-app_assoc. cbn. do 3 f_equal.
  unfold payloads. rewrite !omap_app. cbn. by rewrite app_nil_r.
Qed.
End stream.

(** The read loop takes the answer and then the notifications. *)
Lemma read_answer limit i sub lit namespace id p l :
  num_ok lit → valid_utf8 namespace → valid_utf8 id → Forall marshalled l →
  respWait p !! lit = Some i → ops p !! i = Some (Op [lit] None [] false (Some sub) false) →
  ∃ rest, skip_ws rest = "" ∧
    read (S (S (length l))) limit
      (String_msg (answer lit id) +:+ String (chr 10) (stream_of (notification namespace id <$> l))) p =
      (Ret rest, with_events ((λ d, Deliver sub (Some d)) <$> l) (subscribed i sub lit id p)).
Proof.
  intros Hlit Hns Hid Hl Hw Hop.
  destruct (read_notifications namespace id limit sub Hns Hid l (subscribed i sub lit id p) (String (chr 10) ""))
    as (rest & Hrest & E); [by right|done|by apply lookup_insert_eq|].
  exists rest. split; [done|]. remember (S (length l)) as n. cbn [read].
  rewrite (readBatch_one (answer lit id) _ (sub_answer_ok lit id Hlit Hid) (newline_delim _)).
  rewrite (bind_eq _ _ _ _ _ (incoming_answer limit i sub lit id p Hid Hw Hop)). exact E.
Qed.

(** * Properties *)


(** An API with one subscription, which always gives out the id 0x7. *)
Definition blocks_method : method (hstate unit) := {|
  Name := "Blocks"; PkgPath := "";
  In := [TOpaque "api" false; TContext; TInt]; Out := [TPtr TSubscription; TError];
  Func _ := mret [VPtr (Some (VOpaque (inl (JStr (quote "0x7"))))); VErr None] |}.

Definition blocks_handler : handler unit := {|
  reg := match registerName "eth" "api" [blocks_method] ∅ with inl r => r | inr _ => ∅ end;
  allowSubscribe := true; batchRequestLimit := 0; batchResponseMaxSize := 0 |}.

Definition idle : hstate unit :=
  {| app := tt; RpcHandler.serverSubs := ∅; notifiers := []; sent := [] |}.

Definition called : hstate unit :=
  {| app := tt; RpcHandler.serverSubs := ∅;
     notifiers := [{| RpcHandler.n_namespace := "eth"; RpcHandler.n_sub := None |}]; sent := [] |}.

Lemma blocks_subscribable : subscribable blocks_handler "eth" "blocks" [JNum "5"] [VInt 5] "0x7" idle called.
Proof.
  split; [done|done|by apply is_ascii_valid|].
  destruct (newCallback true blocks_method) as [cb|] eqn:E; [|done]. vm_compute in E. injection E as <-.
  eexists _, _. split; [vm_compute; reflexivity|]. split; [vm_compute; reflexivity|].
  split; [reflexivity|]. reflexivity.
Qed.

