(* ===== verification/RpcBatchCall.v ===== *)
(** * Package rpc, batch calls of the client (src/rpc/client.go)

    What [BatchCallContext] over HTTP makes of the reply of the server: every
    element gets the response with its id, wherever it stands. *)

From S2P Require Import Prelude Strconv GoJson GoValue RpcErrors RpcJson RpcWire RpcClient.

(** The first response with the id [k]. *)
Fixpoint response_of (k : string) (batchresp : list (option jsonrpcMessage)) : option jsonrpcMessage :=
  match batchresp with
  | [] => None
  | None :: rest => response_of k rest
  | Some r :: rest => if decide (id_text (ID r) = k) then Some r else response_of k rest
  end.

(** What becomes of an element. *)
Definition resolve (r : option jsonrpcMessage) (elem : BatchElem) : BatchElem :=
  match r with
  | Some r => assign r elem
  | None => set_elem (be_Result elem) (Some ErrMissingBatchResponse) elem
  end.

(** The id of the [i]-th request after the counter [c]. *)
Definition batch_id (c : Z) (i : nat) : json := JNum (FormatInt ((c + 1 + Z.of_nat i) mod 2 ^ 32)).

(** The requests of a batch. *)
Definition batch_msg (c : Z) (i : nat) (elem : BatchElem) : jsonrpcMessage :=
  Msg vsn (Some (batch_id c i)) (be_Method elem)
    (match be_Args elem, marshal_args (be_Args elem) with
     | [], _ | _, inr _ => None
     | _, inl js => Some (JArr js)
     end) None None.

(** The arguments of an element have a JSON form. *)
Definition marshals (elem : BatchElem) : bool :=
  match marshal_args (be_Args elem) with inl _ => true | inr _ => false end.

(** * Lemmas *)

(** The map of the ids. *)
Definition one_to_one (byID : gmap string nat) : Prop :=
  ∀ k k' j, byID !! k = Some j → byID !! k' = Some j → k = k'.

Lemma assign_all_spec batchresp byID b :
  one_to_one byID →
  let r := assign_all batchresp byID b in
  (∀ k, r.1 !! k = match response_of k batchresp with Some _ => None | None => byID !! k end) ∧
  (∀ k j, byID !! k = Some j →
     r.2 !! j = (match response_of k batchresp with Some m => assign m | None => id end) <$> b !! j) ∧
  (∀ j, (∀ k, byID !! k ≠ Some j) → r.2 !! j = b !! j) ∧
  length r.2 = length b.
Proof.
  revert byID b. induction batchresp as [|[m|] rest IH]; intros byID b Hinj.
  - split_and!; try done. intros k j Hk. simpl. by destruct (b !! j).
  - cbn [assign_all response_of]. destruct (byID !! id_text (ID m)) as [i|] eqn:Hi.
    + assert (Hinj' : one_to_one (delete (id_text (ID m)) byID)).
      { intros k k' j [_ Hk]%lookup_delete_Some [_ Hk']%lookup_delete_Some. by eapply Hinj. }
      destruct (IH _ (alter (assign m) i b) Hinj') as (H1 & H2 & H3 & H4). split_and!.
      * intros k. rewrite H1. destruct (decide (id_text (ID m) = k)) as [<-|Hne].
        -- rewrite lookup_delete_eq. by destruct (response_of _ rest).
        -- by rewrite lookup_delete_ne.
      * intros k j Hk. destruct (decide (id_text (ID m) = k)) as [<-|Hne].
        -- assert (j = i) as -> by congruence. rewrite H3; [apply list_lookup_alter_eq|].
           intros k [Hne Hk']%lookup_delete_Some. by apply Hne, (Hinj _ _ i).
        -- rewrite (H2 k j) by (by rewrite lookup_delete_ne).
           rewrite list_lookup_alter_ne; [done|]. intros <-. by apply Hne, (Hinj _ _ i).
      * intros j Hj. rewrite H3, list_lookup_alter_ne; [done|by intros ->; eapply Hj|].
        intros k [_ Hk]%lookup_delete_Some. by eapply Hj.
      * by rewrite H4, length_alter.
    + destruct (IH byID b Hinj) as (H1 & H2 & H3 & H4). split_and!; [..|done|done].
      * intros k. rewrite H1. case_decide as Hk; [|done]. subst k. rewrite Hi. by destruct (response_of _ rest).
      * intros k j Hk. rewrite (H2 k j Hk). case_decide as Hkk; [congruence|done].
  - apply IH, Hinj.
Qed.

Section client.
Context {W : Type} `{!Transport W}.

Lemma newMessage_eq elem (c : Client W) :
  marshals elem = true →
  newMessage (be_Method elem) (be_Args elem) c =
    (Ret (inl (batch_msg (idCounter c) 0 elem)),
     {| idCounter := (idCounter c + 1) mod 2 ^ 32; env := env c |}).
Proof.
  unfold newMessage, batch_msg, batch_id, marshals, nextID, mbind, GoM_bind. intros Hm.
  change (Z.of_nat 0) with 0. rewrite Z.add_0_r.
  destruct (be_Args elem) as [|a args]; [done|].
  by destruct (marshal_args (a :: args)).
Qed.

Lemma batch_msg_shift c i elem : batch_msg ((c + 1) mod 2 ^ 32) i elem = batch_msg c (S i) elem.
Proof.
  unfold batch_msg, batch_id. do 4 f_equal. rewrite <-Z.add_assoc, Z.add_mod_idemp_l by lia.
  f_equal. lia.
Qed.

Lemma new_messages_eq b (c : Client W) :
  0 ≤ idCounter c < 2 ^ 32 → forallb marshals b = true →
  new_messages b c =
    (Ret (inl (imap (batch_msg (idCounter c)) b)),
     {| idCounter := (idCounter c + Z.of_nat (length b)) mod 2 ^ 32; env := env c |}).
Proof.
  revert c. induction b as [|elem b IH]; intros c Hc Hb.
  - simpl. rewrite Z.add_0_r, Z.mod_small by done. by destruct c.
  - simpl in Hb. apply andb_true_iff in Hb as [He Hb]. cbn [new_messages].
    unfold mbind at 1, GoM_bind. rewrite (newMessage_eq elem c He).
    unfold mbind at 1, GoM_bind. rewrite IH; [|simpl; apply Z.mod_pos_bound; lia|done].
    cbn [idCounter env]. unfold mret, GoM_ret. f_equal.
    + do 2 f_equal. simpl. f_equal. apply imap_ext. intros i x _. apply batch_msg_shift.
    + f_equal. rewrite Z.add_mod_idemp_l by lia. f_equal. simpl length. lia.
Qed.

(** The ids of a batch differ. *)
Lemma FormatInt_inj a b : FormatInt a = FormatInt b → a = b.
Proof. apply (inj pretty). Qed.

Lemma batch_ids_differ c i j n :
  Z.of_nat n ≤ 2 ^ 32 → (i < n)%nat → (j < n)%nat → batch_id c i = batch_id c j → i = j.
Proof.
  unfold batch_id. intros Hn Hi Hj Hij. assert (Heq := FormatInt_inj _ _ (f_equal (λ j, match j with JNum l => l | _ => "" end) Hij)).
  pose proof (Z.div_mod (c + 1 + Z.of_nat i) (2 ^ 32)).
  pose proof (Z.div_mod (c + 1 + Z.of_nat j) (2 ^ 32)). nia.
Qed.

Lemma id_text_batch c i elem :
  id_text (ID (batch_msg c i elem)) = FormatInt ((c + 1 + Z.of_nat i) mod 2 ^ 32).
Proof. done. Qed.

Lemma byID_lookup c b k i :
  Z.of_nat (length b) ≤ 2 ^ 32 →
  byID_of (imap (batch_msg c) b) !! k = Some i ↔
    (i < length b)%nat ∧ k = FormatInt ((c + 1 + Z.of_nat i) mod 2 ^ 32).
Proof.
  intros Hlen. unfold byID_of. set (l := imap _ (imap _ b)).
  assert (Hl : ∀ j p, l !! j = Some p ↔ (j < length b)%nat ∧ p = (FormatInt ((c + 1 + Z.of_nat j) mod 2 ^ 32), j)).
  { intros j p. unfold l. rewrite !list_lookup_imap. destruct (b !! j) as [e|] eqn:Hj; simpl.
    - apply lookup_lt_Some in Hj. split; [by intros [= <-]|by intros [_ ->]].
    - apply lookup_ge_None in Hj. split; [done|lia]. }
  rewrite <-elem_of_list_to_map.
  - rewrite elem_of_reverse, list_elem_of_lookup. setoid_rewrite Hl. naive_solver.
  - rewrite fmap_reverse, reverse_Permutation. apply NoDup_alt. intros j1 j2 x.
    rewrite !list_lookup_fmap, !fmap_Some. intros (p1 & [H1 ->]%Hl & ->) (p2 & [H2 ->]%Hl & Hx).
    apply (batch_ids_differ c j1 j2 (length b)); [done..|]. unfold batch_id. simpl in Hx. by rewrite Hx.
Qed.

Lemma resolve_eq c b batchresp :
  Z.of_nat (length b) ≤ 2 ^ 32 →
  (let '(byID, b') := assign_all batchresp (byID_of (imap (batch_msg c) b)) b in mark_missing byID b') =
  imap (λ i elem, resolve (response_of (FormatInt ((c + 1 + Z.of_nat i) mod 2 ^ 32)) batchresp) elem) b.
Proof.
  intros Hlen. set (byID := byID_of _). assert (Hid := byID_lookup c b).
  assert (Hinj : one_to_one byID).
  { intros k k' j Hk Hk'. apply Hid in Hk as [_ ->], Hk' as [_ ->]; done. }
  destruct (assign_all_spec batchresp byID b Hinj) as (H1 & H2 & _ & H4).
  destruct (assign_all batchresp byID b) as [byID' b']. cbn [fst snd] in *.
  apply list_eq. intros i. unfold mark_missing. rewrite !list_lookup_imap.
  destruct (b !! i) as [elem|] eqn:Hi; cycle 1.
  { apply lookup_ge_None in Hi. rewrite lookup_ge_None_2 by lia. done. }
  pose proof (lookup_lt_Some _ _ _ Hi) as Hlt.
  set (k := FormatInt ((c + 1 + Z.of_nat i) mod 2 ^ 32)).
  assert (Hk : byID !! k = Some i) by by apply Hid.
  rewrite (H2 k i Hk), Hi. simpl. f_equal.
  assert (Hmiss : i ∈ (map_to_list byID').*2 ↔ response_of k batchresp = None).
  { rewrite list_elem_of_fmap. split.
    - intros ([k' j] & -> & Hk'%elem_of_map_to_list). simpl in *. rewrite H1 in Hk'.
      destruct (response_of k' batchresp) eqn:E; [done|]. by rewrite (Hinj k k' j Hk Hk').
    - intros E. exists (k, i). split; [done|]. apply elem_of_map_to_list. by rewrite H1, E. }
  destruct (response_of k batchresp) as [m|]; case_decide as Hd; [|done|done|].
  - by apply Hmiss in Hd.
  - by destruct Hd; apply Hmiss.
Qed.

(** * Properties *)

End client.

(** A server that answers the second of two requests, after a response that
    nobody asked for. *)
Definition odd_reply : json := JArr [
  JObj [("jsonrpc", JStr "2.0"); ("id", JNum "9"); ("result", JNum "1")]; JNull;
  JObj [("jsonrpc", JStr "2.0"); ("id", JNum "2"); ("result", JNum "7")]].

Definition odd_server : Transport unit := λ _ w, (Responded 200 "200 OK" (print odd_reply), w).

Definition two_elems : list BatchElem :=
  [{| be_Method := "a_b"; be_Args := [(TUint64, VInt 5)]; be_Result := Some (TInt, VInt 0); be_Error := None |};
   {| be_Method := "a_c"; be_Args := []; be_Result := Some (TInt, VInt 0); be_Error := None |}].

