(* ===== verification/AttackClient.v ===== *)
(** * Package attackclient (src/attackclient/)

    The client library of the attacked node: one remote call per question.
    The arguments keep their Go types, the result is decoded into a fresh
    [AttackerResponse]. *)

From S2P Require Import Prelude Strconv GoJson GoValue JsonRound Types RpcErrors RpcJson.
From S2P Require Import RpcClient.

Section attackclient.
Context {W : Type} `{!RpcClient.Transport W}.

(** [Client]: the RPC client, the uuid drawn for it, and its validator. *)
Record Client := { c : RpcClient.Client W; uuid : string; valIdx : Z; info : option string }.

(** [clientInfo]: the stored text, or the text of the identity. *)
Definition clientInfo (ec : Client) : string :=
  match info ec with
  | Some v => v
  | None =>
      match marshal {| UUID := uuid ec; ci_ValidatorIndex := valIdx ec |} with
      | inl d => print d
      | inr _ => ""
      end
  end.

(** [uuid] is what [uuid.NewString] drew. *)
Definition NewClient (c : RpcClient.Client W) (uuid : string) (valIdx : Z) : Client :=
  let client := {| c := c; uuid := uuid; valIdx := valIdx; info := None |} in
  {| c := c; uuid := uuid; valIdx := valIdx; info := Some (clientInfo client) |}.

(** A call of the RPC client of [ec]. *)
Definition on_rpc {A} (m : GoM (RpcClient.Client W) A) : GoM Client A :=
  zoom c (λ r ec, {| c := r; uuid := uuid ec; valIdx := valIdx ec; info := info ec |}) m.

Definition go_uint64 (z : Z) : gty * gval := (TUint64, VInt z).
Definition go_string (s : string) : gty * gval := (TString, VStr s).

(** [var result types.AttackerResponse; err := ec.c.CallContext(ctx, &result, method, args...)]. *)
Definition call_result (method : string) (args : list (gty * gval))
    : GoM Client (AttackerResponse * option RpcClient.client_error) :=
  let t := go_type AttackerResponse in
  r ← on_rpc (RpcClient.CallContext (Some (t, zero t)) method args);
  mret (of_go (default (zero t) r.1), r.2).

Definition attestModule : string := "attest".
Definition blockModule : string := "block".

Definition AttestBeforeBroadCast (slot : Z) :=
  call_result (attestModule +:+ "_beforeBroadCast") [go_uint64 slot].
Definition AttestAfterBroadCast (slot : Z) :=
  call_result (attestModule +:+ "_afterBroadCast") [go_uint64 slot].
Definition AttestBeforeSign (slot : Z) (pubkey attestDataBase64 : string) :=
  call_result (attestModule +:+ "_beforeSign")
    [go_uint64 slot; go_string pubkey; go_string attestDataBase64].
Definition AttestAfterSign (slot : Z) (pubkey siginedAttestDataBase64 : string) :=
  call_result (attestModule +:+ "_afterSign")
    [go_uint64 slot; go_string pubkey; go_string siginedAttestDataBase64].
Definition AttestBeforePropose (slot : Z) (pubkey siginedAttestDataBase64 : string) :=
  call_result (attestModule +:+ "_beforePropose")
    [go_uint64 slot; go_string pubkey; go_string siginedAttestDataBase64].
Definition AttestAfterPropose (slot : Z) (pubkey siginedAttestDataBase64 : string) :=
  call_result (attestModule +:+ "_afterPropose")
    [go_uint64 slot; go_string pubkey; go_string siginedAttestDataBase64].

Definition DelayForReceiveBlock (slot : Z) :=
  call_result (blockModule +:+ "_delayForReceiveBlock") [go_uint64 slot].
Definition BlockBeforeBroadCast (slot : Z) :=
  call_result (blockModule +:+ "_beforeBroadCast") [go_uint64 slot].
Definition BlockAfterBroadCast (slot : Z) :=
  call_result (blockModule +:+ "_afterBroadCast") [go_uint64 slot].
Definition BlockBeforeSign (slot : Z) (pubkey blockDataBase64 : string) :=
  call_result (blockModule +:+ "_beforeSign")
    [go_uint64 slot; go_string pubkey; go_string blockDataBase64].
Definition BlockAfterSign (slot : Z) (pubkey siginedBlockDataBase64 : string) :=
  call_result (blockModule +:+ "_afterSign")
    [go_uint64 slot; go_string pubkey; go_string siginedBlockDataBase64].
Definition BlockBeforePropose (slot : Z) (pubkey siginedBlockDataBase64 : string) :=
  call_result (blockModule +:+ "_beforePropose")
    [go_uint64 slot; go_string pubkey; go_string siginedBlockDataBase64].
Definition BlockAfterPropose (slot : Z) (pubkey siginedBlockDataBase64 : string) :=
  call_result (blockModule +:+ "_afterPropose")
    [go_uint64 slot; go_string pubkey; go_string siginedBlockDataBase64].
End attackclient.

Arguments Client : clear implicits.
