(* ===== verification/EndToEnd.v ===== *)
(** * The client library against the service

    The posted request text, its way through the HTTP stack, the RPC server
    and a handler of the node, and the way of the reply back into the client:
    a call of package attackclient is a call of the handler. *)

From S2P Require Import HttpGzip AttestApi BlockApi AttackClient RpcClient.
From S2P Require Import Prelude Strconv GoJson GoValue JsonRound GoRound Types Atts Strategy.
From S2P Require Import ValidatorSet Beacon Backend Server.
From S2P Require Import RpcErrors RpcJson RpcWire RpcService RpcHandler RpcServer HttpConn.
From S2P Require Import HttpStack Apis.

(** ** A call that is well formed *)

Lemma limit_bytes_id n s : Z.of_nat (String.length s) ≤ n → limit_bytes n s = s.
Proof.
  revert n. induction s as [|c s IH]; intros n Hn; [done|]. cbn [limit_bytes String.length] in *.
  destruct (Z.leb_spec n 0); [lia|]. rewrite IH; [done|lia].
Qed.

(** What handling one call does. *)
Definition run_call {A} (msg : jsonrpcMessage) (cb : callback (hstate A)) (args : list gval)
    : GoM (hstate A) unit :=
  startCallProc (resp ← runMethod msg cb args; _ ← addSubscriptions; writeJSON (WMsg resp false)).

Lemma serve_call {A} (s : rpcServer A) lit method params cb args :
  let msg := call_msg lit method params in
  run s = true → lookup_callback method (services s) = Some cb → msg_ok msg →
  HasSuffix method subscribeMethodSuffix = false →
  HasSuffix method unsubscribeMethodSuffix = false → method ≠ "" →
  parsePositionalArguments params (argTypes cb) = inl args →
  ∀ st, serveSingleRequest s (String_msg msg) st = run_call msg cb args st.
Proof.
  intros msg Hr Hcb Hok Hs1 Hs2 Hne Hargs st. unfold serveSingleRequest. rewrite Hr.
  destruct (msg_wire msg Hok) as (l & He & Hl & Hd & _).
  assert (Hb : readBatch (String_msg msg) = Some ([msg], false, "")).
  { unfold String_msg. rewrite He, <-(string_app_nil_r (print _)).
    apply readBatch_msg; [by apply marshalled_wf|done|done]. }
  rewrite Hb. clear Hb Hok He Hl Hd.
  assert (Hcall : isCall msg = true).
  { unfold isCall, msg. cbn. by rewrite bool_decide_eq_false_2. }
  assert (Hresp : isResponse msg = false).
  { unfold isResponse, msg. cbn. by rewrite bool_decide_eq_false_2. }
  assert (Hnot : isNotification msg = false) by done.
  cbn [negb]. unfold handleMsg, is_call_message. rewrite Hresp, Hnot.
  unfold run_call, startCallProc, mbind at 1 3, GoM_bind at 1 3. simpl modify.
  unfold handleNonBatchCall, handleCallMsg. rewrite Hnot, Hcall. unfold handleCall.
  change (isSubscribe msg) with (HasSuffix method subscribeMethodSuffix).
  change (isUnsubscribe msg) with (HasSuffix method unsubscribeMethodSuffix).
  rewrite Hs1, Hs2. change (reg (newHandler s false)) with (services s).
  change (RpcJson.Method msg) with method. rewrite Hcb. change (Params msg) with params.
  rewrite Hargs. unfold mbind, GoM_bind. simpl.
  by destruct (runMethod msg cb args _) as [[r|w] s'].
Qed.

(** ** The node as what the client is connected to *)

(** The request [doRequest] sends to the root of a host; net/http accepts gzip
    and undoes it. *)
Definition client_request (url_host body : string) : request := {|
  r_Method := "POST"; r_Path := "/"; r_RawQuery := ""; r_Host := url_host;
  r_ContentLength := Z.of_nat (String.length body); h_ContentType := contentType;
  h_Upgrade := ""; h_Connection := ""; h_AcceptEncoding := "gzip"; r_Body := body
|}.

(** The bytes of what the server wrote: the encoder ends a value with a new
    line, an error response has none. *)
Definition wire_text (w : wire) : string :=
  let newline (isError : bool) := if isError then "" else String "010" "" in
  match w with
  | WMsg m e => String_msg m +:+ newline e
  | WBatch l e => batch_text l +:+ newline e
  end.

Definition wire_out (w : wire) : string * bool :=
  (wire_text w, match w with WMsg _ e | WBatch _ e => e end).

(** The texts of net/http for the codes of the service. *)
Definition status_text (code : Z) : string :=
  FormatInt code +:+ " " +:+
  (if code =? 200 then "OK" else if code =? 204 then "No Content"
   else if code =? 403 then "Forbidden" else if code =? 404 then "Not Found"
   else if code =? 405 then "Method Not Allowed"
   else if code =? 413 then "Request Entity Too Large"
   else if code =? 415 then "Unsupported Media Type" else "").

Section endtoend.
Context `{L : AttestationLib} `{!BlockApi.BlockTypes} `{!BlockApi.BlockProto}
  `{!AttestApi.AttestationProto Att}.
Context {Blk : Type} `{!Network} `{!RangeOrder} `{!SortSlice} `{!LruLib} `{!CorsLib}
  `{!GzipLib} (laws : gzip_laws).
Context (unmarshal_text : string → unmarshal_error → string).
(** Where the node listens, and the host in the URL of the client. *)
Context (host : string) (port : Z) (url_host : string).

Abbreviation node := (Server.Server Att Blk).
Abbreviation rpc := (node_rpc (Blk := Blk) unmarshal_text).

(** Each request runs on a fresh connection of the started node. *)
Definition fresh (n : node) : hstate node :=
  {| app := n; serverSubs := ∅; notifiers := []; sent := [] |}.

Definition started : httpServer node :=
  Start unmarshal_text host port true (newHTTPServer DefaultHTTPTimeouts).

Definition node_do (body : string) (n : node) : RpcClient.http_outcome * node :=
  let r := client_request url_host body in
  match serve_http started r (fresh n) with
  | (Ret Upgraded, st) => (RpcClient.Responded 101 "101 Switching Protocols" "", app st)
  | (Ret reply, st) =>
      (match client_view (newGzipHandler r (reply_ops reply (wire_out <$> sent st))) with
       | Some (code, text) => RpcClient.Responded code (status_text code) text
       | None => RpcClient.NoConnection "gzip: invalid header"
       end, app st)
  | (Panic _, st) => (RpcClient.NoConnection "EOF", app st)
  end.

#[local] Instance node_transport : RpcClient.Transport node := node_do.

(** What the server must let through: the host is known, and rs/cors answers
    preflight requests only. *)
Definition url_host_ok : Prop :=
  let name := match SplitHostPort url_host with Some name => name | None => url_host end in
  url_host = "" ∨ ParseIP name = true ∨ name = "localhost".
Definition cors_passes : Prop := ∀ l r, r_Method r ≠ "OPTIONS" → cors_answers l r = false.

Lemma client_request_valid body :
  Z.of_nat (String.length body) ≤ maxRequestContentLength →
  validateRequest (client_request url_host body) = None.
Proof.
  intros Hlen. unfold validateRequest. cbn [r_ContentLength client_request].
  destruct (Z.ltb_spec maxRequestContentLength (Z.of_nat (String.length body))); [lia|].
  reflexivity.
Qed.

Lemma serve_client body st :
  url_host_ok → cors_passes → Z.of_nat (String.length body) ≤ maxRequestContentLength →
  serve_http started (client_request url_host body) st =
  (_ ← serveSingleRequest rpc body; mret (ByRpc Served)) st.
Proof.
  intros Hhost Hcors Hlen.
  destruct (Start_state (Blk := Blk) unmarshal_text host port true) as (_ & _ & Hc & Hw & Hh).
  fold started in Hc, Hw, Hh. unfold serve_http, HttpStack.ServeHTTP. rewrite Hw, Hh, Hc.
  generalize dependent (node_rpc (Blk := Blk) unmarshal_text). intros srv _. clear -Hhost Hcors Hlen.
  assert (Hv : vhost_allows (newVHostHandler (Vhosts rpc_config)) (client_request url_host body) = true).
  { apply vhost_allows_iff. destruct Hhost as [?|[?|Hn]]; [by left|by right; left|].
    right; right; right. exists "localhost". split; [by apply list_elem_of_singleton|exact (eq_sym Hn)]. }
  transitivity (NewHTTPHandlerStack srv (CorsAllowedOrigins rpc_config) (Vhosts rpc_config)
    (client_request url_host body) st); [reflexivity|].
  unfold NewHTTPHandlerStack, vhost_serve, newCorsHandler. rewrite Hv, decide_False by done.
  rewrite Hcors by done.
  unfold HttpConn.ServeHTTP. rewrite client_request_valid by done.
  cbn [r_Body client_request]. rewrite limit_bytes_id by done.
  rewrite bool_decide_eq_false_2 by done. cbn [andb]. unfold mbind, GoM_bind.
  by destruct (serveSingleRequest srv body st) as [[[]|w] st'].
Qed.

(** A request after which one message was written. *)
Lemma node_do_served body n m n' subs ns :
  serve_http started (client_request url_host body) (fresh n) =
    (Ret (ByRpc Served), {| app := n'; serverSubs := subs; notifiers := ns; sent := [WMsg m false] |}) →
  node_do body n = (RpcClient.Responded 200 (status_text 200) (String_msg m +:+ String "010" ""), n').
Proof using laws.
  intros E. unfold node_do. rewrite E. cbn [sent app].
  assert (Hok : reply_ok (ByRpc Served) (wire_out <$> [WMsg m false])).
  { cbn [fmap list_fmap reply_ok wire_out length]. split; [lia|]. intros t Ht. apply list_elem_of_singleton in Ht.
    apply (f_equal snd) in Ht. cbn [snd] in Ht. discriminate Ht. }
  rewrite (reply_transparent laws _ _ _ Hok).
  cbn [reply_content fmap list_fmap wire_out wire_text fst String.concat]. done.
Qed.

(** ** What the node answers to a call of one of its handlers *)

Definition crashed : jsonError :=
  {| Code := errcodePanic; Message := "method handler crashed"; Data := None |}.

(** The response to a handler that returned or panicked. *)
Definition answer_msg (lit : string) (o : outcome AttackerResponse) : jsonrpcMessage :=
  match o with
  | Ret r => Msg vsn (Some (JNum lit)) "" None None
      (Some (JObj [("cmd", JNum (FormatInt (Cmd r))); ("result", JStr (quote (Types.Result r)))]))
  | Panic _ => Msg vsn (Some (JNum lit)) "" None (Some crashed) None
  end.

Lemma answer_ok lit o : num_ok lit → msg_ok (answer_msg lit o).
Proof.
  intros Hl. destruct o as [r|w]; split; try (by apply is_ascii_valid); try done.
  - intros j [= <-]. by constructor.
  - intros j [= <-]. apply mar_obj. constructor; [|constructor; [|constructor]]; simpl.
    + split; [by exists "cmd"|constructor; apply num_ok_FormatInt].
    + split; [by exists "result"|constructor].
  - intros j [= <-]. by constructor.
  - intros e [= <-]. split_and!; [by vm_compute|by apply is_ascii_valid|done].
Qed.

(** The method [full] is registered, takes arguments of the given types and
    runs [m] on [args]. *)
Record handles (full : string) (types : list gty) (args : list gval)
    (m : GoM node AttackerResponse) (cb : callback (hstate node)) : Prop := {
  h_lookup : lookup_callback full (services rpc) = Some cb;
  h_types : argTypes cb = types;
  h_err : errPos cb = -1;
  h_out : Out (fn cb) = [TResponse];
  h_func : Func (fn cb) args = respond_with m
}.

(** The name is neither empty nor that of a subscription call. *)
Definition plain_name (full : string) : bool :=
  negb (bool_decide (full = "")) && is_ascii full
  && negb (HasSuffix full subscribeMethodSuffix) && negb (HasSuffix full unsubscribeMethodSuffix).

Lemma run_call_handler full types args m cb lit js n :
  handles full types args m cb →
  run_call (request_msg lit full js) cb args (fresh n) =
  let '(o, n') := m n in
  (Ret tt, {| app := n'; serverSubs := ∅; notifiers := []; sent := [WMsg (answer_msg lit o) false] |}).
Proof.
  intros [_ _ He Ho Hf]. unfold run_call, startCallProc, runMethod, call. cbn.
  unfold mbind, GoM_bind. cbn. rewrite Hf. unfold respond_with, on_node, zoom, mbind, GoM_bind. cbn.
  destruct (m n) as [[r|w] n']; cbn; [|done]. unfold call_results. rewrite He, Ho. cbn. done.
Qed.

Lemma node_answers full types args m cb lit js n :
  handles full types args m cb → plain_name full = true → url_host_ok → cors_passes →
  num_ok lit → Forall marshalled js →
  parsePositionalArguments (Some (JArr js)) types = inl args →
  let body := String_msg (request_msg lit full js) in
  Z.of_nat (String.length body) ≤ maxRequestContentLength →
  node_do body n =
    let '(o, n') := m n in
    (RpcClient.Responded 200 (status_text 200) (String_msg (answer_msg lit o) +:+ String "010" ""), n').
Proof.
  intros Hm Hp Hh Hc Hlit Hjs Hargs body Hlen. unfold plain_name in Hp.
  apply andb_true_iff in Hp as [[[Hne%negb_true_iff%bool_decide_eq_false Ha]%andb_true_iff
    Hs1%negb_true_iff]%andb_true_iff Hs2%negb_true_iff].
  destruct (m n) as [o n'] eqn:Em. eapply node_do_served.
  rewrite serve_client by done. unfold mbind, GoM_bind, body.
  rewrite (serve_call rpc lit full (Some (JArr js)) cb args); [|reflexivity|apply Hm|..|done|done|done|].
  - change (call_msg lit full (Some (JArr js))) with (request_msg lit full js).
    rewrite (run_call_handler full types args m cb) by done. rewrite Em. reflexivity.
  - apply request_ok; [done|by apply is_ascii_valid|done].
  - destruct Hm as [_ -> _ _ _]. done.
Qed.
(** ** What the client makes of the answer *)

(** The responses that JSON keeps, and the handlers that give such ones. *)
Definition sendable (r : AttackerResponse) : Prop :=
  is_int64 (Cmd r) ∧ valid_utf8 (Types.Result r).
Definition yields (m : GoM node AttackerResponse) : Prop :=
  ∀ n r n', m n = (Ret r, n') → sendable r.

(** The client after a call that left the node in state [n]. *)
Definition advance (n : node) (ec : AttackClient.Client node) : AttackClient.Client node :=
  {| AttackClient.c := {| RpcClient.idCounter := (RpcClient.idCounter (AttackClient.c ec) + 1) mod 2 ^ 32;
                          RpcClient.env := n |};
     AttackClient.uuid := AttackClient.uuid ec; AttackClient.valIdx := AttackClient.valIdx ec;
     AttackClient.info := AttackClient.info ec |}.

Definition next_id (ec : AttackClient.Client node) : string :=
  FormatInt ((RpcClient.idCounter (AttackClient.c ec) + 1) mod 2 ^ 32).

(** The outcome of a handler as the result and the error of the client. *)
Definition as_result (o : outcome AttackerResponse) : AttackerResponse * option RpcClient.client_error :=
  match o with
  | Ret r => (r, None)
  | Panic _ => (Response 0 "", Some (RpcClient.ErrRemote crashed))
  end.

Lemma decode_reply_msg m :
  msg_ok m →
  RpcClient.decode_reply (go_type jsonrpcMessage) (String_msg m +:+ String "010" "") = inl (to_go m).
Proof.
  intros Hm. destruct (msg_wire m Hm) as (l & He & Hl & _ & Hd).
  unfold RpcClient.decode_reply, String_msg. rewrite He, parse_next_print; [|by apply marshalled_wf|done].
  by rewrite Hd.
Qed.

Lemma sendHTTP_answer msg n code status m n' id :
  msg_ok msg → msg_ok m → (200 <=? code) && (code <? 300) = true →
  node_do (String_msg msg) n = (RpcClient.Responded code status (String_msg m +:+ String "010" ""), n') →
  RpcClient.sendHTTP msg {| RpcClient.idCounter := id; RpcClient.env := n |} =
  (Ret (inl m), {| RpcClient.idCounter := id; RpcClient.env := n' |}).
Proof.
  intros Hmsg Hm [Hc1%Z.leb_le Hc2%Z.ltb_lt]%andb_true_iff Hdo.
  destruct (msg_wire msg Hmsg) as (l & He & _).
  unfold RpcClient.sendHTTP, RpcClient.doRequest. rewrite He.
  unfold RpcClient.do_http, RpcClient.Do, node_transport, mbind, GoM_bind. cbn [RpcClient.env].
  unfold String_msg in Hdo at 1. rewrite He in Hdo. rewrite Hdo. cbn -[RpcClient.decode_reply String_msg String.append go_type of_go].
  destruct (Z.ltb_spec code 200); [lia|]. destruct (Z.leb_spec 300 code); [lia|]. cbn [orb].
  rewrite decode_reply_msg, of_to_go by done. done.
Qed.

Lemma decode_response r :
  sendable r →
  UnmarshalRaw TResponse
    (Some (JObj [("cmd", JNum (FormatInt (Cmd r))); ("result", JStr (quote (Types.Result r)))]))
    (zero TResponse) = (to_go r, None).
Proof.
  intros [Hc Hr]. unfold UnmarshalRaw.
  destruct (rt_survives TResponse (to_go r)) as (j & He & _ & Hd & _); [by cbn|].
  unfold TResponse in *. cbn in He. simplify_eq. by rewrite Hd.
Qed.

Lemma call_relays full types vals m cb args js ec :
  handles full types vals m cb → plain_name full = true → url_host_ok → cors_passes → yields m →
  args ≠ [] → RpcClient.marshal_args args = inl js → Forall marshalled js →
  parsePositionalArguments (Some (JArr js)) types = inl vals →
  Z.of_nat (String.length (String_msg (request_msg (next_id ec) full js))) ≤ maxRequestContentLength →
  AttackClient.call_result full args ec =
    let '(o, n) := m (RpcClient.env (AttackClient.c ec)) in (Ret (as_result o), advance n ec).
Proof.
  intros Hm Hp Hh Hc Hy Hne Ha Hjs Hv Hlen.
  assert (Hid : num_ok (next_id ec)) by apply num_ok_FormatInt.
  pose proof (node_answers full types vals m cb (next_id ec) js (RpcClient.env (AttackClient.c ec))
    Hm Hp Hh Hc Hid Hjs Hv Hlen) as Hdo.
  assert (Hok : msg_ok (request_msg (next_id ec) full js)).
  { apply request_ok; [done| |done]. unfold plain_name in Hp. apply is_ascii_valid.
    destruct (is_ascii full); [done|]. by rewrite andb_false_r in Hp. }
  specialize (Hy (RpcClient.env (AttackClient.c ec))).
  destruct (m (RpcClient.env (AttackClient.c ec))) as [o n'].
  assert (Hcall : RpcClient.CallContext (Some (TResponse, zero TResponse)) full args (AttackClient.c ec) =
    (Ret (match o with
          | Ret r => (Some (to_go r), None)
          | Panic _ => (Some (zero TResponse), Some (RpcClient.ErrRemote crashed))
          end), AttackClient.c (advance n' ec))).
  { unfold RpcClient.CallContext. erewrite bind_Ret.
    2: { by apply RpcClient.newMessage_args. }
    cbn match. erewrite bind_Ret.
    2: { eapply (sendHTTP_answer (request_msg (next_id ec) full js)); [done|by apply answer_ok| |exact Hdo].
         reflexivity. }
    destruct o as [r|w]; [|reflexivity]. cbn match. unfold answer_msg. cbn [RpcJson.Error RpcJson.Result].
    rewrite decode_response by (by eapply Hy). reflexivity. }
  unfold AttackClient.call_result. change (go_type AttackerResponse) with TResponse.
  erewrite bind_Ret.
  2: { unfold AttackClient.on_rpc, zoom. rewrite Hcall. reflexivity. }
  destruct o as [r|w]; [|reflexivity]. cbn [default fst snd]. unfold id. by rewrite of_to_go.
Qed.

(** ** The handlers give sendable responses *)

Lemma yields_ret r : sendable r → yields (mret r).
Proof. intros Hr n r' n' [= <- <-]. done. Qed.

Lemma yields_bind {A} (m : GoM node A) f : (∀ a, yields (f a)) → yields (m ≫= f).
Proof.
  intros Hf n r n'. unfold mbind, GoM_bind. destruct (m n) as [[a|w] n1]; [apply Hf|done].
Qed.

(** A result that is passed on. *)
Lemma yields_pass (m : GoM node AttackerResponse) : yields m → yields (r ← m; mret r).
Proof.
  intros Hm n r n'. unfold mbind, GoM_bind. destruct (m n) as [[a|w] n1] eqn:E; [|done].
  intros [= <- <-]. by eapply Hm.
Qed.

Lemma sendable_text c s : c = CMD_NULL ∨ c = CMD_RETURN ∨ c = CMD_UPDATE_STATE →
  valid_utf8 s → sendable (Response c s).
Proof. intros [->|[->| ->]] Hs; (split; [by vm_compute|done]). Qed.

Ltac yielding :=
  repeat first
    [ apply yields_pass
    | apply yields_bind; intros ?
    | apply yields_ret; apply sendable_text; [by auto|first [done | constructor]]
    | match goal with
      | |- yields (if ?b then _ else _) => destruct b
      | |- yields (match ?x with _ => _ end) => destruct x eqn:?
      | |- yields (let '(_, _) := ?x in _) => destruct x
      end ].

Lemma rebuild_block_yields epoch data :
  valid_utf8 data → yields (BlockApi.rebuild_block epoch data).
Proof.
  intros Hd. unfold BlockApi.rebuild_block. yielding.
  match goal with H : BlockApi.genericSignedBlockToBase64 ?g = inl ?t |- _ =>
    unfold BlockApi.genericSignedBlockToBase64 in H; destruct (BlockApi.proto_MarshalSigned g) in H;
    simplify_eq; apply yields_ret; apply sendable_text; [by auto|apply b64_encode_valid] end.
Qed.

(** The calls of the client: its method, and the handler it reaches. *)
Definition call : Type :=
  GoM (AttackClient.Client node) (AttackerResponse * option RpcClient.client_error).

Definition slot_calls : list (string * (Z → call) * (Z → GoM node AttackerResponse)) := [
  ("attest_beforeBroadCast", AttackClient.AttestBeforeBroadCast, AttestApi.BeforeBroadCast);
  ("attest_afterBroadCast", AttackClient.AttestAfterBroadCast, AttestApi.AfterBroadCast);
  ("block_delayForReceiveBlock", AttackClient.DelayForReceiveBlock, BlockApi.DelayForReceiveBlock);
  ("block_beforeBroadCast", AttackClient.BlockBeforeBroadCast, BlockApi.BeforeBroadCast);
  ("block_afterBroadCast", AttackClient.BlockAfterBroadCast, BlockApi.AfterBroadCast)
].

Definition data_calls
    : list (string * (Z → string → string → call) * (Z → string → string → GoM node AttackerResponse)) := [
  ("attest_beforeSign", AttackClient.AttestBeforeSign, AttestApi.BeforeSign);
  ("attest_afterSign", AttackClient.AttestAfterSign, AttestApi.AfterSign);
  ("attest_beforePropose", AttackClient.AttestBeforePropose, AttestApi.BeforePropose);
  ("attest_afterPropose", AttackClient.AttestAfterPropose, AttestApi.AfterPropose);
  ("block_beforeSign", AttackClient.BlockBeforeSign, BlockApi.BeforeSign);
  ("block_afterSign", AttackClient.BlockAfterSign, BlockApi.AfterSign);
  ("block_beforePropose", AttackClient.BlockBeforePropose, BlockApi.BeforePropose);
  ("block_afterPropose", AttackClient.BlockAfterPropose, BlockApi.AfterPropose)
].

Lemma slot_calls_yield slot : Forall (λ x, yields (x.2 slot)) slot_calls.
Proof.
  repeat apply Forall_cons_2; [..|apply Forall_nil_2].
  all: cbn; unfold AttestApi.BeforeBroadCast, AttestApi.AfterBroadCast, BlockApi.DelayForReceiveBlock,
    BlockApi.BeforeBroadCast, BlockApi.AfterBroadCast, cmd_only; yielding.
Qed.

Lemma data_calls_yield slot pubkey data :
  valid_utf8 data → Forall (λ x, yields (x.2 slot pubkey data)) data_calls.
Proof.
  intros Hd. repeat apply Forall_cons_2; [..|apply Forall_nil_2].
  all: cbn; unfold AttestApi.BeforeSign, AttestApi.AfterSign, AttestApi.BeforePropose,
    AttestApi.AfterPropose, BlockApi.BeforeSign, BlockApi.AfterSign, BlockApi.BeforePropose,
    BlockApi.AfterPropose, BlockApi.modifyBlock, cmd_only; yielding.
  all: by apply rebuild_block_yields.
Qed.
(** Each of them is registered under its name, with the arguments in order. *)
Lemma slot_calls_handled slot :
  Forall (λ x, plain_name x.1.1 = true ∧ x.1.2 slot = AttackClient.call_result x.1.1 [AttackClient.go_uint64 slot] ∧
    ∃ cb, handles x.1.1 [TUint64] [VInt slot] (x.2 slot) cb) slot_calls.
Proof.
  repeat apply Forall_cons_2; [..|apply Forall_nil_2].
  all: split; [reflexivity|]; split; [reflexivity|]; eexists; split; reflexivity.
Qed.

Lemma data_calls_handled slot pubkey data :
  Forall (λ x, plain_name x.1.1 = true ∧
    x.1.2 slot pubkey data = AttackClient.call_result x.1.1
      [AttackClient.go_uint64 slot; AttackClient.go_string pubkey; AttackClient.go_string data] ∧
    ∃ cb, handles x.1.1 slot_args [VInt slot; VStr pubkey; VStr data] (x.2 slot pubkey data) cb) data_calls.
Proof.
  repeat apply Forall_cons_2; [..|apply Forall_nil_2].
  all: split; [reflexivity|]; split; [reflexivity|]; eexists; split; reflexivity.
Qed.

(** The encoded arguments, and what the server decodes from them. *)
Definition slot_params (slot : Z) : list json := [JNum (FormatInt slot)].
Definition data_params (slot : Z) (pubkey data : string) : list json :=
  [JNum (FormatInt slot); JStr (quote pubkey); JStr (quote data)].

Lemma slot_params_parse slot :
  is_uint64 slot → parsePositionalArguments (Some (JArr (slot_params slot))) [TUint64] = inl [VInt slot].
Proof.
  intros Hs. apply parsePositionalArguments_spec. eexists _, [VInt slot].
  split_and!; [reflexivity|done| |constructor|done].
  constructor; [by apply decode_uint|constructor].
Qed.

Lemma data_params_parse slot pubkey data :
  is_uint64 slot → valid_utf8 pubkey → valid_utf8 data →
  parsePositionalArguments (Some (JArr (data_params slot pubkey data))) slot_args
    = inl [VInt slot; VStr pubkey; VStr data].
Proof.
  intros Hs Hp Hd. apply parsePositionalArguments_spec. eexists _, [VInt slot; VStr pubkey; VStr data].
  split_and!; [reflexivity|done| |constructor|done].
  constructor; [by apply decode_uint|constructor; [by apply decode_string|constructor;
    [by apply decode_string|constructor]]].
Qed.

(** [cl] calls [m] on the node when its request, with the parameters [js], is
    not over the limit of the server. *)
Definition relays (full : string) (js : list json) (cl : call) (m : GoM node AttackerResponse) : Prop :=
  ∀ ec, Z.of_nat (String.length (String_msg (request_msg (next_id ec) full js))) ≤ maxRequestContentLength →
    cl ec = let '(o, n) := m (RpcClient.env (AttackClient.c ec)) in (Ret (as_result o), advance n ec).

Lemma slot_calls_relay slot x :
  url_host_ok → cors_passes → is_uint64 slot → x ∈ slot_calls →
  relays x.1.1 (slot_params slot) (x.1.2 slot) (x.2 slot).
Proof.
  intros Hh Hc Hs Hx ec Hlen.
  pose proof (slot_calls_handled slot) as Hall. pose proof (slot_calls_yield slot) as Hyield.
  rewrite Forall_forall in Hall, Hyield. destruct (Hall x Hx) as (Hp & Hcl & cb & Hcb).
  transitivity (AttackClient.call_result x.1.1 [AttackClient.go_uint64 slot] ec); [exact (f_equal (λ f, f ec) Hcl)|].
  eapply call_relays; [exact Hcb|done|done|done|by apply Hyield|done|reflexivity| |by apply slot_params_parse|done].
  repeat constructor. apply num_ok_FormatInt.
Qed.

Lemma data_calls_relay slot pubkey data x :
  url_host_ok → cors_passes → is_uint64 slot → valid_utf8 pubkey → valid_utf8 data → x ∈ data_calls →
  relays x.1.1 (data_params slot pubkey data) (x.1.2 slot pubkey data) (x.2 slot pubkey data).
Proof.
  intros Hh Hc Hs Hk Hd Hx ec Hlen.
  pose proof (data_calls_handled slot pubkey data) as Hall.
  pose proof (data_calls_yield slot pubkey data Hd) as Hyield.
  rewrite Forall_forall in Hall, Hyield. destruct (Hall x Hx) as (Hp & Hcl & cb & Hcb).
  transitivity (AttackClient.call_result x.1.1 
    [AttackClient.go_uint64 slot; AttackClient.go_string pubkey; AttackClient.go_string data] ec); [exact (f_equal (λ f, f ec) Hcl)|].
  eapply call_relays; [exact Hcb|done|done|done|by apply Hyield|done|reflexivity| |by apply data_params_parse|done].
  constructor; [constructor; apply num_ok_FormatInt|]. repeat constructor.
Qed.

(** ** The modules of the node *)

Definition modules_json : json :=
  JObj [("admin", JStr "1.0"); ("attest", JStr "1.0"); ("block", JStr "1.0"); ("rpc", JStr "1.0")].

Definition modules_answer (lit : string) : jsonrpcMessage :=
  Msg vsn (Some (JNum lit)) "" None None (Some modules_json).

Lemma modules_answer_ok lit : num_ok lit → msg_ok (modules_answer lit).
Proof.
  intros Hl. split; try (by apply is_ascii_valid); try done.
  - intros j [= <-]. by constructor.
  - intros j [= <-]. apply mar_obj.
    constructor; [split; [by exists "admin"|exact (mar_str "1.0")]|].
    constructor; [split; [by exists "attest"|exact (mar_str "1.0")]|].
    constructor; [split; [by exists "block"|exact (mar_str "1.0")]|].
    constructor; [split; [by exists "rpc"|exact (mar_str "1.0")]|constructor].
Qed.

Definition modules_value : gval :=
  VMap (Some [("admin", VStr "1.0"); ("attest", VStr "1.0"); ("block", VStr "1.0"); ("rpc", VStr "1.0")]).

Lemma modules_callback : ∃ cb, lookup_callback "rpc_modules" (services rpc) = Some cb ∧ argTypes cb = [] ∧
  errPos cb = -1 ∧ Out (fn cb) = [TMap TString] ∧
  Func (fn cb) [] = mret [VMap (Some [("attest", VStr "1.0"); ("admin", VStr "1.0"); ("rpc", VStr "1.0");
                                     ("block", VStr "1.0")])].
Proof.
  assert (E : lookup_callback "rpc_modules" (services rpc) =
    newCallback true (modules_method (node_modules (Blk := Blk) unmarshal_text))).
  { reflexivity. }
  rewrite E. eexists. split; [reflexivity|]. split_and!; try reflexivity.
Qed.

Lemma modules_request_ok lit : num_ok lit → msg_ok (call_msg lit "rpc_modules" None).
Proof.
  intros Hl. split; try done; [by apply is_ascii_valid| |by apply is_ascii_valid].
  intros j [= <-]. by constructor.
Qed.

Lemma node_modules_answer lit n :
  url_host_ok → cors_passes → num_ok lit →
  let body := String_msg (call_msg lit "rpc_modules" None) in
  Z.of_nat (String.length body) ≤ maxRequestContentLength →
  node_do body n =
    (RpcClient.Responded 200 (status_text 200) (String_msg (modules_answer lit) +:+ String "010" ""), n).
Proof.
  intros Hh Hc Hlit body Hlen.
  destruct modules_callback as (cb & Hcb & Ha & He & Ho & Hf).
  assert (Hrun : run_call (call_msg lit "rpc_modules" None) cb [] (fresh n) =
    (Ret tt, {| app := n; serverSubs := ∅; notifiers := []; sent := [WMsg (modules_answer lit) false] |})).
  { unfold run_call, startCallProc, runMethod, RpcService.call, call_results, mbind, GoM_bind. cbn.
    rewrite Hf, He, Ho. reflexivity. }
  eapply node_do_served. rewrite serve_client by done. unfold mbind, GoM_bind, body.
  rewrite (serve_call rpc lit "rpc_modules" None cb []); [|reflexivity|exact Hcb| |done|done|done|by rewrite Ha].
  - rewrite Hrun. reflexivity.
  - by apply modules_request_ok.
Qed.

Lemma modules_decode :
  UnmarshalRaw (TMap TString) (Some modules_json) (zero (TMap TString)) = (modules_value, None).
Proof. vm_compute. reflexivity. Qed.

Lemma modules_relayed (cl : RpcClient.Client node) :
  let lit := FormatInt ((RpcClient.idCounter cl + 1) mod 2 ^ 32) in
  url_host_ok → cors_passes →
  Z.of_nat (String.length (String_msg (call_msg lit "rpc_modules" None))) ≤ maxRequestContentLength →
  RpcClient.SupportedModules cl =
    (Ret (Some modules_value, None),
     {| RpcClient.idCounter := (RpcClient.idCounter cl + 1) mod 2 ^ 32; RpcClient.env := RpcClient.env cl |}).
Proof.
  intros lit Hh Hc Hlen. assert (Hlit : num_ok lit) by apply num_ok_FormatInt.
  unfold RpcClient.SupportedModules, RpcClient.CallContext. erewrite bind_Ret; [|reflexivity].
  cbn match. erewrite bind_Ret.
  2: { eapply (sendHTTP_answer (call_msg lit "rpc_modules" None)); [|by apply modules_answer_ok| |
         by apply node_modules_answer]; [by apply modules_request_ok|reflexivity]. }
  cbn beta iota zeta delta [modules_answer RpcJson.Error RpcJson.Result]. rewrite modules_decode. reflexivity.
Qed.
End endtoend.

(** * Properties *)


Section sample.
Existing Instances sample_node default_range_order merge_sort_slice fifo_lru bools_lib
  BlockApi.unit_types BlockApi.bool_proto vote_proto preflight_cors stored_lib.

Definition sample_client : AttackClient.Client (Server.Server (@Att bools_lib) unit) :=
  {| AttackClient.c := {| RpcClient.idCounter := 6; RpcClient.env := BlockApi.voted_server |};
     AttackClient.uuid := "d2"; AttackClient.valIdx := 3; AttackClient.info := None |}.

End sample.
